(* ===== verification/_CoqProject ===== *)
-Q . S2P
Prelude.v
Netip.v
World.v
Hoare.v
Log.v
Iface.v
RawSock.v
Sim.v
Sockets.v
Mirror.v
Dhcpv6.v
Router.v
Ndp.v
Config.v
Netlink.v
Frame.v
Resources.v
Lifecycle.v
Kept.v
Reload.v
Timers.v
Engine.v
Caches.v
Readers.v
Liveness.v
Configured.v
Termination.v
Neighbours.v
Links.v
Solicit.v
Addresses.v
Services.v
Main.v
