(* ===== verification/Prelude.v ===== *)
(** * Verification of the ipv6-relay daemon

    [ipv6-relay] relays three protocols between upstream interfaces (masters)
    and downstream ones (slaves): DHCPv6 messages, Router Solicitations and
    Advertisements, and Neighbour Discovery.  All of its Go code that carries
    state lives in [src/internal/relay]; [src/cmd/ipv6-relay/main.go] starts it.
    One goroutine, the engine, runs closures one at a time from a channel;
    packet readers, timers, the netlink monitor and the signal handler run
    beside it and only post closures.  This library models that program as it
    is written and proves what makes it correct.

    ** The model

    A handler is a function in the state monad [World.M]: it reads and changes
    a store [World.St] and returns normally, or panics as Go would (an index
    out of range, a channel closed twice).  The store holds a heap of
    interfaces addressed by pointers (the [interfaces] map, timers, sockets and
    queued closures alias the same object), the package variables, the pending
    timers, the reader goroutines, the closed channels, and the history of
    everything the program asked of its environment.  The environment is a
    [World.Kernel]: an answer to each call as a function of the whole history,
    so that any sequence of answers, failures included, is some [Kernel], and
    the iteration order of each Go map loop is one of its answers.  The class
    [RawSock.KernelOk] states the few documented facts the program relies on:
    the sizes of control messages and that [socket] returns a descriptor that
    is not open.  The netlink library, [golang.org/x/sys/unix], [encoding/json]
    and the classic BPF machine are such parameters too; [net/netip], [net] and
    the built-in operations of Go are modelled as far as the program uses them.

    ** Files

    - [Prelude]: outcomes of Go code, machine integers, byte strings, slices,
      map iteration, tactics.  [Netip]: addresses.  [World]: data types of the
      program, the store, the monad, the calls.  [Hoare]: total ([wp]) and
      partial ([wlp]) correctness, relations kept by a handler ([stable],
      [keeps]), events emitted ([emits], [emitted]) and their automation.
    - [Log] is [log.go]; [Iface] is [iface.go] and [common.go]; [RawSock] is
      [rawsock.go] and the shapes its three clients share.  [Sim] builds
      concrete environments and a sample network for evaluation.
    - [Mirror] is the part of [ndp.go] and [netlink.go] that writes the
      neighbour and route tables; [Dhcpv6] is [dhcpv6.go]; [Router] is
      [router.go]; [Ndp] is the rest of [ndp.go]; [Config] is [config.go];
      [Netlink] is the event handlers of [netlink.go]; [Engine] is [engine.go]
      with every goroutine that posts to it; [Main] is [main.go].
      Definitions carry the names of the Go functions; a function that is split
      (the body behind a [defer], the body of a loop) says so where it is.
    - [Sockets] is about the group addresses and the ancillary data of
      [rawsock.go]; [Termination] about the loops that carry fuel.
    - [Frame], [Resources], [Lifecycle], [Kept], [Reload], [Timers] prove what
      the handlers do to each part of the store; [Kept] is the interface (a
      class of indexed invariants with one law per elementary operation)
      against which the handlers that open and close interfaces are proved
      once, and [Timers] and [Readers] implement it.  [Caches] is about cached
      and stored data and its types, [Readers] about the reader goroutines and
      the packets they have queued, [Liveness] about infinite executions,
      [Configured] about what a configuration file means.  [Neighbours],
      [Links], [Solicit], [Addresses], [Services] prove the functional
      behaviour of single operations.

    ** What is proved

    - Of the whole daemon, in every state any interleaving of its goroutines
      reaches ([Engine.step], [Engine.reachable]): the next closure always runs
      to its end ([engine_progress]); open descriptors are exactly those of the
      services of registered interfaces, so nothing leaks and nothing is closed
      twice ([engine_descriptors], [engine_services]); one reconciliation at a
      time and one sweep armed ([engine_reconcile]); the bounds on start-up
      solicitations ([engine_solicitations]); one reader per socket in use, the
      others about to end ([engine_readers]), and no effect of a packet that a
      closed socket left in the queue ([engine_stale_packets]); the caches agree
      with what they cache ([engine_caches]) and stored data fits its types
      ([engine_types]).  Under a fair scheduler every closure handed to a
      running engine is run ([engine_live]).  [Main.main_outcome] shows that
      [main] enters the loop with its settings stored, in a state
      [Engine.started] starts from, or exits with the right code.
    - Of each protocol, on every branch, which datagrams leave which
      interface: DHCPv6 relaying in both directions, the envelope and the option
      scan as an encoder and decoder that invert each other ([Dhcpv6]); the
      forwarding of solicitations and advertisements, each slave with its own
      address in the source link-layer address option, and the exact rewriting
      of that option ([Router]); the pings a
      Neighbour Solicitation causes, and what the socket filters let through
      ([Solicit]); the packet info of a datagram reads back ([Sockets]).
    - Of mirroring, the exact operations on the neighbour and route tables
      and the exact new record for a neighbour update, the sweep, the
      reconciliation and the clearing of an interface ([Neighbours]), and what
      the coming and going of links and addresses does to sockets, addresses,
      records and tables, down to which part of the history explains a socket
      that could not be opened ([Links.follows]).
    - Of set-up and configuration: sockets are set up entirely or not at all,
      what a [Reload] leaves registered and with which options and which masters
      it disables ([Configured]), and what it leaves without a readable
      configuration ([Services]);
      lifetimes and the choice of the link address
      ([Addresses]); the command line ([Main]).

    Modelling showed behaviours that differ from what the code means to do; each
    is stated as a theorem: an answer of a DHCPv6 server is sent to the
    link-address instead of the peer-address of its header
    ([Dhcpv6.relay_answer_roundtrip]); the sweep takes own addresses for orphans
    ([Neighbours.sweep_removes_own_address]); [Reload] counts slaves it is about
    to close ([Configured.Reload_counts_stale_slave]) and leaves behind what they
    had mirrored ([Links.closeInterface_leaves_mirrors]); an entry that no
    longer says [master] keeps the role, and an interface whose link is not
    found is dropped although it is configured ([Configured.Reload_configures]);
    [main] posts to the channel before anything reads it, and may wait there for
    ever ([Liveness.startup_deadlock]); the capture filter said to pass only
    IPv6 Neighbour Solicitations looks at two bytes and at no IP version
    ([Solicit.socket_filters_exact]).

    ** Fuel

    Two loops over packet options carry fuel: [Dhcpv6.replyScan] and
    [Router.fixOptions] are given the length of the packet, and every turn
    consumes at least one byte of it; that [OutOfFuel] never shows is part of
    the theorems about them ([replyScan_correct], [fixSourceLinkAddrOption_spec])
    and of [engine_progress]; [loops_terminate] gives the number of turns that
    is always enough, for these and for the trimming of a sysctl file.
    [Netip.parseGroups] makes eight turns, as many as the loop it models has
    groups to fill.  [Solicit.bpf_run] is given the length of the rest of the
    program, which forward jumps shorten.  The drain loop of [Ndp] runs
    as often as the environment has frames queued ([k_backlog]), a finite number
    since the drop-all filter is attached before.

    ** What is not modelled

    - Texts of log lines are their format strings.  The zone of an address is
      left out, so [Netip.ParseAddr] rejects the texts that have one.  The group
      addresses are written as numbers in [Netip]; [Sockets.group_addresses]
      shows that the literals of [rawsock.go] parse to them.
    - Delays: a timer may fire at any moment after it is set, so the theorems
      hold for every timing.  [SIGINT] and [SIGTERM] end the process; there is
      no state after them.
    - The unsafe stores of [rawsock.go] are those of 64-bit little-endian
      Linux.  Go's [int] is unbounded where the program only counts or indexes.
    - The subscriptions of the netlink library, the parsing of the command line
      by [package flag] and the decoding of JSON are inputs. *)
From stdpp Require Export base numbers list gmap strings fin_maps sets.
From Stdlib Require Export ZArith Lia.

#[global] Open Scope Z_scope.

(** ** Outcomes of Go code

    [Ok] is a normal return, [Panic] a Go run-time panic (an index out of
    range, a second [close] of a channel), [OutOfFuel] the marker of a loop
    whose model was given too little fuel; that it never shows is a theorem
    wherever a loop carries fuel. *)

Inductive res (A : Type) : Type :=
| Ok (a : A)
| Panic
| OutOfFuel.
Arguments Ok {A} a.
Arguments Panic {A}.
Arguments OutOfFuel {A}.

#[export] Instance res_ret : MRet res := λ A a, Ok a.
#[export] Instance res_bind : MBind res := λ A B f m,
  match m with Ok a => f a | Panic => Panic | OutOfFuel => OutOfFuel end.

(** ** Machine integers *)

(** Go conversions [byte(x)], [uint16(x)], [uint32(x)] and [int32(x)]. *)
Definition u8 (z : Z) : Z := z mod 2 ^ 8.
Definition u16 (z : Z) : Z := z mod 2 ^ 16.
Definition u32 (z : Z) : Z := z mod 2 ^ 32.
Definition i32 (z : Z) : Z := (z + 2 ^ 31) mod 2 ^ 32 - 2 ^ 31.

Lemma u8_range z : 0 ≤ u8 z < 256.
Proof. apply Z.mod_pos_bound. lia. Qed.
Lemma u16_range z : 0 ≤ u16 z < 65536.
Proof. apply Z.mod_pos_bound. lia. Qed.
Lemma u32_range z : 0 ≤ u32 z < 4294967296.
Proof. apply Z.mod_pos_bound. lia. Qed.
Lemma u8_small z : 0 ≤ z < 256 → u8 z = z.
Proof. apply Z.mod_small. Qed.
Lemma u16_small z : 0 ≤ z < 65536 → u16 z = z.
Proof. apply Z.mod_small. Qed.
Lemma u32_small z : 0 ≤ z < 4294967296 → u32 z = z.
Proof. apply Z.mod_small. Qed.
Lemma i32_small z : - 2147483648 ≤ z < 2147483648 → i32 z = z.
Proof. intros H. unfold i32. rewrite Z.mod_small; lia. Qed.
(** Interface indices survive the [uint32]/[int32] detour of the wire. *)
Lemma i32_u32_small z : 0 ≤ z < 2147483648 → i32 (u32 z) = z.
Proof. intros H. rewrite u32_small by lia. apply i32_small. lia. Qed.

(** ** Byte strings *)

(** Buffers are lists of byte values; [is_byte] is the range of one. *)
Definition is_byte (b : Z) : Prop := 0 ≤ b < 256.

(** [encoding/binary] and the address byte orders: the [n] low bytes of [z],
    most significant first, and the value of a big-endian string. *)
Fixpoint be_bytes (n : nat) (z : Z) : list Z :=
  match n with
  | O => []
  | S m => (z / 256 ^ Z.of_nat m) mod 256 :: be_bytes m z
  end.
Definition be_val (l : list Z) : Z := foldl (λ acc b, acc * 256 + b) 0 l.

(** The same, least significant first. *)
Fixpoint le_bytes (n : nat) (z : Z) : list Z :=
  match n with
  | O => []
  | S m => z mod 256 :: le_bytes m (z / 256)
  end.
Definition le_val (l : list Z) : Z := foldr (λ b acc, b + 256 * acc) 0 l.

(** Go slice expressions.  The model panics as soon as the bound passes the
    length (Go allows it up to the capacity), so absence of panics here is
    the stronger statement. *)
Definition idx (l : list Z) (i : nat) : res Z :=
  match l !! i with Some b => Ok b | None => Panic end.
Definition slice (l : list Z) (lo hi : nat) : res (list Z) :=
  if bool_decide (lo ≤ hi ∧ hi ≤ length l)%nat then Ok (take (hi - lo) (drop lo l))
  else Panic.

(** [copy(l[off:off+len(src)], src)]: overwrite in place. *)
Definition splice (l : list Z) (off : nat) (src : list Z) : list Z :=
  take off l ++ src ++ drop (off + length src) l.

Create HintDb bytes.
Create Rewrite HintDb bytes_len.

Lemma length_be_bytes n z : length (be_bytes n z) = n.
Proof. induction n; simpl; auto. Qed.
Lemma length_le_bytes n z : length (le_bytes n z) = n.
Proof. revert z. induction n; simpl; auto. Qed.
Lemma be_bytes_is_byte n z : Forall is_byte (be_bytes n z).
Proof. induction n; constructor; [apply Z.mod_pos_bound; lia | done]. Qed.
Lemma le_bytes_is_byte n z : Forall is_byte (le_bytes n z).
Proof. revert z. induction n; constructor; [apply Z.mod_pos_bound; lia | done]. Qed.
#[export] Hint Rewrite length_be_bytes length_le_bytes : bytes_len.
#[export] Hint Resolve be_bytes_is_byte le_bytes_is_byte : bytes.

Lemma be_val_acc l a :
  foldl (λ acc b, acc * 256 + b) a l = a * 256 ^ Z.of_nat (length l) + be_val l.
Proof.
  unfold be_val. revert a. induction l as [|b l IH]; intros a; cbn [foldl length]; [change (256 ^ Z.of_nat 0) with 1; lia|].
  rewrite IH, (IH (0 * 256 + b)), Nat2Z.inj_succ, Z.pow_succ_r by lia. lia.
Qed.

Lemma be_val_cons b l : be_val (b :: l) = b * 256 ^ Z.of_nat (length l) + be_val l.
Proof. unfold be_val at 1. simpl. rewrite be_val_acc. lia. Qed.

Lemma be_val_be_bytes n z : be_val (be_bytes n z) = z mod 256 ^ Z.of_nat n.
Proof.
  induction n as [|n IH]; [by rewrite Z.mod_1_r|].
  cbn [be_bytes]. rewrite be_val_cons, IH, length_be_bytes.
  rewrite Nat2Z.inj_succ, Z.pow_succ_r by lia.
  rewrite (Z.mul_comm 256), Z.rem_mul_r by lia. lia.
Qed.

Lemma le_val_le_bytes n z : le_val (le_bytes n z) = z mod 256 ^ Z.of_nat n.
Proof.
  revert z. induction n as [|n IH]; intros z; [by rewrite Z.mod_1_r|].
  cbn [le_bytes le_val foldr]. change (foldr _ 0 ?l) with (le_val l). rewrite IH.
  rewrite Nat2Z.inj_succ, Z.pow_succ_r by lia.
  by rewrite Z.rem_mul_r by lia.
Qed.

Lemma be_val_range l : Forall is_byte l → 0 ≤ be_val l < 256 ^ Z.of_nat (length l).
Proof.
  induction 1 as [|b l Hb _ IH]; [by cbv|].
  rewrite be_val_cons. unfold is_byte in Hb. cbn [length].
  rewrite Nat2Z.inj_succ, Z.pow_succ_r by lia. nia.
Qed.

Lemma be_bytes_be_val l : Forall is_byte l → be_bytes (length l) (be_val l) = l.
Proof.
  intros H.
  enough (∀ l k, Forall is_byte l → be_bytes (length l) (k * 256 ^ Z.of_nat (length l) + be_val l) = l)
    as E by (specialize (E l 0 H); by rewrite Z.mul_0_l, Z.add_0_l in E).
  clear. induction l as [|b l IH]; intros k H; [done|].
  inversion_clear H as [|?? Hb Hl]. cbn [length be_bytes]. rewrite be_val_cons.
  pose proof (be_val_range l Hl). unfold is_byte in Hb.
  rewrite Nat2Z.inj_succ, Z.pow_succ_r by lia. f_equal.
  - replace (_ + _) with (be_val l + (k * 256 + b) * 256 ^ Z.of_nat (length l)) by ring.
    rewrite Z.div_add by lia. rewrite Z.div_small by lia.
    rewrite Z.add_0_l, Z.add_comm, Z.mod_add by lia. by apply Z.mod_small.
  - specialize (IH (k * 256 + b) Hl). etransitivity; [|exact IH]. f_equal. ring.
Qed.

(** Concrete strings. *)
Lemma bytes_ok l : forallb (λ b, (0 <=? b) && (b <? 256)) l = true → Forall is_byte l.
Proof.
  intros H. apply Forall_forall. intros b Hb. rewrite forallb_forall in H.
  apply list_elem_of_In, H in Hb. unfold is_byte. lia.
Qed.

Lemma length_splice l off src :
  (off + length src ≤ length l)%nat → length (splice l off src) = length l.
Proof. intros. unfold splice. rewrite !length_app, length_take, length_drop. lia. Qed.

Lemma slice_ok l lo hi :
  (lo ≤ hi ≤ length l)%nat → slice l lo hi = Ok (take (hi - lo) (drop lo l)).
Proof. intros. unfold slice. by rewrite bool_decide_eq_true_2. Qed.

Lemma idx_ok l i : (i < length l)%nat → ∃ b, l !! i = Some b ∧ idx l i = Ok b.
Proof.
  intros [b Hb]%lookup_lt_is_Some. exists b. unfold idx. by rewrite Hb.
Qed.

(** Reading behind a prefix of known length. *)
Lemma idx_app l k i : idx (l ++ k) (length l + i) = idx k i.
Proof. unfold idx. by rewrite lookup_app_r, Nat.add_comm, Nat.add_sub by lia. Qed.

Lemma slice_app l k lo hi :
  (lo ≤ hi ≤ length k)%nat →
  slice (l ++ k) (length l + lo) (length l + hi) = slice k lo hi.
Proof.
  intros H. rewrite !slice_ok by (rewrite ?length_app; lia).
  f_equal. rewrite drop_app_ge by lia. f_equal; [lia | f_equal; lia].
Qed.

Lemma splice_app l k off src :
  splice (l ++ k) (length l + off) src = l ++ splice k off src.
Proof.
  unfold splice. rewrite take_app_add, <- (assoc_L (++)). do 3 f_equal.
  by rewrite <- Nat.add_assoc, drop_app_add.
Qed.

(** ** Iteration order of Go maps

    Go ranges over a map in an order the run time picks afresh for each loop.
    [shuffle] turns any list of choices into a permutation: each number picks
    the next element (modulo the elements left), so every order is reached by
    some choices and every choice gives an order. *)

Fixpoint shuffle {A} (fuel : nat) (choices : list nat) (l : list A) : list A :=
  match fuel, l with
  | S fuel', x :: _ =>
      let n := (hd O choices `mod` length l)%nat in
      match l !! n with
      | Some y => y :: shuffle fuel' (tl choices) (take n l ++ drop (S n) l)
      | None => l
      end
  | _, _ => l
  end.
Definition permute {A} (choices : list nat) (l : list A) : list A :=
  shuffle (length l) choices l.

Lemma shuffle_perm {A} fuel choices (l : list A) : shuffle fuel choices l ≡ₚ l.
Proof.
  revert choices l. induction fuel as [|fuel IH]; intros cs l; [done|].
  destruct l as [|x l]; [done|]. cbn [shuffle].
  destruct ((x :: l) !! _) as [y|] eqn:E; [|done].
  rewrite IH, Permutation_middle. by rewrite (take_drop_middle _ _ _ E).
Qed.

Lemma permute_perm {A} choices (l : list A) : permute choices l ≡ₚ l.
Proof. apply shuffle_perm. Qed.

Lemma elem_of_permute {A} choices (l : list A) x : x ∈ permute choices l ↔ x ∈ l.
Proof. by rewrite (permute_perm choices l). Qed.

(** ** Lists *)

Lemma find_app {A} (f : A → bool) l k :
  find f (l ++ k) = match find f l with Some x => Some x | None => find f k end.
Proof. induction l as [|x l IH]; cbn; [done|]. by destruct (f x). Qed.

(** ** Tactics *)

(** Case analysis on the tests of a definition. *)
Ltac case_tests :=
  repeat match goal with
  | |- context [if ?b then _ else _] => destruct b eqn:?
  | |- context [match ?x with _ => _ end] => destruct x eqn:?
  end.

(** Boolean tests as propositions. *)
Ltac to_prop :=
  repeat match goal with
  | H : negb _ = true |- _ => apply negb_true_iff in H
  | H : negb _ = false |- _ => apply negb_false_iff in H
  | H : _ && _ = true |- _ => apply andb_true_iff in H as [? ?]
  | H : _ || _ = false |- _ => apply orb_false_iff in H as [? ?]
  | H : (_ =? _) = true |- _ => apply Z.eqb_eq in H
  | H : (_ =? _) = false |- _ => apply Z.eqb_neq in H
  | H : (_ <? _) = true |- _ => apply Z.ltb_lt in H
  | H : (_ <? _) = false |- _ => apply Z.ltb_ge in H
  | H : (_ <=? _) = true |- _ => apply Z.leb_le in H
  | H : (_ <=? _) = false |- _ => apply Z.leb_gt in H
  | H : bool_decide _ = true |- _ => apply bool_decide_eq_true in H
  | H : bool_decide _ = false |- _ => apply bool_decide_eq_false in H
  end.
