(* ===== verification/Netip.v ===== *)
(** * Addresses

    The part of Go's [net/netip] and [net] packages the daemon uses: the
    [netip.Addr] value, its classification methods (as of Go 1.25, the version
    [go.mod] asks for, where they look through IPv4-mapped addresses), the
    16-byte conversions, the parsing of an address, and [net.IP]/[net.IPMask].
    Zones do not occur in the program (the only texts it parses are four
    literals, at start-up) and are left out. *)
From S2P Require Import Prelude.

(** [netip.Addr]: the zero value, an IPv4 address (32 bits) or an IPv6 address
    (128 bits). *)
Inductive Addr : Type :=
| AddrNone
| AddrV4 (a : Z)
| AddrV6 (a : Z).

#[export] Instance Addr_eq_dec : EqDecision Addr.
Proof. solve_decision. Defined.
#[export] Instance Addr_countable : Countable Addr.
Proof.
  refine (inj_countable'
    (λ x, match x with AddrNone => inl tt | AddrV4 a => inr (inl a) | AddrV6 a => inr (inr a) end)
    (λ y, match y with inl _ => AddrNone | inr (inl a) => AddrV4 a | inr (inr a) => AddrV6 a end) _).
  by intros [].
Defined.
#[export] Instance Addr_inhabited : Inhabited Addr := populate AddrNone.

(** [Addr.Is6], [Addr.Is4In6], [Addr.IsValid]. *)
Definition Is6 (x : Addr) : bool := match x with AddrV6 _ => true | _ => false end.
Definition Is4In6 (x : Addr) : bool :=
  match x with AddrV6 a => Z.shiftr a 32 =? 0xffff | _ => false end.
Definition IsValid (x : Addr) : bool := match x with AddrNone => false | _ => true end.

(** [Addr.Unmap]. *)
Definition Unmap (x : Addr) : Addr :=
  match x with
  | AddrV6 a => if Z.shiftr a 32 =? 0xffff then AddrV4 (u32 a) else x
  | _ => x
  end.

(** [netip.IPv6Unspecified], [netip.IPv4Unspecified], [Addr.IsUnspecified]. *)
Definition IPv6Unspecified : Addr := AddrV6 0.
Definition IPv4Unspecified : Addr := AddrV4 0.
Definition IsUnspecified (x : Addr) : bool :=
  bool_decide (x = IPv4Unspecified) || bool_decide (x = IPv6Unspecified).

(** The accessors [Addr.v4] (a byte) and [Addr.v6u16] (a 16-bit group). *)
Definition v4 (a : Z) (i : Z) : Z := Z.land (Z.shiftr a (8 * (3 - i))) 0xff.
Definition v6u16 (a : Z) (i : Z) : Z := Z.land (Z.shiftr a (16 * (7 - i))) 0xffff.

(** The classification methods; each unmaps an IPv4-mapped address first. *)
Definition IsLoopback (x : Addr) : bool :=
  match Unmap x with
  | AddrV4 a => v4 a 0 =? 127
  | AddrV6 a => a =? 1
  | AddrNone => false
  end.
Definition IsMulticast (x : Addr) : bool :=
  match Unmap x with
  | AddrV4 a => Z.land (v4 a 0) 0xf0 =? 0xe0
  | AddrV6 a => Z.shiftr a 120 =? 0xff
  | AddrNone => false
  end.
Definition IsLinkLocalUnicast (x : Addr) : bool :=
  match Unmap x with
  | AddrV4 a => (v4 a 0 =? 169) && (v4 a 1 =? 254)
  | AddrV6 a => Z.land (v6u16 a 0) 0xffc0 =? 0xfe80
  | AddrNone => false
  end.
Definition IsLinkLocalMulticast (x : Addr) : bool :=
  match Unmap x with
  | AddrV4 a => (v4 a 0 =? 224) && (v4 a 1 =? 0) && (v4 a 2 =? 0)
  | AddrV6 a => Z.land (v6u16 a 0) 0xff0f =? 0xff02
  | AddrNone => false
  end.

(** [netip.AddrFrom16] (no unmapping), [Addr.As16] (zeroes for the zero
    value, the mapped form for IPv4), [Addr.AsSlice], [netip.AddrFromSlice]. *)
Definition AddrFrom16 (l : list Z) : Addr := AddrV6 (be_val l).
Definition As16 (x : Addr) : list Z :=
  match x with
  | AddrNone => be_bytes 16 0
  | AddrV4 a => be_bytes 16 (0xffff * 2 ^ 32 + a)
  | AddrV6 a => be_bytes 16 a
  end.
Definition AsSlice (x : Addr) : list Z :=
  match x with
  | AddrNone => []
  | AddrV4 a => be_bytes 4 a
  | AddrV6 a => be_bytes 16 a
  end.
Definition AddrFromSlice (l : list Z) : option Addr :=
  if (length l =? 4)%nat then Some (AddrV4 (be_val l))
  else if (length l =? 16)%nat then Some (AddrFrom16 l)
  else None.

(** [net.IP.To4] and [net.IP.To16]; [None] is Go's [nil]. *)
Definition To4 (ip : list Z) : option (list Z) :=
  if (length ip =? 4)%nat then Some ip
  else if (length ip =? 16)%nat &&
          bool_decide (take 12 ip = replicate 10 0 ++ [0xff; 0xff])
  then Some (drop 12 ip) else None.
Definition To16 (ip : list Z) : list Z :=
  if (length ip =? 4)%nat then replicate 10 0 ++ [0xff; 0xff] ++ ip
  else if (length ip =? 16)%nat then ip
  else [].

(** [net.IPMask.Size]: the leading ones and the width, [(0, 0)] for a mask
    that is not ones followed by zeroes.  [net.CIDRMask] builds one. *)
Definition byte_bits (b : Z) : list bool :=
  (λ i, Z.testbit b (Z.of_nat i)) <$> [7; 6; 5; 4; 3; 2; 1; 0]%nat.
Definition mask_bits (m : list Z) : list bool := m ≫= byte_bits.
Fixpoint leading_ones (l : list bool) : nat :=
  match l with true :: l' => S (leading_ones l') | _ => O end.
Definition MaskSize (m : list Z) : Z * Z :=
  let bits := mask_bits m in
  let n := leading_ones bits in
  if forallb negb (drop n bits) then (Z.of_nat n, Z.of_nat (length bits)) else (0, 0).
Definition CIDRMask (ones bits : nat) : list Z :=
  if ((bits =? 32)%nat || (bits =? 128)%nat) && (ones <=? bits)%nat then
    (λ i, let n := (ones - 8 * i)%nat in
          if (8 <=? n)%nat then 0xff else 0xff - (0xff / 2 ^ Z.of_nat n)) <$> seq 0 (bits / 8)
  else [].

(** An address the daemon mirrors: neither loopback, multicast nor
    link-local. *)
Definition mirrorable (x : Addr) : bool :=
  negb (IsLoopback x) && negb (IsMulticast x) && negb (IsLinkLocalUnicast x).

(** A value a Go program can hold: the integer fits its address family. *)
Definition addr_wf (x : Addr) : Prop :=
  match x with
  | AddrNone => True
  | AddrV4 a => 0 ≤ a < 2 ^ 32
  | AddrV6 a => 0 ≤ a < 2 ^ 128
  end.

Lemma length_As16 x : length (As16 x) = 16%nat.
Proof. destruct x; apply length_be_bytes. Qed.
#[export] Hint Rewrite length_As16 : bytes_len.

Lemma As16_is_byte x : Forall is_byte (As16 x).
Proof. destruct x; apply be_bytes_is_byte. Qed.
#[export] Hint Resolve As16_is_byte : bytes.

(** An address written with [As16] and read with [AddrFrom16] comes back,
    unless it was not IPv6. *)
Lemma AddrFrom16_As16 x : addr_wf x → Is6 x = true → AddrFrom16 (As16 x) = x.
Proof.
  destruct x as [|a|a]; try done. intros Ha _. unfold AddrFrom16, As16.
  rewrite be_val_be_bytes. f_equal. apply Z.mod_small. exact Ha.
Qed.

Lemma As16_AddrFrom16 l : length l = 16%nat → Forall is_byte l → As16 (AddrFrom16 l) = l.
Proof. intros Hl Hb. unfold As16, AddrFrom16. rewrite <- Hl. by apply be_bytes_be_val. Qed.

Lemma AddrFromSlice_16 l : length l = 16%nat → AddrFromSlice l = Some (AddrFrom16 l).
Proof. intros H. unfold AddrFromSlice. by rewrite H. Qed.

Lemma Unmap_idem x : Unmap (Unmap x) = Unmap x.
Proof. destruct x as [| |a]; try done. cbn. case_tests; cbn; by rewrite ?Heqb. Qed.

(** The classification does not depend on unmapping. *)
Lemma mirrorable_Unmap x : mirrorable (Unmap x) = mirrorable x.
Proof.
  unfold mirrorable, IsLoopback, IsMulticast, IsLinkLocalUnicast.
  by rewrite Unmap_idem.
Qed.

Lemma CIDRMask_128 : CIDRMask 128 128 = replicate 16 0xff.
Proof. reflexivity. Qed.
Lemma MaskSize_CIDRMask_128 : MaskSize (CIDRMask 128 128) = (128, 128).
Proof. reflexivity. Qed.

(** ** Text

    [netip.ParseAddr], following its two scanners byte by byte; [None] is its
    error, which a text with a zone (a percent sign) is too. *)
Definition codes (s : string) : list Z := (λ c, Z.of_N (Ascii.N_of_ascii c)) <$> String.list_ascii_of_string s.
Definition chDot := 46.
Definition chColon := 58.
Definition chPercent := 37.
Definition digit (c : Z) : option Z := if (48 <=? c) && (c <=? 57) then Some (c - 48) else None.
Definition hexDigit (c : Z) : option Z :=
  if (48 <=? c) && (c <=? 57) then Some (c - 48)
  else if (97 <=? c) && (c <=? 102) then Some (c - 97 + 10)
  else if (65 <=? c) && (c <=? 70) then Some (c - 65 + 10)
  else None.

(** [parseIPv4Fields]: the value and number of digits of the current octet,
    the octets before it, and whether the byte before was a dot (or none). *)
Fixpoint parseIPv4Fields (val : Z) (digLen : nat) (fields : list Z) (after_dot : bool) (s : list Z) : option (list Z) :=
  match s with
  | [] => if (length fields <? 3)%nat then None else Some (fields ++ [val])
  | c :: s' =>
      match digit c with
      | Some d =>
          if (digLen =? 1)%nat && (val =? 0) then None
          else if val * 10 + d >? 255 then None
          else parseIPv4Fields (val * 10 + d) (S digLen) fields false s'
      | None =>
          if c =? chDot then
            if after_dot || (length s' =? 0)%nat then None
            else if (length fields =? 3)%nat then None
            else parseIPv4Fields 0 0 (fields ++ [val]) true s'
          else None
      end
  end.

(** One group: its value, its number of digits and the rest of the text. *)
Fixpoint hexGroup (acc : Z) (off : nat) (s : list Z) : option (Z * nat * list Z) :=
  match s with
  | [] => Some (acc, off, [])
  | c :: s' =>
      match hexDigit c with
      | None => Some (acc, off, s)
      | Some d =>
          if (3 <? off)%nat then None
          else if u32 (Z.shiftl acc 4 + d) >? 0xffff then None
          else hexGroup (u32 (Z.shiftl acc 4 + d)) (S off) s'
      end
  end.

(** The loop of [parseIPv6]: [ip] are the bytes so far, [ellipsis] where the
    double colon was.  Each turn but the last adds two bytes. *)
Fixpoint parseGroups (fuel : nat) (ip : list Z) (ellipsis : option nat) (s : list Z) : option (list Z * option nat * list Z) :=
  match fuel with
  | O => Some (ip, ellipsis, s)
  | S fuel' =>
      '(acc, off, rest) ← hexGroup 0 0 s;
      if (off =? 0)%nat then None
      else if bool_decide (head rest = Some chDot) then
        if bool_decide (ellipsis = None) && negb (length ip =? 12)%nat then None
        else if (16 <? length ip + 4)%nat then None
        else fields ← parseIPv4Fields 0 0 [] true s; Some (ip ++ fields, ellipsis, [])
      else
        let ip := ip ++ [Z.shiftr acc 8; u8 acc] in
        match rest with
        | [] => Some (ip, ellipsis, [])
        | c :: s1 =>
            if negb (c =? chColon) then None
            else match s1 with
                 | [] => None
                 | c' :: s2 =>
                     if c' =? chColon then
                       match ellipsis with
                       | Some _ => None
                       | None => match s2 with
                                 | [] => Some (ip, Some (length ip), [])
                                 | _ => parseGroups fuel' ip (Some (length ip)) s2
                                 end
                       end
                     else parseGroups fuel' ip ellipsis s1
                 end
        end
  end.
Definition parseIPv6 (s : list Z) : option Addr :=
  if bool_decide (chPercent ∈ s) then None else
  let lead := bool_decide (take 2 s = [chColon; chColon]) in
  let s := if lead then drop 2 s else s in
  if lead && (length s =? 0)%nat then Some IPv6Unspecified
  else
    '(ip, ellipsis, rest) ← parseGroups 8 [] (if lead then Some O else None) s;
    if negb (length rest =? 0)%nat then None
    else match ellipsis with
         | None => if (length ip <? 16)%nat then None else Some (AddrFrom16 ip)
         | Some e =>
             if (length ip <? 16)%nat
             then Some (AddrFrom16 (take e ip ++ replicate (16 - length ip) 0 ++ drop e ip))
             else None
         end.
Definition parseIPv4 (s : list Z) : option Addr := (λ f, AddrV4 (be_val f)) <$> parseIPv4Fields 0 0 [] true s.
(** The first dot, colon or percent sign decides. *)
Definition ParseAddr (s : string) : option Addr :=
  match filter (λ c, c = chDot ∨ c = chColon ∨ c = chPercent) (codes s) with
  | c :: _ => if c =? chDot then parseIPv4 (codes s) else if c =? chColon then parseIPv6 (codes s) else None
  | [] => None
  end.

(** ** Well-known groups

    The package variables of [rawsock.go]. *)
Definition allIPv6Nodes : Addr := AddrV6 (0xff02 * 2 ^ 112 + 1).
Definition allIPv6Routers : Addr := AddrV6 (0xff02 * 2 ^ 112 + 2).
Definition allDHCPv6Relays : Addr := AddrV6 (0xff02 * 2 ^ 112 + 0x10002).
Definition allDHCPv6Server : Addr := AddrV6 (0xff05 * 2 ^ 112 + 0x10003).
