(* ===== verification/World.v ===== *)
(** * The state the daemon works on

    The program's data types ([internal/relay/iface.go], [config.go],
    [netlink.go] and the socket records of the three services), the store they
    live in, and the calls the program makes to the kernel.

    - A pointer to an [Interface] is a [loc] into [heap]; Go never holds a
      dangling non-nil pointer, so reading is total ([!!!]).  The [interfaces]
      map holds pointers: timers, sockets and queued closures alias the same
      object, also after it has left the map.
    - A call into the kernel, the netlink library or the clock is answered by a
      [Kernel], a function of the whole history of calls made so far, so any
      environment, deterministic or not, is some [Kernel].  The call and its
      answer are appended to [trace].
    - Logging ([log.go]) and the creation of a goroutine or timer are part of
      the state too. *)
From S2P Require Import Prelude Netip.

Definition loc : Type := positive.

(** ** Errors

    A [syscall.Errno], an error wrapping another one ([fmt.Errorf] with [%w]),
    or a plain message. *)
Inductive goerr : Type :=
| Errno (n : Z)
| Wrapped (msg : string) (e : goerr)
| ErrMsg (msg : string).

(** [errors.Is(err, syscall.Errno)]. *)
Fixpoint errors_Is (e : goerr) (n : Z) : bool :=
  match e with
  | Errno m => m =? n
  | Wrapped _ e' => errors_Is e' n
  | ErrMsg _ => false
  end.

(** ** Constants of [golang.org/x/sys/unix] and the netlink library (Linux) *)
Module unix.
Definition AF_INET6 := 10.
Definition AF_PACKET := 17.
Definition SOCK_DGRAM := 2.
Definition SOCK_RAW := 3.
Definition SOCK_CLOEXEC := 0x80000.
Definition IPPROTO_UDP := 17.
Definition IPPROTO_IPV6 := 41.
Definition IPPROTO_ICMPV6 := 58.
Definition IPPROTO_RAW := 255.
Definition SOL_SOCKET := 1.
Definition SOL_PACKET := 263.
Definition SO_REUSEADDR := 2.
Definition IPV6_CHECKSUM := 7.
Definition IPV6_UNICAST_HOPS := 16.
Definition IPV6_MULTICAST_HOPS := 18.
Definition IPV6_MULTICAST_LOOP := 19.
Definition IPV6_ADD_MEMBERSHIP := 20.
Definition IPV6_DROP_MEMBERSHIP := 21.
Definition IPV6_V6ONLY := 26.
Definition IPV6_RECVPKTINFO := 49.
Definition IPV6_PKTINFO := 50.
Definition IPV6_RECVHOPLIMIT := 51.
Definition IPV6_HOPLIMIT := 52.
Definition ETH_P_ALL := 3.
Definition PACKET_MR_ALLMULTI := 2.
Definition MSG_DONTWAIT := 0x40.
Definition MSG_TRUNC := 0x20.
Definition RTM_NEWLINK := 16.
Definition RTM_DELLINK := 17.
Definition RTM_DELROUTE := 25.
Definition RTM_NEWNEIGH := 28.
Definition RTM_DELNEIGH := 29.
Definition NTF_PROXY := 8.
Definition NUD_REACHABLE := 2.
Definition NUD_STALE := 4.
Definition NUD_DELAY := 8.
Definition NUD_PROBE := 0x10.
Definition NUD_FAILED := 0x20.
Definition NUD_NOARP := 0x40.
Definition NUD_PERMANENT := 0x80.
Definition IFF_RUNNING := 0x40.
Definition IFA_F_TENTATIVE := 0x40.
Definition RT_TABLE_MAIN := 254.
Definition RTPROT_STATIC := 4.
Definition SCOPE_UNIVERSE := 0.
Definition SCOPE_LINK := 253.
Definition CLOCK_MONOTONIC := 1.
Definition CLOCK_MONOTONIC_COARSE := 6.
Definition ENOENT := 2.
Definition ESRCH := 3.
Definition EINTR := 4.
Definition EBADF := 9.
End unix.

(** ** Interfaces and their sockets *)

(** [type Mode int] with its two constants. *)
Inductive Mode : Type := ModeDisabled | ModeRelay.
#[export] Instance Mode_eq_dec : EqDecision Mode.
Proof. solve_decision. Defined.

(** [type IPAddr struct]. *)
Record IPAddr : Type := mkIPAddr {
  ip_Addr : Addr;
  PrefixLen : Z;
  PreferredLT : Z;
  ValidLT : Z;
  Tentative : bool
}.

(** [type routerSock struct], [dhcpSock], [ndpSock].  The records are never
    changed after their allocation; [*_ptr] is the address, by which the
    handlers compare them. *)
Record routerSock : Type := mkRouterSock {
  rs_ptr : loc; rs_fd : Z; rs_iface : loc; rs_done : loc }.
Record dhcpSock : Type := mkDhcpSock {
  ds_ptr : loc; ds_fd : Z; ds_iface : loc; ds_done : loc }.
Record ndpSock : Type := mkNdpSock {
  ns_ptr : loc; ns_fd : Z; ns_pingFd : Z; ns_iface : loc; ns_done : loc }.

(** [type Interface struct].  [rsTimer] names a pending timer. *)
Record Interface : Type := mkInterface {
  Name : string;
  Ifname : string;
  Ifindex : Z;
  Running : bool;
  Master : bool;
  LearnRoutes : bool;
  NdpFromLinkLocal : bool;
  Inuse : bool;
  Addr6 : list IPAddr;
  cachedLL : Addr;
  cachedLLValid : bool;
  HaveLinkLocal : bool;
  RA : Mode;
  DHCPv6 : Mode;
  NDP : Mode;
  router : option routerSock;
  dhcp : option dhcpSock;
  ndp : option ndpSock;
  raSent : Z;
  rsTimer : option loc;
  rsTimerN : Z
}.

#[export] Instance Interface_inhabited : Inhabited Interface := populate
  (mkInterface "" "" 0 false false false false false [] AddrNone false false
     ModeDisabled ModeDisabled ModeDisabled None None None 0 None 0).

(** Field assignments [iface.f = v]. *)
Definition set_Ifname (v : string) (x : Interface) : Interface :=
  mkInterface (Name x) v (Ifindex x) (Running x) (Master x) (LearnRoutes x)
    (NdpFromLinkLocal x) (Inuse x) (Addr6 x) (cachedLL x) (cachedLLValid x)
    (HaveLinkLocal x) (RA x) (DHCPv6 x) (NDP x) (router x) (dhcp x) (ndp x) (raSent x)
    (rsTimer x) (rsTimerN x).
Definition set_Ifindex (v : Z) (x : Interface) : Interface :=
  mkInterface (Name x) (Ifname x) v (Running x) (Master x) (LearnRoutes x)
    (NdpFromLinkLocal x) (Inuse x) (Addr6 x) (cachedLL x) (cachedLLValid x)
    (HaveLinkLocal x) (RA x) (DHCPv6 x) (NDP x) (router x) (dhcp x) (ndp x) (raSent x)
    (rsTimer x) (rsTimerN x).
Definition set_Running (v : bool) (x : Interface) : Interface :=
  mkInterface (Name x) (Ifname x) (Ifindex x) v (Master x) (LearnRoutes x)
    (NdpFromLinkLocal x) (Inuse x) (Addr6 x) (cachedLL x) (cachedLLValid x)
    (HaveLinkLocal x) (RA x) (DHCPv6 x) (NDP x) (router x) (dhcp x) (ndp x) (raSent x)
    (rsTimer x) (rsTimerN x).
Definition set_Master (v : bool) (x : Interface) : Interface :=
  mkInterface (Name x) (Ifname x) (Ifindex x) (Running x) v (LearnRoutes x)
    (NdpFromLinkLocal x) (Inuse x) (Addr6 x) (cachedLL x) (cachedLLValid x)
    (HaveLinkLocal x) (RA x) (DHCPv6 x) (NDP x) (router x) (dhcp x) (ndp x) (raSent x)
    (rsTimer x) (rsTimerN x).
Definition set_LearnRoutes (v : bool) (x : Interface) : Interface :=
  mkInterface (Name x) (Ifname x) (Ifindex x) (Running x) (Master x) v (NdpFromLinkLocal
    x) (Inuse x) (Addr6 x) (cachedLL x) (cachedLLValid x) (HaveLinkLocal x) (RA x)
    (DHCPv6 x) (NDP x) (router x) (dhcp x) (ndp x) (raSent x) (rsTimer x) (rsTimerN x).
Definition set_NdpFromLinkLocal (v : bool) (x : Interface) : Interface :=
  mkInterface (Name x) (Ifname x) (Ifindex x) (Running x) (Master x) (LearnRoutes x) v
    (Inuse x) (Addr6 x) (cachedLL x) (cachedLLValid x) (HaveLinkLocal x) (RA x) (DHCPv6
    x) (NDP x) (router x) (dhcp x) (ndp x) (raSent x) (rsTimer x) (rsTimerN x).
Definition set_Inuse (v : bool) (x : Interface) : Interface :=
  mkInterface (Name x) (Ifname x) (Ifindex x) (Running x) (Master x) (LearnRoutes x)
    (NdpFromLinkLocal x) v (Addr6 x) (cachedLL x) (cachedLLValid x) (HaveLinkLocal x)
    (RA x) (DHCPv6 x) (NDP x) (router x) (dhcp x) (ndp x) (raSent x) (rsTimer x)
    (rsTimerN x).
Definition set_Addr6 (v : list IPAddr) (x : Interface) : Interface :=
  mkInterface (Name x) (Ifname x) (Ifindex x) (Running x) (Master x) (LearnRoutes x)
    (NdpFromLinkLocal x) (Inuse x) v (cachedLL x) (cachedLLValid x) (HaveLinkLocal x)
    (RA x) (DHCPv6 x) (NDP x) (router x) (dhcp x) (ndp x) (raSent x) (rsTimer x)
    (rsTimerN x).
Definition set_cachedLL (v : Addr) (x : Interface) : Interface :=
  mkInterface (Name x) (Ifname x) (Ifindex x) (Running x) (Master x) (LearnRoutes x)
    (NdpFromLinkLocal x) (Inuse x) (Addr6 x) v (cachedLLValid x) (HaveLinkLocal x) (RA
    x) (DHCPv6 x) (NDP x) (router x) (dhcp x) (ndp x) (raSent x) (rsTimer x) (rsTimerN
    x).
Definition set_cachedLLValid (v : bool) (x : Interface) : Interface :=
  mkInterface (Name x) (Ifname x) (Ifindex x) (Running x) (Master x) (LearnRoutes x)
    (NdpFromLinkLocal x) (Inuse x) (Addr6 x) (cachedLL x) v (HaveLinkLocal x) (RA x)
    (DHCPv6 x) (NDP x) (router x) (dhcp x) (ndp x) (raSent x) (rsTimer x) (rsTimerN x).
Definition set_HaveLinkLocal (v : bool) (x : Interface) : Interface :=
  mkInterface (Name x) (Ifname x) (Ifindex x) (Running x) (Master x) (LearnRoutes x)
    (NdpFromLinkLocal x) (Inuse x) (Addr6 x) (cachedLL x) (cachedLLValid x) v (RA x)
    (DHCPv6 x) (NDP x) (router x) (dhcp x) (ndp x) (raSent x) (rsTimer x) (rsTimerN x).
Definition set_RA (v : Mode) (x : Interface) : Interface :=
  mkInterface (Name x) (Ifname x) (Ifindex x) (Running x) (Master x) (LearnRoutes x)
    (NdpFromLinkLocal x) (Inuse x) (Addr6 x) (cachedLL x) (cachedLLValid x)
    (HaveLinkLocal x) v (DHCPv6 x) (NDP x) (router x) (dhcp x) (ndp x) (raSent x)
    (rsTimer x) (rsTimerN x).
Definition set_DHCPv6 (v : Mode) (x : Interface) : Interface :=
  mkInterface (Name x) (Ifname x) (Ifindex x) (Running x) (Master x) (LearnRoutes x)
    (NdpFromLinkLocal x) (Inuse x) (Addr6 x) (cachedLL x) (cachedLLValid x)
    (HaveLinkLocal x) (RA x) v (NDP x) (router x) (dhcp x) (ndp x) (raSent x) (rsTimer
    x) (rsTimerN x).
Definition set_NDP (v : Mode) (x : Interface) : Interface :=
  mkInterface (Name x) (Ifname x) (Ifindex x) (Running x) (Master x) (LearnRoutes x)
    (NdpFromLinkLocal x) (Inuse x) (Addr6 x) (cachedLL x) (cachedLLValid x)
    (HaveLinkLocal x) (RA x) (DHCPv6 x) v (router x) (dhcp x) (ndp x) (raSent x)
    (rsTimer x) (rsTimerN x).
Definition set_router (v : option routerSock) (x : Interface) : Interface :=
  mkInterface (Name x) (Ifname x) (Ifindex x) (Running x) (Master x) (LearnRoutes x)
    (NdpFromLinkLocal x) (Inuse x) (Addr6 x) (cachedLL x) (cachedLLValid x)
    (HaveLinkLocal x) (RA x) (DHCPv6 x) (NDP x) v (dhcp x) (ndp x) (raSent x) (rsTimer
    x) (rsTimerN x).
Definition set_dhcp (v : option dhcpSock) (x : Interface) : Interface :=
  mkInterface (Name x) (Ifname x) (Ifindex x) (Running x) (Master x) (LearnRoutes x)
    (NdpFromLinkLocal x) (Inuse x) (Addr6 x) (cachedLL x) (cachedLLValid x)
    (HaveLinkLocal x) (RA x) (DHCPv6 x) (NDP x) (router x) v (ndp x) (raSent x) (rsTimer
    x) (rsTimerN x).
Definition set_ndp (v : option ndpSock) (x : Interface) : Interface :=
  mkInterface (Name x) (Ifname x) (Ifindex x) (Running x) (Master x) (LearnRoutes x)
    (NdpFromLinkLocal x) (Inuse x) (Addr6 x) (cachedLL x) (cachedLLValid x)
    (HaveLinkLocal x) (RA x) (DHCPv6 x) (NDP x) (router x) (dhcp x) v (raSent x)
    (rsTimer x) (rsTimerN x).
Definition set_raSent (v : Z) (x : Interface) : Interface :=
  mkInterface (Name x) (Ifname x) (Ifindex x) (Running x) (Master x) (LearnRoutes x)
    (NdpFromLinkLocal x) (Inuse x) (Addr6 x) (cachedLL x) (cachedLLValid x)
    (HaveLinkLocal x) (RA x) (DHCPv6 x) (NDP x) (router x) (dhcp x) (ndp x) v (rsTimer
    x) (rsTimerN x).
Definition set_rsTimer (v : option loc) (x : Interface) : Interface :=
  mkInterface (Name x) (Ifname x) (Ifindex x) (Running x) (Master x) (LearnRoutes x)
    (NdpFromLinkLocal x) (Inuse x) (Addr6 x) (cachedLL x) (cachedLLValid x)
    (HaveLinkLocal x) (RA x) (DHCPv6 x) (NDP x) (router x) (dhcp x) (ndp x) (raSent x) v
    (rsTimerN x).
Definition set_rsTimerN (v : Z) (x : Interface) : Interface :=
  mkInterface (Name x) (Ifname x) (Ifindex x) (Running x) (Master x) (LearnRoutes x)
    (NdpFromLinkLocal x) (Inuse x) (Addr6 x) (cachedLL x) (cachedLLValid x)
    (HaveLinkLocal x) (RA x) (DHCPv6 x) (NDP x) (router x) (dhcp x) (ndp x) (raSent x)
    (rsTimer x) v.

(** ** Requests to the kernel *)

(** [unix.SockFilter], [unix.SockaddrInet6], [net.IPNet]. *)
Record SockFilter : Type := mkFilter { Code : Z; Jt : Z; Jf : Z; K : Z }.
Record SockaddrInet6 : Type := mkSockaddr { sa_Port : Z; sa_Addr : list Z; sa_ZoneId : Z }.
Record IPNet : Type := mkIPNet { net_IP : list Z; net_Mask : list Z }.

(** The fields of [netlink.Neigh] and [netlink.Route] the program uses. *)
Record Neigh : Type := mkNeigh {
  n_LinkIndex : Z; n_Family : Z; n_State : Z; n_Flags : Z; n_IP : list Z }.
Record Route : Type := mkRoute {
  r_LinkIndex : Z; r_Dst : option IPNet; r_Priority : Z; r_Table : Z; r_Scope : Z;
  r_Gw : option (list Z); r_Protocol : Z }.

(** [netlink.LinkAttrs] and [netlink.Addr], as far as used. *)
Record Link : Type := mkLink { l_Index : Z; l_RawFlags : Z }.
Record NlAddr : Type := mkNlAddr {
  a_IPNet : IPNet; a_PreferedLft : Z; a_ValidLft : Z; a_Flags : Z }.

(** The calls that only report an error. *)
Inductive call : Type :=
| BindToDevice (fd : Z) (ifname : string)
| SetsockoptInt (fd level opt val : Z)
| SetsockoptICMPv6Filter (fd level opt : Z) (filt : list Z)
| SetsockoptIPv6Mreq (fd level opt : Z) (group : list Z) (ifindex : Z)
| SetsockoptSockFprog (fd : Z) (prog : list SockFilter)
| SetsockoptPacketMreq (fd ifindex ty alen : Z)
| BindInet6 (fd port : Z)
| BindLinklayer (fd protocol ifindex : Z)
| Sendmsg (fd : Z) (payload oob : list Z) (sa : SockaddrInet6)
| WriteFile (path : string) (data : list Z)
| NeighSet (n : Neigh)
| NeighDel (n : Neigh)
| RouteReplace (r : Route)
| RouteDel (r : Route).

(** What happens outside the program's memory, in order. *)
Inductive event : Type :=
| EvCall (c : call) (e : option goerr)
| EvSocket (domain ty proto : Z) (r : goerr + Z)
| EvClose (fd : Z)
| EvRecvfrom (fd flags : Z) (more : bool)
| EvReadFile (path : string) (r : option (list Z))
| EvInterfaceByName (ifname : string) (r : option (list Z))
| EvLinkByIndex (ifindex : Z) (r : option Link)
| EvLinkByName (ifname : string) (r : goerr + Link)
| EvAddrList (ifindex : Z) (r : option (list NlAddr))
| EvNeighList (ifindex : Z) (r : option (list Neigh))
| EvRouteList (ifindex : Z) (r : option (list Route))
| EvClock (clock : Z) (r : option Z)
| EvRange
| EvSyslog (priority : Z) (msg : string)
| EvStderr (msg : string).

(** [unix.SocketControlMessage]. *)
Record cmsg : Type := mkCmsg { cm_Level : Z; cm_Type : Z; cm_Data : list Z }.

(** The configuration file as [encoding/json] decodes it
    ([jsonGlobal], [jsonIface] and [jsonRoot] of [config.go]). *)
Record jsonGlobal : Type := mkJsonGlobal { jg_LogLevel : option Z }.
Record jsonIface : Type := mkJsonIface {
  ji_Ifname : option string; ji_Master : option bool;
  ji_NdproxyRouting : option bool; ji_NdpFromLinkLocal : option bool }.
Record jsonRoot : Type := mkJsonRoot {
  jr_Global : option jsonGlobal; jr_Interfaces : gmap string jsonIface }.

(** The environment: one answer per call, from the history; the iteration
    order of the next map range; the control-message functions of the [unix]
    package and the JSON decoder. *)
Class Kernel : Type := {
  k_err : list event → call → option goerr;
  k_socket : list event → Z → Z → Z → goerr + Z;
  k_backlog : list event → Z → nat;
  k_readFile : list event → string → option (list Z);
  k_interfaceByName : list event → string → option (list Z);
  k_linkByIndex : list event → Z → option Link;
  k_linkByName : list event → string → goerr + Link;
  k_addrList : list event → Z → option (list NlAddr);
  k_neighList : list event → Z → option (list Neigh);
  k_routeList : list event → Z → option (list Route);
  k_clock : list event → Z → option Z;
  k_range : list event → list nat;
  k_CmsgLen : Z → Z;
  k_CmsgSpace : Z → Z;
  k_ParseCmsgs : list Z → option (list cmsg);
  k_unmarshal : list Z → option jsonRoot
}.

(** ** The store *)

(** [type mirroredNeighKey struct]. *)
Record mirroredNeighKey : Type := mkKey { k_addr : Addr; k_ifindex : Z }.
#[export] Instance mirroredNeighKey_eq_dec : EqDecision mirroredNeighKey.
Proof. solve_decision. Defined.
#[export] Instance mirroredNeighKey_countable : Countable mirroredNeighKey.
Proof.
  refine (inj_countable' (λ k, (k_addr k, k_ifindex k)) (λ p, mkKey p.1 p.2) _).
  by intros [].
Defined.

(** The functions handed to [time.AfterFunc]; each posts one closure to the
    engine (the sweep tick also re-arms itself). *)
Inductive timer_fn : Type :=
| FnSolicit (iface : loc) (gen : Z)
| FnReconcile
| FnSweepTick.
#[export] Instance timer_fn_eq_dec : EqDecision timer_fn.
Proof. solve_decision. Defined.

(** A pending timer, with its delay in milliseconds. *)
Record timer : Type := mkTimer { t_id : loc; t_delay : Z; t_fn : timer_fn }.

(** A running packet reader goroutine. *)
Inductive reader : Type :=
| RouterReader (rs : routerSock)
| DhcpReader (ds : dhcpSock)
| NdpReader (ns : ndpSock).

(** The package variables ([interfaces], [mirroredNeighs],
    [reconcileScheduled], [Cfg], [logLevel], [logSyslog], [sysWriter]), the
    heap of interfaces, the run time's timers, goroutines and closed channels,
    the next free address, and the history. *)
Record St : Type := mkSt {
  heap : gmap loc Interface;
  interfaces : gmap string loc;
  mirroredNeighs : gmap mirroredNeighKey bool;
  reconcileScheduled : bool;
  ConfigFile : string;
  LogLevelCmdline : bool;
  logLevel : Z;
  logSyslog : bool;
  sysWriter : bool;
  timers : list timer;
  readers : list reader;
  closed : gset loc;
  next : loc;
  trace : list event
}.

Definition set_heap (v : gmap loc Interface) (x : St) : St :=
  mkSt v (interfaces x) (mirroredNeighs x) (reconcileScheduled x) (ConfigFile x)
    (LogLevelCmdline x) (logLevel x) (logSyslog x) (sysWriter x) (timers x) (readers x)
    (closed x) (next x) (trace x).
Definition set_interfaces (v : gmap string loc) (x : St) : St :=
  mkSt (heap x) v (mirroredNeighs x) (reconcileScheduled x) (ConfigFile x)
    (LogLevelCmdline x) (logLevel x) (logSyslog x) (sysWriter x) (timers x) (readers x)
    (closed x) (next x) (trace x).
Definition set_mirroredNeighs (v : gmap mirroredNeighKey bool) (x : St) : St :=
  mkSt (heap x) (interfaces x) v (reconcileScheduled x) (ConfigFile x) (LogLevelCmdline
    x) (logLevel x) (logSyslog x) (sysWriter x) (timers x) (readers x) (closed x) (next
    x) (trace x).
Definition set_reconcileScheduled (v : bool) (x : St) : St :=
  mkSt (heap x) (interfaces x) (mirroredNeighs x) v (ConfigFile x) (LogLevelCmdline x)
    (logLevel x) (logSyslog x) (sysWriter x) (timers x) (readers x) (closed x) (next x)
    (trace x).
Definition set_ConfigFile (v : string) (x : St) : St :=
  mkSt (heap x) (interfaces x) (mirroredNeighs x) (reconcileScheduled x) v
    (LogLevelCmdline x) (logLevel x) (logSyslog x) (sysWriter x) (timers x) (readers x)
    (closed x) (next x) (trace x).
Definition set_LogLevelCmdline (v : bool) (x : St) : St :=
  mkSt (heap x) (interfaces x) (mirroredNeighs x) (reconcileScheduled x) (ConfigFile x)
    v (logLevel x) (logSyslog x) (sysWriter x) (timers x) (readers x) (closed x) (next
    x) (trace x).
Definition set_logLevel (v : Z) (x : St) : St :=
  mkSt (heap x) (interfaces x) (mirroredNeighs x) (reconcileScheduled x) (ConfigFile x)
    (LogLevelCmdline x) v (logSyslog x) (sysWriter x) (timers x) (readers x) (closed x)
    (next x) (trace x).
Definition set_logSyslog (v : bool) (x : St) : St :=
  mkSt (heap x) (interfaces x) (mirroredNeighs x) (reconcileScheduled x) (ConfigFile x)
    (LogLevelCmdline x) (logLevel x) v (sysWriter x) (timers x) (readers x) (closed x)
    (next x) (trace x).
Definition set_sysWriter (v : bool) (x : St) : St :=
  mkSt (heap x) (interfaces x) (mirroredNeighs x) (reconcileScheduled x) (ConfigFile x)
    (LogLevelCmdline x) (logLevel x) (logSyslog x) v (timers x) (readers x) (closed x)
    (next x) (trace x).
Definition set_timers (v : list timer) (x : St) : St :=
  mkSt (heap x) (interfaces x) (mirroredNeighs x) (reconcileScheduled x) (ConfigFile x)
    (LogLevelCmdline x) (logLevel x) (logSyslog x) (sysWriter x) v (readers x) (closed
    x) (next x) (trace x).
Definition set_readers (v : list reader) (x : St) : St :=
  mkSt (heap x) (interfaces x) (mirroredNeighs x) (reconcileScheduled x) (ConfigFile x)
    (LogLevelCmdline x) (logLevel x) (logSyslog x) (sysWriter x) (timers x) v (closed x)
    (next x) (trace x).
Definition set_closed (v : gset loc) (x : St) : St :=
  mkSt (heap x) (interfaces x) (mirroredNeighs x) (reconcileScheduled x) (ConfigFile x)
    (LogLevelCmdline x) (logLevel x) (logSyslog x) (sysWriter x) (timers x) (readers x)
    v (next x) (trace x).
Definition set_next (v : loc) (x : St) : St :=
  mkSt (heap x) (interfaces x) (mirroredNeighs x) (reconcileScheduled x) (ConfigFile x)
    (LogLevelCmdline x) (logLevel x) (logSyslog x) (sysWriter x) (timers x) (readers x)
    (closed x) v (trace x).
Definition set_trace (v : list event) (x : St) : St :=
  mkSt (heap x) (interfaces x) (mirroredNeighs x) (reconcileScheduled x) (ConfigFile x)
    (LogLevelCmdline x) (logLevel x) (logSyslog x) (sysWriter x) (timers x) (readers x)
    (closed x) (next x) v.

(** ** The monad of the engine goroutine *)

Definition M (A : Type) : Type := St → res (A * St).

#[export] Instance M_ret : MRet M := λ A a s, Ok (a, s).
#[export] Instance M_bind : MBind M := λ A B f m s,
  match m s with
  | Ok (a, s') => f a s'
  | Panic => Panic
  | OutOfFuel => OutOfFuel
  end.

Definition skip : M unit := mret tt.
Definition panic {A} : M A := λ _, Panic.
Definition get : M St := λ s, Ok (s, s).
Definition modify (f : St → St) : M unit := λ s, Ok (tt, f s).
Definition lift {A} (r : res A) : M A := λ s,
  match r with Ok a => Ok (a, s) | Panic => Panic | OutOfFuel => OutOfFuel end.
Definition when (b : bool) (m : M unit) : M unit := if b then m else skip.

(** [for _, x := range l { f x }], and a fold for a loop with an accumulator. *)
Fixpoint forM {A} (l : list A) (f : A → M unit) : M unit :=
  match l with
  | [] => skip
  | x :: l' => f x ;; forM l' f
  end.
Fixpoint foldM {A B} (f : B → A → M B) (b : B) (l : list A) : M B :=
  match l with
  | [] => mret b
  | x :: l' => b' ← f b x; foldM f b' l'
  end.

(** Reading and assigning through an interface pointer. *)
Definition deref (p : loc) : M Interface := s ← get; mret (heap s !!! p).
Definition assign (p : loc) (f : Interface → Interface) : M unit :=
  modify (λ s, set_heap (<[p := f (heap s !!! p)]> (heap s)) s).

(** A fresh address. *)
Definition alloc : M loc :=
  s ← get; modify (set_next (Pos.succ (next s))) ;; mret (next s).

(** [close(ch)]: closing twice panics. *)
Definition closeChan (c : loc) : M unit :=
  s ← get;
  if bool_decide (c ∈ closed s) then panic
  else modify (set_closed ({[c]} ∪ closed s)).

(** One call: the answer is a function of the history, the event is logged. *)
Definition sys {A} (answer : list event → A) (ev : A → event) : M A := λ s,
  let a := answer (trace s) in Ok (a, set_trace (trace s ++ [ev a]) s).

(** [time.AfterFunc] and [Timer.Stop]. *)
Definition afterFunc (delay : Z) (fn : timer_fn) : M loc :=
  t ← alloc; s ← get; modify (set_timers (timers s ++ [mkTimer t delay fn])) ;; mret t.
Definition stopTimer (t : loc) : M unit :=
  modify (λ s, set_timers (filter (λ x, t_id x ≠ t) (timers s)) s).

(** [go reader()]. *)
Definition spawn (r : reader) : M unit := modify (λ s, set_readers (readers s ++ [r]) s).

Section Calls.
Context `{Kernel}.

Definition sys_err (c : call) : M (option goerr) := sys (λ h, k_err h c) (EvCall c).
Definition sys_socket (domain ty proto : Z) : M (goerr + Z) :=
  sys (λ h, k_socket h domain ty proto) (EvSocket domain ty proto).
Definition sys_close (fd : Z) : M unit := sys (λ _, tt) (λ _, EvClose fd).
Definition sys_readFile (path : string) : M (option (list Z)) :=
  sys (λ h, k_readFile h path) (EvReadFile path).
Definition sys_interfaceByName (n : string) : M (option (list Z)) :=
  sys (λ h, k_interfaceByName h n) (EvInterfaceByName n).
Definition sys_linkByIndex (i : Z) : M (option Link) :=
  sys (λ h, k_linkByIndex h i) (EvLinkByIndex i).
Definition sys_linkByName (n : string) : M (goerr + Link) :=
  sys (λ h, k_linkByName h n) (EvLinkByName n).
Definition sys_addrList (i : Z) : M (option (list NlAddr)) :=
  sys (λ h, k_addrList h i) (EvAddrList i).
Definition sys_neighList (i : Z) : M (option (list Neigh)) :=
  sys (λ h, k_neighList h i) (EvNeighList i).
Definition sys_routeList (i : Z) : M (option (list Route)) :=
  sys (λ h, k_routeList h i) (EvRouteList i).
Definition sys_clock (c : Z) : M (option Z) := sys (λ h, k_clock h c) (EvClock c).

(** The order of the next [range] over a map with the given keys or values. *)
Definition range {A} (l : list A) : M (list A) :=
  cs ← sys k_range (λ _, EvRange); mret (permute cs l).

(** [for _, c := range interfaces]: the pointers, in this loop's order.  No
    loop over [interfaces] in the program changes the map. *)
Definition range_interfaces : M (list loc) :=
  s ← get; range (map_to_list (interfaces s)).*2.
End Calls.
