(* ===== verification/Hoare.v ===== *)
(** * Reasoning about handlers

    Total-correctness Hoare reasoning for [M] ([wp] includes the absence of
    panics and of exhausted fuel), the relations handlers are shown to
    respect, and the automation for them. *)
From S2P Require Import Prelude Netip World.

(** [wp m Q s]: from [s], [m] returns normally with a result and a state
    satisfying [Q]. *)
Definition wp {A} (m : M A) (Q : A → St → Prop) (s : St) : Prop :=
  match m s with Ok (a, s') => Q a s' | _ => False end.

Lemma wp_intro {A} (m : M A) Q s a s' : m s = Ok (a, s') → Q a s' → wp m Q s.
Proof. intros E HQ. unfold wp. by rewrite E. Qed.
Lemma wp_elim {A} (m : M A) Q s : wp m Q s → ∃ a s', m s = Ok (a, s') ∧ Q a s'.
Proof. unfold wp. destruct (m s) as [[a s']| |]; eauto; done. Qed.

Lemma wp_mono {A} (m : M A) (Q Q' : A → St → Prop) s :
  wp m Q s → (∀ a s', Q a s' → Q' a s') → wp m Q' s.
Proof. unfold wp. destruct (m s) as [[a s']| |]; eauto. Qed.

(** [wp_use H]: discharge the first call with the specification [H]. *)
Ltac wp_use H := eapply wp_mono; [eapply H | cbv beta].

Lemma wp_and {A} (m : M A) (Q Q' : A → St → Prop) s :
  wp m Q s → wp m Q' s → wp m (λ a s', Q a s' ∧ Q' a s') s.
Proof. unfold wp. destruct (m s) as [[a s']| |]; eauto. Qed.
Lemma wp_bind {A B} (m : M A) (f : A → M B) Q s :
  wp m (λ a s', wp (f a) Q s') s → wp (m ≫= f) Q s.
Proof.
  unfold wp, mbind, M_bind. by destruct (m s) as [[a s']| |].
Qed.
Lemma wp_ret {A} (a : A) (Q : A → St → Prop) s : Q a s → wp (mret a) Q s.
Proof. done. Qed.
Lemma wp_skip (Q : unit → St → Prop) s : Q tt s → wp skip Q s.
Proof. done. Qed.
Lemma wp_get (Q : St → St → Prop) s : Q s s → wp get Q s.
Proof. done. Qed.
Lemma wp_modify f (Q : unit → St → Prop) s : Q tt (f s) → wp (modify f) Q s.
Proof. done. Qed.
Lemma wp_deref p (Q : Interface → St → Prop) s : Q (heap s !!! p) s → wp (deref p) Q s.
Proof. done. Qed.
Lemma wp_assign p f (Q : unit → St → Prop) s :
  Q tt (set_heap (<[p := f (heap s !!! p)]> (heap s)) s) → wp (assign p f) Q s.
Proof. done. Qed.
Lemma wp_alloc (Q : loc → St → Prop) s :
  Q (next s) (set_next (Pos.succ (next s)) s) → wp alloc Q s.
Proof. done. Qed.
Lemma wp_lift {A} (r : res A) a (Q : A → St → Prop) s : r = Ok a → Q a s → wp (lift r) Q s.
Proof. by intros ->. Qed.
Lemma wp_sys {A} (ans : list event → A) ev (Q : A → St → Prop) s :
  (∀ a, a = ans (trace s) → Q a (set_trace (trace s ++ [ev a]) s)) → wp (sys ans ev) Q s.
Proof. intros HQ. apply HQ. done. Qed.
Lemma wp_closeChan c (Q : unit → St → Prop) s :
  c ∉ closed s → Q tt (set_closed ({[c]} ∪ closed s) s) → wp (closeChan c) Q s.
Proof.
  intros Hc HQ. unfold closeChan. apply wp_bind, wp_get.
  by rewrite bool_decide_eq_false_2.
Qed.

(** Loops: an invariant over the elements already done. *)
Lemma wp_forM {A} (I : list A → St → Prop) (l : list A) (f : A → M unit) (Q : unit → St → Prop) s :
  I [] s →
  (∀ done x rest s, l = done ++ x :: rest → I done s → wp (f x) (λ _ s', I (done ++ [x]) s') s) →
  (∀ s', I l s' → Q tt s') →
  wp (forM l f) Q s.
Proof.
  intros H0 Hstep HQ.
  enough (∀ rest done s, l = done ++ rest → I done s → wp (forM rest f) Q s) as Hgen
    by (by apply (Hgen l [])).
  induction rest as [|x rest IH]; intros done' s' Hl HI; cbn [forM].
  - apply wp_skip, HQ. by rewrite Hl, app_nil_r.
  - apply wp_bind. eapply wp_mono; [by eapply Hstep|].
    intros ? s'' HI'. eapply IH; [|exact HI']. by rewrite Hl, <- app_assoc.
Qed.

(** ** Relations between the state before and after *)

Definition stable {A} (R : relation St) (m : M A) : Prop :=
  ∀ s, wp m (λ _ s', R s s') s.

Section Stable.
Context (R : relation St) `{!PreOrder R}.

Lemma stable_ret {A} (a : A) : stable R (mret a).
Proof. intros s. apply wp_ret. reflexivity. Qed.
Lemma stable_skip : stable R skip.
Proof. intros s. apply wp_skip. reflexivity. Qed.
Lemma stable_get : stable R get.
Proof. intros s. apply wp_get. reflexivity. Qed.
Lemma stable_deref p : stable R (deref p).
Proof. intros s. apply wp_deref. reflexivity. Qed.
Lemma stable_bind {A B} (m : M A) (f : A → M B) :
  stable R m → (∀ a, stable R (f a)) → stable R (m ≫= f).
Proof.
  intros Hm Hf s. apply wp_bind. eapply wp_mono; [apply Hm|].
  intros a s' H1. eapply wp_mono; [apply Hf|]. intros b s'' H2. exact (transitivity H1 H2).
Qed.
Lemma stable_when b m : stable R m → stable R (when b m).
Proof. intros Hm. destruct b; [done | apply stable_skip]. Qed.
Lemma stable_forM {A} (l : list A) f : (∀ x, stable R (f x)) → stable R (forM l f).
Proof.
  intros Hf. induction l; cbn [forM]; [apply stable_skip | apply stable_bind; eauto].
Qed.
Lemma stable_foldM {A B} (f : B → A → M B) b (l : list A) :
  (∀ b x, stable R (f b x)) → stable R (foldM f b l).
Proof.
  intros Hf. revert b. induction l; intros b; cbn [foldM];
    [apply stable_ret | apply stable_bind; eauto].
Qed.
Lemma stable_lift {A} (r : res A) a : r = Ok a → stable R (lift r).
Proof. intros Hr s. eapply wp_lift; [done | reflexivity]. Qed.
End Stable.

Lemma stable_mono {A} (R R' : relation St) (m : M A) :
  stable R m → (∀ s s', R s s' → R' s s') → stable R' m.
Proof. intros Hm HR s. eapply wp_mono; [apply Hm | eauto]. Qed.

(** ** Partial correctness

    [wlp m Q s]: if [m] returns from [s], then with [Q].  Facts about what a
    handler leaves alone are proved in this form and joined to a [wp]. *)
Definition wlp {A} (m : M A) (Q : A → St → Prop) (s : St) : Prop :=
  match m s with Ok (a, s') => Q a s' | _ => True end.

Lemma wp_wlp {A} (m : M A) (Q Q' : A → St → Prop) s :
  wp m Q s → wlp m Q' s → wp m (λ a s', Q a s' ∧ Q' a s') s.
Proof. unfold wp, wlp. destruct (m s) as [[a s']| |]; done. Qed.

Definition keeps {A} (R : relation St) (m : M A) : Prop := ∀ s, wlp m (λ _ s', R s s') s.

Section Keeps.
Context (R : relation St) `{!PreOrder R}.

Lemma keeps_ret {A} (a : A) : keeps R (mret a).
Proof. intros s. change (R s s). reflexivity. Qed.
Lemma keeps_skip : keeps R skip.
Proof. apply keeps_ret. Qed.
Lemma keeps_get : keeps R get.
Proof. intros s. change (R s s). reflexivity. Qed.
Lemma keeps_deref p : keeps R (deref p).
Proof. intros s. change (R s s). reflexivity. Qed.
Lemma keeps_lift {A} (r : res A) : keeps R (lift r).
Proof. intros s. unfold wlp, lift. destruct r; cbn; [reflexivity|done..]. Qed.
Lemma keeps_modify f : (∀ s, R s (f s)) → keeps R (modify f).
Proof. intros Hf s. apply Hf. Qed.
Lemma keeps_bind {A B} (m : M A) (f : A → M B) :
  keeps R m → (∀ a, keeps R (f a)) → keeps R (m ≫= f).
Proof.
  intros Hm Hf s. specialize (Hm s). unfold wlp, mbind, M_bind in *.
  destruct (m s) as [[a s']| |]; [|done..]. specialize (Hf a s'). unfold wlp in Hf.
  destruct (f a s') as [[b s'']| |]; [|done..]. by transitivity s'.
Qed.
Lemma keeps_when b m : keeps R m → keeps R (when b m).
Proof. intros Hm. destruct b; [done | apply keeps_skip]. Qed.
Lemma keeps_forM {A} (l : list A) f : (∀ x, keeps R (f x)) → keeps R (forM l f).
Proof. intros Hf. induction l; cbn [forM]; [apply keeps_skip | apply keeps_bind; eauto]. Qed.
Lemma keeps_forM_in {A} (l : list A) f : (∀ x, x ∈ l → keeps R (f x)) → keeps R (forM l f).
Proof.
  intros Hf. induction l; cbn [forM]; [apply keeps_skip|].
  apply keeps_bind; [apply Hf; set_solver | intros; apply IHl; intros; apply Hf; set_solver].
Qed.
Lemma keeps_foldM {A B} (f : B → A → M B) b (l : list A) :
  (∀ b x, keeps R (f b x)) → keeps R (foldM f b l).
Proof.
  intros Hf. revert b. induction l; intros b; cbn [foldM]; [apply keeps_ret | apply keeps_bind; eauto].
Qed.
Lemma keeps_closeChan c : (∀ s, R s (set_closed ({[c]} ∪ closed s) s)) → keeps R (closeChan c).
Proof.
  intros HR s. unfold wlp, closeChan, mbind, M_bind, get. destruct (bool_decide _); [exact I | apply HR].
Qed.
End Keeps.
Lemma stable_keeps {A} R (m : M A) : stable R m → keeps R m.
Proof. intros Hm s. specialize (Hm s). unfold wp, wlp in *. by destruct (m s) as [[a s']| |]. Qed.
Lemma keeps_mono {A} (R R' : relation St) (m : M A) :
  keeps R m → (∀ s s', R s s' → R' s s') → keeps R' m.
Proof. intros Hm HR s. specialize (Hm s). unfold wlp in *. destruct (m s) as [[a s']| |]; eauto. Qed.
Lemma wlp_and {A} (m : M A) (Q Q' : A → St → Prop) s :
  wlp m Q s → wlp m Q' s → wlp m (λ a s', Q a s' ∧ Q' a s') s.
Proof. unfold wlp. destruct (m s) as [[a s']| |]; eauto. Qed.
Lemma wlp_mono {A} (m : M A) (Q Q' : A → St → Prop) s :
  wlp m Q s → (∀ a s', Q a s' → Q' a s') → wlp m Q' s.
Proof. unfold wlp. destruct (m s) as [[a s']| |]; eauto. Qed.
Lemma wlp_bind {A B} (m : M A) (f : A → M B) Q s :
  wlp m (λ a s', wlp (f a) Q s') s → wlp (m ≫= f) Q s.
Proof. unfold wlp, mbind, M_bind. by destruct (m s) as [[a s']| |]. Qed.
Lemma wlp_forM {A} (I : list A → St → Prop) (l : list A) (f : A → M unit) (Q : unit → St → Prop) s :
  I l s → (∀ x rest s, I (x :: rest) s → wlp (f x) (λ _ s', I rest s') s) →
  (∀ s', I [] s' → Q tt s') → wlp (forM l f) Q s.
Proof.
  intros H0 Hstep HQ. revert s H0. induction l as [|x l IH]; intros s HI; cbn [forM]; [by apply HQ|].
  apply wlp_bind. eapply wlp_mono; [by apply Hstep|]. intros [] s'. apply IH.
Qed.
Lemma wlp_ret {A} (a : A) (Q : A → St → Prop) s : Q a s → wlp (mret a) Q s.
Proof. done. Qed.
Lemma wlp_deref p (Q : Interface → St → Prop) s : Q (heap s !!! p) s → wlp (deref p) Q s.
Proof. done. Qed.
Lemma wlp_assign p f (Q : unit → St → Prop) s :
  Q tt (set_heap (<[p := f (heap s !!! p)]> (heap s)) s) → wlp (assign p f) Q s.
Proof. done. Qed.
Lemma wlp_keeps {A} R (m : M A) (Q : A → St → Prop) s :
  keeps R m → (∀ a s', R s s' → Q a s') → wlp m Q s.
Proof. intros Hm HQ. eapply wlp_mono; [apply Hm|]. auto. Qed.
Lemma wlp_any {A} (m : M A) (Q : A → St → Prop) s : (∀ a s', Q a s') → wlp m Q s.
Proof. unfold wlp. destruct (m s) as [[a s']| |]; eauto. Qed.
Lemma wp_to_wlp {A} (m : M A) Q s : wp m Q s → wlp m Q s.
Proof. unfold wp, wlp. by destruct (m s) as [[a s']| |]. Qed.

(** [solve_keeps_with leaf]: [leaf] closes the steps particular to a relation. *)
Ltac solve_keeps_with leaf :=
  repeat first
    [ progress intros
    | assumption
    | lazymatch goal with |- PreOrder _ => typeclasses eauto end
    | solve [eauto with keeps nocore]
    | leaf
    | lazymatch goal with
      | |- keeps _ (_ ≫= _) => apply keeps_bind
      | |- keeps _ (when _ _) => apply keeps_when
      | |- keeps _ (forM _ _) => apply keeps_forM
      | |- keeps _ (foldM _ _ _) => apply keeps_foldM
      | |- keeps _ (match ?x with _ => _ end) => destruct x
      end ].

Create HintDb keeps.
#[export] Hint Resolve keeps_ret keeps_skip keeps_get keeps_deref keeps_lift : keeps.

(** ** Only the history grows

    [emits P s s']: memory is unchanged and only events in [P] were added. *)
Definition emits (P : event → Prop) : relation St := λ s s',
  ∃ evs, s' = set_trace (trace s ++ evs) s ∧ Forall P evs.

Lemma set_trace_id s : set_trace (trace s) s = s.
Proof. by destruct s. Qed.

#[export] Instance emits_preorder P : PreOrder (emits P).
Proof.
  split.
  - intros s. exists []. by rewrite app_nil_r, set_trace_id.
  - intros s ? ? (e1 & -> & H1) (e2 & -> & H2). exists (e1 ++ e2).
    split; [by rewrite (assoc_L (++)) | by apply Forall_app].
Qed.

Lemma emits_mono (P P' : event → Prop) s s' :
  (∀ e, P e → P' e) → emits P s s' → emits P' s s'.
Proof. intros HP (evs & -> & H). exists evs. split; [done|]. by eapply Forall_impl. Qed.

Lemma stable_emits_mono {A} (P P' : event → Prop) (m : M A) :
  stable (emits P) m → (∀ e, P e → P' e) → stable (emits P') m.
Proof. intros Hm HP. eapply stable_mono; [exact Hm|]. intros s s'. by apply emits_mono. Qed.

Lemma stable_sys {A} (P : event → Prop) (ans : list event → A) ev :
  (∀ a, P (ev a)) → stable (emits P) (sys ans ev).
Proof.
  intros HP s. apply wp_sys. intros a _. exists [ev a].
  split; [done | by apply Forall_singleton].
Qed.

(** What a selection of the new events amounts to, in order. *)
Definition emitted {X} (sel : event → list X) (xs : list X) : relation St := λ s s',
  ∃ evs, s' = set_trace (trace s ++ evs) s ∧ evs ≫= sel = xs.

Lemma emitted_refl {X} (sel : event → list X) s : emitted sel [] s s.
Proof. exists []. by rewrite app_nil_r, set_trace_id. Qed.
Lemma emitted_trans {X} (sel : event → list X) xs ys s1 s2 s3 :
  emitted sel xs s1 s2 → emitted sel ys s2 s3 → emitted sel (xs ++ ys) s1 s3.
Proof.
  intros (e1 & -> & <-) (e2 & -> & <-). exists (e1 ++ e2).
  split; [by rewrite (assoc_L (++)) | by rewrite bind_app].
Qed.
#[export] Instance emitted_nil_preorder {X} (sel : event → list X) : PreOrder (emitted sel []).
Proof.
  split; [intros s; apply emitted_refl|].
  intros s1 s2 s3. apply (emitted_trans sel [] []).
Qed.

Lemma emits_emitted {X} (sel : event → list X) P s s' :
  (∀ e, P e → sel e = []) → emits P s s' → emitted sel [] s s'.
Proof.
  intros HP (evs & -> & H). exists evs. split; [done|].
  induction H as [|e evs He _ IH]; [done|]. cbn. by rewrite HP, IH.
Qed.

Lemma emitted_one {X} (sel : event → list X) e s :
  emitted sel (sel e) s (set_trace (trace s ++ [e]) s).
Proof. exists [e]. split; [done|]. cbn. apply app_nil_r. Qed.
(** One event, then events the selection ignores. *)
Lemma emitted_one_then {X} (sel : event → list X) P e s s' :
  (∀ e, P e → sel e = []) → emits P (set_trace (trace s ++ [e]) s) s' → emitted sel (sel e) s s'.
Proof.
  intros HP Hs. rewrite <- (app_nil_r (sel e)).
  eapply emitted_trans; [apply emitted_one | by eapply emits_emitted].
Qed.

Lemma stable_quiet {X A} (sel : event → list X) P (m : M A) :
  stable (emits P) m → (∀ e, P e → sel e = []) → stable (emitted sel []) m.
Proof. intros Hm HP. eapply stable_mono; [exact Hm|]. intros s s'. by apply emits_emitted. Qed.

Lemma emitted_trace {X} (sel : event → list X) xs s s' :
  emitted sel xs s s' → trace s' ≫= sel = (trace s ≫= sel) ++ xs.
Proof. intros (evs & -> & <-). cbn. apply bind_app. Qed.

(** The memory (everything but the history) is the same. *)
Definition same_mem : relation St := λ s s', ∃ t, s' = set_trace t s.
Lemma emitted_same_mem {X} (sel : event → list X) xs s s' : emitted sel xs s s' → same_mem s s'.
Proof. intros (evs & -> & _). by eexists. Qed.
Lemma emits_same_mem P s s' : emits P s s' → same_mem s s'.
Proof. intros (evs & -> & _). by eexists. Qed.
#[export] Instance same_mem_preorder : PreOrder same_mem.
Proof.
  split.
  - intros s. exists (trace s). by rewrite set_trace_id.
  - intros s ? ? [t ->] [t' ->]. by exists t'.
Qed.

(** A loop whose iterations each leave [g x], independently of the history. *)
Lemma wp_forM_emitted {A X} (sel : event → list X) (g : A → list X) (l : list A) f s :
  (∀ x s', x ∈ l → same_mem s s' → wp (f x) (λ _ s'', emitted sel (g x) s' s'') s') →
  wp (forM l f) (λ _ s', emitted sel (l ≫= g) s s') s.
Proof.
  intros Hf.
  apply (wp_forM (λ done s', emitted sel (done ≫= g) s s')).
  - apply emitted_refl.
  - intros done' x rest s' -> Hs'. eapply wp_mono.
    + apply Hf; [set_solver | by eapply emitted_same_mem].
    + intros ? s'' H. rewrite bind_app. cbn. rewrite app_nil_r. by eapply emitted_trans.
  - done.
Qed.

(** The same when what an iteration leaves depends on the environment. *)
Lemma wp_forM_emitted_rel {A X} (sel : event → list X) (Rel : A → list X → Prop) (l : list A) f s :
  (∀ x s', x ∈ l → same_mem s s' →
     wp (f x) (λ _ s'', ∃ xs, Rel x xs ∧ emitted sel xs s' s'') s') →
  wp (forM l f) (λ _ s', ∃ xss, Forall2 Rel l xss ∧ emitted sel (concat xss) s s') s.
Proof.
  intros Hf.
  apply (wp_forM (λ done s', ∃ xss, Forall2 Rel done xss ∧ emitted sel (concat xss) s s')).
  - exists []. split; [constructor | apply emitted_refl].
  - intros done' x rest s' -> (xss & HR & Hs'). eapply wp_mono.
    + apply Hf; [set_solver | by eapply emitted_same_mem].
    + cbv beta. intros [] s'' (xs & Hx & H). exists (xss ++ [xs]). split.
      * apply Forall2_app; [done | by constructor].
      * rewrite concat_app. cbn. rewrite app_nil_r. by eapply emitted_trans.
  - done.
Qed.

(** ** Classes of events *)

(** Log lines. *)
Definition log_ev (e : event) : Prop :=
  match e with EvSyslog _ _ | EvStderr _ => True | _ => False end.
(** Log lines and reads that change nothing outside. *)
Definition query_ev (e : event) : Prop :=
  match e with
  | EvCall _ _ | EvSocket _ _ _ _ | EvClose _ | EvRecvfrom _ _ _ => False
  | _ => True
  end.
(** The above and writes to the neighbour and route tables and to sysctls. *)
Definition mirror_ev (e : event) : Prop :=
  match e with
  | EvCall (NeighSet _ | NeighDel _ | RouteReplace _ | RouteDel _ | WriteFile _ _) _ => True
  | EvCall _ _ | EvSocket _ _ _ _ | EvClose _ | EvRecvfrom _ _ _ => False
  | _ => True
  end.
(** Queries and datagrams sent. *)
Definition send_ev (e : event) : Prop :=
  match e with
  | EvCall (Sendmsg _ _ _ _) _ => True
  | EvCall _ _ | EvSocket _ _ _ _ | EvClose _ | EvRecvfrom _ _ _ => False
  | _ => True
  end.
(** Anything but opening and closing a socket. *)
Definition nofd_ev (e : event) : Prop :=
  match e with EvSocket _ _ _ _ | EvClose _ => False | _ => True end.

Create HintDb stable.
#[export] Hint Resolve stable_ret stable_skip stable_get stable_deref
  emits_preorder emitted_nil_preorder same_mem_preorder : stable.

(** [ev_tac]: an inclusion between event classes. *)
Ltac ev_tac :=
  let e := fresh "e" in let He := fresh "He" in let k := fresh "k" in
  intros e He; destruct e as [k ?| | | | | | | | | | | | | |]; cbn in He |- *; try done;
  try (destruct k; cbn in He |- *; done).

Ltac solve_stable :=
  repeat first
    [ progress intros
    | assumption
    | lazymatch goal with |- PreOrder _ => typeclasses eauto end
    | solve [eauto with stable nocore]
    | solve [eapply stable_emits_mono; [solve [eauto with stable nocore] | ev_tac]]
    | lazymatch goal with
      | |- stable _ (_ ≫= _) => apply stable_bind
      | |- stable _ (when _ _) => apply stable_when
      | |- stable _ (forM _ _) => apply stable_forM
      | |- stable _ (foldM _ _ _) => apply stable_foldM
      | |- stable _ (sys _ _) => apply stable_sys; done
      | |- stable _ (match ?x with _ => _ end) => destruct x
      end ].

Section CallsStable.
Context `{Kernel}.

Lemma range_stable {A} (l : list A) : stable (emits query_ev) (range l).
Proof. unfold range. solve_stable. Qed.
#[local] Hint Resolve range_stable : stable.
Lemma range_interfaces_stable : stable (emits query_ev) range_interfaces.
Proof. unfold range_interfaces. solve_stable. Qed.

(** A range visits each element once. *)
Lemma wp_range_one {A} (l : list A) (Q : list A → St → Prop) s :
  (∀ l', l' ≡ₚ l → Q l' (set_trace (trace s ++ [EvRange]) s)) → wp (range l) Q s.
Proof.
  intros HQ. unfold range. apply wp_bind, wp_sys. intros cs _. apply wp_ret, HQ, permute_perm.
Qed.
Lemma wp_range {A} (l : list A) (Q : list A → St → Prop) s :
  (∀ l' s', l' ≡ₚ l → emits query_ev s s' → Q l' s') → wp (range l) Q s.
Proof.
  intros HQ. apply wp_range_one. intros l' Hl. apply HQ; [done|].
  exists [EvRange]. split; [done | by apply Forall_singleton].
Qed.
Lemma wp_range_interfaces (Q : list loc → St → Prop) s :
  (∀ l s', l ≡ₚ (map_to_list (interfaces s)).*2 → emits query_ev s s' → Q l s') →
  wp range_interfaces Q s.
Proof. intros HQ. unfold range_interfaces. apply wp_bind, wp_get. by apply wp_range. Qed.
End CallsStable.
#[export] Hint Resolve range_stable range_interfaces_stable : stable.

Lemma elem_of_interfaces (m : gmap string loc) p :
  p ∈ (map_to_list m).*2 ↔ ∃ n, m !! n = Some p.
Proof.
  rewrite list_elem_of_fmap. split.
  - intros ([n q] & -> & Hn%elem_of_map_to_list). eauto.
  - intros [n Hn]. exists (n, p). by rewrite elem_of_map_to_list.
Qed.
