(* ===== verification/Log.v ===== *)
(** * Logging ([internal/relay/log.go])

    The level filter and the sink.  A message is its format string; the
    formatted arguments are not modelled. *)
From S2P Require Import Prelude Netip World Hoare.

Definition LogEmerg := 0.
Definition LogAlert := 1.
Definition LogCrit := 2.
Definition LogErr := 3.
Definition LogWarning := 4.
Definition LogNotice := 5.
Definition LogInfo := 6.
Definition LogDebug := 7.

(** [SetLogLevel]: the low three bits of the argument. *)
Definition SetLogLevel (level : Z) : M unit := modify (set_logLevel (Z.land level 0x7)).
Definition LogLevel : M Z := s ← get; mret (logLevel s).

(** [SetLogSyslog]; [dial] is what [syslog.New] answers. *)
Definition SetLogSyslog (toSyslog : bool) (dial : option goerr) : M (option goerr) :=
  modify (set_logSyslog toSyslog) ;;
  if negb toSyslog then mret None
  else match dial with
       | Some err => mret (Some err)
       | None => modify (set_sysWriter true) ;; mret None
       end.

(** The writer method the [switch] of [logf] selects. *)
Definition syslog_priority (level : Z) : Z :=
  if bool_decide (level ∈ [LogEmerg; LogAlert; LogCrit; LogErr; LogWarning; LogNotice; LogInfo])
  then level else LogDebug.

Definition logf (level : Z) (format : string) : M unit :=
  s ← get;
  if level >? logLevel s then skip
  else if logSyslog s && sysWriter s then
    sys (λ _, tt) (λ _, EvSyslog (syslog_priority level) format)
  else sys (λ _, tt) (λ _, EvStderr format).

Definition Debugf := logf LogDebug.
Definition Infof := logf LogInfo.
Definition Noticef := logf LogNotice.
Definition Warnf := logf LogWarning.
Definition Errorf := logf LogErr.

Lemma logf_stable level fmt : stable (emits log_ev) (logf level fmt).
Proof. unfold logf. solve_stable. Qed.
#[export] Hint Resolve logf_stable : stable.
#[export] Hint Unfold Debugf Infof Noticef Warnf Errorf : stable.

(** A log call in front of a computation can be skipped over: whatever log
    lines it adds. *)
Lemma wp_log level fmt (Q : unit → St → Prop) s :
  (∀ s', emits log_ev s s' → Q tt s') → wp (logf level fmt) Q s.
Proof.
  intros HQ. wp_use logf_stable. intros [] s' Hs. by apply HQ.
Qed.

(** C-level behaviour of the filter: the level stays within 0..7, a message
    above it leaves no trace, one at or below it leaves one line. *)
Definition log_lines (e : event) : list string :=
  match e with EvSyslog _ m | EvStderr m => [m] | _ => [] end.

Lemma SetLogLevel_range level s :
  wp (SetLogLevel level) (λ _ s', 0 ≤ logLevel s' ≤ 7) s.
Proof.
  apply wp_modify. cbn. change 7 with (Z.ones 3). rewrite Z.land_ones by lia.
  pose proof (Z.mod_pos_bound level (2 ^ 3)). change (Z.ones 3) with 7. lia.
Qed.

Lemma logf_lines level fmt s :
  wp (logf level fmt)
     (λ _ s', emitted log_lines (if level >? logLevel s then [] else [fmt]) s s') s.
Proof.
  unfold logf. apply wp_bind, wp_get. destruct (level >? logLevel s) eqn:E.
  - apply wp_skip, emitted_refl.
  - destruct (logSyslog s && sysWriter s);
      (apply wp_sys; intros [] _; eexists; split; [reflexivity | done]).
Qed.
