(* ===== verification/Iface.v ===== *)
(** * Interfaces ([internal/relay/iface.go], [common.go])

    Looking interfaces up, their defaults, their hardware and link-local
    addresses, and the choice of the DHCPv6 link address. *)
From S2P Require Import Prelude Netip World Hoare Log.

Section Iface.
Context `{Kernel}.

(** [nowMono]: the coarse clock, or the plain one when that fails; zero
    when both do (the error of the second call is ignored). *)
Definition nowMono : M Z :=
  r ← sys_clock unix.CLOCK_MONOTONIC_COARSE;
  match r with
  | Some sec => mret sec
  | None => r' ← sys_clock unix.CLOCK_MONOTONIC; mret (default 0 r')
  end.

(** The first interface, in this loop's order, that passes a test. *)
Definition find_interface (test : Interface → bool) : M (option loc) :=
  ps ← range_interfaces; s ← get; mret (find (λ p, test (heap s !!! p)) ps).
Definition ifaceByIndex (i : Z) : M (option loc) :=
  find_interface (λ iface, Ifindex iface =? i).
Definition ifaceByIfname (name : string) : M (option loc) :=
  find_interface (λ iface, bool_decide (Ifname iface = name)).

Definition setInterfaceDefaults (p : loc) : M unit :=
  assign p (λ i,
    set_cachedLLValid false (set_NdpFromLinkLocal true (set_LearnRoutes true
      (set_NDP ModeRelay (set_DHCPv6 ModeRelay (set_RA ModeRelay i)))))).

(** [getMAC]: the hardware address, [None] for either error. *)
Definition getMAC (p : loc) : M (option (list Z)) :=
  i ← deref p;
  r ← sys_interfaceByName (Ifname i);
  match r with
  | None => mret None
  | Some hw => if (length hw <? 6)%nat then mret None else mret (Some hw)
  end.

(** A usable link-local entry of the address list. *)
Definition is_ll_source (a : IPAddr) : bool :=
  negb (Tentative a) && Is6 (ip_Addr a) && IsLinkLocalUnicast (ip_Addr a).

Definition getLinkLocalAddr (p : loc) : M (option Addr) :=
  i ← deref p;
  if cachedLLValid i then mret (Some (cachedLL i))
  else match find is_ll_source (Addr6 i) with
       | Some a =>
           assign p (λ i, set_cachedLLValid true (set_cachedLL (ip_Addr a) i)) ;;
           mret (Some (ip_Addr a))
       | None => mret None
       end.

(** The loop of [relayLinkAddress]; [best] is Go's [best] pointer. *)
Fixpoint pickLinkAddress (now : Z) (best : option IPAddr) (l : list IPAddr) : option IPAddr :=
  match l with
  | [] => best
  | a :: l' =>
      if Tentative a || (negb (ValidLT a =? 0) && (ValidLT a <=? now))
      then pickLinkAddress now best l'
      else if (PreferredLT a =? 0) || (PreferredLT a >? now) then Some a
      else match best with
           | None => pickLinkAddress now (Some a) l'
           | Some b =>
               if (ValidLT a =? 0) || (negb (ValidLT b =? 0) && (ValidLT a >? ValidLT b))
               then pickLinkAddress now (Some a) l'
               else pickLinkAddress now best l'
           end
  end.

Definition relayLinkAddress (p : loc) : M (option Addr) :=
  t ← nowMono;
  i ← deref p;
  mret (ip_Addr <$> pickLinkAddress (u32 t) None (Addr6 i)).

(** ** Frame lemmas *)

Lemma nowMono_stable : stable (emits query_ev) nowMono.
Proof. unfold nowMono, sys_clock. solve_stable. Qed.
Lemma find_interface_stable t : stable (emits query_ev) (find_interface t).
Proof. unfold find_interface. solve_stable. Qed.
#[local] Hint Resolve nowMono_stable find_interface_stable : stable.
Lemma ifaceByIndex_stable i : stable (emits query_ev) (ifaceByIndex i).
Proof. apply find_interface_stable. Qed.
Lemma ifaceByIfname_stable n : stable (emits query_ev) (ifaceByIfname n).
Proof. apply find_interface_stable. Qed.
Lemma getMAC_stable p : stable (emits query_ev) (getMAC p).
Proof. unfold getMAC, sys_interfaceByName. solve_stable. Qed.
Lemma relayLinkAddress_stable p : stable (emits query_ev) (relayLinkAddress p).
Proof. unfold relayLinkAddress. solve_stable. Qed.

(** What a lookup finds: a registered interface passing the test, and only
    if none passes, nothing. *)
Lemma wp_find_interface test (Q : option loc → St → Prop) s :
  (∀ n p s', emits query_ev s s' → interfaces s !! n = Some p →
     test (heap s !!! p) = true → Q (Some p) s') →
  (∀ s', emits query_ev s s' →
     (∀ n p, interfaces s !! n = Some p → test (heap s !!! p) = false) → Q None s') →
  wp (find_interface test) Q s.
Proof.
  intros HS HN. unfold find_interface. apply wp_bind, wp_range_interfaces.
  intros l s' Hl Hs. apply wp_bind, wp_get, wp_ret.
  assert (heap s' = heap s) as -> by (by destruct Hs as (? & -> & _)).
  destruct (find _ l) as [p|] eqn:E.
  - apply find_some in E as [Hin Ht]. apply list_elem_of_In in Hin.
    rewrite Hl in Hin. apply elem_of_interfaces in Hin as [n Hn]. eauto.
  - apply HN; [done|]. intros n p Hn. apply (find_none _ _ E p).
    apply list_elem_of_In. rewrite Hl. apply elem_of_interfaces. eauto.
Qed.
End Iface.
#[export] Hint Resolve nowMono_stable find_interface_stable ifaceByIndex_stable
  ifaceByIfname_stable getMAC_stable relayLinkAddress_stable : stable.

(** ** The link address

    An address is usable when it is not tentative and not expired, and
    preferred when its preferred lifetime lies ahead (zero is infinite). *)
Definition usable (now : Z) (a : IPAddr) : bool :=
  negb (Tentative a) && ((ValidLT a =? 0) || (now <? ValidLT a)).
Definition preferred (now : Z) (a : IPAddr) : bool :=
  (PreferredLT a =? 0) || (now <? PreferredLT a).

(** [a] is valid at least as long as [b]. *)
Definition outlives (a b : IPAddr) : Prop :=
  ValidLT a = 0 ∨ (ValidLT b ≠ 0 ∧ ValidLT b ≤ ValidLT a).

#[export] Instance outlives_preorder : PreOrder outlives.
Proof. split; [intros a | intros a b c]; unfold outlives; lia. Qed.

(** What the choice must be: the first usable preferred address, else a usable
    one no other usable one outlives, else none. *)
Definition best_link_address (now : Z) (l : list IPAddr) (r : option IPAddr) : Prop :=
  match find (λ a, usable now a && preferred now a) l with
  | Some a => r = Some a
  | None =>
      match r with
      | Some a => a ∈ l ∧ usable now a = true ∧
                  ∀ b, b ∈ l → usable now b = true → outlives a b
      | None => ∀ b, b ∈ l → usable now b = false
      end
  end.

Lemma usable_test now a :
  Tentative a || (negb (ValidLT a =? 0) && (ValidLT a <=? now)) = negb (usable now a).
Proof.
  unfold usable. destruct (Tentative a), (Z.eqb_spec (ValidLT a) 0); try done; cbn.
  destruct (Z.leb_spec (ValidLT a) now), (Z.ltb_spec now (ValidLT a)); try done; lia.
Qed.
Lemma preferred_test now a :
  (PreferredLT a =? 0) || (PreferredLT a >? now) = preferred now a.
Proof. unfold preferred. by rewrite Z.gtb_ltb. Qed.

(** The loop, from any point: [best] outlives every usable address seen so
    far, none of which is preferred. *)
Lemma pickLinkAddress_spec now seen best l :
  find (λ a, usable now a && preferred now a) seen = None →
  best_link_address now seen best →
  best_link_address now (seen ++ l) (pickLinkAddress now best l).
Proof.
  revert seen best. induction l as [|a l IH]; intros seen best Hseen Hbest;
    [by rewrite app_nil_r|].
  cbn [pickLinkAddress]. rewrite usable_test, preferred_test.
  replace (seen ++ a :: l) with ((seen ++ [a]) ++ l) by by rewrite <- app_assoc.
  unfold best_link_address in Hbest. rewrite Hseen in Hbest.
  assert (∀ r, usable now a && preferred now a = false →
     match r with
     | Some x => x ∈ seen ++ [a] ∧ usable now x = true ∧
         ∀ b, b ∈ seen ++ [a] → usable now b = true → outlives x b
     | None => ∀ b, b ∈ seen ++ [a] → usable now b = false
     end → best_link_address now ((seen ++ [a]) ++ l) (pickLinkAddress now r l)) as Hgo.
  { intros r Ha Hr. assert (find (λ a, usable now a && preferred now a) (seen ++ [a]) = None).
    { rewrite find_app, Hseen. cbn. by rewrite Ha. }
    apply IH; [done|]. unfold best_link_address. by rewrite H. }
  destruct (usable now a) eqn:Ha; cbn [negb].
  - destruct (preferred now a) eqn:Hp.
    { unfold best_link_address. rewrite !find_app, Hseen. cbn. by rewrite Ha, Hp. }
    destruct best as [b|].
    + destruct Hbest as (Hb & Hub & Hmax).
      destruct ((ValidLT a =? 0) || _) eqn:E; apply Hgo; try done.
      * split; [set_solver|]. split; [done|]. intros c [Hc|Hc]%elem_of_app Hu.
        -- transitivity b; [|eauto]. unfold outlives.
           apply orb_true_iff in E as [E|E]; to_prop; lia.
        -- by apply list_elem_of_singleton in Hc as ->.
      * split; [set_solver|]. split; [done|]. intros c [Hc|Hc]%elem_of_app Hu; [eauto|].
        apply list_elem_of_singleton in Hc as ->. unfold outlives.
        rewrite Z.gtb_ltb in E. apply orb_false_iff in E as [E1 [E2|E2]%andb_false_iff];
          to_prop; lia.
    + apply Hgo; [done|]. split; [set_solver|]. split; [done|].
      intros c [Hc|Hc]%elem_of_app Hu; [by rewrite Hbest in Hu|].
      by apply list_elem_of_singleton in Hc as ->.
  - apply Hgo; [done|]. destruct best as [b|].
    + destruct Hbest as (Hb & Hub & Hmax). split; [set_solver|]. split; [done|].
      intros c [Hc|Hc]%elem_of_app Hu; [eauto|].
      apply list_elem_of_singleton in Hc as ->. congruence.
    + intros c [Hc|Hc]%elem_of_app; [eauto|].
      by apply list_elem_of_singleton in Hc as ->.
Qed.
