(* ===== verification/RawSock.v ===== *)
(** * Sockets ([internal/relay/rawsock.go])

    Ancillary data, socket addresses, the ICMPv6 type filter, and the ICMPv6
    send path.  The unsafe stores are modelled for 64-bit little-endian Linux
    (the layout of [struct cmsghdr] and [struct in6_pktinfo] there). *)
From S2P Require Import Prelude Netip World Hoare Log Iface.

(** [unsafe.Sizeof(unix.Inet6Pktinfo{})]. *)
Definition sizeofPktinfo : Z := 20.

(** What the program relies on of its environment, beyond answers of the right
    type: the documented sizes of control messages (RFC 3542: an aligned
    16-byte header), and that [socket] returns a descriptor that is not
    negative and not open. *)
Definition fd_delta (open : gset Z) (e : event) : gset Z :=
  match e with
  | EvSocket _ _ _ (inr fd) => {[fd]} ∪ open
  | EvClose fd => open ∖ {[fd]}
  | _ => open
  end.
Definition open_fds (h : list event) : gset Z := foldl fd_delta ∅ h.

Class KernelOk (KN : Kernel) : Prop := {
  cmsg_len_ok n : 0 ≤ n → k_CmsgLen n = 16 + n;
  cmsg_space_ok n : 0 ≤ n → k_CmsgSpace n = 16 + 8 * ((n + 7) / 8);
  socket_fresh h d t p fd :
    k_socket h d t p = inr fd → 0 ≤ fd ∧ fd ∉ open_fds h
}.

(** A store through an unsafe pointer into [buf]; outside of it is [Panic]. *)
Definition write_at (buf : list Z) (off : Z) (src : list Z) : res (list Z) :=
  if (0 <=? off) && (off + Z.of_nat (length src) <=? Z.of_nat (length buf))
  then Ok (splice buf (Z.to_nat off) src) else Panic.

Section Cmsg.
Context `{Kernel}.

(** [cmsgPktinfo]: [make] of a negative size panics. *)
Definition cmsgPktinfo (ifindex : Z) (src : Addr) : res (list Z) :=
  let pi := (if Is6 src then As16 src else replicate 16 0) ++ le_bytes 4 (u32 ifindex) in
  let space := k_CmsgSpace sizeofPktinfo in
  if space <? 0 then Panic else
  let buf := replicate (Z.to_nat space) 0 in
  let hdr := le_bytes 8 (k_CmsgLen sizeofPktinfo) ++ le_bytes 4 unix.IPPROTO_IPV6
               ++ le_bytes 4 unix.IPV6_PKTINFO in
  buf ← write_at buf 0 hdr;
  write_at buf (k_CmsgLen 0) pi.

(** [parseCmsgs]: the result triple [(ifindex, hoplimit, hasHoplimit)]. *)
Definition parseCmsg (acc : Z * Z * bool) (m : cmsg) : Z * Z * bool :=
  let '(ifindex, hoplimit, has) := acc in
  if (cm_Level m =? unix.IPPROTO_IPV6) && (cm_Type m =? unix.IPV6_PKTINFO)
     && (sizeofPktinfo <=? Z.of_nat (length (cm_Data m)))
  then (le_val (take 4 (drop 16 (cm_Data m))), hoplimit, has)
  else if (cm_Level m =? unix.IPPROTO_IPV6) && (cm_Type m =? unix.IPV6_HOPLIMIT)
          && (4 <=? Z.of_nat (length (cm_Data m)))
  then (ifindex, i32 (le_val (take 4 (cm_Data m))), true)
  else acc.
Definition parseCmsgs (oob : list Z) : Z * Z * bool :=
  match k_ParseCmsgs oob with
  | None => (0, 0, false)
  | Some msgs => foldl parseCmsg (0, 0, false) msgs
  end.
End Cmsg.

(** [sockaddrIn6]: the scope is set for link-local destinations. *)
Definition sockaddrIn6 (dest : Addr) (port ifindex : Z) : SockaddrInet6 :=
  mkSockaddr port (As16 dest)
    (if IsLinkLocalUnicast dest || IsLinkLocalMulticast dest then u32 ifindex else 0).

(** ** The ICMPv6 type filter *)

Definition icmpv6FilterOpt := 1.

(** [icmp6FilterBlockAll]: eight words of ones. *)
Definition icmp6FilterBlockAll : list Z := replicate 8 0xffffffff.

(** [icmp6FilterSetPass]: [f.Data[t>>5] &^= 1 << (t & 31)]. *)
Definition icmp6FilterSetPass (f : list Z) (t : Z) : res (list Z) :=
  let i := Z.shiftr t 5 in
  if i <? 0 then Panic else
  match f !! Z.to_nat i with
  | Some w => Ok (<[Z.to_nat i := Z.ldiff w (Z.shiftl 1 (Z.land t 31))]> f)
  | None => Panic
  end.

(** The kernel's reading of a filter: type [t] is dropped iff its bit is set. *)
Definition filter_passes (f : list Z) (t : Z) : bool :=
  negb (Z.testbit (f !!! Z.to_nat (Z.shiftr t 5)) (Z.land t 31)).

Section Raw.
Context `{Kernel}.

(** [bindToDevice], [setsockoptInt], [joinMulticast6]. *)
Definition bindToDevice (fd : Z) (ifname : string) : M (option goerr) :=
  sys_err (BindToDevice fd ifname).
Definition setsockoptInt (fd level opt val : Z) : M (option goerr) :=
  sys_err (SetsockoptInt fd level opt val).
Definition joinMulticast6 (fd : Z) (group : Addr) (ifindex : Z) (join : bool) : M (option goerr) :=
  sys_err (SetsockoptIPv6Mreq fd unix.IPPROTO_IPV6
    (if join then unix.IPV6_ADD_MEMBERSHIP else unix.IPV6_DROP_MEMBERSHIP)
    (As16 group) (u32 ifindex)).

(** [closeFD]: the error of [close] is ignored. *)
Definition closeFD (fd : Z) : M unit := when (0 <=? fd) (sys_close fd).

Definition sendICMP6FD (fd : Z) (iface : loc) (dest : Addr) (ifindex : Z)
    (tryLinkLocalSrc : Addr) (payload : list Z) : M (option goerr) :=
  let sa := sockaddrIn6 dest unix.IPPROTO_ICMPV6 ifindex in
  oob ← lift (cmsgPktinfo ifindex tryLinkLocalSrc);
  err ← sys_err (Sendmsg fd payload oob sa);
  match err with
  | Some e => Errorf "Failed to send ICMPv6 to %s%%%s@%s: %v" ;; mret (Some e)
  | None => Debugf "Sent %d bytes ICMPv6 to %s%%%s@%s" ;; mret None
  end.

Definition sendICMP6WithLLSrc (fd : Z) (iface : loc) (dest : Addr) (ifindex : Z)
    (payload : list Z) : M unit :=
  i ← deref iface;
  src ← (if NdpFromLinkLocal i
         then ll ← getLinkLocalAddr iface; mret (default AddrNone ll)
         else mret AddrNone);
  _ ← sendICMP6FD fd iface dest ifindex src payload;
  skip.
End Raw.

(** [mustParseAddr]: a literal that does not parse panics. *)
Definition mustParseAddr (s : string) : res Addr :=
  match ParseAddr s with
  | Some a => Ok a
  | None => Panic
  end.

(** ** Shapes shared by the three socket services *)

(** [if err := m; err != nil { Errorf(...); return err }]. *)
Definition check (fmt : string) (m : M (option goerr)) (k : M (option goerr)) : M (option goerr) :=
  err ← m;
  match err with
  | Some e => Errorf fmt ;; mret (Some e)
  | None => k
  end.

(** [defer func() { if !ok { closeFD(fd) } }()] around a body that sets [ok]
    exactly when it returns [nil]. *)
Definition closing_on_error `{Kernel} (fd : Z) (body : M (option goerr)) : M (option goerr) :=
  r ← body;
  match r with
  | Some e => closeFD fd ;; mret (Some e)
  | None => mret None
  end.

(** One turn of a reader goroutine: what [Recvmsg]/[Recvfrom] gave, and what
    the loop does next. *)
Inductive recv_result : Type :=
| RecvError (e : goerr)
| Received (data oob : list Z) (from : option (list Z)).
Inductive loop_step (A : Type) : Type :=
| LoopReturn
| LoopContinue
| LoopSleep
| LoopPost (a : A).
Arguments LoopReturn {A}.
Arguments LoopContinue {A}.
Arguments LoopSleep {A}.
Arguments LoopPost {A} a.
Definition is_EINTR (e : goerr) : bool :=
  match e with Errno n => n =? unix.EINTR | _ => false end.

(** [hwAddrBytes6]: [copy] into a zeroed array of six. *)
Definition hwAddrBytes6 (hw : list Z) : list Z := take 6 (hw ++ replicate 6 0).

(** ** Filter lemmas *)

Lemma land_31_range t : 0 ≤ Z.land t 31 < 32.
Proof.
  change 31 with (Z.ones 5). rewrite Z.land_ones by lia.
  apply Z.mod_pos_bound. lia.
Qed.

Lemma filter_index_inj t t' :
  Z.shiftr t 5 = Z.shiftr t' 5 → Z.land t 31 = Z.land t' 31 → t = t'.
Proof.
  intros H1 H2. rewrite !Z.shiftr_div_pow2 in H1 by lia.
  change 31 with (Z.ones 5) in H2. rewrite !Z.land_ones in H2 by lia.
  rewrite (Z.div_mod t (2 ^ 5)), (Z.div_mod t' (2 ^ 5)) by lia. congruence.
Qed.

Lemma filter_index_bound t : 0 ≤ t < 256 → (Z.to_nat (Z.shiftr t 5) < 8)%nat.
Proof.
  intros Ht. rewrite Z.shiftr_div_pow2 by lia.
  pose proof (Z.div_lt_upper_bound t (2 ^ 5) 8). lia.
Qed.

(** Setting one type to pass succeeds and affects that type alone. *)
Lemma icmp6FilterSetPass_spec f t :
  length f = 8%nat → 0 ≤ t < 256 →
  ∃ f', icmp6FilterSetPass f t = Ok f' ∧ length f' = 8%nat ∧
    ∀ t', 0 ≤ t' < 256 → filter_passes f' t' = (t' =? t) || filter_passes f t'.
Proof.
  intros Hf Ht. pose proof (filter_index_bound t Ht) as Hi. unfold icmp6FilterSetPass.
  assert (0 ≤ Z.shiftr t 5) by (apply Z.shiftr_nonneg; lia).
  destruct (Z.ltb_spec (Z.shiftr t 5) 0); [lia|].
  destruct (lookup_lt_is_Some_2 f (Z.to_nat (Z.shiftr t 5))) as [w Hw]; [lia|].
  rewrite Hw. eexists. split; [done|]. split; [by rewrite length_insert|].
  intros t' Ht'. unfold filter_passes.
  destruct (decide (Z.shiftr t' 5 = Z.shiftr t 5)) as [E|E].
  - rewrite E, list_lookup_total_insert_eq, (list_lookup_total_correct _ _ _ Hw) by lia.
    rewrite Z.ldiff_spec, Z.shiftl_spec by apply land_31_range.
    destruct (Z.eqb_spec t' t) as [->|Hne].
    + by rewrite Z.sub_diag, andb_false_r.
    + assert (Z.land t' 31 ≠ Z.land t 31) by (intros ?; by apply Hne, filter_index_inj).
      replace (Z.testbit 1 _) with false; [by rewrite andb_true_r|].
      symmetry. destruct (Z.lt_ge_cases (Z.land t' 31 - Z.land t 31) 0).
      * by apply Z.testbit_neg_r.
      * rewrite <- (Z.pow_0_r 2). apply Z.pow2_bits_false. lia.
  - assert (0 ≤ Z.shiftr t' 5) by (apply Z.shiftr_nonneg; lia).
    rewrite list_lookup_total_insert_ne by lia.
    by destruct (Z.eqb_spec t' t) as [->|].
Qed.

(** ** Ancillary data lemmas *)

(** The 40 bytes of the packet-info message. *)
Definition pktinfo_cmsg (ifindex : Z) (src : Addr) : list Z :=
  le_bytes 8 36 ++ le_bytes 4 unix.IPPROTO_IPV6 ++ le_bytes 4 unix.IPV6_PKTINFO
    ++ (if Is6 src then As16 src else replicate 16 0) ++ le_bytes 4 (u32 ifindex)
    ++ replicate 4 0.

Section RawLemmas.
Context `{KN : Kernel} `{!KernelOk KN}.

Lemma cmsgPktinfo_layout ifindex src :
  cmsgPktinfo ifindex src = Ok (pktinfo_cmsg ifindex src).
Proof.
  unfold cmsgPktinfo, pktinfo_cmsg, sizeofPktinfo.
  rewrite !cmsg_len_ok, cmsg_space_ok by lia.
  assert (length (if Is6 src then As16 src else replicate 16 0) = 16%nat) as Hl
    by (destruct (Is6 src); [apply length_As16 | done]).
  revert Hl. generalize (if Is6 src then As16 src else replicate 16 0). intros a Hl.
  do 17 (destruct a as [|? a]; [discriminate Hl || reflexivity|]). discriminate Hl.
Qed.

Lemma closeFD_nonneg fd : 0 ≤ fd → closeFD fd = sys_close fd.
Proof. intros. unfold closeFD, when. by destruct (Z.leb_spec 0 fd); [|lia]. Qed.

Lemma sendICMP6FD_stable fd p dest i src payload :
  stable (emits send_ev) (sendICMP6FD fd p dest i src payload).
Proof.
  unfold sendICMP6FD. apply stable_bind; [typeclasses eauto| |].
  - eapply stable_lift; [typeclasses eauto | apply cmsgPktinfo_layout].
  - unfold sys_err. solve_stable.
Qed.
End RawLemmas.
#[export] Hint Resolve sendICMP6FD_stable : stable.

(** The datagrams sent, as calls. *)
Definition sends (e : event) : list call :=
  match e with EvCall (Sendmsg fd p o sa) _ => [Sendmsg fd p o sa] | _ => [] end.

Lemma log_ev_sends e : log_ev e → sends e = [].
Proof. by destruct e. Qed.
Lemma query_ev_sends e : query_ev e → sends e = [].
Proof. by destruct e. Qed.

(** The datagram [sendICMP6FD] hands to the kernel. *)
Definition icmp6_datagram (fd ifindex : Z) (dest src : Addr) (payload : list Z) : call :=
  Sendmsg fd payload (pktinfo_cmsg ifindex src)
    (sockaddrIn6 dest unix.IPPROTO_ICMPV6 ifindex).

(** The datagrams the kernel accepted. *)
Definition accepted (e : event) : list call :=
  match e with EvCall (Sendmsg fd p o sa) None => [Sendmsg fd p o sa] | _ => [] end.
Lemma log_ev_accepted e : log_ev e → accepted e = [].
Proof. by destruct e. Qed.
Lemma query_ev_accepted e : query_ev e → accepted e = [].
Proof. by destruct e. Qed.

Section RawSpecs.
Context `{KN : Kernel} `{!KernelOk KN}.

(** One call, whatever selection one looks at; log lines aside. *)
Lemma sendICMP6FD_emitted {X} (sel : event → list X) fd p dest i src payload s :
  (∀ e, log_ev e → sel e = []) →
  wp (sendICMP6FD fd p dest i src payload)
     (λ r s', emitted sel (sel (EvCall (icmp6_datagram fd i dest src payload) r)) s s') s.
Proof.
  intros Hsel. unfold sendICMP6FD. apply wp_bind. eapply wp_lift; [apply cmsgPktinfo_layout|].
  apply wp_bind, wp_sys. intros err _. destruct err as [e|];
    (apply wp_bind, wp_log; intros s' Hs; apply wp_ret;
     exact (emitted_one_then sel _ _ _ _ Hsel Hs)).
Qed.

(** The error returned tells whether the datagram was accepted. *)
Lemma sendICMP6FD_accepted fd p dest i src payload s :
  wp (sendICMP6FD fd p dest i src payload)
     (λ r s', emitted accepted
        (match r with None => [icmp6_datagram fd i dest src payload] | Some _ => [] end) s s') s.
Proof.
  wp_use (sendICMP6FD_emitted accepted); [apply log_ev_accepted|]. intros r s'. by destruct r.
Qed.

Lemma sendICMP6FD_sends fd p dest i src payload s :
  wp (sendICMP6FD fd p dest i src payload)
     (λ _ s', emitted sends [icmp6_datagram fd i dest src payload] s s') s.
Proof. wp_use (sendICMP6FD_emitted sends); [apply log_ev_sends | done]. Qed.
End RawSpecs.
