(* ===== verification/Sim.v ===== *)
(** * A simulated environment

    A concrete [Kernel], described by tables, that satisfies [KernelOk]: used
    to evaluate the handlers on concrete inputs and to show that the
    hypotheses of the theorems can hold. *)
From S2P Require Import Prelude Netip World Hoare Log Iface RawSock.

Record sim : Type := mkSim {
  sim_err : list event → call → option goerr;
  sim_socket_err : list event → Z → option goerr;
  sim_files : list (string * list Z);
  sim_macs : list (string * list Z);
  sim_links : list (string * Link);
  sim_addrs : list (Z * list NlAddr);
  sim_neighs : list (Z * list Neigh);
  sim_routes : list (Z * list Route);
  sim_now : Z;
  sim_json : list Z → option jsonRoot;
  sim_cmsgs : list Z → option (list cmsg)
}.

Definition assoc {K V} `{EqDecision K} (k : K) (l : list (K * V)) : option V :=
  snd <$> find (λ p, bool_decide (p.1 = k)) l.

(** The smallest descriptor above all open ones. *)
Definition fresh_fd (h : list event) : Z := foldr (λ x m, Z.max (x + 1) m) 3 (elements (open_fds h)).

Lemma foldr_max_bound l : 3 ≤ foldr (λ x m, Z.max (x + 1) m) 3 l ∧
  ∀ x, x ∈ l → x < foldr (λ x m, Z.max (x + 1) m) 3 l.
Proof.
  induction l as [|y l [IH1 IH2]]; cbn; [split; [lia | set_solver]|].
  split; [lia|]. intros x [->|Hx]%elem_of_cons; [lia|]. specialize (IH2 x Hx). lia.
Qed.

Definition sim_kernel (c : sim) : Kernel := {|
  k_err := sim_err c;
  k_socket h d t p := match sim_socket_err c h d with
                      | Some e => inl e | None => inr (fresh_fd h) end;
  k_backlog _ _ := O;
  k_readFile _ path := assoc path (sim_files c);
  k_interfaceByName _ n := assoc n (sim_macs c);
  k_linkByIndex _ i := snd <$> find (λ p, l_Index p.2 =? i) (sim_links c);
  k_linkByName _ n := match assoc n (sim_links c) with
                      | Some l => inr l | None => inl (ErrMsg "Link not found") end;
  k_addrList _ i := Some (default [] (assoc i (sim_addrs c)));
  k_neighList _ i := Some (default [] (assoc i (sim_neighs c)));
  k_routeList _ i := Some (default [] (assoc i (sim_routes c)));
  k_clock _ _ := Some (sim_now c);
  k_range _ := [];
  k_CmsgLen n := 16 + n;
  k_CmsgSpace n := 16 + 8 * ((n + 7) / 8);
  k_ParseCmsgs := sim_cmsgs c;
  k_unmarshal := sim_json c
|}.

#[export] Instance sim_kernel_ok c : KernelOk (sim_kernel c).
Proof.
  split; [done | done |]. cbn. intros h d t p fd. destruct (sim_socket_err c h d); [done|].
  intros [= <-]. unfold fresh_fd. destruct (foldr_max_bound (elements (open_fds h))) as [H1 H2].
  split; [lia|]. intros Hin. apply elem_of_elements, H2 in Hin. lia.
Qed.

(** Nothing fails, every table is empty. *)
Definition quiet_sim : sim := mkSim (λ _ _, None) (λ _ _, None) [] [] [] [] [] [] 0 (λ _, None) (λ _, None).

(** The state before the first configuration is loaded: the initial values of
    the package variables. *)
Definition initial_state : St :=
  mkSt ∅ ∅ ∅ false "" false LogWarning true false [] [] ∅ 1%positive [].

(** ** A sample network

    An upstream interface [eth0] and a downstream one [eth1], both up, with
    sockets open on the latter's services. *)

Definition ll_addr (n : Z) : Addr := AddrV6 (0xfe80 * 2 ^ 112 + n).
Definition global_addr (n : Z) : Addr := AddrV6 (0x20010db8 * 2 ^ 96 + n).

Definition sample_mac (n : Z) : list Z := [2; 0; 0; 0; 0; n].
Definition sample_link (i : Z) : Link := mkLink i unix.IFF_RUNNING.
Definition sample_nladdr (a : Addr) (len : nat) : NlAddr :=
  mkNlAddr (mkIPNet (AsSlice a) (CIDRMask len 128)) 1800 3600 0.
Definition sample_neigh (i : Z) (a : Addr) : Neigh := mkNeigh i unix.AF_INET6 unix.NUD_REACHABLE 0 (AsSlice a).

Definition sample_json : jsonRoot :=
  mkJsonRoot (Some (mkJsonGlobal (Some 7)))
    (<["wan" := mkJsonIface (Some "eth0"%string) (Some true) None None]>
      (<["lan" := mkJsonIface (Some "eth1"%string) None None None]> ∅)).

Definition sample_sim : sim := mkSim (λ _ _, None) (λ _ _, None)
  [("/etc/ipv6-relay/config.json"%string, [123; 125])]
  [("eth0"%string, sample_mac 1); ("eth1"%string, sample_mac 2)]
  [("eth0"%string, sample_link 2); ("eth1"%string, sample_link 3)]
  [(2, [sample_nladdr (ll_addr 1) 64]);
   (3, [sample_nladdr (ll_addr 2) 64; sample_nladdr (global_addr 1) 64])]
  [(3, [sample_neigh 3 (global_addr 7)])] []
  1000 (λ _, Some sample_json) (λ _, Some []).

Definition sample_wan : Interface :=
  mkInterface "wan" "eth0" 2 true true true true true
    [mkIPAddr (ll_addr 1) 64 0 0 false] AddrNone false true ModeRelay ModeRelay ModeRelay
    (Some (mkRouterSock 3%positive 3 1%positive 4%positive)) (Some (mkDhcpSock 5%positive 4 1%positive 6%positive))
    (Some (mkNdpSock 7%positive 6 5 1%positive 8%positive)) 0 None 0.
Definition sample_lan : Interface :=
  mkInterface "lan" "eth1" 3 true false true true true
    [mkIPAddr (ll_addr 2) 64 0 0 false; mkIPAddr (global_addr 1) 64 2000 4000 false]
    AddrNone false true ModeRelay ModeRelay ModeRelay
    (Some (mkRouterSock 9%positive 7 2%positive 10%positive)) (Some (mkDhcpSock 11%positive 8 2%positive 12%positive))
    (Some (mkNdpSock 13%positive 10 9 2%positive 14%positive)) 0 None 0.

Definition sample_state : St :=
  mkSt (<[1%positive := sample_wan]> (<[2%positive := sample_lan]> ∅))
    (<["wan" := 1%positive]> (<["lan" := 2%positive]> ∅)) ∅ false "/etc/ipv6-relay/config.json" false
    LogDebug true false [] [] ∅ 20%positive [].
Definition sample_kernel : Kernel := sim_kernel sample_sim.

Lemma sample_interfaces n p :
  interfaces sample_state !! n = Some p → (n = "wan"%string ∧ p = 1%positive) ∨ (n = "lan"%string ∧ p = 2%positive).
Proof.
  cbn. intros [[<- <-]|[_ [[<- <-]|[_ H]]%lookup_insert_Some]]%lookup_insert_Some; auto.
  by rewrite lookup_empty in H.
Qed.
