(* ===== verification/Sockets.v ===== *)
(** * Group addresses and ancillary data

    The package variables of [rawsock.go] that start-up parses, and what the
    reading half of the ancillary data ([parseCmsgs]) makes of the writing half
    ([cmsgPktinfo]). *)
From S2P Require Import Prelude Netip World Hoare Log Iface RawSock Sim.

(** What RFC 3542 says of a buffer that holds one control message: a 16-byte
    header, the data, and zeros up to a multiple of eight. *)
Definition one_cmsg (level type : Z) (data pad : list Z) : list Z :=
  le_bytes 8 (16 + Z.of_nat (length data)) ++ le_bytes 4 level ++ le_bytes 4 type ++ data ++ pad.
Definition parses_one_cmsg `{Kernel} : Prop := ∀ level type data pad,
  0 ≤ level < 2 ^ 31 → 0 ≤ type < 2 ^ 31 → Z.of_nat (length data) < 2 ^ 31 → Forall is_byte data →
  length pad = ((8 - length data `mod` 8) `mod` 8)%nat →
  k_ParseCmsgs (one_cmsg level type data pad) = Some [mkCmsg level type data].

(** ** The groups *)

(** The four literals the package parses when it is loaded are addresses,
    so start-up does not panic, and they are the groups the relay uses
    everywhere else; each is multicast, and all but the site-local server
    group are link-local, so that a datagram to them carries the index of the
    interface it leaves by ([sockaddrIn6]) and one to the server group does not. *)
Lemma group_addresses port ifindex :
  mustParseAddr "ff02::1" = Ok allIPv6Nodes ∧ mustParseAddr "ff02::2" = Ok allIPv6Routers ∧
  mustParseAddr "ff02::1:2" = Ok allDHCPv6Relays ∧ mustParseAddr "ff05::1:3" = Ok allDHCPv6Server ∧
  Forall (λ a, IsMulticast a = true ∧ sa_ZoneId (sockaddrIn6 a port ifindex) = u32 ifindex)
    [allIPv6Nodes; allIPv6Routers; allDHCPv6Relays] ∧
  IsMulticast allDHCPv6Server = true ∧ sa_ZoneId (sockaddrIn6 allDHCPv6Server port ifindex) = 0.
Proof. split_and!; repeat (apply Forall_cons; split); try apply Forall_nil; split_and?; try done; by vm_compute. Qed.

(** ** Ancillary data *)

Section Cmsgs.
Context `{KN : Kernel} `{!KernelOk KN}.

(** C40: the packet-info message [cmsgPktinfo] builds fills exactly the space
    it allocates, whatever the source address and the index, and [parseCmsgs]
    reads the index back from it, as the 32 bits the field has, and no hop
    limit. *)
Theorem cmsgPktinfo_parseCmsgs ifindex src :
  parses_one_cmsg →
  ∃ oob, cmsgPktinfo ifindex src = Ok oob ∧ Z.of_nat (length oob) = k_CmsgSpace sizeofPktinfo ∧
    Forall is_byte oob ∧ parseCmsgs oob = (u32 ifindex, 0, false).
Proof.
  intros HP. exists (pktinfo_cmsg ifindex src). split; [apply cmsgPktinfo_layout|].
  set (a := if Is6 src then As16 src else replicate 16 0).
  assert (length a = 16%nat) as La by (unfold a; destruct (Is6 src); [apply length_As16 | done]).
  assert (Forall is_byte a) as Ha by (unfold a; destruct (Is6 src); [eauto with bytes | by repeat constructor]).
  assert (pktinfo_cmsg ifindex src =
    one_cmsg unix.IPPROTO_IPV6 unix.IPV6_PKTINFO (a ++ le_bytes 4 (u32 ifindex)) (replicate 4 0)) as E.
  { unfold pktinfo_cmsg, one_cmsg. rewrite length_app, La, length_le_bytes, <- !app_assoc. done. }
  split_and!.
  - rewrite cmsg_space_ok, E by (unfold sizeofPktinfo; lia). unfold one_cmsg. by rewrite !length_app, La, !length_le_bytes.
  - rewrite E. unfold one_cmsg. rewrite !Forall_app. split_and!; eauto with bytes. by repeat constructor.
  - assert (length (a ++ le_bytes 4 (u32 ifindex)) = 20%nat) as L by (by rewrite length_app, La, length_le_bytes).
    unfold parseCmsgs. rewrite E, HP; [|done|done|by rewrite L| |by rewrite L].
    + cbn [foldl]. unfold parseCmsg. cbn [cm_Level cm_Type cm_Data]. rewrite L, (drop_app_length' _ _ 16) by done.
      cbn [andb Z.eqb Z.leb]. rewrite take_ge by (by rewrite length_le_bytes). rewrite le_val_le_bytes.
      pose proof (u32_range ifindex). by rewrite Z.mod_small.
    + apply Forall_app. eauto with bytes.
Qed.
End Cmsgs.

(** A kernel that reads control messages as RFC 3542 lays them out. *)
Fixpoint read_cmsgs (fuel : nat) (b : list Z) : option (list cmsg) :=
  if (16 <=? length b)%nat then
    let len := le_val (take 8 b) in
    if (len <? 16) || (Z.of_nat (length b) <? len) then None
    else match fuel with
         | O => None
         | S fuel' =>
             let m := mkCmsg (le_val (take 4 (drop 8 b))) (le_val (take 4 (drop 12 b)))
                        (take (Z.to_nat (len - 16)) (drop 16 b)) in
             cons m <$> read_cmsgs fuel' (drop (Z.to_nat (8 * ((len + 7) / 8))) b)
         end
  else Some [].
Definition reading_kernel : Kernel := sim_kernel (mkSim (λ _ _, None) (λ _ _, None) [] [] [] [] [] [] 0 (λ _, None)
  (λ b, read_cmsgs (length b) b)).

(** The padding takes the message up to the next multiple of eight. *)
Lemma cmsg_align n : (16 + n + (8 - n `mod` 8) `mod` 8 ≤ Z.to_nat (8 * ((16 + Z.of_nat n + 7) / 8)))%nat.
Proof.
  pose proof (Nat.div_mod_eq n 8) as H. pose proof (Nat.mod_upper_bound n 8 ltac:(lia)) as Hb.
  set (r := (n `mod` 8)%nat) in *. set (q := (n `div` 8)%nat) in *. clearbody r q. subst n.
  replace ((16 + Z.of_nat (8 * q + r) + 7) / 8) with (Z.of_nat q + (23 + Z.of_nat r) / 8)
    by (rewrite <- Z.div_add_l by lia; f_equal; lia).
  assert (r = 0 ∨ r = 1 ∨ r = 2 ∨ r = 3 ∨ r = 4 ∨ r = 5 ∨ r = 6 ∨ r = 7)%nat as Hr by lia.
  destruct Hr as [->|[->|[->|[->|[->|[->|[-> | ->]]]]]]]; cbn -[Z.add Z.mul Z.of_nat Z.div];
    Z.to_euclidean_division_equations; lia.
Qed.

Lemma read_one_cmsg fuel level type data pad :
  0 ≤ level < 2 ^ 31 → 0 ≤ type < 2 ^ 31 → Z.of_nat (length data) < 2 ^ 31 →
  length pad = ((8 - length data `mod` 8) `mod` 8)%nat →
  read_cmsgs (S fuel) (one_cmsg level type data pad) = Some [mkCmsg level type data].
Proof.
  intros Hl Ht Hd Hp. set (b := one_cmsg level type data pad). set (n := length data) in *.
  assert (∀ k z r, 0 ≤ z < 256 ^ Z.of_nat k → le_val (take k (le_bytes k z ++ r)) = z) as Hv.
  { intros k z r Hz. rewrite take_app_le, take_ge, le_val_le_bytes by (rewrite length_le_bytes; lia). by apply Z.mod_small. }
  assert (length b = (16 + n + length pad)%nat) as L
    by (unfold b, one_cmsg; rewrite !length_app, !length_le_bytes; lia).
  assert (le_val (take 8 b) = 16 + Z.of_nat n) as E0 by (apply Hv; lia).
  assert (drop 8 b = le_bytes 4 level ++ le_bytes 4 type ++ data ++ pad) as E8
    by (apply drop_app_length'; by rewrite length_le_bytes).
  assert (drop 12 b = le_bytes 4 type ++ data ++ pad) as E12
    by (change 12%nat with (8 + 4)%nat; rewrite <- drop_drop, E8; apply drop_app_length'; by rewrite length_le_bytes).
  assert (drop 16 b = data ++ pad) as E16
    by (change 16%nat with (12 + 4)%nat; rewrite <- drop_drop, E12; apply drop_app_length'; by rewrite length_le_bytes).
  assert (drop (Z.to_nat (8 * ((16 + Z.of_nat n + 7) / 8))) b = []) as Eend.
  { apply drop_ge. rewrite L, Hp. apply cmsg_align. }
  clearbody b. cbn [read_cmsgs]. rewrite L, E0, E8, E12, E16, Eend.
  destruct (Nat.leb_spec 16 (16 + n + length pad)); [|lia].
  destruct (Z.ltb_spec (16 + Z.of_nat n) 16); [lia|].
  destruct (Z.ltb_spec (Z.of_nat (16 + n + length pad)) (16 + Z.of_nat n)); [lia|]. cbn [orb].
  rewrite !Hv by lia. replace (Z.to_nat (16 + Z.of_nat n - 16)) with n by lia. rewrite (take_app_length' data) by done.
  by destruct fuel.
Qed.

Lemma reading_kernel_parses : @parses_one_cmsg reading_kernel.
Proof.
  intros level type data pad Hl Ht Hd _ Hp. unfold k_ParseCmsgs, reading_kernel, sim_kernel, sim_cmsgs.
  assert (∃ k, length (one_cmsg level type data pad) = S k) as [k ->]
    by (exists (15 + length data + length pad)%nat; unfold one_cmsg; rewrite !length_app, !length_le_bytes; lia).
  by apply read_one_cmsg.
Qed.

Lemma cmsgPktinfo_parseCmsgs_witness :
  ∃ oob, @cmsgPktinfo reading_kernel 3 (AddrV6 (0xfe80 * 2 ^ 112 + 1)) = Ok oob ∧ length oob = 40%nat ∧
    @parseCmsgs reading_kernel oob = (3, 0, false).
Proof.
  destruct (cmsgPktinfo_parseCmsgs (KN := reading_kernel) 3 (AddrV6 (0xfe80 * 2 ^ 112 + 1)) reading_kernel_parses)
    as (oob & H1 & H2 & _ & H3).
  exists oob. split; [exact H1|]. split; [|exact H3]. apply Nat2Z.inj. rewrite H2. by vm_compute.
Defined.
