(* ===== verification/Mirror.v ===== *)
(** * Mirroring neighbours into the kernel

    [setProxyNDP] of [internal/relay/ndp.go] and the part of [netlink.go] that
    installs and removes proxy-NDP entries and host routes: one address
    ([ndpMirrorAddr]), the table of an interface that comes up
    ([seedMirroredNeighbors]), the periodic sweep, the reconciliation after an
    external flush, and the removal of everything an interface mirrors. *)
From S2P Require Import Prelude Netip World Hoare Log Iface RawSock Sim.

(** ** The [proxy_ndp] sysctl *)

(** [bytes.TrimSpace]: the UTF-8 encodings of the code points [unicode.IsSpace]
    accepts, removed at both ends. *)
Definition space_encodings : list (list Z) :=
  ((λ b, [b]) <$> [9; 10; 11; 12; 13; 32])
    ++ [[194; 133]; [194; 160]; [225; 154; 128]]
    ++ ((λ b, [226; 128; b]) <$> [128; 129; 130; 131; 132; 133; 134; 135; 136; 137; 138; 168; 169; 175])
    ++ [[226; 129; 159]; [227; 128; 128]].
Definition is_prefix (p l : list Z) : bool := bool_decide (take (length p) l = p).
Fixpoint trimPrefixes (fuel : nat) (ps : list (list Z)) (l : list Z) : list Z :=
  match fuel with
  | O => l
  | S fuel' =>
      match find (λ p, is_prefix p l) ps with
      | Some p => trimPrefixes fuel' ps (drop (length p) l)
      | None => l
      end
  end.
Definition TrimSpace (l : list Z) : list Z :=
  let l := trimPrefixes (length l) space_encodings l in
  reverse (trimPrefixes (length l) (reverse <$> space_encodings) (reverse l)).

Definition proxy_ndp_path (ifname : string) : string :=
  String.append "/proc/sys/net/ipv6/conf/" (String.append ifname "/proxy_ndp").

(** [ourRouteMetric], and the throw-away metric of [relayPing]. *)
Definition ourRouteMetric := 1024.

(** [resolvedMask]. *)
Definition resolvedMask : Z :=
  Z.lor (Z.lor (Z.lor unix.NUD_REACHABLE unix.NUD_STALE) (Z.lor unix.NUD_DELAY unix.NUD_PROBE))
    (Z.lor unix.NUD_PERMANENT unix.NUD_NOARP).
Definition has_bits (state mask : Z) : bool := negb (Z.land state mask =? 0).

(** The key of a neighbour, and the map lookup with its default. *)
Definition is_mirrored (s : St) (k : mirroredNeighKey) : bool :=
  default false (mirroredNeighs s !! k).
Definition set_mirrored (k : mirroredNeighKey) : M unit :=
  modify (λ s, set_mirroredNeighs (<[k := true]> (mirroredNeighs s)) s).
Definition delete_mirrored (k : mirroredNeighKey) : M unit :=
  modify (λ s, set_mirroredNeighs (delete k (mirroredNeighs s)) s).

(** [netip.AddrFromSlice(ip.To16())] followed by [Unmap]. *)
Definition neighAddr (ip : list Z) : option Addr := Unmap <$> AddrFromSlice (To16 ip).

Section Mirror.
Context `{Kernel}.

Definition setProxyNDP (ifname : string) (enable : bool) : M (option goerr) :=
  let path := proxy_ndp_path ifname in
  let want := if enable then 49 else 48 in
  cur ← sys_readFile path;
  if match cur with Some c => bool_decide (TrimSpace c = [want]) | None => false end
  then mret None
  else sys_err (WriteFile path [want; 10]).

(** [setupRoute]; a missing route is not an error of a removal. *)
Definition setupRoute (addr : Addr) (prefixlen : nat) (ifindex : Z) (gw : option Addr)
    (metric : Z) (add : bool) : M (option goerr) :=
  let dst := mkIPNet (AsSlice addr) (CIDRMask prefixlen 128) in
  let scope := match gw with Some _ => unix.SCOPE_UNIVERSE | None => unix.SCOPE_LINK end in
  let route proto := mkRoute ifindex (Some dst) metric unix.RT_TABLE_MAIN scope (AsSlice <$> gw) proto in
  if add then sys_err (RouteReplace (route unix.RTPROT_STATIC))
  else
    err ← sys_err (RouteDel (route 0));
    match err with
    | Some e => if errors_Is e unix.ESRCH then mret None else mret (Some e)
    | None => mret None
    end.

(** An error other than "already gone". *)
Definition reported (err : option goerr) : option goerr :=
  match err with
  | Some e => if errors_Is e unix.ENOENT || errors_Is e unix.ESRCH then None else Some e
  | None => None
  end.

Definition setupProxyNeigh (addr : Addr) (ifindex : Z) (add : bool) : M (option goerr) :=
  let n := mkNeigh ifindex unix.AF_INET6 0 unix.NTF_PROXY (AsSlice addr) in
  if add then sys_err (NeighSet n)
  else err ← sys_err (NeighDel n); mret (reported err).

Definition deleteFailedNeigh (addr : Addr) (ifindex : Z) : M unit :=
  err ← sys_err (NeighDel (mkNeigh ifindex unix.AF_INET6 0 0 (AsSlice addr)));
  match reported err with
  | Some _ => Debugf "delete failed neigh %s on ifindex %d: %v"
  | None => skip
  end.

Definition probeNeighbor (addr : Addr) (ifindex : Z) : M unit :=
  err ← sys_err (NeighSet (mkNeigh ifindex unix.AF_INET6 unix.NUD_PROBE 0 (AsSlice addr)));
  match reported err with
  | Some _ => Debugf "probe neigh %s on ifindex %d: %v"
  | None => skip
  end.

(** The body of the loop of [ndpMirrorAddr]. *)
Definition mirrorOn (addr : Addr) (p : loc) (add : bool) (c : loc) : M unit :=
  ci ← deref c;
  i ← deref p;
  if (Ifindex ci =? Ifindex i) || negb (Master ci) || bool_decide (NDP ci ≠ ModeRelay)
  then skip
  else
    when add
      (err ← setProxyNDP (Ifname ci) true;
       match err with Some _ => Debugf "proxy_ndp on %s: %v" | None => skip end) ;;
    err ← setupProxyNeigh addr (Ifindex ci) add;
    match err with Some _ => Warnf "proxy neigh %s on %s: %v" | None => skip end.

Definition ndpMirrorAddr (addr : Addr) (p : loc) (add : bool) : M unit :=
  cs ← range_interfaces;
  forM cs (mirrorOn addr p add) ;;
  i ← deref p;
  if negb (LearnRoutes i) || IsLinkLocalUnicast addr then skip
  else
    err ← setupRoute addr 128 (Ifindex i) None ourRouteMetric add;
    match err with Some _ => Warnf "route %s/128 via %s: %v" | None => skip end.

(** [seedMirroredNeighbors]: one entry of the table, then the loop. *)
Definition seedNeigh (p : loc) (n : Neigh) : M unit :=
  if negb (has_bits (n_State n) resolvedMask) then skip else
  match neighAddr (n_IP n) with
  | None => skip
  | Some addr =>
      if IsLoopback addr || IsMulticast addr || IsLinkLocalUnicast addr then skip else
      i ← deref p;
      let key := mkKey addr (Ifindex i) in
      s ← get;
      if is_mirrored s key then skip
      else set_mirrored key ;; ndpMirrorAddr addr p true
  end.
Definition seedMirroredNeighbors (p : loc) : M unit :=
  i ← deref p;
  link ← sys_linkByIndex (Ifindex i);
  match link with
  | None => skip
  | Some link =>
      neighs ← sys_neighList (l_Index link);
      match neighs with
      | None => skip
      | Some neighs => forM neighs (seedNeigh p)
      end
  end.

(** ** The sweep *)

(** One neighbour entry: returns the set of live addresses seen so far. *)
Definition sweepNeigh (p : loc) (live : gset Addr) (n : Neigh) : M (gset Addr) :=
  if has_bits (n_Flags n) unix.NTF_PROXY then mret live else
  match neighAddr (n_IP n) with
  | None => mret live
  | Some addr =>
      if IsLoopback addr || IsMulticast addr || IsLinkLocalUnicast addr then mret live else
      i ← deref p;
      if has_bits (n_State n) unix.NUD_FAILED then
        let key := mkKey addr (Ifindex i) in
        s ← get;
        when (is_mirrored s key) (delete_mirrored key ;; ndpMirrorAddr addr p false) ;;
        deleteFailedNeigh addr (Ifindex i) ;;
        mret live
      else
        when (has_bits (n_State n) unix.NUD_STALE) (probeNeighbor addr (Ifindex i)) ;;
        mret ({[addr]} ∪ live)
  end.

(** A /128 destination, as [sweep...] and [handleRouteEvent] test it. *)
Definition is_host_route (dst : IPNet) : bool :=
  bool_decide (MaskSize (net_Mask dst) = (128, 128)).

(** One route entry. *)
Definition sweepRoute (p : loc) (live : gset Addr) (r : Route) : M unit :=
  i ← deref p;
  if negb (r_LinkIndex r =? Ifindex i) || negb (r_Priority r =? ourRouteMetric) then skip else
  match r_Dst r with
  | None => skip
  | Some dst =>
      if negb (is_host_route dst) then skip else
      match neighAddr (net_IP dst) with
      | None => skip
      | Some addr =>
          if bool_decide (addr ∈ live) then skip
          else
            delete_mirrored (mkKey addr (Ifindex i)) ;;
            Noticef "Removing orphaned host route/proxy-NDP entry %s on %s (no matching neighbor left)" ;;
            ndpMirrorAddr addr p false
      end
  end.

Definition sweepIfaceFailedAndOrphans (p : loc) : M unit :=
  i ← deref p;
  link ← sys_linkByIndex (Ifindex i);
  match link with
  | None => skip
  | Some link =>
      neighs ← sys_neighList (l_Index link);
      match neighs with
      | None => Debugf "sweep: list neighbors on %s: %v"
      | Some neighs =>
          live ← foldM (sweepNeigh p) ∅ neighs;
          routes ← sys_routeList (l_Index link);
          match routes with
          | None => Debugf "sweep: list routes on %s: %v"
          | Some routes => forM routes (sweepRoute p live)
          end
      end
  end.

Definition sweepFailedAndOrphans : M unit :=
  cs ← range_interfaces;
  forM cs (λ c,
    i ← deref c;
    if bool_decide (NDP i ≠ ModeRelay) then skip else sweepIfaceFailedAndOrphans c).

(** ** Reconciliation *)

(** The addresses of an interface that are mirrored: neither loopback nor
    multicast, link-local only with [LearnRoutes]. *)
Definition mirrored_addr (i : Interface) (addr : Addr) : bool :=
  negb (IsLoopback addr) && negb (IsMulticast addr)
    && (negb (IsLinkLocalUnicast addr) || LearnRoutes i).

Definition reconcileKernelState : M unit :=
  cs ← range_interfaces;
  forM cs (λ c,
    i ← deref c;
    if bool_decide (NDP i ≠ ModeRelay) || bool_decide (ndp i = None) then skip
    else
      err ← setProxyNDP (Ifname i) true;
      match err with Some _ => Debugf "reconcile proxy_ndp on %s: %v" | None => skip end) ;;
  cs ← range_interfaces;
  forM cs (λ c,
    i ← deref c;
    if bool_decide (NDP i ≠ ModeRelay) then skip
    else forM (Addr6 i) (λ a,
           i ← deref c;
           if mirrored_addr i (ip_Addr a) then ndpMirrorAddr (ip_Addr a) c true else skip)) ;;
  s ← get;
  keys ← range (map_to_list (mirroredNeighs s)).*1;
  forM keys (λ key,
    iface ← ifaceByIndex (k_ifindex key);
    match iface with
    | None => skip
    | Some p => ndpMirrorAddr (k_addr key) p true
    end).

(** [clearMirroredState].  Its second loop deletes from the map it ranges
    over: only the current key, so every key is still visited. *)
Definition clearMirroredState (p : loc) : M unit :=
  i ← deref p;
  forM (Addr6 i) (λ a,
    i ← deref p;
    if bool_decide (NDP i = ModeRelay) && mirrored_addr i (ip_Addr a)
    then ndpMirrorAddr (ip_Addr a) p false else skip) ;;
  s ← get;
  keys ← range (map_to_list (mirroredNeighs s)).*1;
  forM keys (λ key,
    i ← deref p;
    if negb (k_ifindex key =? Ifindex i) then skip
    else ndpMirrorAddr (k_addr key) p false ;; delete_mirrored key).
End Mirror.

(** ** Frame lemmas *)

Section MirrorStable.
Context `{Kernel}.

Lemma sys_err_mirror_stable c :
  mirror_ev (EvCall c None) → stable (emits mirror_ev) (sys_err c).
Proof. intros Hc. apply stable_sys. intros e. by destruct c. Qed.
Lemma setProxyNDP_stable n b : stable (emits mirror_ev) (setProxyNDP n b).
Proof. unfold setProxyNDP, sys_readFile. solve_stable. by apply sys_err_mirror_stable. Qed.
Lemma setupRoute_stable a l i gw m b : stable (emits mirror_ev) (setupRoute a l i gw m b).
Proof. unfold setupRoute. solve_stable; by apply sys_err_mirror_stable. Qed.
Lemma setupProxyNeigh_stable a i b : stable (emits mirror_ev) (setupProxyNeigh a i b).
Proof. unfold setupProxyNeigh. solve_stable; by apply sys_err_mirror_stable. Qed.
Lemma deleteFailedNeigh_stable a i : stable (emits mirror_ev) (deleteFailedNeigh a i).
Proof. unfold deleteFailedNeigh. solve_stable; by apply sys_err_mirror_stable. Qed.
Lemma probeNeighbor_stable a i : stable (emits mirror_ev) (probeNeighbor a i).
Proof. unfold probeNeighbor. solve_stable; by apply sys_err_mirror_stable. Qed.
#[local] Hint Resolve setProxyNDP_stable setupRoute_stable setupProxyNeigh_stable : stable.
Lemma mirrorOn_stable a p b c : stable (emits mirror_ev) (mirrorOn a p b c).
Proof. unfold mirrorOn. solve_stable. Qed.
#[local] Hint Resolve mirrorOn_stable : stable.
Lemma ndpMirrorAddr_stable a p b : stable (emits mirror_ev) (ndpMirrorAddr a p b).
Proof. unfold ndpMirrorAddr. solve_stable. Qed.
End MirrorStable.
#[export] Hint Resolve setProxyNDP_stable setupRoute_stable setupProxyNeigh_stable
  deleteFailedNeigh_stable probeNeighbor_stable mirrorOn_stable ndpMirrorAddr_stable : stable.

(** ** What is written to the tables

    The neighbour and route operations among the events, and those that
    mirroring one address amounts to. *)
Definition table_ops (e : event) : list call :=
  match e with
  | EvCall (NeighSet n) _ => [NeighSet n]
  | EvCall (NeighDel n) _ => [NeighDel n]
  | EvCall (RouteReplace r) _ => [RouteReplace r]
  | EvCall (RouteDel r) _ => [RouteDel r]
  | _ => []
  end.
Lemma query_ev_table_ops e : query_ev e → table_ops e = [].
Proof. by destruct e. Qed.
Lemma log_ev_table_ops e : log_ev e → table_ops e = [].
Proof. by destruct e. Qed.

Definition proxy_entry (addr : Addr) (ifindex : Z) : Neigh :=
  mkNeigh ifindex unix.AF_INET6 0 unix.NTF_PROXY (AsSlice addr).
Definition host_route (addr : Addr) (ifindex metric proto : Z) : Route :=
  mkRoute ifindex (Some (mkIPNet (AsSlice addr) (CIDRMask 128 128))) metric
    unix.RT_TABLE_MAIN unix.SCOPE_LINK None proto.

Definition proxy_op (addr : Addr) (add : bool) (ifindex : Z) : call :=
  (if add then NeighSet else NeighDel) (proxy_entry addr ifindex).
Definition route_op (addr : Addr) (add : bool) (ifindex : Z) : call :=
  if add then RouteReplace (host_route addr ifindex ourRouteMetric unix.RTPROT_STATIC)
  else RouteDel (host_route addr ifindex ourRouteMetric 0).

(** The other masters that relay NDP. *)
Definition mirror_target (s : St) (p c : loc) : bool :=
  negb (Ifindex (heap s !!! c) =? Ifindex (heap s !!! p)) && Master (heap s !!! c)
    && bool_decide (NDP (heap s !!! c) = ModeRelay).

Definition mirror_proxies (s : St) (addr : Addr) (p : loc) (add : bool) (cs : list loc) : list call :=
  cs ≫= λ c, if mirror_target s p c then [proxy_op addr add (Ifindex (heap s !!! c))] else [].
Definition mirror_route (s : St) (addr : Addr) (p : loc) (add : bool) : list call :=
  if LearnRoutes (heap s !!! p) && negb (IsLinkLocalUnicast addr)
  then [route_op addr add (Ifindex (heap s !!! p))] else [].

(** The operations of one mirroring, for the masters in some order. *)
Definition mirror_ops (s : St) (addr : Addr) (p : loc) (add : bool) (xs : list call) : Prop :=
  ∃ cs, cs ≡ₚ (map_to_list (interfaces s)).*2 ∧
    xs = mirror_proxies s addr p add cs ++ mirror_route s addr p add.

Section MirrorSpecs.
Context `{Kernel}.

Lemma sys_err_table_ops c s :
  wp (sys_err c) (λ _ s', emitted table_ops (table_ops (EvCall c None)) s s') s.
Proof.
  apply wp_sys. intros e _.
  replace (table_ops (EvCall c None)) with (table_ops (EvCall c e)) by by destruct c.
  apply emitted_one.
Qed.

(** A log line, or nothing, after a table operation. *)
Lemma wp_maybe_log {X} (sel : event → list X) (err : option goerr) level fmt xs s s1 :
  (∀ e, log_ev e → sel e = []) → emitted sel xs s s1 →
  wp (match err with Some _ => logf level fmt | None => skip end)
     (λ _ s', emitted sel xs s s') s1.
Proof.
  intros Hsel Hs. destruct err; [|by apply wp_skip].
  apply wp_log. intros s2 Hs2. rewrite <- (app_nil_r xs).
  eapply emitted_trans; [exact Hs | by eapply emits_emitted].
Qed.

Lemma setProxyNDP_quiet n b s : wp (setProxyNDP n b) (λ _ s', emitted table_ops [] s s') s.
Proof.
  unfold setProxyNDP. apply wp_bind, wp_sys. intros r _.
  assert (emitted table_ops [] s
    (set_trace (trace s ++ [EvReadFile (proxy_ndp_path n) r]) s)) as He
    by apply (emitted_one table_ops (EvReadFile (proxy_ndp_path n) r)).
  case_match; [by apply wp_ret|].
  wp_use sys_err_table_ops. intros e s' Hs'. exact (emitted_trans _ [] [] _ _ _ He Hs').
Qed.

Lemma setupRoute_ops a i add metric s :
  wp (setupRoute a 128 i None metric add)
     (λ _ s', emitted table_ops
        [if add then RouteReplace (host_route a i metric unix.RTPROT_STATIC)
         else RouteDel (host_route a i metric 0)] s s') s.
Proof.
  unfold setupRoute. destruct add; [apply sys_err_table_ops|].
  apply wp_bind. wp_use sys_err_table_ops. intros err s' Hs'.
  destruct err as [e|]; [destruct (errors_Is e unix.ESRCH)|]; exact Hs'.
Qed.

Lemma setupProxyNeigh_ops a i add s :
  wp (setupProxyNeigh a i add) (λ _ s', emitted table_ops [proxy_op a add i] s s') s.
Proof.
  unfold setupProxyNeigh. destruct add; [apply sys_err_table_ops|].
  apply wp_bind. wp_use sys_err_table_ops. intros err s' Hs'. exact Hs'.
Qed.

Lemma mirrorOn_ops addr p add c s :
  wp (mirrorOn addr p add c)
     (λ _ s', emitted table_ops (if mirror_target s p c
        then [proxy_op addr add (Ifindex (heap s !!! c))] else []) s s') s.
Proof.
  unfold mirrorOn, mirror_target. apply wp_bind, wp_deref, wp_bind, wp_deref.
  destruct (Ifindex (heap s !!! c) =? Ifindex (heap s !!! p)); cbn [negb andb orb];
    [apply wp_skip, emitted_refl|].
  destruct (Master (heap s !!! c)); cbn [negb andb orb]; [|apply wp_skip, emitted_refl].
  destruct (NDP (heap s !!! c)) eqn:EN; [apply emitted_refl|].
  rewrite bool_decide_eq_false_2, bool_decide_eq_true_2 by (done || by intros ?).
  apply wp_bind, (wp_mono _ (λ _ s', emitted table_ops [] s s')).
  { destruct add; [|apply wp_skip, emitted_refl]. apply wp_bind.
    wp_use setProxyNDP_quiet. intros err s1 Hs1.
    apply wp_maybe_log; [apply log_ev_table_ops | done]. }
  cbv beta. intros [] s1 Hs1. apply wp_bind. wp_use setupProxyNeigh_ops.
  intros err s2 Hs2. apply wp_maybe_log; [apply log_ev_table_ops|].
  exact (emitted_trans _ [] _ _ _ _ Hs1 Hs2).
Qed.

Lemma ndpMirrorAddr_ops addr p add s :
  wp (ndpMirrorAddr addr p add)
     (λ _ s', ∃ xs, mirror_ops s addr p add xs ∧ emitted table_ops xs s s') s.
Proof.
  unfold ndpMirrorAddr. apply wp_bind, wp_range_interfaces. intros cs s1 Hcs Hs1.
  pose proof (emits_emitted table_ops _ _ _ query_ev_table_ops Hs1) as He1.
  destruct (emitted_same_mem _ _ _ _ He1) as [t1 ->].
  apply wp_bind, (wp_mono _ (λ _ s', emitted table_ops (mirror_proxies s addr p add cs) s s')).
  { eapply wp_mono.
    - apply (wp_forM_emitted table_ops (λ c, if mirror_target s p c
        then [proxy_op addr add (Ifindex (heap s !!! c))] else [])).
      intros c s2 _ [t2 ->]. exact (mirrorOn_ops addr p add c (set_trace t2 (set_trace t1 s))).
    - intros [] s2 Hs2. exact (emitted_trans _ [] _ _ _ _ He1 Hs2). }
  cbv beta. intros [] s2 Hs2. apply wp_bind, wp_deref.
  assert (heap s2 = heap s) as Eh by (by destruct (emitted_same_mem _ _ _ _ Hs2) as [t ->]).
  rewrite Eh.
  assert (∀ xs s', xs = mirror_proxies s addr p add cs ++ mirror_route s addr p add →
    emitted table_ops xs s s' → ∃ xs, mirror_ops s addr p add xs ∧ emitted table_ops xs s s')
    as Hdone by (intros xs s' -> Hs'; eexists; split; [by eexists | exact Hs']).
  unfold mirror_route in Hdone.
  destruct (LearnRoutes (heap s !!! p)); cbn [negb andb orb] in *.
  2: { apply wp_skip. eapply Hdone; [by rewrite app_nil_r | done]. }
  destruct (IsLinkLocalUnicast addr); cbn [negb andb orb] in *.
  { apply wp_skip. eapply Hdone; [by rewrite app_nil_r | done]. }
  apply wp_bind. wp_use setupRoute_ops. intros err s3 Hs3.
  pose proof (emitted_trans _ _ _ _ _ _ Hs2 Hs3) as He.
  eapply wp_mono; [exact (wp_maybe_log _ _ _ _ _ _ _ log_ev_table_ops He)|].
  cbv beta. intros [] s4 Hs4. by eapply Hdone; [|exact Hs4]; destruct add.
Qed.
End MirrorSpecs.
