(* ===== verification/Dhcpv6.v ===== *)
(** * The DHCPv6 relay ([internal/relay/dhcpv6.go])

    The UDP/547 socket of an interface, its reader, and the relaying of client
    messages (wrapped in a Relay-Forward, to every master) and server messages
    (unwrapped from a Relay-Reply, to the interface the server names). *)
From S2P Require Import Prelude Netip World Hoare Log Iface RawSock Sim.

Definition dhcpv6ClientPort := 546.
Definition dhcpv6ServerPort := 547.
Definition dhcpv6HopLimit := 32.

Definition dhcpMsgSolicit := 1.
Definition dhcpMsgAdvertise := 2.
Definition dhcpMsgRequest := 3.
Definition dhcpMsgConfirm := 4.
Definition dhcpMsgRenew := 5.
Definition dhcpMsgRebind := 6.
Definition dhcpMsgReply := 7.
Definition dhcpMsgRelease := 8.
Definition dhcpMsgDecline := 9.
Definition dhcpMsgReconfigure := 10.
Definition dhcpMsgInformationRequest := 11.
Definition dhcpMsgRelayForw := 12.
Definition dhcpMsgRelayRepl := 13.

Definition dhcpOptRelayMsg := 9.
Definition dhcpOptInterfaceID := 18.

(** ** Wire formats *)

(** The Relay-Forward envelope [relayClientRequest] builds: header, link and
    peer address, the interface-id option (the index, little-endian) and the
    client's message as relay-message option. *)
Definition relayEnvelope (hopCount : Z) (linkAddr source : Addr) (ifindex : Z) (data : list Z) : list Z :=
  [dhcpMsgRelayForw; hopCount] ++ As16 linkAddr ++ As16 source
    ++ be_bytes 2 dhcpOptInterfaceID ++ be_bytes 2 4 ++ le_bytes 4 (u32 ifindex)
    ++ be_bytes 2 dhcpOptRelayMsg ++ be_bytes 2 (u16 (Z.of_nat (length data)))
    ++ data.

(** The option scan of [relayServerResponse]: the variables [ifaceidx] (with
    [haveIface]) and [payload] (with [havePayload]). *)
Record replyOpts : Type := mkReplyOpts {
  ro_ifaceidx : option Z;
  ro_payload : option (list Z)
}.
Definition noReplyOpts : replyOpts := mkReplyOpts None None.

Definition replyOption (acc : replyOpts) (otype : Z) (odata : list Z) : replyOpts :=
  if otype =? dhcpOptInterfaceID then
    if (length odata =? 4)%nat
    then mkReplyOpts (Some (i32 (le_val odata))) (ro_payload acc) else acc
  else if otype =? dhcpOptRelayMsg
  then mkReplyOpts (ro_ifaceidx acc) (Some odata)
  else acc.

Fixpoint replyScan (fuel : nat) (data : list Z) (off : nat) (acc : replyOpts) : res replyOpts :=
  if (off + 4 <=? length data)%nat then
    match fuel with
    | O => OutOfFuel
    | S fuel' =>
        t ← slice data off (off + 2);
        l ← slice data (off + 2) (off + 4);
        let olen := Z.to_nat (be_val l) in
        odata ← slice data (off + 4) (length data);
        if (length odata <? olen)%nat then Ok acc
        else
          odata ← slice odata 0 olen;
          replyScan fuel' data (off + (4 + olen)) (replyOption acc (be_val t) odata)
    end
  else Ok acc.

Section Dhcpv6.
Context `{Kernel}.

(** ** Socket *)

(** The body of [dhcpv6Setup] once the socket exists. *)
Definition dhcpv6Configure (p : loc) (fd : Z) : M (option goerr) :=
  i ← deref p;
  check "SO_BINDTODEVICE(%s): %v" (bindToDevice fd (Ifname i)) $
  check "IPV6_V6ONLY: %v" (setsockoptInt fd unix.IPPROTO_IPV6 unix.IPV6_V6ONLY 1) $
  check "SO_REUSEADDR: %v" (setsockoptInt fd unix.SOL_SOCKET unix.SO_REUSEADDR 1) $
  check "IPV6_RECVPKTINFO: %v" (setsockoptInt fd unix.IPPROTO_IPV6 unix.IPV6_RECVPKTINFO 1) $
  check "IPV6_MULTICAST_HOPS: %v"
    (setsockoptInt fd unix.IPPROTO_IPV6 unix.IPV6_MULTICAST_HOPS dhcpv6HopLimit) $
  check "IPV6_MULTICAST_LOOP: %v" (setsockoptInt fd unix.IPPROTO_IPV6 unix.IPV6_MULTICAST_LOOP 0) $
  check "bind(:%d): %v" (sys_err (BindInet6 fd dhcpv6ServerPort)) $
  check "IPV6_ADD_MEMBERSHIP: %v" (joinMulticast6 fd allDHCPv6Relays (Ifindex i) true) $
  ptr ← alloc;
  done ← alloc;
  let ds := mkDhcpSock ptr fd p done in
  assign p (set_dhcp (Some ds)) ;;
  spawn (DhcpReader ds) ;;
  mret None.

Definition dhcpv6Setup (p : loc) (enable : bool) : M (option goerr) :=
  i ← deref p;
  let enable := enable && bool_decide (DHCPv6 i ≠ ModeDisabled) in
  match dhcp i with
  | Some ds =>
      closeChan (ds_done ds) ;; closeFD (ds_fd ds) ;; assign p (set_dhcp None)
  | None => skip
  end ;;
  if negb enable then mret None
  else
    r ← sys_socket unix.AF_INET6 (Z.lor unix.SOCK_DGRAM unix.SOCK_CLOEXEC) unix.IPPROTO_UDP;
    match r with
    | inl err => Errorf "socket(AF_INET6) for dhcpv6 relay on %s: %v" ;; mret (Some err)
    | inr fd => closing_on_error fd (dhcpv6Configure p fd)
    end.

(** One turn of [dhcpReadLoop]: [done1] and [done2] say whether [ds.done] is
    closed at its two [select]s.  The result posted is the pair [(src, data)]
    for [handleDHCPv6]. *)
Definition dhcpReadTurn (done1 : bool) (r : recv_result) (done2 : bool) : loop_step (Addr * list Z) :=
  if done1 then LoopReturn else
  match r with
  | RecvError e =>
      if is_EINTR e then LoopContinue
      else if done2 then LoopReturn else LoopSleep
  | Received data oob from =>
      if (length data =? 0)%nat then LoopContinue
      else
        let '(_, hoplimit, hasHL) := parseCmsgs oob in
        if hasHL && negb (hoplimit =? 255) then LoopContinue
        else LoopPost (from_option AddrFrom16 AddrNone from, data)
  end.

(** ** Sending *)

Definition sendDHCPv6 (p : loc) (dest : Addr) (port : Z) (payload : list Z) : M unit :=
  i ← deref p;
  match dhcp i with
  | None => skip
  | Some ds =>
      let sa := sockaddrIn6 dest port (Ifindex i) in
      oob ← lift (cmsgPktinfo (Ifindex i) AddrNone);
      err ← sys_err (Sendmsg (ds_fd ds) payload oob sa);
      match err with
      | Some _ => Errorf "Failed to send DHCPv6 to %s%%%s@%s: %v"
      | None => Debugf "Sent %d bytes DHCPv6 to %s%%%s@%s"
      end
  end.

(** ** Handlers *)

(** From the interface found on: the message goes out of it, unless it is a
    master or has no socket. *)
Definition deliverReply (data payload : list Z) (p : loc) : M unit :=
  i ← deref p;
  if Master i || bool_decide (dhcp i = None) then skip else
  p0 ← lift (idx payload 0);
  let targetPort :=
    if p0 =? dhcpMsgRelayRepl then dhcpv6ServerPort else dhcpv6ClientPort in
  peer ← lift (slice data 2 18);
  Debugf "Sending a DHCPv6-reply on %s" ;;
  sendDHCPv6 p (AddrFrom16 peer) targetPort payload.

Definition relayServerResponse (data : list Z) : M unit :=
  Debugf "Got a DHCPv6-relay-reply" ;;
  let hdrLen := 34%nat in
  if (length data <? hdrLen)%nat then skip else
  b0 ← lift (idx data 0);
  if negb (b0 =? dhcpMsgRelayRepl) then skip else
  opts ← lift (replyScan (length data) data hdrLen noReplyOpts);
  match ro_ifaceidx opts, ro_payload opts with
  | Some ifaceidx, Some payload =>
      if (length payload <? 4)%nat then skip else
      iface ← ifaceByIndex ifaceidx;
      match iface with
      | None => skip
      | Some p => deliverReply data payload p
      end
  | _, _ => skip
  end.

Definition relayLinkAddressOrZero (p : loc) : M Addr :=
  r ← relayLinkAddress p;
  match r with Some a => mret a | None => mret IPv6Unspecified end.

(** The message types the [switch] of [relayClientRequest] returns on. *)
Definition serverMessage (t : Z) : bool :=
  bool_decide (t ∈ [dhcpMsgAdvertise; dhcpMsgReply; dhcpMsgReconfigure; dhcpMsgRelayRepl]).

(** The last loop: the envelope goes out of every relaying master. *)
Definition sendToMasters (target : Addr) (envelope : list Z) : M unit :=
  cs ← range_interfaces;
  forM cs (λ c,
    ci ← deref c;
    if negb (Master ci) || bool_decide (DHCPv6 ci ≠ ModeRelay) || bool_decide (dhcp ci = None)
    then skip
    else
      Debugf "Sending a DHCPv6-relay-forward on %s" ;;
      sendDHCPv6 c target dhcpv6ServerPort envelope).

(** From the choice of the link address on. *)
Definition relayWithHops (source : Addr) (data : list Z) (p : loc) (dest : Addr) (hopCount : Z) : M unit :=
  linkAddr ← relayLinkAddressOrZero p;
  i ← deref p;
  let envelope := relayEnvelope hopCount linkAddr source (Ifindex i) data in
  let target := if IsValid dest then dest else allDHCPv6Server in
  sendToMasters target envelope.

Definition relayClientRequest (source : Addr) (data : list Z) (p : loc) (dest : Addr) : M unit :=
  if (length data <? 2)%nat then skip else
  msgType ← lift (idx data 0);
  if serverMessage msgType then skip else
  Debugf "Got a DHCPv6-request on %s" ;;
  hop ← (if msgType =? dhcpMsgRelayForw
         then b1 ← lift (idx data 1);
              mret (if dhcpv6HopLimit <=? b1 then None else Some (u8 (b1 + 1)))
         else mret (Some 0));
  match hop with
  | None => skip
  | Some hopCount => relayWithHops source data p dest hopCount
  end.

(** [iface.dhcp != ds]: pointer comparison. *)
Definition current_dhcp (i : Interface) (ds : dhcpSock) : bool :=
  match dhcp i with Some d => bool_decide (ds_ptr d = ds_ptr ds) | None => false end.

Definition handleDHCPv6 (ds : dhcpSock) (src : Addr) (data : list Z) : M unit :=
  i ← deref (ds_iface ds);
  if negb (current_dhcp i ds) || bool_decide (DHCPv6 i ≠ ModeRelay) then skip
  else if Master i then relayServerResponse data
  else relayClientRequest src data (ds_iface ds) AddrNone.
End Dhcpv6.

(** ** The option scan

    Options on the wire, and what a scan must find in them. *)
Definition option_wire (o : Z * list Z) : list Z :=
  be_bytes 2 o.1 ++ be_bytes 2 (Z.of_nat (length o.2)) ++ o.2.
Definition option_wf (o : Z * list Z) : Prop :=
  0 ≤ o.1 < 65536 ∧ Z.of_nat (length o.2) < 65536.

(** Bytes at which the scan stops: no room for an option header, or an option
    longer than what is left. *)
Definition scan_tail (t : list Z) : Prop :=
  (length t < 4)%nat ∨ (length t < 4 + Z.to_nat (be_val (take 2 (drop 2 t))))%nat.

(** What a well-formed option says, by RFC 8415: option 18 with four bytes, the
    interface index (little-endian and signed, as the relay itself writes it);
    option 9, a relayed message. *)
Definition says_iface (o : Z * list Z) : option Z :=
  if o.1 =? 18 then
    match o.2 with
    | [b0; b1; b2; b3] =>
        let v := b0 + 256 * b1 + 65536 * b2 + 16777216 * b3 in
        Some (if v <? 2147483648 then v else v - 4294967296)
    | _ => None
    end
  else None.
Definition says_message (o : Z * list Z) : option (list Z) := if o.1 =? 9 then Some o.2 else None.
(** The last of each counts. *)
Definition scan_result (os : list (Z * list Z)) : replyOpts :=
  mkReplyOpts (last (omap says_iface os)) (last (omap says_message os)).

(** The scan works through the options one by one. *)
Definition scan_fold (os : list (Z * list Z)) (acc : replyOpts) : replyOpts :=
  foldl (λ acc o, replyOption acc o.1 o.2) acc os.
Lemma replyOption_says acc o :
  Forall is_byte o.2 →
  replyOption acc o.1 o.2 = mkReplyOpts (from_option Some (ro_ifaceidx acc) (says_iface o))
                              (from_option Some (ro_payload acc) (says_message o)).
Proof.
  destruct acc as [ix pl], o as [t d]. cbn [fst snd ro_ifaceidx ro_payload]. intros Hb.
  unfold replyOption, says_iface, says_message, dhcpOptInterfaceID, dhcpOptRelayMsg. cbn [fst snd].
  destruct (Z.eqb_spec t 18) as [->|Ht].
  - destruct d as [|b0 [|b1 [|b2 [|b3 [|b4 d]]]]]; try done. cbn [length Nat.eqb from_option].
    change (18 =? 18) with true. change (18 =? 9) with false. cbn [from_option]. do 2 f_equal.
    rewrite !Forall_cons in Hb. unfold is_byte in Hb. cbn [le_val foldr]. unfold i32.
    set (v := b0 + 256 * b1 + 65536 * b2 + 16777216 * b3).
    replace (b0 + 256 * (b1 + 256 * (b2 + 256 * (b3 + 256 * 0)))) with v by (unfold v; lia).
    assert (0 ≤ v < 4294967296) as Hv by (unfold v; lia). clearbody v. clear Hb.
    destruct (Z.ltb_spec v 2147483648); Z.to_euclidean_division_equations; lia.
  - by destruct (t =? 9).
Qed.
Lemma last_from_option {A} (o acc : option A) l :
  from_option Some (from_option Some acc o) (last l) = from_option Some acc (last (option_list o ++ l)).
Proof. destruct o as [x|]; [|done]. change (option_list (Some x) ++ l) with (x :: l). rewrite last_cons. by destruct (last l). Qed.
Lemma scan_fold_says os acc :
  Forall (λ o, Forall is_byte o.2) os →
  scan_fold os acc = mkReplyOpts (from_option Some (ro_ifaceidx acc) (ro_ifaceidx (scan_result os)))
                       (from_option Some (ro_payload acc) (ro_payload (scan_result os))).
Proof.
  intros Hb. revert acc. induction Hb as [|o os Ho _ IH]; intros acc; [by destruct acc|].
  cbn [scan_fold foldl]. change (foldl _ ?x os) with (scan_fold os x). rewrite IH, replyOption_says by done.
  cbn [scan_result ro_ifaceidx ro_payload omap list_omap]. rewrite !last_from_option.
  by destruct (says_iface o), (says_message o).
Qed.

(** Every byte string is options followed by such a tail. *)
Definition scans_as (l : list Z) (os : list (Z * list Z)) (t : list Z) : Prop :=
  l = (os ≫= option_wire) ++ t ∧ Forall option_wf os ∧ scan_tail t.
Lemma scan_decompose l : Forall is_byte l → ∃ os t, scans_as l os t.
Proof.
  remember (length l) as n eqn:Hn. revert l Hn.
  induction n as [n IH] using lt_wf_ind. intros l -> Hb.
  assert (scan_tail l → ∃ os t, scans_as l os t) as Hdone by (intros Ht; by exists [], l).
  destruct l as [|a [|b [|c [|d rest]]]]; [by apply Hdone; left; cbn; lia..|].
  set (k := be_val [c; d]).
  destruct (decide (length rest < Z.to_nat k)%nat) as [Hs|Hs];
    [apply Hdone; right; cbn [length]; change (take 2 (drop 2 _)) with [c; d]; fold k; lia|]. clear Hdone.
  rewrite !Forall_cons in Hb. destruct Hb as (Ha & Hb & Hc & Hd & Hr).
  assert (Forall is_byte [a; b] ∧ Forall is_byte [c; d]) as [Hab Hcd] by (rewrite !Forall_cons, !Forall_nil; tauto).
  pose proof (be_bytes_be_val _ Hab) as Et. pose proof (be_bytes_be_val _ Hcd) as Ek.
  pose proof (be_val_range _ Hab) as Rt. pose proof (be_val_range _ Hcd) as Rk.
  change (256 ^ Z.of_nat (length [a; b])) with 65536 in Rt.
  change (256 ^ Z.of_nat (length [c; d])) with 65536 in Rk. fold k in Ek, Rk.
  destruct (IH (length (drop (Z.to_nat k) rest))) with (l := drop (Z.to_nat k) rest)
    as (os & t & Heq & Hos & Ht); [cbn; rewrite length_drop; lia | done | by apply Forall_drop |].
  assert (Z.of_nat (length (take (Z.to_nat k) rest)) = k) as El by (rewrite length_take; lia).
  exists ((be_val [a; b], take (Z.to_nat k) rest) :: os), t. split; [|split; [|done]].
  - cbn [mbind list_bind]. unfold option_wire at 1. cbn [fst snd].
    change 2%nat with (length [a; b]) at 1. rewrite Et.
    change 2%nat with (length [c; d]). rewrite El, Ek, <- !(assoc_L (++)), <- Heq, take_drop. done.
  - constructor; [|done]. split; cbn [fst snd]; [done|]. rewrite El. lia.
Qed.

Lemma option_bodies_bytes os t : Forall is_byte ((os ≫= option_wire) ++ t) → Forall (λ o, Forall is_byte o.2) os.
Proof.
  induction os as [|o os IH]; [done|]. cbn [mbind list_bind]. unfold option_wire at 1.
  rewrite !Forall_app. intros (((_ & _ & Ho) & Hr) & Ht). constructor; [done|].
  apply IH. by apply Forall_app.
Qed.

Lemma be_val_2 z : 0 ≤ z < 65536 → be_val (be_bytes 2 z) = z.
Proof. intros. rewrite be_val_be_bytes. by apply Z.mod_small. Qed.

(** The scan needs at most one unit of fuel per four bytes and stays inside
    the message: it always returns. *)
Lemma replyScan_total fuel data off acc :
  (length data ≤ off + fuel)%nat → ∃ r, replyScan fuel data off acc = Ok r.
Proof.
  revert off acc. induction fuel as [|fuel IH]; intros off acc Hf; cbn [replyScan];
    destruct (Nat.leb_spec (off + 4) (length data)); [lia|eauto| |eauto].
  rewrite !slice_ok by lia. cbn [mbind res_bind].
  case_match; [eauto|]. rewrite slice_ok by (to_prop; apply Nat.ltb_ge in H0; lia).
  apply IH. lia.
Qed.

(** One turn of the scan, in terms of the bytes not yet scanned. *)
Lemma replyScan_step fuel hdr t acc :
  (4 <= length t)%nat →
  replyScan (S fuel) (hdr ++ t) (length hdr) acc =
  let olen := Z.to_nat (be_val (take 2 (drop 2 t))) in
  if (length t <? 4 + olen)%nat then Ok acc
  else replyScan fuel (hdr ++ t) (length hdr + (4 + olen))
         (replyOption acc (be_val (take 2 t)) (take olen (drop 4 t))).
Proof.
  intros Ht. cbn [replyScan].
  assert (length (hdr ++ t) = length hdr + length t)%nat as Hl by apply length_app.
  destruct (Nat.leb_spec (length hdr + 4) (length (hdr ++ t))); [|lia].
  rewrite !slice_ok by lia. cbn [mbind res_bind].
  rewrite !drop_app_ge by lia.
  replace (length hdr - length hdr)%nat with O by lia.
  replace (length hdr + 2 - length hdr)%nat with 2%nat by lia.
  replace (length hdr + 4 - length hdr)%nat with 4%nat by lia.
  replace (length hdr + 4 - (length hdr + 2))%nat with 2%nat by lia.
  set (olen := Z.to_nat _). rewrite (take_ge (drop 4 t)) by (rewrite length_drop; lia).
  rewrite length_drop.
  destruct (Nat.ltb_spec (length t - 4) olen), (Nat.ltb_spec (length t) (4 + olen)); try lia;
    [done|].
  rewrite slice_ok by (rewrite length_drop; lia). cbn [mbind res_bind].
  by rewrite !drop_0, Nat.sub_0_r.
Qed.

Lemma replyScan_stop fuel hdr t acc :
  scan_tail t → (length t ≤ fuel)%nat → replyScan fuel (hdr ++ t) (length hdr) acc = Ok acc.
Proof.
  intros Ht Hf. destruct (Nat.lt_ge_cases (length t) 4) as [Hs|Hs].
  - destruct fuel; cbn [replyScan]; rewrite length_app;
      by destruct (Nat.leb_spec (length hdr + 4) (length hdr + length t)); [lia|].
  - destruct fuel as [|fuel]; [lia|]. rewrite replyScan_step by done. cbv zeta.
    destruct Ht as [?|Ht]; [lia|]. by apply Nat.ltb_lt in Ht as ->.
Qed.

Lemma replyScan_option fuel hdr o rest acc :
  option_wf o →
  replyScan (S fuel) (hdr ++ option_wire o ++ rest) (length hdr) acc =
  replyScan fuel ((hdr ++ option_wire o) ++ rest) (length (hdr ++ option_wire o))
    (replyOption acc o.1 o.2).
Proof.
  intros [Ht Hl]. destruct o as [t b]. unfold option_wire. cbn [fst snd] in *.
  rewrite replyScan_step by (rewrite !length_app, !length_be_bytes; lia).
  rewrite <- !(assoc_L (++)).
  change (take 2 (drop 2 (be_bytes 2 t ++ ?k))) with (take 2 k).
  change (take 2 (be_bytes 2 t ++ ?k)) with (be_bytes 2 t).
  change (take 2 (be_bytes 2 (Z.of_nat (length b)) ++ ?k)) with (be_bytes 2 (Z.of_nat (length b))).
  change (drop 4 (be_bytes 2 t ++ be_bytes 2 (Z.of_nat (length b)) ++ ?k)) with k.
  rewrite !be_val_2, Nat2Z.id by lia. cbv zeta.
  rewrite take_app_length, !length_app, !length_be_bytes.
  by destruct (Nat.ltb_spec (2 + (2 + (length b + length rest))) (4 + length b)); [lia|].
Qed.

Lemma replyScan_options fuel hdr os t acc :
  Forall option_wf os → scan_tail t →
  (length (os ≫= option_wire) + length t ≤ fuel)%nat →
  replyScan fuel (hdr ++ (os ≫= option_wire) ++ t) (length hdr) acc = Ok (scan_fold os acc).
Proof.
  intros Hos Ht. revert fuel hdr acc. induction Hos as [|o os Ho _ IH]; intros fuel hdr acc Hf.
  - by apply replyScan_stop.
  - cbn [mbind list_bind] in Hf |- *. rewrite length_app in Hf.
    assert (4 ≤ length (option_wire o))%nat
      by (unfold option_wire; rewrite !length_app, !length_be_bytes; lia).
    destruct fuel as [|fuel]; [lia|]. rewrite <- (assoc_L (++)).
    rewrite replyScan_option by done. apply IH. lia.
Qed.

(** ** What the handlers send *)

(** A datagram out of the DHCPv6 socket of [i]; none without a socket. *)
Definition dhcp_datagram (i : Interface) (ds : dhcpSock) (dest : Addr) (port : Z) (payload : list Z) : call :=
  Sendmsg (ds_fd ds) payload (pktinfo_cmsg (Ifindex i) AddrNone) (sockaddrIn6 dest port (Ifindex i)).
Definition dhcp_out (i : Interface) (dest : Addr) (port : Z) (payload : list Z) : list call :=
  match dhcp i with Some ds => [dhcp_datagram i ds dest port payload] | None => [] end.

(** A master that takes part in the relaying. *)
Definition relay_master (i : Interface) : bool :=
  Master i && bool_decide (DHCPv6 i = ModeRelay) && bool_decide (dhcp i ≠ None).

(** Everything the masters of [s] send for one envelope. *)
Definition masters_out (s : St) (dest : Addr) (envelope : list Z) : list call :=
  (map_to_list (interfaces s)).*2 ≫= λ c,
    let i := heap s !!! c in
    if relay_master i then dhcp_out i dest dhcpv6ServerPort envelope else [].

(** The hop count of the envelope for a client's message, or [None] when the
    message is not to be relayed (RFC 8415, sections 19.1.1 and 19.1.2: a
    server's message, or a Relay-Forward at the hop limit). *)
Definition relay_hops (data : list Z) : option Z :=
  match data with
  | t :: h :: _ =>
      if serverMessage t then None
      else if t =? dhcpMsgRelayForw then (if dhcpv6HopLimit <=? h then None else Some (h + 1))
      else Some 0
  | _ => None
  end.

Section Dhcpv6Specs.
Context `{KN : Kernel} `{!KernelOk KN}.

Lemma sendDHCPv6_sends p dest port payload s :
  wp (sendDHCPv6 p dest port payload)
     (λ _ s', emitted sends (dhcp_out (heap s !!! p) dest port payload) s s') s.
Proof.
  unfold sendDHCPv6, dhcp_out. apply wp_bind, wp_deref.
  destruct (dhcp (heap s !!! p)) as [ds|]; [|apply wp_skip, emitted_refl].
  apply wp_bind. eapply wp_lift; [apply cmsgPktinfo_layout|].
  apply wp_bind, wp_sys. intros err _.
  destruct err; apply wp_log; intros s' Hs;
    exact (emitted_one_then sends _ _ _ _ log_ev_sends Hs).
Qed.

Lemma sendDHCPv6_stable p dest port payload :
  stable (emits send_ev) (sendDHCPv6 p dest port payload).
Proof.
  unfold sendDHCPv6, sys_err. solve_stable.
  eapply stable_lift; [typeclasses eauto | apply cmsgPktinfo_layout].
Qed.

(** A quiet prefix of a sending computation can be dropped. *)
Lemma wp_quiet_then {A B} (m : M A) (f : A → M B) P xs s :
  stable (emits P) m → (∀ e, P e → sends e = []) →
  (∀ a s', same_mem s s' → wp (f a) (λ _ s'', emitted sends xs s' s'') s') →
  wp (m ≫= f) (λ _ s', emitted sends xs s s') s.
Proof.
  intros Hm HP Hf. apply wp_bind. wp_use Hm. intros a s' Hs.
  wp_use Hf; [by eapply emits_same_mem|]. intros b s'' Hs'.
  eapply (emitted_trans sends [] xs); [|exact Hs']. by eapply emits_emitted.
Qed.

Lemma sendToMasters_sends target envelope s :
  wp (sendToMasters target envelope)
     (λ _ s', ∃ xs, xs ≡ₚ masters_out s target envelope ∧ emitted sends xs s s') s.
Proof.
  unfold sendToMasters. apply wp_bind, wp_range_interfaces. intros cs s1 Hcs Hs1.
  eapply wp_mono.
  - apply (wp_forM_emitted sends (λ c, let i := heap s !!! c in
      if relay_master i then dhcp_out i target dhcpv6ServerPort envelope else [])).
    intros c s2 _ Hs2. apply wp_bind, wp_deref.
    assert (heap s2 = heap s) as E
      by (destruct Hs2 as [? ->]; by destruct Hs1 as (? & -> & _)).
    rewrite E. unfold relay_master.
    destruct (Master (heap s !!! c)); cbn [negb orb andb]; [|apply wp_skip, emitted_refl].
    destruct (DHCPv6 (heap s !!! c)) eqn:EM; cbn; [apply wp_skip, emitted_refl|].
    destruct (dhcp (heap s !!! c)) eqn:ED; cbn; [|apply wp_skip, emitted_refl].
    eapply wp_quiet_then; [apply logf_stable | apply log_ev_sends |].
    intros [] s3 [? ->]. wp_use sendDHCPv6_sends. intros [] s4. cbn. by rewrite E.
  - cbv beta. intros [] s' Hs'. exists (cs ≫= λ c, let i := heap s !!! c in
      if relay_master i then dhcp_out i target dhcpv6ServerPort envelope else []).
    split; [unfold masters_out; by rewrite Hcs|].
    eapply (emitted_trans sends [] _); [|exact Hs'].
    eapply emits_emitted; [apply query_ev_sends | exact Hs1].
Qed.

Lemma relayLinkAddressOrZero_spec p s :
  wp (relayLinkAddressOrZero p)
     (λ a s', emits query_ev s s' ∧ ∃ now,
        a = from_option ip_Addr IPv6Unspecified (pickLinkAddress now None (Addr6 (heap s !!! p)))) s.
Proof.
  unfold relayLinkAddressOrZero, relayLinkAddress. apply wp_bind, wp_bind.
  wp_use nowMono_stable. intros t s1 Hs1.
  assert (heap s1 = heap s) as E by (by destruct Hs1 as (? & -> & _)).
  apply wp_bind, wp_deref, wp_ret. rewrite E.
  destruct (pickLinkAddress _ _ _) as [a|] eqn:EP;
    (split; [done|]; exists (u32 t); by rewrite EP).
Qed.

(** What [relayClientRequest] sends once the hop count is settled; the clock
    reading is the environment's. *)
Definition forwarded (s : St) (source : Addr) (data : list Z) (p : loc) (hops : Z) (xs : list call) : Prop :=
  ∃ now,
    let i := heap s !!! p in
    let link := from_option ip_Addr IPv6Unspecified (pickLinkAddress now None (Addr6 i)) in
    xs ≡ₚ masters_out s allDHCPv6Server (relayEnvelope hops link source (Ifindex i) data).

Lemma relayWithHops_sends source data p hops s :
  wp (relayWithHops source data p AddrNone hops)
     (λ _ s', ∃ xs, forwarded s source data p hops xs ∧ emitted sends xs s s') s.
Proof.
  unfold relayWithHops. apply wp_bind. wp_use relayLinkAddressOrZero_spec.
  intros a s1 [Hs1 [now ->]].
  assert (emitted sends [] s s1) as He by (eapply emits_emitted; [apply query_ev_sends | done]).
  destruct (emitted_same_mem _ _ _ _ He) as [t ->].
  apply wp_bind, wp_deref. wp_use sendToMasters_sends.
  intros [] s2 (xs & Hxs & Hs2). exists xs.
  split; [by exists now | exact (emitted_trans sends [] xs _ _ _ He Hs2)].
Qed.
End Dhcpv6Specs.
#[export] Hint Resolve sendDHCPv6_stable : stable.

(** ** The server's answer *)

(** The interface index and message a Relay-Reply carries, if it is one the
    program acts on. *)
Definition reply_target (data : list Z) : option (Z * list Z) :=
  if (34 <=? length data)%nat && bool_decide (head data = Some dhcpMsgRelayRepl) then
    match replyScan (length data) data 34 noReplyOpts with
    | Ok (mkReplyOpts (Some i) (Some payload)) =>
        if (4 <=? length payload)%nat then Some (i, payload) else None
    | _ => None
    end
  else None.

(** The port: another relay agent for a nested Relay-Reply, else a client. *)
Definition reply_port (payload : list Z) : Z :=
  if bool_decide (head payload = Some dhcpMsgRelayRepl)
  then dhcpv6ServerPort else dhcpv6ClientPort.

(** What may be sent for a server's message: nothing, or the message out of
    the one interface found under the announced index, if that is a slave with
    a socket; the destination is taken from bytes 2 to 17. *)
Definition reply_outcome (s : St) (data : list Z) (xs : list call) : Prop :=
  match reply_target data with
  | None => xs = []
  | Some (ix, payload) =>
      (∃ n p, let i := heap s !!! p in
         interfaces s !! n = Some p ∧ Ifindex i = ix ∧
         xs = if Master i then []
              else dhcp_out i (AddrFrom16 (take 16 (drop 2 data))) (reply_port payload) payload)
      ∨ ((∀ n p, interfaces s !! n = Some p → Ifindex (heap s !!! p) ≠ ix) ∧ xs = [])
  end.

(** A server's answer to an envelope: link and peer address and the
    interface-id option copied (RFC 8415, section 19.3), around a message. *)
Definition server_echo (hop : Z) (envelope payload : list Z) : list Z :=
  [dhcpMsgRelayRepl; hop] ++ take 32 (drop 2 envelope) ++ take 8 (drop 34 envelope)
    ++ option_wire (dhcpOptRelayMsg, payload).

(** The envelope is a 34-byte header followed by two well-formed options. *)
Definition envelope_header (t hop : Z) (link source : Addr) : list Z :=
  [t; hop] ++ As16 link ++ As16 source.
Definition ifid_option (ifindex : Z) : Z * list Z := (dhcpOptInterfaceID, le_bytes 4 (u32 ifindex)).

Lemma relayEnvelope_options hop link source ifindex data :
  Z.of_nat (length data) < 65536 →
  relayEnvelope hop link source ifindex data =
  envelope_header dhcpMsgRelayForw hop link source ++
    (([ifid_option ifindex; (dhcpOptRelayMsg, data)] ≫= option_wire) ++ []).
Proof.
  intros Hd. unfold relayEnvelope, envelope_header, ifid_option, option_wire. cbn [mbind list_bind fst snd].
  rewrite !app_nil_r, <- !(assoc_L (++)), length_le_bytes, u16_small by lia. done.
Qed.

Lemma length_envelope_header t hop link source : length (envelope_header t hop link source) = 34%nat.
Proof. unfold envelope_header. by rewrite !length_app, !length_As16. Qed.

Lemma server_echo_options hop hop' link source ifindex data payload :
  server_echo hop' (relayEnvelope hop link source ifindex data) payload =
  envelope_header dhcpMsgRelayRepl hop' link source ++
    (([ifid_option ifindex; (dhcpOptRelayMsg, payload)] ≫= option_wire) ++ []).
Proof.
  unfold server_echo, relayEnvelope, envelope_header, ifid_option, option_wire.
  cbn [mbind list_bind fst snd]. rewrite !app_nil_r, <- !(assoc_L (++)), length_le_bytes.
  generalize (be_bytes 2 (u16 (Z.of_nat (length data)))); intros lenb.
  generalize (le_bytes 4 (u32 ifindex)) (length_le_bytes 4 (u32 ifindex)); intros ib Hib.
  generalize (As16 link) (length_As16 link) (As16 source) (length_As16 source).
  intros a Ha b Hb.
  do 17 (destruct a as [|? a]; [discriminate Ha || idtac|]); [|discriminate Ha].
  do 17 (destruct b as [|? b]; [discriminate Hb || idtac|]); [|discriminate Hb].
  do 5 (destruct ib as [|? ib]; [discriminate Hib || idtac|]); [|discriminate Hib].
  reflexivity.
Qed.

Lemma ifid_option_wf ifindex : option_wf (ifid_option ifindex).
Proof. split; cbn; unfold dhcpOptInterfaceID; lia. Qed.
Lemma relaymsg_option_wf data : Z.of_nat (length data) < 65536 → option_wf (dhcpOptRelayMsg, data).
Proof. intros. split; cbn; unfold dhcpOptRelayMsg; lia. Qed.

(** The two options of an envelope, scanned. *)
Lemma scan_fold_envelope ifindex payload :
  0 ≤ ifindex < 2 ^ 31 →
  scan_fold [ifid_option ifindex; (dhcpOptRelayMsg, payload)] noReplyOpts =
  mkReplyOpts (Some ifindex) (Some payload).
Proof.
  intros Hi. unfold scan_fold, ifid_option. cbn [foldl fst snd].
  unfold replyOption at 2. rewrite length_le_bytes. cbn -[le_val le_bytes i32 u32].
  rewrite le_val_le_bytes, Z.mod_small by apply u32_range.
  by rewrite i32_u32_small by lia.
Qed.

Lemma reply_target_echo hop hop' link source ifindex data payload :
  0 ≤ ifindex < 2 ^ 31 → 4 ≤ Z.of_nat (length payload) < 65536 →
  reply_target (server_echo hop' (relayEnvelope hop link source ifindex data) payload) =
  Some (ifindex, payload).
Proof.
  intros Hi Hp. rewrite server_echo_options. unfold reply_target.
  set (d := envelope_header _ _ _ _ ++ _).
  assert (replyScan (length d) d 34 noReplyOpts =
    Ok (mkReplyOpts (Some ifindex) (Some payload))) as ->.
  { rewrite <- (scan_fold_envelope ifindex payload) by done.
    rewrite <- (length_envelope_header dhcpMsgRelayRepl hop' link source).
    apply replyScan_options; [|left; cbn; lia|unfold d; rewrite !length_app; lia].
    constructor; [apply ifid_option_wf|].
    constructor; [apply relaymsg_option_wf; lia | done]. }
  assert (34 ≤ length d)%nat by (unfold d; rewrite length_app, length_envelope_header; lia).
  destruct (Nat.leb_spec 34 (length d)), (Nat.leb_spec 4 (length payload)); try lia. done.
Qed.

Lemma server_echo_link hop hop' link source ifindex data payload :
  take 16 (drop 2 (server_echo hop' (relayEnvelope hop link source ifindex data) payload)) = As16 link.
Proof.
  rewrite server_echo_options. unfold envelope_header. rewrite <- !(assoc_L (++)).
  change (drop 2 ([dhcpMsgRelayRepl; hop'] ++ ?k)) with k.
  rewrite take_app_le by (rewrite length_As16; lia).
  apply take_ge. rewrite length_As16. lia.
Qed.

Section Answer.
Context `{KN : Kernel} `{!KernelOk KN}.

Lemma quiet_state P s s' t :
  emitted sends [] s (set_trace t s) → (∀ e, P e → sends e = []) →
  emits P (set_trace t s) s' → emitted sends [] s s'.
Proof. intros H1 HP H2. exact (emitted_trans _ [] [] _ _ _ H1 (emits_emitted _ _ _ _ HP H2)). Qed.

Lemma deliverReply_sends data payload p s :
  (34 ≤ length data)%nat → (4 ≤ length payload)%nat →
  let i := heap s !!! p in
  wp (deliverReply data payload p)
     (λ _ s', emitted sends (if Master i then []
        else dhcp_out i (AddrFrom16 (take 16 (drop 2 data))) (reply_port payload) payload) s s') s.
Proof.
  intros Hd Hp i. unfold deliverReply. apply wp_bind, wp_deref. fold i.
  destruct (Master i); cbn [orb]; [apply wp_skip, emitted_refl|].
  unfold dhcp_out. destruct (dhcp i) as [ds|] eqn:Eds; [|apply emitted_refl].
  rewrite bool_decide_eq_false_2 by done.
  destruct payload as [|p0 payload']; [cbn in *; lia|].
  apply wp_bind. eapply wp_lift; [reflexivity|].
  apply wp_bind. eapply wp_lift; [by apply slice_ok; lia|].
  eapply wp_quiet_then; [apply logf_stable | apply log_ev_sends |].
  intros [] s2 [t ->]. wp_use sendDHCPv6_sends. intros [] s3 Hs3.
  unfold dhcp_out in Hs3. cbn in Hs3. fold i in Hs3. rewrite Eds in Hs3.
  unfold reply_port. cbn [head]. by destruct (Z.eqb_spec p0 dhcpMsgRelayRepl) as [->|];
    [|rewrite bool_decide_eq_false_2 by congruence].
Qed.

Lemma relayServerResponse_outcome data s :
  wp (relayServerResponse data)
     (λ _ s', ∃ xs, emitted sends xs s s' ∧ reply_outcome s data xs) s.
Proof.
  unfold relayServerResponse. apply wp_bind, wp_log. intros s0 Hs0.
  assert (emitted sends [] s s0) as He by (eapply emits_emitted; [apply log_ev_sends | done]).
  destruct (emitted_same_mem _ _ _ _ He) as [t0 ->]. unfold reply_outcome, reply_target.
  destruct (Nat.ltb_spec (length data) 34), (Nat.leb_spec 34 (length data)); try lia;
    [apply wp_skip; by exists []|].
  destruct data as [|b0 rest] eqn:Ed; [cbn in *; lia|]. rewrite <- Ed in *.
  apply wp_bind. eapply wp_lift; [by rewrite Ed|]. cbn [andb].
  replace (head data) with (Some b0) by by rewrite Ed.
  destruct (Z.eqb_spec b0 dhcpMsgRelayRepl) as [->|Hne]; cbn [negb];
    [rewrite bool_decide_eq_true_2 by done
    |rewrite bool_decide_eq_false_2 by congruence; apply wp_skip; by exists []].
  destruct (replyScan_total (length data) data 34 noReplyOpts) as [opts Ho]; [lia|].
  apply wp_bind. eapply wp_lift; [exact Ho|]. rewrite Ho.
  destruct opts as [[ix|] [payload|]]; cbn [ro_ifaceidx ro_payload]; try (apply wp_skip; by exists []).
  destruct (Nat.ltb_spec (length payload) 4), (Nat.leb_spec 4 (length payload)); try lia;
    [apply wp_skip; by exists []|].
  apply wp_bind, wp_find_interface.
  - intros n p s1 Hs1 Hn Hix. to_prop. cbn in Hn, Hix.
    pose proof (quiet_state _ _ _ _ He query_ev_sends Hs1) as He1.
    destruct (emitted_same_mem _ _ _ _ He1) as [t1 ->].
    wp_use deliverReply_sends; [done..|]. intros [] s2 Hs2. cbn in Hs2.
    eexists. split; [exact (emitted_trans sends [] _ _ _ _ He1 Hs2)|]. left. eauto.
  - intros s1 Hs1 Hnone. apply wp_skip. exists [].
    split; [exact (quiet_state _ _ _ _ He query_ev_sends Hs1)|].
    right. split; [|done]. intros n p Hn ?. specialize (Hnone n p Hn). by to_prop.
Qed.
End Answer.

(** ** Properties *)

Section Properties.
Context `{KN : Kernel} `{!KernelOk KN}.

(** C13: the bytes behind the 34-byte header of any message are well-formed
    options followed by bytes that do not form one, and however they are split
    that way the option scan returns the index of the last interface-id option
    of four bytes (little-endian, signed) and the body of the last relayed
    message, nothing where there is none; the trailing bytes do not count. *)
Theorem replyScan_correct data :
  Forall is_byte data → (34 ≤ length data)%nat →
  (∃ os t, scans_as (drop 34 data) os t) ∧
  ∀ os t, scans_as (drop 34 data) os t →
    replyScan (length data) data 34 noReplyOpts = Ok (scan_result os).
Proof.
  intros Hb Hl. split; [by apply scan_decompose, Forall_drop|]. intros os t (Hd & Hos & Ht).
  assert (length (take 34 data) = 34%nat) as Hh by (rewrite length_take; lia).
  rewrite <- (take_drop 34 data) in Hb |- * at 2. rewrite Hd in *. rewrite <- Hh at 2.
  rewrite replyScan_options, scan_fold_says; [by destruct (scan_result os) as [[] []] | | done | done |].
  - apply Forall_app in Hb as [_ Hb]. by eapply option_bodies_bytes.
  - rewrite <- (take_drop 34 data) at 1. rewrite Hd, !length_app. lia.
Qed.

(** C11: a client's message is wrapped in one envelope and sent, byte for
    byte, to every relaying master and nowhere else; a message not to be
    relayed is dropped silently.  The link address is the one
    [pickLinkAddress] chooses on the receiving interface, else unspecified. *)
Theorem relayClientRequest_sends source data p s :
  Forall is_byte data →
  wp (relayClientRequest source data p AddrNone)
     (λ _ s', ∃ xs, emitted sends xs s s' ∧
        match relay_hops data with
        | None => xs = []
        | Some hops => forwarded s source data p hops xs
        end) s.
Proof.
  intros Hb. unfold relayClientRequest.
  assert (∃ xs, emitted sends xs s s ∧ xs = []) as Hdrop
    by (eexists; split; [apply emitted_refl | done]).
  destruct data as [|t [|h rest]]; [by apply wp_skip..|].
  cbn [length Nat.ltb Nat.leb relay_hops]. apply wp_bind. eapply wp_lift; [reflexivity|].
  destruct (serverMessage t); [by apply wp_skip|].
  apply wp_bind, wp_log. intros s1 Hs1.
  assert (emitted sends [] s s1) as He by (eapply emits_emitted; [apply log_ev_sends | done]).
  assert (is_byte h) as Hh by (by inversion_clear Hb as [|?? _ Hb']; inversion_clear Hb').
  assert (∀ hops, wp (relayWithHops source (t :: h :: rest) p AddrNone hops)
    (λ _ s', ∃ xs, emitted sends xs s s' ∧ forwarded s source (t :: h :: rest) p hops xs) s1)
    as Hgo.
  { intros hops. destruct (emitted_same_mem _ _ _ _ He) as [t' ->].
    wp_use relayWithHops_sends. intros [] s2 (xs & Hxs & Hs2). exists xs.
    split; [exact (emitted_trans sends [] xs _ _ _ He Hs2) | done]. }
  destruct (t =? dhcpMsgRelayForw).
  - apply wp_bind, wp_bind. eapply wp_lift; [reflexivity|]. apply wp_ret.
    destruct (Z.leb_spec dhcpv6HopLimit h) as [Hlim|Hlim].
    + apply wp_skip. by exists [].
    + rewrite u8_small; [apply Hgo|]. unfold is_byte, dhcpv6HopLimit in *. lia.
  - apply wp_bind, wp_ret, Hgo.
Qed.

(** Decoding an envelope gives back the interface index and the
    message, so what a relay further up or a server reads is what the client
    sent and where. *)
Lemma relayEnvelope_roundtrip hop link source ifindex data :
  0 ≤ ifindex < 2 ^ 31 → Z.of_nat (length data) < 65536 →
  let e := relayEnvelope hop link source ifindex data in
  replyScan (length e) e 34 noReplyOpts = Ok (mkReplyOpts (Some ifindex) (Some data)) ∧
  length e = (46 + length data)%nat.
Proof.
  intros Hi Hd e. unfold e. rewrite relayEnvelope_options by done. split.
  - rewrite <- (scan_fold_envelope ifindex data) by done.
    rewrite <- (length_envelope_header dhcpMsgRelayForw hop link source).
    apply replyScan_options; [|left; cbn; lia|rewrite !length_app; lia].
    constructor; [apply ifid_option_wf|]. constructor; [by apply relaymsg_option_wf | done].
  - rewrite length_app, length_envelope_header. unfold ifid_option, option_wire.
    cbn [mbind list_bind fst snd]. rewrite !length_app, !length_be_bytes, !length_le_bytes.
    cbn [length]. lia.
Qed.

(** C12: a server's message is answered on every branch as specified: at most
    one datagram, the relayed message unchanged, out of the slave interface
    whose index the message names; a malformed, unaddressed or misaddressed
    message sends nothing. *)
Theorem relayServerResponse_sends data s :
  wp (relayServerResponse data)
     (λ _ s', ∃ xs, emitted sends xs s s' ∧ reply_outcome s data xs) s.
Proof. apply relayServerResponse_outcome. Qed.

(** C10: a server that copies the addresses and the interface-id of our
    envelope reaches the interface the client's message came in on: the
    answer leaves that interface, whole and alone.  Its destination is the
    link address of the envelope (bytes 2 to 17 of the header), not the
    client's address (bytes 18 to 33). *)
Theorem relay_answer_roundtrip hop hop' link source data payload n p ds s :
  let i := heap s !!! p in
  interfaces s !! n = Some p →
  (∀ n' p', interfaces s !! n' = Some p' → Ifindex (heap s !!! p') = Ifindex i → p' = p) →
  0 ≤ Ifindex i < 2 ^ 31 → Master i = false → dhcp i = Some ds →
  4 ≤ Z.of_nat (length payload) < 65536 →
  wp (relayServerResponse (server_echo hop' (relayEnvelope hop link source (Ifindex i) data) payload))
     (λ _ s', emitted sends
        [dhcp_datagram i ds (AddrFrom16 (As16 link)) (reply_port payload) payload] s s') s.
Proof.
  intros i Hn Huniq Hi Hm Hds Hp. wp_use relayServerResponse_outcome.
  intros [] s' (xs & Hxs & Ho). unfold reply_outcome in Ho.
  rewrite reply_target_echo, server_echo_link in Ho by (lia || done).
  destruct Ho as [(n' & p' & Hn' & Hix & ->)|[Hnone _]]; [|by destruct (Hnone n p Hn)].
  rewrite (Huniq _ _ Hn' Hix) in Hxs. fold i in Hxs. rewrite Hm in Hxs.
  unfold dhcp_out in Hxs. by rewrite Hds in Hxs.
Qed.

(** A packet from a socket that has been replaced or closed, or for an
    interface that does not relay DHCPv6, changes nothing. *)
Lemma handleDHCPv6_stale ds src data s :
  (∀ d, dhcp (heap s !!! ds_iface ds) = Some d → ds_ptr d ≠ ds_ptr ds)
    ∨ DHCPv6 (heap s !!! ds_iface ds) ≠ ModeRelay →
  handleDHCPv6 ds src data s = Ok (tt, s).
Proof.
  intros Hst. unfold handleDHCPv6, current_dhcp, mbind, M_bind, deref, get, mret, M_ret.
  unfold mbind, M_bind. destruct Hst as [Hst|Hst].
  - destruct (dhcp _) as [d|]; [|done]. by rewrite (bool_decide_eq_false_2 (_ = _)) by auto.
  - by rewrite (bool_decide_eq_true_2 (DHCPv6 _ ≠ _)), orb_true_r by done.
Qed.
End Properties.

(** ** The properties at work *)

Definition sample_solicit : list Z := [dhcpMsgSolicit; 1; 2; 3; 0; 1; 0; 2; 7; 7].
Definition sample_reply : list Z := [dhcpMsgReply; 1; 2; 3].
Definition sample_envelope : list Z :=
  relayEnvelope 0 (global_addr 1) (ll_addr 9) 3 sample_solicit.

(** Two interface-ids (the second negative), one of a wrong length, a relayed
    message, an unknown option and an incomplete one. *)
Definition sample_options : list (Z * list Z) :=
  [ifid_option 3; (dhcpOptRelayMsg, sample_reply); (dhcpOptInterfaceID, [254; 255; 255; 255]);
   (dhcpOptInterfaceID, [1; 2]); (1, [0; 9; 0])].
Definition sample_options_message : list Z :=
  (dhcpMsgRelayRepl :: replicate 33 0) ++ (sample_options ≫= option_wire) ++ [0; 9; 0; 4; 7].

Lemma replyScan_correct_witness :
  replyScan (length sample_options_message) sample_options_message 34 noReplyOpts =
  Ok (mkReplyOpts (Some (-2)) (Some sample_reply)).
Proof.
  apply (proj2 (replyScan_correct sample_options_message (bytes_ok sample_options_message eq_refl) ltac:(cbn; lia))
    sample_options [0; 9; 0; 4; 7]).
  split; [done|]. split; [|right; cbn; lia].
  repeat constructor; cbn; unfold dhcpOptRelayMsg, dhcpOptInterfaceID; lia.
Defined.

Lemma relayClientRequest_sends_witness :
  relay_hops sample_solicit = Some 0 ∧
  wp (@relayClientRequest sample_kernel (ll_addr 9) sample_solicit 2%positive AddrNone)
     (λ _ s', ∃ xs, emitted sends xs sample_state s' ∧
        forwarded sample_state (ll_addr 9) sample_solicit 2%positive 0 xs) sample_state.
Proof.
  split; [done|].
  apply (relayClientRequest_sends (KN := sample_kernel) (ll_addr 9) sample_solicit 2%positive sample_state).
  by apply bytes_ok.
Defined.

Lemma relayServerResponse_sends_witness :
  reply_target (server_echo 0 sample_envelope sample_reply) = Some (3, sample_reply) ∧
  wp (@relayServerResponse sample_kernel (server_echo 0 sample_envelope sample_reply))
     (λ _ s', ∃ xs, emitted sends xs sample_state s' ∧
        reply_outcome sample_state (server_echo 0 sample_envelope sample_reply) xs) sample_state.
Proof. split; [by vm_compute|]. apply (relayServerResponse_sends (KN := sample_kernel)). Defined.

Lemma relay_answer_roundtrip_witness :
  wp (@relayServerResponse sample_kernel (server_echo 0 sample_envelope sample_reply))
     (λ _ s', emitted sends
        [dhcp_datagram sample_lan (mkDhcpSock 11%positive 8 2%positive 12%positive) (global_addr 1)
           dhcpv6ClientPort sample_reply] sample_state s') sample_state.
Proof.
  apply (relay_answer_roundtrip (KN := sample_kernel) 0 0 (global_addr 1) (ll_addr 9) sample_solicit
    sample_reply "lan" 2%positive (mkDhcpSock 11%positive 8 2%positive 12%positive) sample_state).
  - done.
  - by intros n' p' [[-> ->]|[-> ->]]%sample_interfaces.
  - by vm_compute.
  - done.
  - done.
  - cbn. lia.
Defined.
