(* ===== verification/Router.v ===== *)
(** * The RA/RS relay ([internal/relay/router.go])

    The raw ICMPv6 socket of an interface, the start-up solicitations of a
    master, and the relaying of Router Solicitations (to every other master)
    and Router Advertisements (to every slave, with the source link-layer
    address option rewritten). *)
From S2P Require Import Prelude Netip World Hoare Log Iface RawSock Sim.

Definition maxRtrSolicitations := 3.
(** [rtrSolicitationInterval] and the first delay, in milliseconds. *)
Definition rtrSolicitationInterval := 4000.
Definition rtrFirstDelay := 100.
Definition ndRouterSolicit := 133.
Definition ndRouterAdvert := 134.
Definition ndOptSourceLinkAddr := 1.

(** ** Rewriting the source link-layer address option *)

(** The loop of [fixSourceLinkAddrOption]; the buffer is threaded through. *)
Fixpoint fixOptions (fuel : nat) (data : list Z) (opt : nat) (mac : list Z) : res (list Z) :=
  if (opt + 2 <=? length data)%nat then
    match fuel with
    | O => OutOfFuel
    | S fuel' =>
        optType ← idx data opt;
        l ← idx data (opt + 1);
        let optLen := (Z.to_nat l * 8)%nat in
        if (optLen =? 0)%nat || (length data <? opt + optLen)%nat then Ok data
        else
          data ← (if optType =? ndOptSourceLinkAddr then
                    let n := ((optLen - 2) `min` 6)%nat in
                    _ ← slice data (opt + 2) (opt + 2 + n);
                    src ← slice mac 0 n;
                    Ok (splice data (opt + 2) src)
                  else Ok data);
          fixOptions fuel' data (opt + optLen) mac
    end
  else Ok data.

Definition raHdrLen := 16%nat.
Definition fixSourceLinkAddrOption (data mac : list Z) : res (list Z) :=
  if (length data <? raHdrLen)%nat then Ok data
  else fixOptions (length data) data raHdrLen mac.

Section Router.
Context `{Kernel}.

(** ** Sending *)

Definition sendICMP6 (p : loc) (dest : Addr) (ifindex : Z) (payload : list Z) : M (option goerr) :=
  i ← deref p;
  match router i with
  | None => mret (Some (Errno unix.EBADF))
  | Some rs => sendICMP6FD (rs_fd rs) p dest ifindex AddrNone payload
  end.

(** The packet: eight bytes, and the option when the address is known. *)
Definition solicitPacket (p : loc) : M (list Z) :=
  let pkt := ndRouterSolicit :: replicate 7 0 in
  r ← getMAC p;
  match r with
  | Some mac =>
      m6 ← lift (slice mac 0 6);
      mret (pkt ++ [ndOptSourceLinkAddr; 1] ++ m6)
  | None => mret pkt
  end.

Definition sendRouterSolicitation (p : loc) : M bool :=
  i ← deref p;
  if bool_decide (router i = None) then mret false else
  pkt ← solicitPacket p;
  err ← sendICMP6 p allIPv6Routers (Ifindex i) pkt;
  mret (bool_decide (err = None)).

(** ** The start-up solicitations *)

Definition armSolicit (p : loc) (delay gen : Z) : M unit :=
  t ← afterFunc delay (FnSolicit p gen);
  assign p (set_rsTimer (Some t)).

Definition solicitTimerFire (p : loc) (gen : Z) : M unit :=
  i ← deref p;
  if negb (rsTimerN i =? gen) || bool_decide (router i = None) || negb (Master i)
     || bool_decide (RA i ≠ ModeRelay)
  then skip
  else
    ll ← getLinkLocalAddr p;
    match ll with
    | None => armSolicit p rtrSolicitationInterval gen
    | Some _ =>
        sent ← sendRouterSolicitation p;
        if negb sent then armSolicit p rtrSolicitationInterval gen
        else
          assign p (λ i, set_raSent (raSent i + 1) i) ;;
          i ← deref p;
          when (raSent i <? maxRtrSolicitations) (armSolicit p rtrSolicitationInterval gen)
    end.

(** ** Socket *)

(** The body of [routerSetup] once the socket exists. *)
Definition routerConfigure (p : loc) (fd : Z) : M (option goerr) :=
  i ← deref p;
  check "SO_BINDTODEVICE(%s): %v" (bindToDevice fd (Ifname i)) $
  check "IPV6_CHECKSUM: %v" (setsockoptInt fd unix.IPPROTO_RAW unix.IPV6_CHECKSUM 2) $
  check "IPV6_MULTICAST_HOPS: %v" (setsockoptInt fd unix.IPPROTO_IPV6 unix.IPV6_MULTICAST_HOPS 255) $
  check "IPV6_UNICAST_HOPS: %v" (setsockoptInt fd unix.IPPROTO_IPV6 unix.IPV6_UNICAST_HOPS 255) $
  check "IPV6_RECVPKTINFO: %v" (setsockoptInt fd unix.IPPROTO_IPV6 unix.IPV6_RECVPKTINFO 1) $
  check "IPV6_RECVHOPLIMIT: %v" (setsockoptInt fd unix.IPPROTO_IPV6 unix.IPV6_RECVHOPLIMIT 1) $
  check "IPV6_MULTICAST_LOOP: %v" (setsockoptInt fd unix.IPPROTO_IPV6 unix.IPV6_MULTICAST_LOOP 0) $
  (filt ← lift (f ← icmp6FilterSetPass icmp6FilterBlockAll ndRouterAdvert;
                icmp6FilterSetPass f ndRouterSolicit);
   check "ICMP6_FILTER: %v"
     (sys_err (SetsockoptICMPv6Filter fd unix.IPPROTO_ICMPV6 icmpv6FilterOpt filt)) $
   let group := if Master i then allIPv6Nodes else allIPv6Routers in
   check "IPV6_ADD_MEMBERSHIP: %v" (joinMulticast6 fd group (Ifindex i) true) $
   ptr ← alloc;
   done ← alloc;
   let rs := mkRouterSock ptr fd p done in
   assign p (λ i, set_raSent 0 (set_router (Some rs) i)) ;;
   spawn (RouterReader rs) ;;
   when (Master i)
     (assign p (λ i, set_rsTimerN (rsTimerN i + 1) i) ;;
      i ← deref p;
      armSolicit p rtrFirstDelay (rsTimerN i)) ;;
   mret None).

Definition stopRsTimer (p : loc) : M unit :=
  i ← deref p;
  match rsTimer i with
  | Some t => stopTimer t ;; assign p (set_rsTimer None)
  | None => skip
  end.

Definition routerSetup (p : loc) (enable : bool) : M (option goerr) :=
  i ← deref p;
  let enable := enable && bool_decide (RA i ≠ ModeDisabled) in
  match router i with
  | Some rs =>
      closeChan (rs_done rs) ;; closeFD (rs_fd rs) ;; assign p (set_router None)
  | None => skip
  end ;;
  if negb enable then stopRsTimer p ;; mret None
  else
    r ← sys_socket unix.AF_INET6 (Z.lor unix.SOCK_RAW unix.SOCK_CLOEXEC) unix.IPPROTO_ICMPV6;
    match r with
    | inl err => Errorf "socket(AF_INET6) for router relay on %s: %v" ;; mret (Some err)
    | inr fd => closing_on_error fd (routerConfigure p fd)
    end.

(** One turn of [routerReadLoop]. *)
Definition routerReadTurn (done1 : bool) (r : recv_result) (done2 : bool) : loop_step (list Z) :=
  if done1 then LoopReturn else
  match r with
  | RecvError e =>
      if is_EINTR e then LoopContinue
      else if done2 then LoopReturn else LoopSleep
  | Received data oob _ =>
      if (length data =? 0)%nat then LoopContinue
      else
        let '(_, hoplimit, hasHL) := parseCmsgs oob in
        if hasHL && negb (hoplimit =? 255) then LoopContinue
        else LoopPost data
  end.

(** ** Handlers *)

Definition forwardRouterSolicitation (p : loc) : M unit :=
  cs ← range_interfaces;
  forM cs (λ c,
    ci ← deref c;
    i ← deref p;
    if (Ifindex ci =? Ifindex i) || negb (Master ci) || bool_decide (RA ci ≠ ModeRelay)
    then skip
    else _ ← sendRouterSolicitation c; skip).

Definition forwardRouterAdvertisement (p : loc) (data : list Z) : M unit :=
  cs ← range_interfaces;
  forM cs (λ c,
    ci ← deref c;
    i ← deref p;
    if (Ifindex ci =? Ifindex i) || Master ci || bool_decide (RA ci ≠ ModeRelay)
    then skip
    else
      r ← getMAC c;
      out ← (match r with
             | Some mac => lift (fixSourceLinkAddrOption data (hwAddrBytes6 mac))
             | None => mret data
             end);
      _ ← sendICMP6 c allIPv6Nodes (Ifindex ci) out;
      skip).

Definition current_router (i : Interface) (rs : routerSock) : bool :=
  match router i with Some r => bool_decide (rs_ptr r = rs_ptr rs) | None => false end.

Definition handleICMPv6 (rs : routerSock) (data : list Z) : M unit :=
  i ← deref (rs_iface rs);
  if negb (current_router i rs) || bool_decide (RA i ≠ ModeRelay) then skip
  else if (length data <? 4)%nat then skip
  else
    icmpType ← lift (idx data 0);
    icmpCode ← lift (idx data 1);
    if negb (icmpCode =? 0) then skip
    else if icmpType =? ndRouterSolicit then forwardRouterSolicitation (rs_iface rs)
    else if icmpType =? ndRouterAdvert then forwardRouterAdvertisement (rs_iface rs) data
    else skip.
End Router.

(** ** Neighbour Discovery options

    A type byte, a length byte in units of eight bytes, and a body that fills
    the announced length. *)
Definition nd_wire (o : Z * list Z) : list Z :=
  o.1 :: Z.of_nat (length o.2 + 2) / 8 :: o.2.
Definition nd_wf (o : Z * list Z) : Prop :=
  ∃ k, (0 < k)%nat ∧ (length o.2 + 2 = k * 8)%nat.

(** Bytes at which the rewriting stops. *)
Definition nd_tail (t : list Z) : Prop :=
  match t with
  | _ :: l :: _ => (Z.to_nat l = 0 ∨ length t < Z.to_nat l * 8)%nat
  | _ => True
  end.

(** The rewriting of one option: its first six bytes become the address. *)
Definition nd_patch (mac : list Z) (o : Z * list Z) : Z * list Z :=
  if o.1 =? ndOptSourceLinkAddr then (o.1, mac ++ drop 6 o.2) else o.

Lemma nd_wire_length o : nd_wf o → ∃ k, (0 < k)%nat ∧ length (nd_wire o) = (k * 8)%nat ∧
  nd_wire o = o.1 :: Z.of_nat k :: o.2.
Proof.
  intros (k & Hk & Hl). exists k. split; [done|].
  assert (Z.of_nat (length o.2 + 2) / 8 = Z.of_nat k) as E
    by (rewrite Hl, Nat2Z.inj_mul; by apply Z.div_mul).
  unfold nd_wire. rewrite E. cbn [length]. split; [lia | done].
Qed.

Lemma nd_patch_wf mac o : length mac = 6%nat → nd_wf o → nd_wf (nd_patch mac o).
Proof.
  intros Hm (k & Hk & Hl). unfold nd_patch. case_match; [|by exists k].
  exists k. split; [done|]. cbn [snd]. rewrite length_app, length_drop. lia.
Qed.

(** Every byte string is a sequence of options and a tail. *)
Lemma nd_decompose l : Forall is_byte l →
  ∃ os t, l = (os ≫= nd_wire) ++ t ∧ Forall nd_wf os ∧ nd_tail t.
Proof.
  remember (length l) as n eqn:Hn. revert l Hn.
  induction n as [n IH] using lt_wf_ind. intros l -> Hb.
  assert (nd_tail l → ∃ os t, l = (os ≫= nd_wire) ++ t ∧ Forall nd_wf os ∧ nd_tail t) as Hdone
    by (intros Ht; by exists [], l).
  destruct l as [|ty [|k rest]]; [by apply Hdone..|].
  destruct (decide (Z.to_nat k = 0 ∨ length (ty :: k :: rest) < Z.to_nat k * 8)%nat) as [Hs|Hs];
    [by apply Hdone|]. clear Hdone.
  assert (is_byte k) as Hk by (by inversion_clear Hb as [|?? _ Hb']; inversion_clear Hb').
  cbn [length] in *. set (m := (Z.to_nat k * 8)%nat) in *.
  assert (Forall is_byte (drop (m - 2) rest)) as Hb'
    by (apply Forall_drop; by inversion_clear Hb as [|?? _ Hb']; inversion_clear Hb').
  destruct (IH (length (drop (m - 2) rest))) with (l := drop (m - 2) rest)
    as (os & t & Heq & Hos & Ht); [rewrite length_drop; lia | done | done |].
  assert (nd_wf (ty, take (m - 2) rest)) as Hwf.
  { exists (Z.to_nat k). cbn [snd]. rewrite length_take. lia. }
  exists ((ty, take (m - 2) rest) :: os), t. split; [|by split; [constructor|]].
  destruct (nd_wire_length _ Hwf) as (k' & Hk' & Hl' & E'). cbn [mbind list_bind].
  rewrite E', <- (assoc_L (++)), <- Heq. cbn [fst snd app]. do 2 f_equal; [|by rewrite take_drop].
  rewrite E' in Hl'. cbn [length fst snd] in Hl'. rewrite length_take in Hl'.
  unfold is_byte in Hk. lia.
Qed.

(** One turn of the loop, in terms of the bytes not yet visited. *)
Lemma fixOptions_step fuel hdr ty l t mac :
  length mac = 6%nat →
  fixOptions (S fuel) (hdr ++ ty :: l :: t) (length hdr) mac =
  let m := (Z.to_nat l * 8)%nat in
  if (m =? 0)%nat || (length (ty :: l :: t) <? m)%nat then Ok (hdr ++ ty :: l :: t)
  else fixOptions fuel
         (hdr ++ ty :: l :: (if ty =? ndOptSourceLinkAddr then mac ++ drop 6 t else t))
         (length hdr + m) mac.
Proof.
  intros Hm. cbn [fixOptions]. rewrite length_app.
  destruct (Nat.leb_spec (length hdr + 2) (length hdr + length (ty :: l :: t))); [|cbn in *; lia].
  rewrite <- (Nat.add_0_r (length hdr)) at 1. rewrite !idx_app. cbn [idx mbind res_bind lookup list_lookup].
  set (m := (Z.to_nat l * 8)%nat). cbv zeta.
  destruct (Nat.eqb_spec m 0) as [|Hm0]; cbn [orb]; [done|].
  destruct (Nat.ltb_spec (length hdr + length (ty :: l :: t)) (length hdr + m)),
    (Nat.ltb_spec (length (ty :: l :: t)) m); try lia; [done|].
  destruct (ty =? ndOptSourceLinkAddr); [|done].
  assert (((m - 2) `min` 6)%nat = 6%nat) as -> by lia. cbn [length] in *.
  rewrite (slice_ok mac) by lia. rewrite slice_ok by (rewrite length_app; cbn [length]; lia).
  cbn [mbind res_bind]. rewrite drop_0, take_ge, splice_app by lia.
  unfold splice. cbn [take]. by rewrite Hm.
Qed.

Lemma fixOptions_stop fuel hdr t mac :
  length mac = 6%nat → nd_tail t → (length t ≤ fuel)%nat →
  fixOptions fuel (hdr ++ t) (length hdr) mac = Ok (hdr ++ t).
Proof.
  intros Hm Ht Hf. destruct t as [|a [|l t]].
  - destruct fuel; cbn [fixOptions]; rewrite app_nil_r;
      by destruct (Nat.leb_spec (length hdr + 2) (length hdr)); [lia|].
  - destruct fuel; cbn [fixOptions]; rewrite length_app; cbn [length];
      by destruct (Nat.leb_spec (length hdr + 2) (length hdr + 1)); [lia|].
  - destruct fuel as [|fuel]; [cbn in Hf; lia|]. rewrite fixOptions_step by done. cbv zeta.
    cbn [nd_tail] in Ht. destruct (Nat.eqb_spec (Z.to_nat l * 8) 0); [done|].
    destruct (Nat.ltb_spec (length (a :: l :: t)) (Z.to_nat l * 8)); [done | lia].
Qed.

Lemma fixOptions_option fuel hdr o rest mac :
  length mac = 6%nat → nd_wf o →
  fixOptions (S fuel) (hdr ++ nd_wire o ++ rest) (length hdr) mac =
  fixOptions fuel ((hdr ++ nd_wire (nd_patch mac o)) ++ rest)
    (length (hdr ++ nd_wire (nd_patch mac o))) mac.
Proof.
  intros Hm Hwf. destruct (nd_wire_length _ Hwf) as (k & Hk & Hl & E).
  destruct o as [ty body]. cbn [fst snd] in E. rewrite E in Hl. cbn [length] in Hl.
  assert (nd_wire (nd_patch mac (ty, body)) =
    ty :: Z.of_nat k :: (if ty =? ndOptSourceLinkAddr then mac ++ drop 6 body else body)) as Ep.
  { unfold nd_patch. cbn [fst snd]. destruct (ty =? ndOptSourceLinkAddr); [|done].
    unfold nd_wire in *. cbn [fst snd] in *. injection E as E.
    rewrite length_app, length_drop. do 2 f_equal. rewrite <- E. do 2 f_equal. lia. }
  rewrite E, Ep. cbn [app]. rewrite fixOptions_step by done. cbv zeta.
  rewrite Nat2Z.id. cbn [length]. rewrite length_app.
  destruct (Nat.eqb_spec (k * 8) 0); [lia|].
  destruct (Nat.ltb_spec (S (S (length body + length rest))) (k * 8)); [lia|]. cbn [orb].
  rewrite <- (assoc_L (++)). cbn [app]. f_equal.
  - do 3 f_equal. destruct (ty =? ndOptSourceLinkAddr); [|done].
    rewrite <- (assoc_L (++)), drop_app_le by lia. done.
  - rewrite length_app. cbn [length]. case_match; [rewrite length_app, length_drop|]; lia.
Qed.

Lemma fixOptions_options fuel hdr os t mac :
  length mac = 6%nat → Forall nd_wf os → nd_tail t →
  (length (os ≫= nd_wire) + length t ≤ fuel)%nat →
  fixOptions fuel (hdr ++ (os ≫= nd_wire) ++ t) (length hdr) mac =
  Ok (hdr ++ ((nd_patch mac <$> os) ≫= nd_wire) ++ t).
Proof.
  intros Hm Hos Ht. revert fuel hdr. induction Hos as [|o os Ho _ IH]; intros fuel hdr Hf.
  - by apply fixOptions_stop.
  - cbn [mbind list_bind fmap list_fmap] in Hf |- *. rewrite length_app in Hf.
    destruct (nd_wire_length o Ho) as (k & Hk & Hl & _).
    destruct fuel as [|fuel]; [lia|]. rewrite <- (assoc_L (++)).
    rewrite fixOptions_option, IH by (done || lia). by rewrite <- !(assoc_L (++)).
Qed.

Lemma nd_patch_wire_length mac o :
  length mac = 6%nat → nd_wf o → length (nd_wire (nd_patch mac o)) = length (nd_wire o).
Proof.
  intros Hm (k & Hk & Hl). unfold nd_wire, nd_patch. case_match; [|done]. cbn [fst snd length].
  rewrite length_app, length_drop. lia.
Qed.

Lemma nd_patch_all_length mac os :
  length mac = 6%nat → Forall nd_wf os →
  length ((nd_patch mac <$> os) ≫= nd_wire) = length (os ≫= nd_wire).
Proof.
  intros Hm. induction 1 as [|o os Ho _ IH]; [done|].
  cbn [fmap list_fmap mbind list_bind]. rewrite !length_app. f_equal; [|exact IH].
  by apply nd_patch_wire_length.
Qed.

Lemma fixSourceLinkAddrOption_options data os t mac :
  length mac = 6%nat → (raHdrLen ≤ length data)%nat →
  drop raHdrLen data = (os ≫= nd_wire) ++ t → Forall nd_wf os → nd_tail t →
  fixSourceLinkAddrOption data mac =
  Ok (take raHdrLen data ++ ((nd_patch mac <$> os) ≫= nd_wire) ++ t).
Proof.
  intros Hm Hl Hd Hos Ht. unfold fixSourceLinkAddrOption.
  destruct (Nat.ltb_spec (length data) raHdrLen); [lia|].
  rewrite <- (take_drop raHdrLen data) at 2. rewrite Hd.
  pose proof (fixOptions_options (length data) (take raHdrLen data) os t mac Hm Hos Ht) as HF.
  rewrite length_take, Nat.min_l in HF by lia. apply HF.
  rewrite <- length_app, <- Hd, length_drop. lia.
Qed.

(** On any packet the rewriting returns, and keeps the length. *)
Lemma fixSourceLinkAddrOption_total data mac :
  Forall is_byte data → length mac = 6%nat →
  ∃ out, fixSourceLinkAddrOption data mac = Ok out ∧ length out = length data ∧
         take raHdrLen out = take raHdrLen data.
Proof.
  intros Hb Hm. destruct (Nat.lt_ge_cases (length data) raHdrLen) as [Hs|Hs].
  - exists data. unfold fixSourceLinkAddrOption. by apply Nat.ltb_lt in Hs as ->.
  - destruct (nd_decompose (drop raHdrLen data)) as (os & t & Hd & Hos & Ht);
      [by apply Forall_drop|].
    eexists. split; [by eapply fixSourceLinkAddrOption_options|].
    assert (length (take raHdrLen data) = raHdrLen) as Hl by (rewrite length_take; lia).
    split.
    + rewrite !length_app, nd_patch_all_length, Hl by done.
      rewrite <- length_app, <- Hd, length_drop. lia.
    + by rewrite take_app_le, take_take, Nat.min_id by lia.
Qed.

Lemma nd_patch_idem mac o : length mac = 6%nat → nd_patch mac (nd_patch mac o) = nd_patch mac o.
Proof.
  intros Hm. unfold nd_patch at 2 3. destruct (o.1 =? ndOptSourceLinkAddr) eqn:E;
    unfold nd_patch; cbn [fst snd]; rewrite E; [|done].
  by rewrite drop_app_length' by done.
Qed.

(** ** What the senders send *)

(** A solicitation, with the source link-layer address option when the
    hardware address is known. *)
Definition rs_packet (mac : option (list Z)) : list Z :=
  (ndRouterSolicit :: replicate 7 0) ++
  match mac with Some m => [ndOptSourceLinkAddr; 1] ++ take 6 m | None => [] end.

Definition router_out (i : Interface) (dest : Addr) (payload : list Z) : list call :=
  match router i with
  | Some rs => [icmp6_datagram (rs_fd rs) (Ifindex i) dest AddrNone payload]
  | None => []
  end.

Section RouterSpecs.
Context `{KN : Kernel} `{!KernelOk KN}.

Lemma wp_getMAC p (Q : option (list Z) → St → Prop) s :
  (∀ r s', emits query_ev s s' →
     match r with Some hw => (6 ≤ length hw)%nat | None => True end → Q r s') →
  wp (getMAC p) Q s.
Proof.
  intros HQ. unfold getMAC. apply wp_bind, wp_deref, wp_bind, wp_sys. intros r _.
  set (e := EvInterfaceByName _ _).
  assert (emits query_ev s (set_trace (trace s ++ [e]) s)) as Hs
    by (exists [e]; split; [done | by apply Forall_singleton]).
  destruct r as [hw|]; [|by apply wp_ret, HQ].
  destruct (Nat.ltb_spec (length hw) 6); apply wp_ret, HQ; done || lia.
Qed.

Lemma sendICMP6_sends p dest ifindex payload s :
  ifindex = Ifindex (heap s !!! p) →
  wp (sendICMP6 p dest ifindex payload)
     (λ _ s', emitted sends (router_out (heap s !!! p) dest payload) s s') s.
Proof.
  intros ->. unfold sendICMP6, router_out. apply wp_bind, wp_deref.
  destruct (router _); [apply sendICMP6FD_sends | apply wp_ret, emitted_refl].
Qed.

Lemma solicitPacket_spec p s :
  wp (solicitPacket p)
     (λ pkt s', emits query_ev s s' ∧ ∃ mac, pkt = rs_packet mac) s.
Proof.
  unfold solicitPacket. apply wp_bind, wp_getMAC. intros mac s1 Hs1 Hmac.
  destruct mac as [m|]; [|by apply wp_ret; split; [|exists None]].
  apply wp_bind. eapply wp_lift; [by apply slice_ok; lia|].
  apply wp_ret. split; [done|]. exists (Some m). unfold rs_packet. by rewrite drop_0, Nat.sub_0_r.
Qed.
Lemma solicitPacket_stable p : stable (emits query_ev) (solicitPacket p).
Proof. intros s. wp_use solicitPacket_spec. by intros ? ? []. Qed.
Lemma sendICMP6_stable p dest ifindex payload :
  stable (emits send_ev) (sendICMP6 p dest ifindex payload).
Proof. unfold sendICMP6. solve_stable. Qed.
#[local] Hint Resolve solicitPacket_stable sendICMP6_stable : stable.
Lemma sendRouterSolicitation_stable p : stable (emits send_ev) (sendRouterSolicitation p).
Proof. unfold sendRouterSolicitation. solve_stable. Qed.

(** One solicitation: [true] exactly when the kernel took it. *)
Lemma sendRouterSolicitation_accepted p s :
  let i := heap s !!! p in
  wp (sendRouterSolicitation p)
     (λ b s', if (b : bool) then ∃ rs mac, router i = Some rs ∧
           emitted accepted [icmp6_datagram (rs_fd rs) (Ifindex i) allIPv6Routers AddrNone
             (rs_packet mac)] s s'
         else emitted accepted [] s s') s.
Proof.
  intros i. unfold sendRouterSolicitation. apply wp_bind, wp_deref. fold i.
  destruct (router i) as [rs|] eqn:Er; [|apply emitted_refl].
  rewrite bool_decide_eq_false_2 by done.
  apply wp_bind. wp_use solicitPacket_spec. intros pkt s1 [Hs1 [mac ->]].
  assert (emitted accepted [] s s1) as He
    by (eapply emits_emitted; [apply query_ev_accepted | done]).
  destruct (emitted_same_mem _ _ _ _ He) as [t ->].
  apply wp_bind. unfold sendICMP6. apply wp_bind, wp_deref.
  change (heap (set_trace t s)) with (heap s). fold i. rewrite Er.
  wp_use sendICMP6FD_accepted. intros r s2 Hs2.
  pose proof (emitted_trans _ _ _ _ _ _ He Hs2) as Hs.
  destruct r; [exact Hs | exact (ex_intro _ rs (ex_intro _ mac (conj eq_refl Hs)))].
Qed.

Lemma sendRouterSolicitation_sends p s :
  let i := heap s !!! p in
  wp (sendRouterSolicitation p)
     (λ _ s', ∃ mac, emitted sends (router_out i allIPv6Routers (rs_packet mac)) s s') s.
Proof.
  intros i. unfold sendRouterSolicitation. apply wp_bind, wp_deref. fold i.
  destruct (router i) as [rs|] eqn:Er.
  2: { exists None. unfold router_out. rewrite Er. apply emitted_refl. }
  rewrite bool_decide_eq_false_2 by done.
  apply wp_bind. wp_use solicitPacket_spec. intros pkt s1 [Hs1 [mac ->]].
  assert (emitted sends [] s s1) as He by (eapply emits_emitted; [apply query_ev_sends | done]).
  destruct (emitted_same_mem _ _ _ _ He) as [t ->].
  apply wp_bind. wp_use sendICMP6_sends; [done|]. intros r s2 Hs2. exists mac.
  exact (emitted_trans _ _ _ _ _ _ He Hs2).
Qed.
End RouterSpecs.
#[export] Hint Resolve solicitPacket_stable sendICMP6_stable sendRouterSolicitation_stable : stable.

(** ** Properties *)

(** What matters of an advertisement's way: the hardware addresses looked up,
    by interface name and with their answers, and the datagrams sent. *)
Inductive ra_event : Type :=
| HwAddr (ifname : string) (answer : option (list Z))
| Datagram (c : call).
Definition ra_sel (e : event) : list ra_event :=
  match e with
  | EvInterfaceByName n r => [HwAddr n r]
  | _ => Datagram <$> sends e
  end.

(** A packet with the hardware address [hw] in every source link-layer address
    option, by the options it consists of; the packet itself when the address
    is unknown or not an Ethernet address, or when it has no full header. *)
Definition ra_packet (hw : option (list Z)) (data out : list Z) : Prop :=
  match hw with
  | Some a =>
      if (length a <? 6)%nat || (length data <? raHdrLen)%nat then out = data
      else ∃ os t, drop raHdrLen data = (os ≫= nd_wire) ++ t ∧ Forall nd_wf os ∧ nd_tail t ∧
             out = take raHdrLen data ++ ((nd_patch (take 6 a) <$> os) ≫= nd_wire) ++ t
  | None => out = data
  end.

(** The interfaces a Router Advertisement from [p] goes to, and what happens on
    one of them: its own hardware address is looked up and the packet with that
    address goes out of its socket. *)
Definition ra_target (s : St) (p c : loc) : bool :=
  negb (Ifindex (heap s !!! c) =? Ifindex (heap s !!! p)) && negb (Master (heap s !!! c))
    && bool_decide (RA (heap s !!! c) = ModeRelay).
Definition ra_sent (s : St) (p : loc) (data : list Z) (c : loc) (xs : list ra_event) : Prop :=
  if ra_target s p c then
    ∃ hw out, ra_packet hw data out ∧
      xs = HwAddr (Ifname (heap s !!! c)) hw :: (Datagram <$> router_out (heap s !!! c) allIPv6Nodes out)
  else xs = [].

(** The same for a Router Solicitation, which goes to the other masters. *)
Definition rs_target (s : St) (p c : loc) : bool :=
  negb (Ifindex (heap s !!! c) =? Ifindex (heap s !!! p)) && Master (heap s !!! c)
    && bool_decide (RA (heap s !!! c) = ModeRelay).
Definition rs_sent (s : St) (p c : loc) (xs : list call) : Prop :=
  if rs_target s p c then
    ∃ mac, xs = router_out (heap s !!! c) allIPv6Routers (rs_packet mac)
  else xs = [].

(** The conditions under which [solicitTimerFire] acts at all. *)
Definition solicit_active (i : Interface) (gen : Z) : bool :=
  (rsTimerN i =? gen) && bool_decide (router i ≠ None) && Master i && bool_decide (RA i = ModeRelay).

Lemma length_hwAddrBytes6 hw : length (hwAddrBytes6 hw) = 6%nat.
Proof. unfold hwAddrBytes6. rewrite length_take, length_app, length_replicate. lia. Qed.
Lemma hwAddrBytes6_take hw : (6 ≤ length hw)%nat → hwAddrBytes6 hw = take 6 hw.
Proof. intros. unfold hwAddrBytes6. by rewrite take_app_le by lia. Qed.
Lemma log_ev_ra e : log_ev e → ra_sel e = [].
Proof. by destruct e. Qed.

(** The rewriting gives such a packet. *)
Lemma ra_packet_fix hw data :
  Forall is_byte data → (6 ≤ length hw)%nat →
  ∃ out, fixSourceLinkAddrOption data (hwAddrBytes6 hw) = Ok out ∧ ra_packet (Some hw) data out.
Proof.
  intros Hb Hl. unfold ra_packet. destruct (Nat.ltb_spec (length hw) 6); [lia|].
  destruct (Nat.ltb_spec (length data) raHdrLen) as [Hs|Hs]; cbn [orb].
  - exists data. unfold fixSourceLinkAddrOption. by apply Nat.ltb_lt in Hs as ->.
  - destruct (nd_decompose (drop raHdrLen data)) as (os & t & Hd & Hos & Ht); [by apply Forall_drop|].
    eexists. split; [eapply fixSourceLinkAddrOption_options; try done; apply length_hwAddrBytes6|].
    exists os, t. by rewrite hwAddrBytes6_take.
Qed.

Section Properties.
Context `{KN : Kernel} `{!KernelOk KN}.

Lemma getMAC_asks p s :
  wp (getMAC p) (λ r s', ∃ hw, emitted ra_sel [HwAddr (Ifname (heap s !!! p)) hw] s s' ∧
    r = match hw with Some a => if (length a <? 6)%nat then None else Some a | None => None end) s.
Proof.
  unfold getMAC. apply wp_bind, wp_deref, wp_bind, wp_sys. intros r _.
  pose proof (emitted_one ra_sel (EvInterfaceByName (Ifname (heap s !!! p)) r) s) as He.
  destruct r as [hw|]; [|by apply wp_ret; exists None].
  destruct (length hw <? 6)%nat eqn:El; apply wp_ret; exists (Some hw); by rewrite El.
Qed.

Lemma sendICMP6_ra p dest ifindex payload s :
  ifindex = Ifindex (heap s !!! p) →
  wp (sendICMP6 p dest ifindex payload)
     (λ _ s', emitted ra_sel (Datagram <$> router_out (heap s !!! p) dest payload) s s') s.
Proof.
  intros ->. unfold sendICMP6, router_out. apply wp_bind, wp_deref.
  destruct (router _); [|apply wp_ret, emitted_refl].
  apply (sendICMP6FD_emitted ra_sel), log_ev_ra.
Qed.

(** C16: on any packet with a full header the rewriting terminates without a
    panic and changes exactly the first six body bytes of every source
    link-layer address option into the given address; the header, the other
    options and whatever trails the last well-formed option stay as they
    are. *)
Theorem fixSourceLinkAddrOption_spec data mac :
  Forall is_byte data → length mac = 6%nat → (raHdrLen ≤ length data)%nat →
  ∃ os t, drop raHdrLen data = (os ≫= nd_wire) ++ t ∧ Forall nd_wf os ∧ nd_tail t ∧
    fixSourceLinkAddrOption data mac =
      Ok (take raHdrLen data ++ ((nd_patch mac <$> os) ≫= nd_wire) ++ t).
Proof.
  intros Hb Hm Hl. destruct (nd_decompose (drop raHdrLen data)) as (os & t & Hd & Hos & Ht);
    [by apply Forall_drop|].
  exists os, t. repeat split; [done..|]. by apply fixSourceLinkAddrOption_options.
Qed.

(** C17: rewriting a packet again with the same address changes nothing more. *)
Theorem fixSourceLinkAddrOption_idem data mac out :
  Forall is_byte data → length mac = 6%nat →
  fixSourceLinkAddrOption data mac = Ok out → fixSourceLinkAddrOption out mac = Ok out.
Proof.
  intros Hb Hm Hout. destruct (Nat.lt_ge_cases (length data) raHdrLen) as [Hs|Hs].
  - unfold fixSourceLinkAddrOption in *. pose proof Hs as Hs'. apply Nat.ltb_lt in Hs'.
    rewrite Hs' in Hout. injection Hout as <-. by rewrite Hs'.
  - destruct (nd_decompose (drop raHdrLen data)) as (os & t & Hd & Hos & Ht);
      [by apply Forall_drop|].
    rewrite (fixSourceLinkAddrOption_options data os t) in Hout by done.
    injection Hout as <-.
    assert (length (take raHdrLen data) = raHdrLen) as Hl by (rewrite length_take; lia).
    rewrite (fixSourceLinkAddrOption_options _ (nd_patch mac <$> os) t).
    + rewrite take_app_le, take_take, Nat.min_id by lia.
      rewrite <- list_fmap_compose. do 4 f_equal.
      apply list_fmap_ext. intros ? o _. by apply nd_patch_idem.
    + done.
    + rewrite length_app. lia.
    + by rewrite drop_app_length' by lia.
    + apply Forall_fmap. eapply Forall_impl; [exact Hos|]. intros o. by apply nd_patch_wf.
    + done.
Qed.

(** The ICMPv6 filter installed on the socket is built without a panic
    and lets through Router Solicitations and Advertisements, nothing else. *)
Lemma router_filter_exact :
  ∃ f, (icmp6FilterSetPass icmp6FilterBlockAll ndRouterAdvert
          ≫= λ f, icmp6FilterSetPass f ndRouterSolicit) = Ok f ∧
    ∀ t, 0 ≤ t < 256 → filter_passes f t = (t =? ndRouterSolicit) || (t =? ndRouterAdvert).
Proof.
  destruct (icmp6FilterSetPass_spec icmp6FilterBlockAll ndRouterAdvert) as (f1 & E1 & L1 & H1);
    [done | done |].
  destruct (icmp6FilterSetPass_spec f1 ndRouterSolicit) as (f2 & E2 & L2 & H2); [done | done |].
  exists f2. rewrite E1. split; [exact E2|]. intros t Ht. rewrite H2, H1 by done. f_equal.
  rewrite (orb_comm (t =? _)). cut (filter_passes icmp6FilterBlockAll t = false); [by intros ->|].
  unfold filter_passes, icmp6FilterBlockAll.
  rewrite lookup_total_replicate_2 by by apply filter_index_bound.
  change 0xffffffff with (Z.ones 32).
  rewrite Z.ones_spec_low; [done|]. pose proof (land_31_range t). lia.
Qed.

(** The advertisement on one interface. *)
Lemma forwardRA_one c data s s2 :
  Forall is_byte data → heap s2 = heap s →
  wp (r ← getMAC c;
      out ← (match r with
             | Some mac => lift (fixSourceLinkAddrOption data (hwAddrBytes6 mac))
             | None => mret data
             end);
      _ ← sendICMP6 c allIPv6Nodes (Ifindex (heap s !!! c)) out; skip)
     (λ _ s', ∃ xs, (∃ hw out, ra_packet hw data out ∧
          xs = HwAddr (Ifname (heap s !!! c)) hw :: (Datagram <$> router_out (heap s !!! c) allIPv6Nodes out)) ∧
        emitted ra_sel xs s2 s') s2.
Proof.
  intros Hb Hh. apply wp_bind. wp_use getMAC_asks. rewrite Hh. intros r s3 (hw & He & Hr).
  destruct (emitted_same_mem _ _ _ _ He) as [t3 ->].
  apply wp_bind, (wp_mono _ (λ out s', s' = set_trace t3 s2 ∧ ra_packet hw data out)).
  { rewrite Hr. unfold ra_packet. destruct hw as [a|]; [|by apply wp_ret].
    destruct (Nat.ltb_spec (length a) 6) as [Hs|Hs]; [by apply wp_ret|].
    destruct (ra_packet_fix a data) as (out & Ho & Hp); [done | done|].
    unfold ra_packet in Hp. destruct (Nat.ltb_spec (length a) 6); [lia|]. by eapply wp_lift. }
  cbv beta. intros out ? [-> Hp]. apply wp_bind.
  wp_use sendICMP6_ra; [by cbn; rewrite Hh|]. cbn. rewrite Hh. intros r' s4 Hs4.
  eexists. split; [by exists hw, out | exact (emitted_trans _ [_] _ _ _ _ He Hs4)].
Qed.

(** C14: a Router Advertisement goes out once on every relaying slave other
    than the interface it came in on, and for each of them the hardware address
    asked for right before is its own, by name, and the packet sent is the one
    received with that address in every source link-layer address option and
    nothing else changed (the packet as it is when there is no such address);
    masters and disabled interfaces get nothing. *)
Theorem forwardRouterAdvertisement_sends p data s :
  Forall is_byte data →
  wp (forwardRouterAdvertisement p data)
     (λ _ s', ∃ cs xss, cs ≡ₚ (map_to_list (interfaces s)).*2 ∧
        Forall2 (ra_sent s p data) cs xss ∧ emitted ra_sel (concat xss) s s') s.
Proof.
  intros Hb. unfold forwardRouterAdvertisement, range_interfaces.
  apply wp_bind, wp_bind, wp_get, wp_range_one. intros cs Hcs.
  pose proof (emitted_one ra_sel EvRange s) as He. set (s1 := set_trace _ s) in *.
  eapply wp_mono; [apply (wp_forM_emitted_rel ra_sel (ra_sent s p data)) | cbv beta].
  - intros c s2 _ [t2 ->]. apply wp_bind, wp_deref, wp_bind, wp_deref. cbn. unfold ra_sent, ra_target.
    destruct (Ifindex (heap s !!! c) =? Ifindex (heap s !!! p)); cbn [negb andb orb];
      [eexists; split; [done | apply emitted_refl]|].
    destruct (Master (heap s !!! c)); cbn [negb andb orb];
      [eexists; split; [done | apply emitted_refl]|].
    destruct (RA (heap s !!! c)) eqn:ER; cbn; [eexists; split; [done | apply emitted_refl]|].
    apply forwardRA_one; done.
  - intros [] s' (xss & HR & Hs'). exists cs, xss. split; [done|]. split; [done|].
    exact (emitted_trans _ _ _ _ _ _ He Hs').
Qed.

(** C15: a Router Solicitation makes every other relaying master solicit once
    on its own socket; slaves send nothing. *)
Theorem forwardRouterSolicitation_sends p s :
  wp (forwardRouterSolicitation p)
     (λ _ s', ∃ cs xss, cs ≡ₚ (map_to_list (interfaces s)).*2 ∧
        Forall2 (rs_sent s p) cs xss ∧ emitted sends (concat xss) s s') s.
Proof.
  unfold forwardRouterSolicitation.
  apply wp_bind, wp_range_interfaces. intros cs s1 Hcs Hs1.
  assert (emitted sends [] s s1) as He by (eapply emits_emitted; [apply query_ev_sends | done]).
  destruct (emitted_same_mem _ _ _ _ He) as [t1 ->].
  eapply wp_mono.
  - apply (wp_forM_emitted_rel sends (rs_sent s p)). intros c s2 _ [t2 ->].
    apply wp_bind, wp_deref, wp_bind, wp_deref. cbn. unfold rs_sent, rs_target.
    destruct (Ifindex (heap s !!! c) =? Ifindex (heap s !!! p)); cbn [negb andb orb];
      [eexists; split; [done | apply emitted_refl]|].
    destruct (Master (heap s !!! c)); cbn [negb andb orb];
      [|eexists; split; [done | apply emitted_refl]].
    destruct (RA (heap s !!! c)) eqn:ER; cbn;
      [eexists; split; [done | apply emitted_refl]|].
    apply wp_bind. wp_use sendRouterSolicitation_sends. intros b s3 [mac Hs3].
    eexists. split; [by exists mac | exact Hs3].
  - cbv beta. intros [] s' (xss & HR & Hs'). exists cs, xss. split; [done|]. split; [done|].
    exact (emitted_trans _ _ _ _ _ _ He Hs').
Qed.

(** A packet from a socket that has been replaced or closed, or for an
    interface that does not relay advertisements, changes nothing. *)
Lemma handleICMPv6_stale rs data s :
  (∀ r, router (heap s !!! rs_iface rs) = Some r → rs_ptr r ≠ rs_ptr rs)
    ∨ RA (heap s !!! rs_iface rs) ≠ ModeRelay →
  handleICMPv6 rs data s = Ok (tt, s).
Proof.
  intros Hst. unfold handleICMPv6, current_router, mbind, M_bind, deref, get, mret, M_ret.
  unfold mbind, M_bind. destruct Hst as [Hst|Hst].
  - destruct (router _) as [d|]; [|done]. by rewrite (bool_decide_eq_false_2 (_ = _)) by auto.
  - by rewrite (bool_decide_eq_true_2 (RA _ ≠ _)), orb_true_r by done.
Qed.
End Properties.

(** ** The properties at work *)

(** A Router Advertisement with a source link-layer address option (of the
    sender [aa..aa]) and an MTU option. *)
Definition sample_ra : list Z :=
  [ndRouterAdvert; 0; 0; 0; 64; 0; 7; 8] ++ replicate 8 0 ++
  [ndOptSourceLinkAddr; 1] ++ replicate 6 170 ++ [5; 1; 0; 0; 0; 0; 5; 220].

Lemma sample_ra_bytes : Forall is_byte sample_ra.
Proof. by apply bytes_ok. Qed.

Lemma fixSourceLinkAddrOption_spec_witness :
  ∃ os t, drop raHdrLen sample_ra = (os ≫= nd_wire) ++ t ∧ Forall nd_wf os ∧ nd_tail t ∧
    fixSourceLinkAddrOption sample_ra (sample_mac 2) =
      Ok (take raHdrLen sample_ra ++ ((nd_patch (sample_mac 2) <$> os) ≫= nd_wire) ++ t).
Proof.
  apply (fixSourceLinkAddrOption_spec sample_ra (sample_mac 2)); [apply sample_ra_bytes | done | unfold raHdrLen; cbn; lia].
Defined.

Lemma fixSourceLinkAddrOption_idem_witness :
  ∃ out, fixSourceLinkAddrOption sample_ra (sample_mac 2) = Ok out ∧ out ≠ sample_ra ∧
    fixSourceLinkAddrOption out (sample_mac 2) = Ok out.
Proof.
  eexists. split; [by vm_compute|]. split; [done|].
  apply (fixSourceLinkAddrOption_idem sample_ra (sample_mac 2)); [apply sample_ra_bytes | done | by vm_compute].
Defined.

Lemma forwardRouterAdvertisement_sends_witness :
  ra_target sample_state 1%positive 2%positive = true ∧
  wp (@forwardRouterAdvertisement sample_kernel 1%positive sample_ra)
     (λ _ s', ∃ cs xss, cs ≡ₚ (map_to_list (interfaces sample_state)).*2 ∧
        Forall2 (ra_sent sample_state 1%positive sample_ra) cs xss ∧
        emitted ra_sel (concat xss) sample_state s') sample_state.
Proof.
  split; [by vm_compute|].
  apply (forwardRouterAdvertisement_sends (KN := sample_kernel)), sample_ra_bytes.
Defined.

Lemma forwardRouterSolicitation_sends_witness :
  rs_target sample_state 2%positive 1%positive = true ∧
  wp (@forwardRouterSolicitation sample_kernel 2%positive)
     (λ _ s', ∃ cs xss, cs ≡ₚ (map_to_list (interfaces sample_state)).*2 ∧
        Forall2 (rs_sent sample_state 2%positive) cs xss ∧
        emitted sends (concat xss) sample_state s') sample_state.
Proof. split; [by vm_compute|]. apply (forwardRouterSolicitation_sends (KN := sample_kernel)). Defined.
