(* ===== verification/Ndp.v ===== *)
(** * The NDP relay ([internal/relay/ndp.go])

    The packet socket that captures Neighbour Solicitations, the ping socket,
    their set-up, and the reaction to a solicitation: a ping of the target out
    of every other relaying interface, so that the kernel resolves it. *)
From S2P Require Import Prelude Netip World Hoare Log Iface RawSock Sim Mirror.

Definition ndNeighborSolicit := 135.
Definition icmp6EchoRequest := 128.

(** [bpfDropAll] and [bpfNSFilter]. *)
Definition bpfDropAll : list SockFilter := [mkFilter 0x06 0 0 0].
Definition bpfNSFilter : list SockFilter :=
  [ mkFilter 0x30 0 0 6;
    mkFilter 0x15 0 3 unix.IPPROTO_ICMPV6;
    mkFilter 0x30 0 0 40;
    mkFilter 0x15 0 1 ndNeighborSolicit;
    mkFilter 0x06 0 0 0xffffffff;
    mkFilter 0x06 0 0 0 ].

(** [swap16]: [v>>8 | v<<8] on [uint16]. *)
Definition swap16 (v : Z) : Z := Z.lor (Z.shiftr v 8) (u16 (Z.shiftl v 8)).

Section Ndp.
Context `{Kernel}.

Definition attachFilter (fd : Z) (prog : list SockFilter) : M (option goerr) :=
  sys_err (SetsockoptSockFprog fd prog).

(** [drainSocket]: one successful read per queued frame, then the failing
    one that ends the loop.  With the drop-all filter in place the queue of
    the socket is finite and does not grow: [k_backlog] is its length. *)
Fixpoint drainLoop (n : nat) (fd : Z) : M unit :=
  let flags := Z.lor unix.MSG_DONTWAIT unix.MSG_TRUNC in
  match n with
  | O => sys (λ _, tt) (λ _, EvRecvfrom fd flags false)
  | S n' => sys (λ _, tt) (λ _, EvRecvfrom fd flags true) ;; drainLoop n' fd
  end.
Definition drainSocket (fd : Z) : M unit :=
  s ← get; drainLoop (k_backlog (trace s) fd) fd.

(** ** Set-up *)

(** The body of [ndpSetup] once both sockets exist. *)
Definition ndpConfigureCapture (p : loc) (pingFd captureFd : Z) : M (option goerr) :=
  i ← deref p;
  err ← setProxyNDP (Ifname i) true;
  match err with
  | Some e => mret (Some e)
  | None =>
      check "SO_ATTACH_FILTER(drop-all): %v" (attachFilter captureFd bpfDropAll) $
      (drainSocket captureFd ;;
       check "SO_ATTACH_FILTER(ns-filter): %v" (attachFilter captureFd bpfNSFilter) $
       check "bind(AF_PACKET): %v"
         (sys_err (BindLinklayer captureFd (swap16 (u16 unix.ETH_P_ALL)) (Ifindex i))) $
       check "PACKET_ADD_MEMBERSHIP: %v"
         (sys_err (SetsockoptPacketMreq captureFd (i32 (Ifindex i)) unix.PACKET_MR_ALLMULTI 6)) $
       ptr ← alloc;
       done ← alloc;
       let ns := mkNdpSock ptr captureFd pingFd p done in
       assign p (set_ndp (Some ns)) ;;
       spawn (NdpReader ns) ;;
       seedMirroredNeighbors p ;;
       mret None)
  end.

(** The body once the ping socket exists. *)
Definition ndpConfigurePing (p : loc) (pingFd : Z) : M (option goerr) :=
  i ← deref p;
  check "SO_BINDTODEVICE(%s): %v" (bindToDevice pingFd (Ifname i)) $
  check "IPV6_CHECKSUM: %v" (setsockoptInt pingFd unix.IPPROTO_RAW unix.IPV6_CHECKSUM 2) $
  check "IPV6_MULTICAST_HOPS: %v" (setsockoptInt pingFd unix.IPPROTO_IPV6 unix.IPV6_MULTICAST_HOPS 255) $
  check "IPV6_UNICAST_HOPS: %v" (setsockoptInt pingFd unix.IPPROTO_IPV6 unix.IPV6_UNICAST_HOPS 255) $
  check "ICMP6_FILTER: %v"
    (sys_err (SetsockoptICMPv6Filter pingFd unix.IPPROTO_ICMPV6 icmpv6FilterOpt icmp6FilterBlockAll)) $
  r ← sys_socket unix.AF_PACKET (Z.lor unix.SOCK_DGRAM unix.SOCK_CLOEXEC) (swap16 (u16 unix.ETH_P_ALL));
  match r with
  | inl err => Errorf "socket(AF_PACKET) for ndp capture on %s: %v" ;; mret (Some err)
  | inr captureFd => closing_on_error captureFd (ndpConfigureCapture p pingFd captureFd)
  end.

Definition ndpSetup (p : loc) (enable : bool) : M (option goerr) :=
  i ← deref p;
  let enable := enable && bool_decide (NDP i ≠ ModeDisabled) in
  match ndp i with
  | Some ns =>
      closeChan (ns_done ns) ;; closeFD (ns_fd ns) ;; closeFD (ns_pingFd ns) ;;
      assign p (set_ndp None)
  | None => skip
  end ;;
  if negb enable then i ← deref p; setProxyNDP (Ifname i) false
  else
    r ← sys_socket unix.AF_INET6 (Z.lor unix.SOCK_RAW unix.SOCK_CLOEXEC) unix.IPPROTO_ICMPV6;
    match r with
    | inl err => Errorf "socket(AF_INET6) for ndp ping on %s: %v" ;; mret (Some err)
    | inr pingFd => closing_on_error pingFd (ndpConfigurePing p pingFd)
    end.

(** One turn of [ndpReadLoop]: the result posted is the pair
    [(srcMAC, data)] for [handleSolicit]; [from] is the link-layer address of
    a [SockaddrLinklayer] (eight bytes), [None] for another kind. *)
Definition ndpReadTurn (done1 : bool) (r : recv_result) (done2 : bool) : loop_step (list Z * list Z) :=
  if done1 then LoopReturn else
  match r with
  | RecvError e =>
      if is_EINTR e then LoopContinue
      else if done2 then LoopReturn else LoopSleep
  | Received data _ from =>
      if (length data =? 0)%nat then LoopContinue
      else match from with
           | None => LoopContinue
           | Some addr => LoopPost (take 6 addr, data)
           end
  end.

(** ** Handlers *)

Definition pingRouteMetric := 128.

Definition relayPing (target : Addr) (p : loc) : M unit :=
  i ← deref p;
  match ndp i with
  | None => skip
  | Some ns =>
      if ns_pingFd ns <? 0 then skip else
      _ ← setupRoute target 128 (Ifindex i) None pingRouteMetric true;
      let payload := icmp6EchoRequest :: replicate 7 0 in
      sendICMP6WithLLSrc (ns_pingFd ns) p target (Ifindex i) payload ;;
      i ← deref p;
      _ ← setupRoute target 128 (Ifindex i) None pingRouteMetric false;
      skip
  end.

Definition current_ndp (i : Interface) (ns : ndpSock) : bool :=
  match ndp i with Some n => bool_decide (ns_ptr n = ns_ptr ns) | None => false end.

Definition handleSolicit (ns : ndpSock) (srcMAC data : list Z) : M unit :=
  let p := ns_iface ns in
  i ← deref p;
  if negb (current_ndp i ns) || bool_decide (NDP i ≠ ModeRelay) then skip
  else if (length data <? 40 + 24)%nat then skip
  else
    hopLimit ← lift (idx data 7);
    srcb ← lift (slice data 8 24);
    match AddrFromSlice srcb with
    | None => skip
    | Some src =>
        nsCode ← lift (idx data 41);
        targetb ← lift (slice data 48 64);
        match AddrFromSlice targetb with
        | None => skip
        | Some target =>
            let target := Unmap target in
            if negb (hopLimit =? 255) || negb (nsCode =? 0) then skip
            else if IsLinkLocalUnicast target || IsLoopback target || IsMulticast target then skip
            else
              mac ← getMAC p;
              i ← deref p;
              if match mac with Some hw => bool_decide (hwAddrBytes6 hw = srcMAC) | None => false end
                 && negb (Master i)
              then skip
              else
                cs ← range_interfaces;
                forM cs (λ c,
                  ci ← deref c;
                  if bool_decide (c ≠ p) && bool_decide (NDP ci = ModeRelay)
                  then relayPing target c else skip)
        end
    end.
End Ndp.

(** A packet from a socket that has been replaced or closed, or for an
    interface that does not relay NDP, changes nothing. *)
Lemma handleSolicit_stale `{Kernel} ns mac data s :
  (∀ n, ndp (heap s !!! ns_iface ns) = Some n → ns_ptr n ≠ ns_ptr ns)
    ∨ NDP (heap s !!! ns_iface ns) ≠ ModeRelay →
  handleSolicit ns mac data s = Ok (tt, s).
Proof.
  intros Hst. unfold handleSolicit, current_ndp, mbind, M_bind, deref, get, mret, M_ret.
  unfold mbind, M_bind. destruct Hst as [Hst|Hst].
  - destruct (ndp _) as [d|]; [|done]. by rewrite (bool_decide_eq_false_2 (_ = _)) by auto.
  - by rewrite (bool_decide_eq_true_2 (NDP _ ≠ _)), orb_true_r by done.
Qed.
