(* ===== verification/Config.v ===== *)
(** * Configuration ([internal/relay/config.go])

    Address refresh, the parsing of one interface entry, enabling and tearing
    down the three services of an interface, and [Reload]. *)
From S2P Require Import Prelude Netip World Hoare Log Iface RawSock Sim Mirror Dhcpv6 Router Ndp.

(** [lifetimeAbs]: seconds remaining to an absolute time; zero is infinite. *)
Definition lifetimeAbs (lft now : Z) : Z :=
  if (lft <? 0) || (u32 lft =? 0xffffffff) then 0
  else
    let l := u32 lft in
    if l >? u32 (0xffffffff - now) then 0xffffffff else u32 (l + now).

(** One address of the kernel's list, as [fetchAddr6] stores it. *)
Definition convertAddr (now : Z) (a : NlAddr) : option IPAddr :=
  ip ← AddrFromSlice (To16 (net_IP (a_IPNet a)));
  let ones := (MaskSize (net_Mask (a_IPNet a))).1 in
  Some (mkIPAddr (Unmap ip) (u8 ones) (lifetimeAbs (a_PreferedLft a) now)
          (lifetimeAbs (a_ValidLft a) now) (has_bits (a_Flags a) unix.IFA_F_TENTATIVE)).

Section Config.
Context `{Kernel}.

Definition fetchAddr6 (ifindex : Z) : M (list IPAddr) :=
  link ← sys_linkByIndex ifindex;
  match link with
  | None => mret []
  | Some link =>
      addrs ← sys_addrList (l_Index link);
      match addrs with
      | None => mret []
      | Some addrs =>
          t ← nowMono;
          mret (omap (convertAddr (u32 t)) addrs)
      end
  end.

Definition updateLinkLocalState (p : loc) : M unit :=
  assign p (λ i, set_HaveLinkLocal (existsb (λ a, IsLinkLocalUnicast (ip_Addr a)) (Addr6 i))
                   (set_cachedLLValid false i)).

Definition refreshInterfaceAddresses (p : loc) : M unit :=
  i ← deref p;
  l ← fetchAddr6 (Ifindex i);
  assign p (set_Addr6 l) ;;
  updateLinkLocalState p.

(** ** Services *)

Definition disableServices (p : loc) : M unit :=
  _ ← routerSetup p false;
  _ ← dhcpv6Setup p false;
  _ ← ndpSetup p false;
  skip.

Definition reloadServices (p : loc) : M unit :=
  i ← deref p;
  if Running i then
    Debugf "Enabling services with %s running" ;;
    i ← deref p;
    _ ← routerSetup p (bool_decide (RA i ≠ ModeDisabled));
    i ← deref p;
    _ ← dhcpv6Setup p (bool_decide (DHCPv6 i ≠ ModeDisabled));
    i ← deref p;
    _ ← ndpSetup p (bool_decide (NDP i ≠ ModeDisabled));
    skip
  else
    Debugf "Disabling services with %s not running" ;;
    disableServices p.

Definition closeInterface (p : loc) : M unit :=
  i ← deref p;
  modify (λ s, set_interfaces (delete (Name i) (interfaces s)) s) ;;
  _ ← routerSetup p false;
  _ ← dhcpv6Setup p false;
  _ ← ndpSetup p false;
  stopRsTimer p.

(** ** Loading *)

Definition findOrCreateInterface (name : string) : M loc :=
  s ← get;
  match interfaces s !! name with
  | Some p => mret p
  | None =>
      p ← alloc;
      assign p (λ _, mkInterface name "" 0 false false false false false [] AddrNone false false
                       ModeDisabled ModeDisabled ModeDisabled None None None 0 None 0) ;;
      setInterfaceDefaults p ;;
      modify (λ s, set_interfaces (<[name := p]> (interfaces s)) s) ;;
      mret p
  end.

(** The link part of [parseInterfaceJSON]: an index or name change tears
    down what referred to the old one. *)
Definition bindInterface (p : loc) (newIfname : string) (link : Link) : M unit :=
  i ← deref p;
  when (negb (Ifindex i =? 0) &&
        (negb (bool_decide (Ifname i = newIfname)) || negb (Ifindex i =? l_Index link)))
    (disableServices p ;; clearMirroredState p) ;;
  assign p (λ i, set_Running (has_bits (l_RawFlags link) unix.IFF_RUNNING)
                   (set_Ifindex (l_Index link) (set_Ifname newIfname i))) ;;
  refreshInterfaceAddresses p.

(** The optional fields. *)
Definition applyOptions (obj : jsonIface) (i : Interface) : Interface :=
  let i := set_Inuse true i in
  let i := match ji_Master obj with Some b => set_Master b i | None => i end in
  let i := match ji_NdproxyRouting obj with Some b => set_LearnRoutes b i | None => i end in
  match ji_NdpFromLinkLocal obj with Some b => set_NdpFromLinkLocal b i | None => i end.

Definition parseInterfaceJSON (name : string) (obj : jsonIface) : M (option goerr) :=
  p ← findOrCreateInterface name;
  i ← deref p;
  match ji_Ifname obj with
  | None =>
      if bool_decide (Ifname i = ""%string)
      then mret (Some (ErrMsg "interface %q has no ifname configured"))
      else assign p (applyOptions obj) ;; mret None
  | Some newIfname =>
      r ← sys_linkByName newIfname;
      match r with
      | inl err => mret (Some (Wrapped "interface %q (%s): %w" err))
      | inr link =>
          bindInterface p newIfname link ;;
          assign p (applyOptions obj) ;;
          mret None
      end
  end.

Definition loadConfigJSON (path : string) : M unit :=
  data ← sys_readFile path;
  match data with
  | None => Errorf "Failed to read JSON config from %s: %v"
  | Some data =>
      match k_unmarshal data with
      | None => Errorf "Failed to parse JSON config from %s: %v"
      | Some root =>
          s ← get;
          match jr_Global root ≫= jg_LogLevel with
          | Some level =>
              if LogLevelCmdline s then skip
              else SetLogLevel level ;; Noticef "Log level set to %d"
          | None => skip
          end ;;
          entries ← range (map_to_list (jr_Interfaces root));
          forM entries (λ e,
            err ← parseInterfaceJSON e.1 e.2;
            match err with Some _ => Warnf "%v" | None => skip end)
      end
  end.

(** ** Reload *)

(** A snapshot of the map, in the order of its loop. *)
Definition copyIfaceList : M (list loc) := range_interfaces.

(** The demotion of one master. *)
Definition demoteMaster (anyDHCPv6 anyRA anyNDP : bool) (i : Interface) : Interface :=
  if negb (Master i) then i else
  let i := if bool_decide (DHCPv6 i = ModeRelay) && negb anyDHCPv6 then set_DHCPv6 ModeDisabled i else i in
  let i := if bool_decide (RA i = ModeRelay) && negb anyRA then set_RA ModeDisabled i else i in
  if bool_decide (NDP i = ModeRelay) && negb anyNDP then set_NDP ModeDisabled i else i.

Definition Reload : M unit :=
  cs ← range_interfaces;
  forM cs (λ c, setInterfaceDefaults c ;; assign c (set_Inuse false)) ;;
  s ← get;
  loadConfigJSON (ConfigFile s) ;;
  cs ← range_interfaces;
  s ← get;
  let any mode := existsb (λ c, let i := heap s !!! c in
                    negb (Master i) && bool_decide (mode i = ModeRelay)) cs in
  let anyDHCPv6Slave := any DHCPv6 in
  let anyRASlave := any RA in
  let anyNDPSlave := any NDP in
  cs ← range_interfaces;
  forM cs (λ c, assign c (demoteMaster anyDHCPv6Slave anyRASlave anyNDPSlave)) ;;
  cs ← copyIfaceList;
  forM cs (λ c,
    i ← deref c;
    if Inuse i then reloadServices c else closeInterface c).
End Config.
