(* ===== verification/Netlink.v ===== *)
(** * Netlink events ([internal/relay/netlink.go])

    The reactions to link, address, neighbour and route changes. *)
From S2P Require Import Prelude Netip World Hoare Log Iface RawSock Sim Mirror Dhcpv6 Router Ndp Config.

(** The fields of the netlink library's updates the handlers read. *)
Record LinkUpdate : Type := mkLinkUpdate {
  lu_Name : string; lu_Type : Z; lu_Index : Z; lu_Flags : Z }.
Record AddrUpdate : Type := mkAddrUpdate {
  au_IPNet : IPNet; au_LinkIndex : Z; au_NewAddr : bool }.
Record NeighUpdate : Type := mkNeighUpdate {
  nu_Type : Z; nu_LinkIndex : Z; nu_State : Z; nu_IP : list Z }.
Record RouteUpdate : Type := mkRouteUpdate {
  ru_Type : Z; ru_Priority : Z; ru_LinkIndex : Z; ru_Dst : option IPNet }.

(** [reconcileDebounce], in milliseconds. *)
Definition reconcileDebounce := 2000.

Section Netlink.
Context `{Kernel}.

Definition scheduleReconcile : M unit :=
  s ← get;
  if reconcileScheduled s then skip
  else
    modify (set_reconcileScheduled true) ;;
    _ ← afterFunc reconcileDebounce FnReconcile;
    skip.

(** The closure the debounce timer posts. *)
Definition reconcileFire : M unit :=
  modify (set_reconcileScheduled false) ;;
  reconcileKernelState.

Definition handleRouteEvent (u : RouteUpdate) : M unit :=
  if negb (ru_Type u =? unix.RTM_DELROUTE) || negb (ru_Priority u =? ourRouteMetric) then skip else
  match ru_Dst u with
  | None => skip
  | Some dst =>
      if negb (is_host_route dst) then skip else
      iface ← ifaceByIndex (ru_LinkIndex u);
      match iface with
      | None => skip
      | Some p =>
          i ← deref p;
          if bool_decide (NDP i ≠ ModeRelay) then skip else scheduleReconcile
      end
  end.

(** The [RTM_DELLINK] branch of [handleLinkEvent]. *)
Definition linkDeleted (p : loc) (u : LinkUpdate) : M unit :=
  i ← deref p;
  if negb (Ifindex i =? lu_Index u) then skip
  else
    disableServices p ;;
    clearMirroredState p ;;
    assign p (λ i, set_HaveLinkLocal false (set_cachedLLValid false
                     (set_Addr6 [] (set_Running false (set_Ifindex 0 i))))).

Definition handleLinkEvent (u : LinkUpdate) : M unit :=
  iface ← ifaceByIfname (lu_Name u);
  match iface with
  | None => skip
  | Some p =>
      if lu_Type u =? unix.RTM_DELLINK then linkDeleted p u
      else
        let nowRunning := has_bits (lu_Flags u) unix.IFF_RUNNING in
        i ← deref p;
        if Ifindex i =? lu_Index u then
          let wasRunning := Running i in
          assign p (set_Running nowRunning) ;;
          if bool_decide (wasRunning ≠ nowRunning) then
            when nowRunning (refreshInterfaceAddresses p) ;;
            reloadServices p
          else skip
        else
          disableServices p ;;
          clearMirroredState p ;;
          assign p (λ i, set_Running nowRunning (set_Ifindex (lu_Index u) i)) ;;
          refreshInterfaceAddresses p ;;
          reloadServices p
  end.

Definition handleAddrEvent (u : AddrUpdate) : M unit :=
  match To4 (net_IP (au_IPNet u)) with
  | Some _ => skip
  | None =>
      iface ← ifaceByIndex (au_LinkIndex u);
      match iface with
      | None => skip
      | Some p =>
          refreshInterfaceAddresses p ;;
          match neighAddr (net_IP (au_IPNet u)) with
          | None => skip
          | Some addr =>
              i ← deref p;
              when (bool_decide (NDP i = ModeRelay) && mirrored_addr i addr)
                (ndpMirrorAddr addr p (au_NewAddr u)) ;;
              when (IsLinkLocalUnicast addr) (assign p (set_cachedLLValid false))
          end
      end
  end.

Definition handleNeighEvent (u : NeighUpdate) : M unit :=
  if negb (nu_Type u =? unix.RTM_NEWNEIGH) then skip else
  iface ← ifaceByIndex (nu_LinkIndex u);
  match iface with
  | None => skip
  | Some p =>
      i ← deref p;
      if bool_decide (NDP i ≠ ModeRelay) then skip else
      match To4 (nu_IP u) with
      | Some _ => skip
      | None =>
          match neighAddr (nu_IP u) with
          | None => skip
          | Some addr =>
              if IsLoopback addr || IsMulticast addr || IsLinkLocalUnicast addr then skip else
              let key := mkKey addr (Ifindex i) in
              s ← get;
              let mirrored := is_mirrored s key in
              let resolved := has_bits (nu_State u) resolvedMask in
              let failed := has_bits (nu_State u) unix.NUD_FAILED in
              if resolved && negb mirrored then
                set_mirrored key ;; ndpMirrorAddr addr p true
              else if failed then
                when mirrored (delete_mirrored key ;; ndpMirrorAddr addr p false) ;;
                deleteFailedNeigh addr (Ifindex i)
              else skip
          end
      end
  end.
End Netlink.
