(* ===== verification/Frame.v ===== *)
(** * What most of the program leaves alone

    [frame s s']: the configuration, sockets and solicitation counters of all
    interfaces, the [interfaces] map, timers, goroutines, channels and open
    descriptors are the same in [s] and [s'].  All of the program respects it
    except the set-up and tear-down of services, the solicitation timer, the
    reconcile timer, link events and the loading of a configuration. *)
From S2P Require Import Prelude Netip World Hoare Log Iface RawSock Sim Mirror Dhcpv6 Router Ndp Config Netlink.

(** The name, the binding to a link and the options. *)
Definition cfg (i : Interface) :=
  (Name i, Ifname i, Ifindex i, Running i, (Master i, LearnRoutes i, NdpFromLinkLocal i, Inuse i), (RA i, DHCPv6 i, NDP i)).
Definition core (i : Interface) :=
  (cfg i, router i, dhcp i, ndp i, raSent i, rsTimer i, rsTimerN i).

Record frame (s s' : St) : Prop := mkFrame {
  fr_core p : core (heap s' !!! p) = core (heap s !!! p);
  fr_interfaces : interfaces s' = interfaces s;
  fr_closed : closed s' = closed s;
  fr_next : next s' = next s;
  fr_timers : timers s' = timers s;
  fr_readers : readers s' = readers s;
  fr_scheduled : reconcileScheduled s' = reconcileScheduled s;
  fr_config : ConfigFile s' = ConfigFile s;
  fr_fds : open_fds (trace s') = open_fds (trace s)
}.

#[export] Instance frame_preorder : PreOrder frame.
Proof.
  split; [by split|].
  intros s1 s2 s3 [] []. split; intros; etransitivity; eauto.
Qed.
#[export] Hint Resolve frame_preorder : stable.

Lemma open_fds_app h l : open_fds (h ++ l) = foldl fd_delta (open_fds h) l.
Proof. apply foldl_app. Qed.
Lemma nofd_delta open evs : Forall nofd_ev evs → foldl fd_delta open evs = open.
Proof.
  induction 1 as [|e evs He _ IH]; [done|]. cbn [foldl].
  replace (fd_delta open e) with open; [done|]. by destruct e.
Qed.

Lemma emits_frame s s' : emits nofd_ev s s' → frame s s'.
Proof.
  intros (evs & -> & H). split; try done. cbn. by rewrite open_fds_app, nofd_delta.
Qed.

Lemma stable_emits_frame {A} P (m : M A) :
  stable (emits P) m → (∀ e, P e → nofd_ev e) → stable frame m.
Proof.
  intros Hm HP. eapply stable_mono; [exact Hm|]. intros s s' H.
  apply emits_frame. by eapply emits_mono.
Qed.

(** A heap update seen through a pointer. *)
Lemma lookup_total_assign (h : gmap loc Interface) p q i :
  <[p := i]> h !!! q = if decide (p = q) then i else h !!! q.
Proof. case_decide; subst; [apply lookup_total_insert_eq | by apply lookup_total_insert_ne]. Qed.

Lemma stable_frame_assign p f : (∀ i, core (f i) = core i) → stable frame (assign p f).
Proof.
  intros Hf s. apply wp_assign. split; try done. intros q. cbn.
  rewrite lookup_total_assign. by case_decide; subst.
Qed.
Lemma stable_frame_mirrored f : stable frame (modify (λ s, set_mirroredNeighs (f s) s)).
Proof. intros s. by apply wp_modify. Qed.

Ltac solve_frame :=
  repeat first
    [ progress intros
    | assumption
    | lazymatch goal with |- PreOrder _ => typeclasses eauto end
    | solve [eauto with stable nocore]
    | solve [eapply stable_emits_frame; [solve [eauto with stable nocore] | ev_tac]]
    | lazymatch goal with
      | |- stable _ (_ ≫= _) => apply stable_bind
      | |- stable _ (when _ _) => apply stable_when
      | |- stable _ (forM _ _) => apply stable_forM
      | |- stable _ (foldM _ _ _) => apply stable_foldM
      | |- stable _ (assign _ _) => solve [apply stable_frame_assign; intros; repeat case_match; done]
      | |- stable _ (sys _ _) => solve [eapply stable_emits_frame; [apply (stable_sys nofd_ev); done | done]]
      | |- stable _ (modify (λ s, set_mirroredNeighs _ s)) => apply stable_frame_mirrored
      | |- stable _ (match ?x with _ => _ end) => destruct x
      end ].

Section Frame.
Context `{KN : Kernel} `{!KernelOk KN}.

Lemma set_mirrored_frame k : stable frame (set_mirrored k).
Proof. unfold set_mirrored. solve_frame. Qed.
Lemma delete_mirrored_frame k : stable frame (delete_mirrored k).
Proof. unfold delete_mirrored. solve_frame. Qed.
#[local] Hint Resolve set_mirrored_frame delete_mirrored_frame : stable.

Lemma getLinkLocalAddr_frame p : stable frame (getLinkLocalAddr p).
Proof. unfold getLinkLocalAddr. solve_frame. Qed.
Lemma updateLinkLocalState_frame p : stable frame (updateLinkLocalState p).
Proof. unfold updateLinkLocalState. solve_frame. Qed.
Lemma SetLogLevel_frame l : stable frame (SetLogLevel l).
Proof. intros s. by apply wp_modify. Qed.
#[local] Hint Resolve getLinkLocalAddr_frame updateLinkLocalState_frame : stable.

Lemma fetchAddr6_stable i : stable (emits query_ev) (fetchAddr6 i).
Proof. unfold fetchAddr6, sys_linkByIndex, sys_addrList. solve_stable. Qed.
#[local] Hint Resolve fetchAddr6_stable : stable.
Lemma refreshInterfaceAddresses_frame p : stable frame (refreshInterfaceAddresses p).
Proof. unfold refreshInterfaceAddresses. solve_frame. Qed.
#[local] Hint Resolve refreshInterfaceAddresses_frame : stable.

(** ** Mirroring *)

Lemma seedNeigh_frame p n : stable frame (seedNeigh p n).
Proof. unfold seedNeigh. solve_frame. Qed.
#[local] Hint Resolve seedNeigh_frame : stable.
Lemma seedMirroredNeighbors_frame p : stable frame (seedMirroredNeighbors p).
Proof. unfold seedMirroredNeighbors, sys_linkByIndex, sys_neighList. solve_frame. Qed.
Lemma sweepNeigh_frame p live n : stable frame (sweepNeigh p live n).
Proof. unfold sweepNeigh. solve_frame. Qed.
Lemma sweepRoute_frame p live r : stable frame (sweepRoute p live r).
Proof. unfold sweepRoute. solve_frame. Qed.
#[local] Hint Resolve sweepNeigh_frame sweepRoute_frame : stable.
Lemma sweepIface_frame p : stable frame (sweepIfaceFailedAndOrphans p).
Proof.
  unfold sweepIfaceFailedAndOrphans, sys_linkByIndex, sys_neighList, sys_routeList. solve_frame.
Qed.
#[local] Hint Resolve sweepIface_frame : stable.
Lemma sweepFailedAndOrphans_frame : stable frame sweepFailedAndOrphans.
Proof. unfold sweepFailedAndOrphans. solve_frame. Qed.
Lemma reconcileKernelState_frame : stable frame reconcileKernelState.
Proof. unfold reconcileKernelState. solve_frame. Qed.
Lemma clearMirroredState_frame p : stable frame (clearMirroredState p).
Proof. unfold clearMirroredState. solve_frame. Qed.

(** ** Packet handlers *)

Lemma sendICMP6WithLLSrc_frame fd p d i pl : stable frame (sendICMP6WithLLSrc fd p d i pl).
Proof. unfold sendICMP6WithLLSrc. solve_frame. Qed.
#[local] Hint Resolve sendICMP6WithLLSrc_frame : stable.
Lemma relayPing_frame t p : stable frame (relayPing t p).
Proof. unfold relayPing. solve_frame. Qed.
#[local] Hint Resolve relayPing_frame : stable.

Lemma lift_ok_frame {A} (r : res A) : (∃ a, r = Ok a) → stable frame (lift r).
Proof. intros [a Ha]. eapply stable_lift; [typeclasses eauto | exact Ha]. Qed.
Lemma idx_frame l i : (i < length l)%nat → stable frame (lift (idx l i)).
Proof. intros Hi. apply lift_ok_frame. destruct (idx_ok l i Hi) as (b & _ & ->). eauto. Qed.
Lemma slice_frame l lo hi : (lo ≤ hi ≤ length l)%nat → stable frame (lift (slice l lo hi)).
Proof. intros Hi. apply lift_ok_frame. rewrite slice_ok by done. eauto. Qed.

Lemma handleSolicit_frame ns mac data : stable frame (handleSolicit ns mac data).
Proof.
  unfold handleSolicit. apply stable_bind; [typeclasses eauto | solve_frame|]. intros i.
  case_match; [solve_frame|].
  destruct (Nat.ltb_spec (length data) (40 + 24)); [solve_frame|].
  solve_frame; (apply idx_frame || apply slice_frame); lia.
Qed.

Lemma sendToMasters_frame t e : stable frame (sendToMasters t e).
Proof. unfold sendToMasters. solve_frame. Qed.
Lemma relayLinkAddressOrZero_stable p : stable (emits query_ev) (relayLinkAddressOrZero p).
Proof. unfold relayLinkAddressOrZero. solve_stable. Qed.
#[local] Hint Resolve sendToMasters_frame relayLinkAddressOrZero_stable : stable.
Lemma relayClientRequest_frame src data p d : stable frame (relayClientRequest src data p d).
Proof.
  unfold relayClientRequest, relayWithHops. destruct (Nat.ltb_spec (length data) 2); [solve_frame|].
  solve_frame; apply idx_frame; lia.
Qed.
Lemma deliverReply_frame data pl p :
  (34 ≤ length data)%nat → (4 ≤ length pl)%nat → stable frame (deliverReply data pl p).
Proof. intros. unfold deliverReply. solve_frame; (apply idx_frame || apply slice_frame); lia. Qed.
Lemma relayServerResponse_frame data : stable frame (relayServerResponse data).
Proof.
  unfold relayServerResponse. apply stable_bind; [typeclasses eauto | solve_frame|]. intros _.
  destruct (Nat.ltb_spec (length data) 34); [solve_frame|].
  apply stable_bind; [typeclasses eauto | apply idx_frame; lia|]. intros b0.
  case_match; [solve_frame|].
  apply stable_bind; [typeclasses eauto | apply lift_ok_frame, replyScan_total; lia|].
  intros [[ix|] [pl|]]; cbn [ro_ifaceidx ro_payload]; try solve [solve_frame].
  destruct (Nat.ltb_spec (length pl) 4); [solve_frame|].
  apply stable_bind; [typeclasses eauto | solve_frame|]. intros [p|]; [|solve_frame].
  by apply deliverReply_frame.
Qed.
#[local] Hint Resolve relayClientRequest_frame relayServerResponse_frame : stable.
Lemma handleDHCPv6_frame ds src data : stable frame (handleDHCPv6 ds src data).
Proof. unfold handleDHCPv6. solve_frame. Qed.

Lemma forwardRouterSolicitation_frame p : stable frame (forwardRouterSolicitation p).
Proof. unfold forwardRouterSolicitation. solve_frame. Qed.
Lemma forwardRouterAdvertisement_frame p data :
  Forall is_byte data → stable frame (forwardRouterAdvertisement p data).
Proof.
  intros Hb. unfold forwardRouterAdvertisement. solve_frame. apply lift_ok_frame.
  destruct (fixSourceLinkAddrOption_total data (hwAddrBytes6 l)) as (out & Ho & _);
    [done | apply length_hwAddrBytes6 | by exists out].
Qed.
Lemma handleICMPv6_frame rs data : Forall is_byte data → stable frame (handleICMPv6 rs data).
Proof.
  intros Hb. unfold handleICMPv6. apply stable_bind; [typeclasses eauto | solve_frame|]. intros i.
  case_match; [solve_frame|].
  destruct (Nat.ltb_spec (length data) 4); [solve_frame|].
  solve_frame; try (apply idx_frame; lia);
    [apply forwardRouterSolicitation_frame | by apply forwardRouterAdvertisement_frame].
Qed.

(** ** Netlink events *)

Lemma handleNeighEvent_frame u : stable frame (handleNeighEvent u).
Proof. unfold handleNeighEvent. solve_frame. Qed.
Lemma handleAddrEvent_frame u : stable frame (handleAddrEvent u).
Proof. unfold handleAddrEvent. solve_frame. Qed.
End Frame.
#[export] Hint Resolve set_mirrored_frame delete_mirrored_frame getLinkLocalAddr_frame
  updateLinkLocalState_frame SetLogLevel_frame fetchAddr6_stable
  refreshInterfaceAddresses_frame seedMirroredNeighbors_frame sweepFailedAndOrphans_frame
  reconcileKernelState_frame clearMirroredState_frame relayPing_frame handleSolicit_frame
  handleDHCPv6_frame handleNeighEvent_frame handleAddrEvent_frame : stable.
