(* ===== verification/Resources.v ===== *)
(** * Descriptors and channels

    Who owns a socket: each open descriptor belongs to exactly one service of
    one interface, whose [done] channel is still open.  Set-up and tear-down
    ([routerSetup], [dhcpv6Setup], [ndpSetup]) keep this invariant on every
    path, errors included: nothing leaks, nothing is closed twice. *)
From S2P Require Import Prelude Netip World Hoare Log Iface RawSock Sim Mirror Dhcpv6 Router Ndp Config Netlink Frame.

Inductive service : Type := VRouter | VDhcp | VNdp.
#[export] Instance service_eq_dec : EqDecision service.
Proof. solve_decision. Defined.

(** What the socket record of a service holds. *)
Record sock : Type := mkSock { sk_iface : loc; sk_done : loc; sk_fds : list Z }.
Definition svc_sock (i : Interface) (v : service) : option sock :=
  match v with
  | VRouter => (λ rs, mkSock (rs_iface rs) (rs_done rs) [rs_fd rs]) <$> router i
  | VDhcp => (λ ds, mkSock (ds_iface ds) (ds_done ds) [ds_fd ds]) <$> dhcp i
  | VNdp => (λ ns, mkSock (ns_iface ns) (ns_done ns) [ns_fd ns; ns_pingFd ns]) <$> ndp i
  end.
Definition own (s : St) (p : loc) (v : service) : option sock := svc_sock (heap s !!! p) v.

(** [X]: descriptors open in the middle of a set-up, not yet owned. *)
Record ResInv (X : gset Z) (s : St) : Prop := mkResInv {
  ri_sock p v k : own s p v = Some k →
    sk_iface k = p ∧ (p < next s)%positive ∧ (sk_done k < next s)%positive ∧
    (sk_done k ∉ closed s) ∧ NoDup (sk_fds k) ∧
    (∀ fd, fd ∈ sk_fds k → 0 ≤ fd ∧ fd ∈ open_fds (trace s) ∧ fd ∉ X);
  ri_disj p v k p' v' k' :
    own s p v = Some k → own s p' v' = Some k' → p ≠ p' ∨ v ≠ v' →
    sk_done k ≠ sk_done k' ∧ ∀ fd, fd ∈ sk_fds k → fd ∉ sk_fds k';
  ri_X fd : fd ∈ X → 0 ≤ fd ∧ fd ∈ open_fds (trace s);
  ri_noleak fd : fd ∈ open_fds (trace s) → fd ∈ X ∨ ∃ p v k, own s p v = Some k ∧ fd ∈ sk_fds k;
  ri_closed c : c ∈ closed s → (c < next s)%positive
}.

(** One service of one interface changes its socket; the rest of the state the
    invariants look at stays. *)
Record upd (p : loc) (v : service) (o : option sock) (s s' : St) : Prop := mkUpd {
  up_own p' v' : own s' p' v' = if decide (p' = p ∧ v' = v) then o else own s p' v';
  up_interfaces : interfaces s' = interfaces s;
  up_name p' : Name (heap s' !!! p') = Name (heap s !!! p');
  up_next : (next s <= next s')%positive;
  up_scheduled : reconcileScheduled s' = reconcileScheduled s
}.

Lemma upd_trans p v o o' s1 s2 s3 : upd p v o s1 s2 → upd p v o' s2 s3 → upd p v o' s1 s3.
Proof.
  intros [O I N X S] [O' I' N' X' S']. split; [|congruence|congruence|lia|congruence].
  intros p' v'. rewrite O', O. by case_decide.
Qed.

(** ** Closure under what leaves the sockets alone *)

Record calm (s s' : St) : Prop := mkCalm {
  ca_own p v : own s' p v = own s p v;
  ca_interfaces : interfaces s' = interfaces s;
  ca_name p : Name (heap s' !!! p) = Name (heap s !!! p);
  ca_next : (next s <= next s')%positive;
  ca_scheduled : reconcileScheduled s' = reconcileScheduled s;
  ca_closed : closed s' = closed s;
  ca_fds : open_fds (trace s') = open_fds (trace s)
}.
#[export] Instance calm_preorder : PreOrder calm.
Proof.
  split; [by split|]. intros s1 s2 s3 [] []. split; intros; try (etransitivity; eauto; done).
Qed.
#[export] Hint Resolve calm_preorder : stable.

Lemma frame_calm s s' : frame s s' → calm s s'.
Proof.
  intros F. split; try apply F.
  - intros p v. pose proof (fr_core _ _ F p) as C. unfold core in C.
    injection C as _ H1 H2 H3 _ _ _. unfold own. destruct v; cbn; congruence.
  - intros p. pose proof (fr_core _ _ F p) as C. unfold core, cfg in C. congruence.
  - by rewrite (fr_next _ _ F).
Qed.
Lemma emits_calm s s' : emits nofd_ev s s' → calm s s'.
Proof. intros H. by apply frame_calm, emits_frame. Qed.
Lemma stable_calm {A} (m : M A) : stable frame m → stable calm m.
Proof. intros Hm. eapply stable_mono; [exact Hm|]. apply frame_calm. Qed.

Lemma ResInv_calm X s s' : calm s s' → ResInv X s → ResInv X s'.
Proof.
  intros F [A B C D E]. destruct F as [F0 F1 F2 F3 F4 F5 F6].
  split; rewrite ?F5, ?F6; [| | done | | ].
  - intros p v k. rewrite F0. intros H. destruct (A _ _ _ H) as (? & ? & ? & ?).
    split_and!; [done | lia | lia | naive_solver..].
  - intros p v k p' v' k'. rewrite !F0. apply B.
  - intros fd Hfd. destruct (D fd Hfd) as [|(p & v & k & Hk & Hin)]; [by left|].
    right. exists p, v, k. by rewrite F0.
  - intros c Hc%E. lia.
Qed.

Lemma upd_self p v o s s' : upd p v o s s' → own s' p v = o.
Proof. intros U. rewrite (up_own _ _ _ _ _ U). by rewrite decide_True. Qed.
Lemma calm_upd_self p v s s' : calm s s' → upd p v (own s p v) s s'.
Proof.
  intros C. split; try apply C. intros p' v'. rewrite (ca_own _ _ C).
  by case_decide as H; [destruct H as [-> ->]|].
Qed.
Lemma upd_calm p v o s1 s2 s3 : upd p v o s1 s2 → calm s2 s3 → upd p v o s1 s3.
Proof.
  intros U C. eapply upd_trans; [exact U|]. rewrite <- (upd_self _ _ _ _ _ U). by apply calm_upd_self.
Qed.
Lemma calm_upd p v o s1 s2 s3 : calm s1 s2 → upd p v o s2 s3 → upd p v o s1 s3.
Proof. intros C U. eapply upd_trans; [by apply calm_upd_self | exact U]. Qed.

(** What timers and counters of an interface do is calm. *)
Lemma calm_assign p f :
  (∀ i v, svc_sock (f i) v = svc_sock i v) → (∀ i, Name (f i) = Name i) → stable calm (assign p f).
Proof.
  intros Hf Hn s. apply wp_assign. split; try done.
  - intros q v. unfold own. cbn [heap set_heap]. rewrite lookup_total_assign. by case_decide; subst.
  - intros q. cbn [heap set_heap]. rewrite lookup_total_assign. by case_decide; subst.
Qed.
Lemma calm_afterFunc d f : stable calm (afterFunc d f).
Proof. intros s. unfold wp; cbn. split; try done; cbn; lia. Qed.
Lemma calm_stopTimer t : stable calm (stopTimer t).
Proof. intros s. by apply wp_modify. Qed.
Lemma calm_spawn r : stable calm (spawn r).
Proof. intros s. by apply wp_modify. Qed.
#[export] Hint Resolve calm_afterFunc calm_stopTimer calm_spawn : stable.

Ltac solve_calm :=
  repeat first
    [ progress intros
    | assumption
    | lazymatch goal with |- PreOrder _ => typeclasses eauto end
    | solve [eauto with stable nocore]
    | solve [apply stable_calm; solve_frame]
    | lazymatch goal with
      | |- stable _ (_ ≫= _) => apply stable_bind
      | |- stable _ (when _ _) => apply stable_when
      | |- stable _ (assign _ _) => solve [apply calm_assign; done]
      | |- stable _ (match ?x with _ => _ end) => destruct x
      end ].

(** ** The four elementary changes *)

(** A service gives up its socket: its channel and descriptors are closed. *)
Lemma ResInv_release X p v k s s' :
  ResInv X s → own s p v = Some k → upd p v None s s' → next s' = next s →
  closed s' = {[sk_done k]} ∪ closed s →
  open_fds (trace s') = open_fds (trace s) ∖ list_to_set (sk_fds k) → ResInv X s'.
Proof.
  intros [A B C D E] Hk U HN HC HO. pose proof (up_own _ _ _ _ _ U) as O.
  assert (∀ p' v' k', own s' p' v' = Some k' → own s p' v' = Some k' ∧ (p' ≠ p ∨ v' ≠ v)) as Hold.
  { intros p' v' k'. rewrite O. case_decide as Hd; [done|]. split; [done|].
    destruct (decide (p' = p)) as [->|]; [right; naive_solver | by left]. }
  split; rewrite ?HN, ?HC, ?HO.
  - intros p' v' k' [Hk' Hne]%Hold. destruct (A _ _ _ Hk') as (H1 & H2 & H3 & H4 & H5 & H6).
    destruct (B _ _ _ _ _ _ Hk' Hk Hne) as [Hd Hfd].
    split_and!; [done..|set_solver|done|]. intros fd Hin. specialize (H6 fd Hin).
    specialize (Hfd fd Hin). set_solver.
  - intros p1 v1 k1 p2 v2 k2 [H1 _]%Hold [H2 _]%Hold. by apply B.
  - intros fd Hfd. destruct (C fd Hfd). split; [done|]. apply elem_of_difference. split; [done|].
    rewrite elem_of_list_to_set. intros Hin. destruct (A _ _ _ Hk) as (_ & _ & _ & _ & _ & H6).
    by apply (H6 fd Hin).
  - intros fd [Hfd Hn]%elem_of_difference. rewrite elem_of_list_to_set in Hn.
    destruct (D fd Hfd) as [|(p' & v' & k' & Hk' & Hin)]; [by left|]. right. exists p', v', k'.
    split; [|done]. rewrite O. case_decide as Hd; [|done]. destruct Hd as [-> ->]. congruence.
  - intros c [->%elem_of_singleton|Hc]%elem_of_union; [|by apply E].
    by destruct (A _ _ _ Hk) as (_ & _ & ? & _).
Qed.

(** A service without one takes descriptors in transit and a fresh channel. *)
Lemma ResInv_acquire X p v k s s' :
  ResInv X s → own s p v = None → upd p v (Some k) s s' → closed s' = closed s →
  open_fds (trace s') = open_fds (trace s) →
  sk_iface k = p → (p < next s)%positive → (next s ≤ sk_done k < next s')%positive →
  NoDup (sk_fds k) → (∀ fd, fd ∈ sk_fds k → fd ∈ X) → ResInv (X ∖ list_to_set (sk_fds k)) s'.
Proof.
  intros [A B C D E] Hk U HC HO Hi Hp Hd Hnd HX.
  pose proof (up_own _ _ _ _ _ U) as O. pose proof (up_next _ _ _ _ _ U) as HN.
  assert (∀ p' v' k', own s' p' v' = Some k' →
    (p' = p ∧ v' = v ∧ k' = k) ∨ own s p' v' = Some k') as Hold.
  { intros p' v' k'. rewrite O. case_decide as Hd'; [|by right]. intros [= <-]. by left; destruct Hd'. }
  split; rewrite ?HC, ?HO.
  - intros p' v' k' [(-> & -> & ->)|Hk']%Hold.
    + split_and!; [done|lia|lia| |done|].
      * intros Hc%E. lia.
      * intros fd Hin. specialize (HX fd Hin). destruct (C fd HX). set_solver.
    + destruct (A _ _ _ Hk') as (H1 & H2 & H3 & H4 & H5 & H6).
      split_and!; [done|lia|lia|done|done|]. intros fd Hin. specialize (H6 fd Hin). set_solver.
  - assert (∀ p2 v2 k2, own s p2 v2 = Some k2 →
      sk_done k ≠ sk_done k2 ∧ ∀ fd, fd ∈ sk_fds k → fd ∉ sk_fds k2) as Hnew.
    { intros p2 v2 k2 H2. destruct (A _ _ _ H2) as (_ & _ & H3 & _ & _ & H6).
      split; [intros Heq; rewrite Heq in Hd; lia|]. intros fd Hin Hin2.
      by apply (H6 fd Hin2), HX. }
    intros p1 v1 k1 p2 v2 k2 [(-> & -> & ->)|H1]%Hold [(-> & -> & ->)|H2]%Hold Hne.
    + naive_solver.
    + by eapply Hnew.
    + destruct (Hnew _ _ _ H1) as [N1 N2]. split; [by intros ?; apply N1|].
      intros fd Hin Hin2. by apply (N2 fd Hin2).
    + by apply (B _ _ _ _ _ _ H1 H2).
  - intros fd [Hfd _]%elem_of_difference. by apply C.
  - intros fd Hfd. destruct (decide (fd ∈ sk_fds k)) as [Hin|Hn].
    + right. exists p, v, k. split; [|done]. rewrite O. by rewrite decide_True.
    + destruct (D fd Hfd) as [HinX|(p' & v' & k' & Hk' & Hin)]; [left; set_solver|].
      right. exists p', v', k'. split; [|done]. rewrite O. case_decide as Hd'; [|done].
      destruct Hd' as [-> ->]. congruence.
  - intros c Hc%E. lia.
Qed.

(** The events of opening and closing a descriptor in transit. *)
Lemma ResInv_open X fd s s' d t pr :
  ResInv X s → 0 ≤ fd → fd ∉ open_fds (trace s) →
  s' = set_trace (trace s ++ [EvSocket d t pr (inr fd)]) s → ResInv ({[fd]} ∪ X) s'.
Proof.
  intros [A B C D E] H0 Hf ->.
  assert (open_fds (trace s ++ [EvSocket d t pr (inr fd)]) = {[fd]} ∪ open_fds (trace s)) as HO
    by apply open_fds_app.
  split; cbn [trace set_trace closed next]; rewrite ?HO.
  - intros p v k Hk. destruct (A p v k Hk) as (H1 & H2 & H3 & H4 & H5 & H6).
    split_and!; try done. intros x Hx. specialize (H6 x Hx). set_solver.
  - exact B.
  - set_solver.
  - intros x [->%elem_of_singleton|Hx]%elem_of_union; [set_solver|]. destruct (D x Hx); set_solver.
  - exact E.
Qed.
Lemma ResInv_close X fd s s' :
  ResInv X s → fd ∈ X → s' = set_trace (trace s ++ [EvClose fd]) s → ResInv (X ∖ {[fd]}) s'.
Proof.
  intros [A B C D E] Hf ->.
  assert (open_fds (trace s ++ [EvClose fd]) = open_fds (trace s) ∖ {[fd]}) as HO
    by apply open_fds_app.
  split; cbn [trace set_trace closed next]; rewrite ?HO.
  - intros p v k Hk. destruct (A p v k Hk) as (H1 & H2 & H3 & H4 & H5 & H6).
    split_and!; try done. intros x Hx. specialize (H6 x Hx). set_solver.
  - exact B.
  - set_solver.
  - intros x [Hx Hn]%elem_of_difference. destruct (D x Hx); set_solver.
  - exact E.
Qed.

Section Setups.
Context `{KN : Kernel} `{!KernelOk KN}.

Lemma armSolicit_calm p d g : stable calm (armSolicit p d g).
Proof. unfold armSolicit. solve_calm. Qed.
Lemma stopRsTimer_calm p : stable calm (stopRsTimer p).
Proof. unfold stopRsTimer. solve_calm. Qed.
#[local] Hint Resolve armSolicit_calm stopRsTimer_calm : stable.
Lemma solicitTimerFire_calm p g : stable calm (solicitTimerFire p g).
Proof. unfold solicitTimerFire. solve_calm. Qed.

(** One step of a set-up: an error message, or on to the next step. *)
Lemma wp_check s0 fmt m k (Q : option goerr → St → Prop) s :
  emits nofd_ev s0 s → stable (emits nofd_ev) m →
  (∀ e s', emits nofd_ev s0 s' → Q (Some e) s') →
  (∀ s', emits nofd_ev s0 s' → wp k Q s') → wp (check fmt m k) Q s.
Proof.
  intros H0 Hm He Hk. unfold check. apply wp_bind. wp_use Hm. intros [e|] s1 H1.
  - apply wp_bind, wp_log. intros s2 H2. apply wp_ret, He.
    assert (emits nofd_ev s1 s2) as H2' by (eapply emits_mono; [|exact H2]; ev_tac).
    exact (transitivity H0 (transitivity H1 H2')).
  - apply Hk. by etransitivity.
Qed.
Lemma sys_err_nofd c : stable (emits nofd_ev) (sys_err c).
Proof. by apply stable_sys. Qed.

(** What a configuration step leaves: on success the service owns the
    descriptors, on an error they are still in transit ([Xe]). *)
Definition conf_post (X Xe : gset Z) p v s (r : option goerr) s' : Prop :=
  match r with
  | None => ResInv X s' ∧ ∃ k, upd p v (Some k) s s'
  | Some _ => ResInv Xe s' ∧ upd p v None s s'
  end.

Lemma wp_closing_on_error X Xe p v fd body s :
  0 ≤ fd → fd ∉ Xe →
  wp body (conf_post X ({[fd]} ∪ Xe) p v s) s →
  wp (closing_on_error fd body) (conf_post X Xe p v s) s.
Proof.
  intros H0 Hf Hb. unfold closing_on_error. apply wp_bind. wp_use Hb. intros [e|] s1 H1.
  - destruct H1 as [HR HU]. rewrite closeFD_nonneg by done.
    apply wp_bind, wp_sys. intros [] _. apply wp_ret. split.
    + replace Xe with (({[fd]} ∪ Xe) ∖ {[fd]}) by set_solver.
      eapply ResInv_close; [exact HR | set_solver | done].
    + destruct HU as [O I N X' S]. by split.
  - by apply wp_ret.
Qed.

Lemma same_mem_upd p v o s1 s2 s3 : same_mem s1 s2 → upd p v o s2 s3 → upd p v o s1 s3.
Proof. intros [t ->] [O I N X S]. by split. Qed.

(** A [socket] call: a failure changes nothing, a success puts a fresh
    descriptor in transit. *)
Lemma wp_socket X d t pr (Q : goerr + Z → St → Prop) s :
  ResInv X s →
  (∀ e s', calm s s' → Q (inl e) s') →
  (∀ fd s', same_mem s s' → 0 ≤ fd → fd ∉ X → ResInv ({[fd]} ∪ X) s' → Q (inr fd) s') →
  wp (sys_socket d t pr) Q s.
Proof.
  intros HR He Hs. apply wp_sys. intros [e|fd] Ha.
  - apply He. split; try done. cbn. by rewrite open_fds_app.
  - symmetry in Ha. destruct (socket_fresh _ _ _ _ _ Ha) as [H0 Hf].
    assert (fd ∉ X) by (intros Hin; by apply Hf, (ri_X _ _ HR fd)).
    apply Hs; [by eexists|done|done|]. by eapply ResInv_open.
Qed.

(** ** Tear-down *)

Definition closed_post X p v s (_ : unit) s' : Prop := ResInv X s' ∧ upd p v None s s'.

(** The state after closing the channel [c] and the descriptors [fds] and
    giving [p] the record [i]. *)
Definition torn_down (c : loc) (fds : list Z) (p : loc) (i : Interface) (s : St) : St :=
  set_heap (<[p := i]> (heap s))
    (set_trace (trace s ++ (EvClose <$> fds)) (set_closed ({[c]} ∪ closed s) s)).

Lemma open_fds_close h fds : open_fds (h ++ (EvClose <$> fds)) = open_fds h ∖ list_to_set fds.
Proof.
  rewrite open_fds_app. generalize (open_fds h). induction fds as [|fd fds IH]; intros o; cbn;
    [set_solver|]. rewrite IH. set_solver.
Qed.

Lemma torn_down_post X p v k i s :
  ResInv X s → own s p v = Some k → svc_sock i v = None → Name i = Name (heap s !!! p) →
  (∀ v', v' ≠ v → svc_sock i v' = own s p v') →
  closed_post X p v s tt (torn_down (sk_done k) (sk_fds k) p i s).
Proof.
  intros HR Hk Hi Hn Hv. assert (upd p v None s (torn_down (sk_done k) (sk_fds k) p i s)) as U.
  { split; try done.
    - intros p' v'. unfold own. cbn [torn_down heap set_heap]. rewrite lookup_total_assign.
      destruct (decide (p = p')) as [<-|]; case_decide as Hd; try done.
      + by destruct Hd as [_ ->].
      + apply Hv. intros ->. by apply Hd.
      + by destruct Hd as [-> _].
    - intros q. cbn [torn_down heap set_heap]. rewrite lookup_total_assign. by case_decide; subst. }
  split; [|exact U]. eapply ResInv_release; try done. apply open_fds_close.
Qed.

Lemma wp_closeFD fd (Q : unit → St → Prop) s :
  0 ≤ fd → Q tt (set_trace (trace s ++ [EvClose fd]) s) → wp (closeFD fd) Q s.
Proof. intros H0 HQ. rewrite closeFD_nonneg by done. apply wp_sys. by intros [] _. Qed.

Lemma close_router X p s :
  ResInv X s →
  wp (match router (heap s !!! p) with
      | Some rs => closeChan (rs_done rs) ;; closeFD (rs_fd rs) ;; assign p (set_router None)
      | None => skip
      end) (closed_post X p VRouter s) s.
Proof.
  intros HR. destruct (router (heap s !!! p)) as [rs|] eqn:E.
  - assert (own s p VRouter = Some (mkSock (rs_iface rs) (rs_done rs) [rs_fd rs])) as Hk
      by (unfold own; cbn; by rewrite E).
    destruct (ri_sock _ _ HR _ _ _ Hk) as (_ & _ & _ & Hc & _ & Hf). cbn in Hc, Hf.
    apply wp_bind, wp_closeChan; [done|].
    apply wp_bind, wp_closeFD; [apply Hf; set_solver|]. apply wp_assign.
    apply (torn_down_post _ _ _ _ (set_router None (heap s !!! p)) _ HR Hk); [done|done|].
    by intros [].
  - apply wp_skip. split; [done|]. replace None with (own s p VRouter) by (unfold own; cbn; by rewrite E).
    by apply calm_upd_self.
Qed.

Lemma close_dhcp X p s :
  ResInv X s →
  wp (match dhcp (heap s !!! p) with
      | Some ds => closeChan (ds_done ds) ;; closeFD (ds_fd ds) ;; assign p (set_dhcp None)
      | None => skip
      end) (closed_post X p VDhcp s) s.
Proof.
  intros HR. destruct (dhcp (heap s !!! p)) as [ds|] eqn:E.
  - assert (own s p VDhcp = Some (mkSock (ds_iface ds) (ds_done ds) [ds_fd ds])) as Hk
      by (unfold own; cbn; by rewrite E).
    destruct (ri_sock _ _ HR _ _ _ Hk) as (_ & _ & _ & Hc & _ & Hf). cbn in Hc, Hf.
    apply wp_bind, wp_closeChan; [done|].
    apply wp_bind, wp_closeFD; [apply Hf; set_solver|]. apply wp_assign.
    apply (torn_down_post _ _ _ _ (set_dhcp None (heap s !!! p)) _ HR Hk); [done|done|].
    by intros [].
  - apply wp_skip. split; [done|]. replace None with (own s p VDhcp) by (unfold own; cbn; by rewrite E).
    by apply calm_upd_self.
Qed.

Lemma close_ndp X p s :
  ResInv X s →
  wp (match ndp (heap s !!! p) with
      | Some ns => closeChan (ns_done ns) ;; closeFD (ns_fd ns) ;; closeFD (ns_pingFd ns) ;;
                   assign p (set_ndp None)
      | None => skip
      end) (closed_post X p VNdp s) s.
Proof.
  intros HR. destruct (ndp (heap s !!! p)) as [ns|] eqn:E.
  - assert (own s p VNdp = Some (mkSock (ns_iface ns) (ns_done ns) [ns_fd ns; ns_pingFd ns])) as Hk
      by (unfold own; cbn; by rewrite E).
    destruct (ri_sock _ _ HR _ _ _ Hk) as (_ & _ & _ & Hc & _ & Hf). cbn in Hc, Hf.
    apply wp_bind, wp_closeChan; [done|].
    apply wp_bind, wp_closeFD; [apply Hf; set_solver|].
    apply wp_bind, wp_closeFD; [apply Hf; set_solver|]. apply wp_assign.
    pose proof (torn_down_post _ _ _ _ (set_ndp None (heap s !!! p)) _ HR Hk eq_refl eq_refl) as H.
    unfold torn_down in H. cbn [fmap list_fmap sk_done sk_fds] in H. unfold set_trace at 2. cbn.
    rewrite <- (assoc_L (++)). apply H. by intros [].
  - apply wp_skip. split; [done|]. replace None with (own s p VNdp) by (unfold own; cbn; by rewrite E).
    by apply calm_upd_self.
Qed.

(** ** Set-up *)

(** The state after allocating a socket record and its channel, giving [p]
    the record [i] and starting the reader [r]. *)
Definition installed (p : loc) (i : Interface) (r : reader) (s : St) : St :=
  set_readers (readers s ++ [r])
    (set_heap (<[p := i]> (heap s)) (set_next (Pos.succ (Pos.succ (next s))) s)).

Lemma installed_post X p v k i r s :
  ResInv (list_to_set (sk_fds k) ∪ X) s → own s p v = None → (p < next s)%positive →
  svc_sock i v = Some k → sk_iface k = p → sk_done k = Pos.succ (next s) →
  NoDup (sk_fds k) → (∀ fd, fd ∈ sk_fds k → fd ∉ X) →
  Name i = Name (heap s !!! p) → (∀ v', v' ≠ v → svc_sock i v' = own s p v') →
  ResInv X (installed p i r s) ∧ upd p v (Some k) s (installed p i r s).
Proof.
  intros HR Ho Hp Hi Hk Hd Hnd HX Hn Hv.
  assert (upd p v (Some k) s (installed p i r s)) as U.
  { split; try done; [| |cbn; lia].
    - intros p' v'. unfold own. cbn [installed set_readers heap set_heap]. rewrite lookup_total_assign.
      destruct (decide (p = p')) as [<-|]; case_decide as Hd'; try done.
      + by destruct Hd' as [_ ->].
      + apply Hv. intros ->. by apply Hd'.
      + by destruct Hd' as [-> _].
    - intros q. cbn [installed set_readers heap set_heap]. rewrite lookup_total_assign.
      by case_decide; subst. }
  split; [|exact U].
  replace X with ((list_to_set (sk_fds k) ∪ X) ∖ list_to_set (sk_fds k)).
  - eapply ResInv_acquire; try done; [cbn; lia | set_solver].
  - apply leibniz_equiv. intros x. rewrite elem_of_difference, elem_of_union, elem_of_list_to_set.
    specialize (HX x). destruct (decide (x ∈ sk_fds k)); naive_solver.
Qed.

(** Walking down a chain of checks: every error leaves the descriptors in
    transit. *)
Lemma conf_error X Xe p v s s' e :
  ResInv Xe s → own s p v = None → emits nofd_ev s s' → conf_post X Xe p v s (Some e) s'.
Proof.
  intros HR Ho Hs. apply emits_calm in Hs. split; [by eapply ResInv_calm|].
  rewrite <- Ho. by apply calm_upd_self.
Qed.

Ltac solve_checks s :=
  repeat (apply (wp_check s); [done || reflexivity | apply sys_err_nofd |
    intros; by apply conf_error |
    let s' := fresh "s" in let Hs := fresh "Hs" in intros s' Hs ]).

Lemma emits_eqs P s s' : emits P s s' →
  heap s' = heap s ∧ next s' = next s ∧ readers s' = readers s.
Proof. by intros (evs & -> & _). Qed.

Lemma wp_alloc2 {A} (f : loc → loc → M A) Q s :
  wp (f (next s) (Pos.succ (next s))) Q (set_next (Pos.succ (Pos.succ (next s))) s) →
  wp (ptr ← alloc; done ← alloc; f ptr done) Q s.
Proof. done. Qed.

Lemma dhcpv6Configure_spec X p fd s :
  ResInv ({[fd]} ∪ X) s → fd ∉ X → own s p VDhcp = None → (p < next s)%positive →
  wp (dhcpv6Configure p fd) (conf_post X ({[fd]} ∪ X) p VDhcp s) s.
Proof.
  intros HR Hf Ho Hp. unfold dhcpv6Configure. apply wp_bind, wp_deref. solve_checks s.
  clear Hs Hs0 Hs1 Hs2 Hs3 Hs4 Hs5. destruct (emits_eqs _ _ _ Hs6) as (Eh & En & _).
  apply emits_calm in Hs6. pose proof (ResInv_calm _ _ _ Hs6 HR) as HR'.
  set (k := mkSock p (Pos.succ (next s7)) [fd]).
  destruct (installed_post X p VDhcp k
    (set_dhcp (Some (mkDhcpSock (next s7) fd p (Pos.succ (next s7)))) (heap s7 !!! p))
    (DhcpReader (mkDhcpSock (next s7) fd p (Pos.succ (next s7)))) s7) as [HR2 HU]; try done.
  - cbn. by rewrite union_empty_r_L.
  - by rewrite (ca_own _ _ Hs6).
  - by rewrite En.
  - apply NoDup_singleton.
  - set_solver.
  - by intros [].
  - apply wp_alloc2, wp_bind, wp_assign, wp_bind, wp_modify, wp_ret.
    exact (conj HR2 (ex_intro _ k (calm_upd _ _ _ _ _ _ Hs6 HU))).
Qed.

Lemma routerConfigure_spec X p fd s :
  ResInv ({[fd]} ∪ X) s → fd ∉ X → own s p VRouter = None → (p < next s)%positive →
  wp (routerConfigure p fd) (conf_post X ({[fd]} ∪ X) p VRouter s) s.
Proof.
  intros HR Hf Ho Hp. unfold routerConfigure. apply wp_bind, wp_deref. solve_checks s.
  clear Hs Hs0 Hs1 Hs2 Hs3 Hs4 Hs5 Hs6.
  destruct (emits_eqs _ _ _ Hs7) as (Eh & En & _).
  apply emits_calm in Hs7. pose proof (ResInv_calm _ _ _ Hs7 HR) as HR'.
  set (rs := mkRouterSock (next s8) fd p (Pos.succ (next s8))).
  set (k := mkSock p (Pos.succ (next s8)) [fd]).
  destruct (installed_post X p VRouter k (set_raSent 0 (set_router (Some rs) (heap s8 !!! p)))
    (RouterReader rs) s8) as [HR2 HU]; try done.
  - cbn. by rewrite union_empty_r_L.
  - by rewrite (ca_own _ _ Hs7).
  - by rewrite En.
  - apply NoDup_singleton.
  - set_solver.
  - by intros [].
  - apply wp_alloc2, wp_bind, wp_assign, wp_bind, wp_modify, wp_bind.
    eapply wp_mono.
    + assert (∀ b, stable calm (when b (assign p (λ i, set_rsTimerN (rsTimerN i + 1) i) ;;
        i ← deref p; armSolicit p rtrFirstDelay (rsTimerN i)))) as Hcalm by (intros; solve_calm).
      apply Hcalm.
    + cbv beta. intros [] s9 Hs9. apply wp_ret. split; [exact (ResInv_calm _ _ _ Hs9 HR2)|].
      exists k. exact (upd_calm _ _ _ _ _ _ (calm_upd _ _ _ _ _ _ Hs7 HU) Hs9).
Qed.

Lemma drainSocket_stable fd : stable (emits nofd_ev) (drainSocket fd).
Proof.
  unfold drainSocket. apply stable_bind; [typeclasses eauto | solve_stable|]. intros s.
  generalize (k_backlog (trace s) fd). intros n. induction n; cbn [drainLoop].
  - by apply stable_sys.
  - apply stable_bind; [typeclasses eauto | by apply stable_sys | done].
Qed.
Lemma setProxyNDP_nofd n b : stable (emits nofd_ev) (setProxyNDP n b).
Proof. eapply stable_emits_mono; [apply setProxyNDP_stable | ev_tac]. Qed.

Lemma ndpConfigureCapture_spec X p pingFd fd s :
  ResInv ({[fd]} ∪ ({[pingFd]} ∪ X)) s → fd ∉ ({[pingFd]} ∪ X) → pingFd ∉ X →
  own s p VNdp = None → (p < next s)%positive →
  wp (ndpConfigureCapture p pingFd fd) (conf_post X ({[fd]} ∪ ({[pingFd]} ∪ X)) p VNdp s) s.
Proof.
  intros HR Hf Hg Ho Hp. unfold ndpConfigureCapture. apply wp_bind, wp_deref, wp_bind.
  wp_use setProxyNDP_nofd. intros [e|] s0 H0; [by apply wp_ret, conf_error|]. solve_checks s.
  apply wp_bind. wp_use drainSocket_stable. intros [] s2 H2.
  assert (emits nofd_ev s s2) as H3 by (by etransitivity). clear H0 Hs H2. solve_checks s.
  clear H3 Hs Hs0. destruct (emits_eqs _ _ _ Hs1) as (Eh & En & _).
  apply emits_calm in Hs1. pose proof (ResInv_calm _ _ _ Hs1 HR) as HR'.
  set (ns := mkNdpSock (next s5) fd pingFd p (Pos.succ (next s5))).
  set (k := mkSock p (Pos.succ (next s5)) [fd; pingFd]).
  destruct (installed_post X p VNdp k (set_ndp (Some ns) (heap s5 !!! p)) (NdpReader ns) s5)
    as [HR2 HU]; try done.
  - cbn. by rewrite union_empty_r_L, <- (assoc_L (∪)).
  - by rewrite (ca_own _ _ Hs1).
  - by rewrite En.
  - apply NoDup_cons. split; [set_solver | apply NoDup_singleton].
  - set_solver.
  - by intros [].
  - apply wp_alloc2, wp_bind, wp_assign, wp_bind, wp_modify, wp_bind.
    wp_use seedMirroredNeighbors_frame. intros [] s9 Hs9%frame_calm. apply wp_ret.
    split; [exact (ResInv_calm _ _ _ Hs9 HR2)|].
    exists k. exact (upd_calm _ _ _ _ _ _ (calm_upd _ _ _ _ _ _ Hs1 HU) Hs9).
Qed.

(** The rest of an operation, after a step that changed nothing. *)
Lemma conf_post_trans X Xe p v s s' r s'' :
  (∀ o, upd p v o s' s'' → upd p v o s s'') → conf_post X Xe p v s' r s'' → conf_post X Xe p v s r s''.
Proof. intros HU. unfold conf_post. destruct r; [naive_solver|]. intros (? & k & ?). eauto. Qed.

Lemma ndpConfigurePing_spec X p fd s :
  ResInv ({[fd]} ∪ X) s → fd ∉ X → own s p VNdp = None → (p < next s)%positive →
  wp (ndpConfigurePing p fd) (conf_post X ({[fd]} ∪ X) p VNdp s) s.
Proof.
  intros HR Hf Ho Hp. unfold ndpConfigurePing. apply wp_bind, wp_deref. solve_checks s.
  clear Hs Hs0 Hs1 Hs2. destruct (emits_eqs _ _ _ Hs3) as (Eh & En & _).
  apply emits_calm in Hs3. pose proof (ResInv_calm _ _ _ Hs3 HR) as HR'.
  rewrite <- (ca_own _ _ Hs3) in Ho. rewrite <- En in Hp.
  apply wp_bind, (wp_socket _ _ _ _ _ _ HR').
  - intros e s5 H5. apply wp_bind, wp_log. intros s6 H6. apply wp_ret.
    assert (calm s s6) as C.
    { etransitivity; [exact Hs3|]. etransitivity; [exact H5|].
      apply emits_calm. eapply emits_mono; [|exact H6]. ev_tac. }
    split; [by eapply ResInv_calm|]. rewrite <- Ho, (ca_own _ _ Hs3). by apply calm_upd_self.
  - intros cfd s5 Hm H0 Hn HR5.
    assert (own s5 p VNdp = None) as Ho5 by (by destruct Hm as [? ->]).
    assert (p < next s5)%positive as Hp5 by (by destruct Hm as [? ->]).
    eapply wp_mono; [apply wp_closing_on_error; [done | exact Hn |]|].
    + by apply ndpConfigureCapture_spec.
    + intros r s6. apply conf_post_trans. intros o U.
      eapply calm_upd; [exact Hs3|]. by eapply same_mem_upd.
Qed.

Lemma wp_open X p v d t pr fmt conf s :
  ResInv X s → own s p v = None → (p < next s)%positive →
  (∀ fd s', ResInv ({[fd]} ∪ X) s' → fd ∉ X → own s' p v = None → (p < next s')%positive →
     wp (conf fd) (conf_post X ({[fd]} ∪ X) p v s') s') →
  wp (r ← sys_socket d t pr;
      match r with
      | inl err => Errorf fmt ;; mret (Some err)
      | inr fd => closing_on_error fd (conf fd)
      end) (conf_post X X p v s) s.
Proof.
  intros HR Ho Hp Hc. apply wp_bind, (wp_socket _ _ _ _ _ _ HR).
  - intros e s1 H1. apply wp_bind, wp_log. intros s2 H2. apply wp_ret.
    assert (calm s s2) as C.
    { etransitivity; [exact H1|]. apply emits_calm. eapply emits_mono; [|exact H2]. ev_tac. }
    split; [by eapply ResInv_calm|]. rewrite <- Ho. by apply calm_upd_self.
  - intros fd s1 Hm H0 Hn HR1.
    eapply wp_mono; [apply wp_closing_on_error; [done | exact Hn |]|].
    + apply Hc; [done | done | by destruct Hm as [? ->]..].
    + intros r s2. apply conf_post_trans. intros o. by apply same_mem_upd.
Qed.

(** What a set-up call leaves: the service has a socket exactly when it was
    wanted and no error is returned. *)
Definition setup_post X p v (wanted : bool) s (r : option goerr) s' : Prop :=
  ResInv X s' ∧ ∃ o, upd p v o s s' ∧ (is_Some o ↔ r = None ∧ wanted = true).

Lemma setup_opened X p v s s1 r s2 :
  upd p v None s s1 → conf_post X X p v s1 r s2 → setup_post X p v true s r s2.
Proof.
  intros U. unfold conf_post, setup_post. destruct r as [e|].
  - intros [HR U2]. split; [done|]. exists None. split; [by eapply upd_trans|].
    split; [by intros []|]. by intros [? _].
  - intros [HR (k & U2)]. split; [done|]. exists (Some k). split; [by eapply upd_trans|]. done.
Qed.
Lemma setup_closed X p v s s1 r s2 :
  closed_post X p v s tt s1 → calm s1 s2 → setup_post X p v false s r s2.
Proof.
  intros [HR U] C. split; [by eapply ResInv_calm|]. exists None. split; [by eapply upd_calm|].
  split; [by intros []|]. by intros [_ ?].
Qed.

Lemma routerSetup_post X p e s :
  ResInv X s → (p < next s)%positive →
  wp (routerSetup p e)
     (setup_post X p VRouter (e && bool_decide (RA (heap s !!! p) ≠ ModeDisabled)) s) s.
Proof.
  intros HR Hp. unfold routerSetup. apply wp_bind, wp_deref, wp_bind.
  wp_use close_router; [done|]. intros [] s1 [HR1 U]. pose proof (up_next _ _ _ _ _ U).
  destruct (e && _); cbn [negb].
  - eapply wp_mono; [apply wp_open; [exact HR1 | by eapply upd_self | lia |]|].
    + intros fd s2 H2. by apply routerConfigure_spec.
    + intros r s2. by apply setup_opened.
  - apply wp_bind. wp_use stopRsTimer_calm. intros [] s2 C. apply wp_ret. by eapply setup_closed.
Qed.

Lemma dhcpv6Setup_post X p e s :
  ResInv X s → (p < next s)%positive →
  wp (dhcpv6Setup p e)
     (setup_post X p VDhcp (e && bool_decide (DHCPv6 (heap s !!! p) ≠ ModeDisabled)) s) s.
Proof.
  intros HR Hp. unfold dhcpv6Setup. apply wp_bind, wp_deref, wp_bind.
  wp_use close_dhcp; [done|]. intros [] s1 [HR1 U]. pose proof (up_next _ _ _ _ _ U).
  destruct (e && _); cbn [negb].
  - eapply wp_mono; [apply wp_open; [exact HR1 | by eapply upd_self | lia |]|].
    + intros fd s2 H2. by apply dhcpv6Configure_spec.
    + intros r s2. by apply setup_opened.
  - apply wp_ret. by eapply setup_closed.
Qed.

Lemma ndpSetup_post X p e s :
  ResInv X s → (p < next s)%positive →
  wp (ndpSetup p e)
     (setup_post X p VNdp (e && bool_decide (NDP (heap s !!! p) ≠ ModeDisabled)) s) s.
Proof.
  intros HR Hp. unfold ndpSetup. apply wp_bind, wp_deref, wp_bind.
  wp_use close_ndp; [done|]. intros [] s1 [HR1 U]. pose proof (up_next _ _ _ _ _ U).
  destruct (e && _); cbn [negb].
  - eapply wp_mono; [apply wp_open; [exact HR1 | by eapply upd_self | lia |]|].
    + intros fd s2 H2. by apply ndpConfigurePing_spec.
    + intros r s2. by apply setup_opened.
  - apply wp_bind, wp_deref. wp_use setProxyNDP_nofd. intros r s2 C%emits_calm.
    by eapply setup_closed.
Qed.
End Setups.
