(* ===== verification/Lifecycle.v ===== *)
(** * The life of an interface

    Only registered interfaces own sockets, and what each operation of
    [config.go] and [netlink.go] that opens, closes, registers or forgets an
    interface does to that: [disableServices], [reloadServices],
    [closeInterface], [parseInterfaceJSON], [Reload], [handleLinkEvent]. *)
From S2P Require Import Prelude Netip World Hoare Log Iface RawSock Sim Mirror Dhcpv6 Router Ndp Config Netlink Frame Resources.

(** [ex]: an interface just taken out of the [interfaces] map whose services
    are being closed. *)
Record RegInv (ex : option loc) (s : St) : Prop := mkRegInv {
  rg_names n p : interfaces s !! n = Some p → Name (heap s !!! p) = n ∧ (p < next s)%positive;
  rg_own p v : is_Some (own s p v) → ex = Some p ∨ interfaces s !! Name (heap s !!! p) = Some p
}.
Definition good (ex : option loc) (s : St) : Prop := ResInv ∅ s ∧ RegInv ex s.

(** [p] may own sockets. *)
Definition known (ex : option loc) (s : St) (p : loc) : Prop :=
  (p < next s)%positive ∧ (ex = Some p ∨ interfaces s !! Name (heap s !!! p) = Some p).

(** The registry is the same. *)
Definition same_reg (s s' : St) : Prop :=
  interfaces s' = interfaces s ∧ (∀ p, Name (heap s' !!! p) = Name (heap s !!! p)) ∧
  (next s <= next s')%positive.
#[export] Instance same_reg_preorder : PreOrder same_reg.
Proof.
  split; [by intros s|]. intros s1 s2 s3 (A & B & C) (A' & B' & C').
  split_and!; [congruence | intros; congruence | lia].
Qed.
Lemma calm_same_reg s s' : calm s s' → same_reg s s'.
Proof. intros C. split_and!; apply C. Qed.
Lemma upd_same_reg p v o s s' : upd p v o s s' → same_reg s s'.
Proof. intros U. split_and!; apply U. Qed.

Lemma known_reg ex s s' p : same_reg s s' → known ex s p → known ex s' p.
Proof. intros (A & B & C) [H1 H2]. split; [lia|]. by rewrite A, B. Qed.
Lemma registered_known ex s n p : RegInv ex s → interfaces s !! n = Some p → known ex s p.
Proof. intros R Hn. destruct (rg_names _ _ R _ _ Hn) as [Hp Hlt]. split; [done|]. right. by subst. Qed.

Lemma RegInv_reg ex s s' :
  same_reg s s' → (∀ p v, is_Some (own s' p v) → is_Some (own s p v) ∨ known ex s p) →
  RegInv ex s → RegInv ex s'.
Proof.
  intros (A & B & C) H [N O]. split; rewrite ?A.
  - intros n p Hn. rewrite B. destruct (N n p Hn). split; [done | lia].
  - intros p v Hs. rewrite B. destruct (H p v Hs) as [Hs'|[_ Hk]]; [by apply (O p v) | done].
Qed.
Lemma good_calm ex s s' : calm s s' → good ex s → good ex s'.
Proof.
  intros C [A B]. split; [by eapply ResInv_calm|].
  eapply RegInv_reg; [by apply calm_same_reg | | exact B].
  intros p v. rewrite (ca_own _ _ C). by left.
Qed.
Lemma RegInv_upd ex p v o s s' : upd p v o s s' → known ex s p → RegInv ex s → RegInv ex s'.
Proof.
  intros U K. apply RegInv_reg; [by eapply upd_same_reg|].
  intros p' v'. rewrite (up_own _ _ _ _ _ U). case_decide as H; [destruct H as [-> ->]; by right | by left].
Qed.

Definition svc_mode (i : Interface) (v : service) : Mode :=
  match v with VRouter => RA i | VDhcp => DHCPv6 i | VNdp => NDP i end.

(** ** What configures an interface, left alone by the services *)

Definition same_cfg (s s' : St) : Prop :=
  interfaces s' = interfaces s ∧ ∀ p, cfg (heap s' !!! p) = cfg (heap s !!! p).
#[export] Instance same_cfg_preorder : PreOrder same_cfg.
Proof.
  split; [by intros s|]. intros s1 s2 s3 [A B] [A' B']. split; [congruence|]. intros; congruence.
Qed.
#[export] Hint Resolve same_cfg_preorder : keeps.
Lemma emits_same_cfg P s s' : emits P s s' → same_cfg s s'.
Proof. by intros (evs & -> & _). Qed.
Lemma frame_same_cfg s s' : frame s s' → same_cfg s s'.
Proof.
  intros F. split; [apply F|]. intros p. pose proof (fr_core _ _ F p) as C. unfold core in C. congruence.
Qed.
Lemma same_cfg_running s s' p : same_cfg s s' → Running (heap s' !!! p) = Running (heap s !!! p).
Proof. intros [_ H]. specialize (H p). unfold cfg in H. congruence. Qed.
Lemma same_cfg_mode s s' p v :
  same_cfg s s' → svc_mode (heap s' !!! p) v = svc_mode (heap s !!! p) v.
Proof. intros [_ H]. specialize (H p). unfold cfg in H. destruct v; cbn; congruence. Qed.
Lemma keeps_cfg_assign p f : (∀ i, cfg (f i) = cfg i) → keeps same_cfg (assign p f).
Proof.
  intros Hf. apply keeps_modify. intros s. split; [done|]. intros q. cbn [heap set_heap].
  rewrite lookup_total_assign. by case_decide; subst.
Qed.

Ltac solve_keeps := solve_keeps_with ltac:(
  idtac; lazymatch goal with
  | |- keeps _ (closeChan _) => by apply keeps_closeChan
  | |- keeps _ (assign _ _) => by apply keeps_cfg_assign
  | |- keeps _ (modify _) => by apply keeps_modify
  | |- _ => solve [apply stable_keeps; eapply stable_mono; [solve [eauto with stable nocore] |
              intros ? ?; apply emits_same_cfg]]
  end).

Section KeepsCfg.
Context `{KN : Kernel}.

Lemma keeps_cfg_sys {A} (ans : list event → A) ev : keeps same_cfg (sys ans ev).
Proof. by intros s. Qed.
Lemma keeps_cfg_sys_err c : keeps same_cfg (sys_err c).
Proof. apply keeps_cfg_sys. Qed.
Lemma keeps_cfg_alloc : keeps same_cfg alloc.
Proof. by intros s. Qed.
Lemma keeps_cfg_afterFunc d f : keeps same_cfg (afterFunc d f).
Proof. by intros s. Qed.
Lemma keeps_cfg_closeFD fd : keeps same_cfg (closeFD fd).
Proof. apply keeps_when; [typeclasses eauto | apply keeps_cfg_sys]. Qed.
#[local] Hint Resolve keeps_cfg_sys keeps_cfg_sys_err keeps_cfg_alloc keeps_cfg_afterFunc
  keeps_cfg_closeFD : keeps.
#[local] Hint Unfold bindToDevice setsockoptInt joinMulticast6 attachFilter sys_socket spawn stopTimer
  set_mirrored delete_mirrored : keeps.

Lemma keeps_check fmt m k : keeps same_cfg m → keeps same_cfg k → keeps same_cfg (check fmt m k).
Proof. intros. unfold check. solve_keeps. Qed.
Lemma keeps_closing fd b : keeps same_cfg b → keeps same_cfg (closing_on_error fd b).
Proof. intros. unfold closing_on_error. solve_keeps. Qed.
#[local] Hint Resolve keeps_check keeps_closing : keeps.

Lemma armSolicit_cfg p d g : keeps same_cfg (armSolicit p d g).
Proof. unfold armSolicit. solve_keeps. Qed.
Lemma stopRsTimer_cfg p : keeps same_cfg (stopRsTimer p).
Proof. unfold stopRsTimer, stopTimer. solve_keeps. Qed.
#[local] Hint Resolve armSolicit_cfg stopRsTimer_cfg : keeps.
Lemma spawn_cfg r : keeps same_cfg (spawn r).
Proof. unfold spawn. solve_keeps. Qed.
#[local] Hint Resolve spawn_cfg : keeps.

Lemma routerConfigure_cfg p fd : keeps same_cfg (routerConfigure p fd).
Proof.
  unfold routerConfigure. apply keeps_bind; [typeclasses eauto | solve_keeps|]. intros i.
  repeat (apply keeps_check; [apply keeps_cfg_sys|]). apply keeps_bind; [typeclasses eauto | solve_keeps|].
  intros f. repeat (apply keeps_check; [apply keeps_cfg_sys|]). solve_keeps.
Qed.
Lemma dhcpv6Configure_cfg p fd : keeps same_cfg (dhcpv6Configure p fd).
Proof.
  unfold dhcpv6Configure. apply keeps_bind; [typeclasses eauto | solve_keeps|]. intros i.
  repeat (apply keeps_check; [apply keeps_cfg_sys|]). solve_keeps.
Qed.
Lemma seedNeigh_cfg p n : keeps same_cfg (seedNeigh p n).
Proof. unfold seedNeigh, set_mirrored. solve_keeps. Qed.
#[local] Hint Resolve seedNeigh_cfg : keeps.
Lemma seedMirroredNeighbors_cfg p : keeps same_cfg (seedMirroredNeighbors p).
Proof. unfold seedMirroredNeighbors, sys_linkByIndex, sys_neighList. solve_keeps. Qed.
Lemma drainSocket_cfg fd : keeps same_cfg (drainSocket fd).
Proof. apply stable_keeps. eapply stable_mono; [apply drainSocket_stable | apply emits_same_cfg]. Qed.
#[local] Hint Resolve routerConfigure_cfg dhcpv6Configure_cfg seedMirroredNeighbors_cfg drainSocket_cfg : keeps.
Lemma ndpConfigureCapture_cfg p g fd : keeps same_cfg (ndpConfigureCapture p g fd).
Proof.
  unfold ndpConfigureCapture. apply keeps_bind; [typeclasses eauto | solve_keeps|]. intros i.
  apply keeps_bind; [typeclasses eauto | solve_keeps|]. intros [e|]; [solve_keeps|].
  apply keeps_check; [apply keeps_cfg_sys|]. apply keeps_bind; [typeclasses eauto | solve_keeps|].
  intros []. repeat (apply keeps_check; [apply keeps_cfg_sys|]). solve_keeps.
Qed.
#[local] Hint Resolve ndpConfigureCapture_cfg : keeps.
Lemma ndpConfigurePing_cfg p fd : keeps same_cfg (ndpConfigurePing p fd).
Proof.
  unfold ndpConfigurePing. apply keeps_bind; [typeclasses eauto | solve_keeps|]. intros i.
  repeat (apply keeps_check; [apply keeps_cfg_sys|]). unfold sys_socket. solve_keeps.
Qed.
#[local] Hint Resolve ndpConfigurePing_cfg : keeps.

Lemma routerSetup_cfg p e : keeps same_cfg (routerSetup p e).
Proof. unfold routerSetup, sys_socket. solve_keeps. Qed.
Lemma dhcpv6Setup_cfg p e : keeps same_cfg (dhcpv6Setup p e).
Proof. unfold dhcpv6Setup, sys_socket. solve_keeps. Qed.
Lemma ndpSetup_cfg p e : keeps same_cfg (ndpSetup p e).
Proof. unfold ndpSetup, sys_socket. solve_keeps. Qed.
#[local] Hint Resolve routerSetup_cfg dhcpv6Setup_cfg ndpSetup_cfg : keeps.
Lemma disableServices_cfg p : keeps same_cfg (disableServices p).
Proof. unfold disableServices. solve_keeps. Qed.
#[local] Hint Resolve disableServices_cfg : keeps.
Lemma reloadServices_cfg p : keeps same_cfg (reloadServices p).
Proof. unfold reloadServices. solve_keeps. Qed.
End KeepsCfg.

(** ** Opening and closing the services of one interface *)

Section Services.
Context `{KN : Kernel} `{!KernelOk KN}.

Definition setup (v : service) : loc → bool → M (option goerr) :=
  match v with VRouter => routerSetup | VDhcp => dhcpv6Setup | VNdp => ndpSetup end.

Definition setup_result ex p v (wanted : bool) s (r : option goerr) s' : Prop :=
  good ex s' ∧ same_reg s s' ∧ same_cfg s s' ∧
  ∃ o, upd p v o s s' ∧ (is_Some o ↔ r = None ∧ wanted = true).

Lemma setup_spec ex v p e s :
  good ex s → known ex s p →
  wp (setup v p e)
     (setup_result ex p v (e && bool_decide (svc_mode (heap s !!! p) v ≠ ModeDisabled)) s) s.
Proof.
  intros [HR HG] K.
  assert (wp (setup v p e) (setup_post ∅ p v
    (e && bool_decide (svc_mode (heap s !!! p) v ≠ ModeDisabled)) s) s) as H.
  { destruct K as [Hp _]. destruct v; cbn [setup svc_mode];
      [by apply routerSetup_post | by apply dhcpv6Setup_post | by apply ndpSetup_post]. }
  eapply wp_mono; [apply (wp_wlp _ _ (λ _ s', same_cfg s s') _ H)|].
  - destruct v; [apply routerSetup_cfg | apply dhcpv6Setup_cfg | apply ndpSetup_cfg].
  - cbv beta. intros r s' [[HR' (o & U & Ho)] C].
    split_and!; [split; [done | by eapply RegInv_upd] | by eapply upd_same_reg | done|].
    by exists o.
Qed.

(** [p] owns no socket, the others own what they did. *)
Definition all_off (p : loc) (s s' : St) : Prop :=
  ∀ p' v', own s' p' v' = if decide (p' = p) then None else own s p' v'.

Lemma upd_off p v s s' r : (∃ o, upd p v o s s' ∧ (is_Some o ↔ r = @None goerr ∧ false = true)) →
  upd p v None s s'.
Proof. intros (o & U & Ho). destruct o; [|done]. by destruct (proj1 Ho (mk_is_Some _ _ eq_refl)). Qed.

Lemma three_off p s s1 s2 s3 :
  upd p VRouter None s s1 → upd p VDhcp None s1 s2 → upd p VNdp None s2 s3 → all_off p s s3.
Proof.
  intros U1 U2 U3 p' v'. rewrite (up_own _ _ _ _ _ U3), (up_own _ _ _ _ _ U2), (up_own _ _ _ _ _ U1).
  repeat case_decide; try done; [naive_solver..|]. destruct v'; naive_solver.
Qed.

(** The three set-up calls, for closing. *)
Definition off_result ex p s s' : Prop :=
  good ex s' ∧ same_reg s s' ∧ same_cfg s s' ∧ all_off p s s'.
Lemma wp_three_off {A} ex p (k : M A) Q s :
  good ex s → known ex s p → (∀ s', off_result ex p s s' → wp k Q s') →
  wp (_ ← routerSetup p false; _ ← dhcpv6Setup p false; _ ← ndpSetup p false; k) Q s.
Proof.
  intros G K HQ. apply wp_bind.
  eapply wp_mono; [exact (setup_spec ex VRouter p false s G K)|]. intros r1 s1 (G1 & R1 & C1 & U1).
  pose proof (known_reg _ _ _ _ R1 K) as K1. apply wp_bind.
  eapply wp_mono; [exact (setup_spec ex VDhcp p false s1 G1 K1)|]. intros r2 s2 (G2 & R2 & C2 & U2).
  pose proof (known_reg _ _ _ _ R2 K1) as K2. apply wp_bind.
  eapply wp_mono; [exact (setup_spec ex VNdp p false s2 G2 K2)|]. intros r3 s3 (G3 & R3 & C3 & U3).
  apply HQ. split_and!; [done | by do 2 (etransitivity; [eassumption|]) |
    by do 2 (etransitivity; [eassumption|])|].
  eapply three_off; by eapply upd_off.
Qed.

Lemma disableServices_off ex p s :
  good ex s → known ex s p → wp (disableServices p) (λ _ s', off_result ex p s s') s.
Proof. intros G K. by apply (wp_three_off ex). Qed.

(** After [reloadServices]: sockets only for services that are not disabled
    on a running interface. *)
Definition serves (s : St) (p : loc) : Prop :=
  ∀ v, is_Some (own s p v) →
    Running (heap s !!! p) = true ∧ svc_mode (heap s !!! p) v ≠ ModeDisabled.
Definition reload_result ex p s s' : Prop :=
  good ex s' ∧ same_reg s s' ∧ same_cfg s s' ∧ serves s' p ∧
  ∀ p' v', p' ≠ p → own s' p' v' = own s p' v'.

Lemma setup_wanted ex v p e s :
  good ex s → known ex s p →
  wp (setup v p e) (λ r s', good ex s' ∧ same_reg s s' ∧ same_cfg s s' ∧
    (∃ o, upd p v o s s') ∧
    (is_Some (own s' p v) → svc_mode (heap s' !!! p) v ≠ ModeDisabled)) s.
Proof.
  intros G K. wp_use setup_spec; [done..|]. intros r s' (G' & R & C & o & U & Ho).
  split_and!; [done..|by exists o|]. rewrite (upd_self _ _ _ _ _ U).
  intros [_ H%andb_true_iff]%Ho. rewrite (same_cfg_mode _ _ _ _ C). by destruct H as [_ H%bool_decide_eq_true].
Qed.

Lemma same_cfg_log level fmt : keeps same_cfg (logf level fmt).
Proof. apply stable_keeps. eapply stable_mono; [apply logf_stable | apply emits_same_cfg]. Qed.

Lemma reloadServices_spec ex p s :
  good ex s → known ex s p → wp (reloadServices p) (λ _ s', reload_result ex p s s') s.
Proof.
  intros G K. unfold reloadServices. apply wp_bind, wp_deref.
  assert (∀ s0, emits log_ev s s0 → calm s s0 ∧ same_cfg s s0) as Hlog.
  { intros s0 H0. split; [|by eapply emits_same_cfg].
    apply emits_calm. eapply emits_mono; [|exact H0]. ev_tac. }
  destruct (Running (heap s !!! p)) eqn:ER; apply wp_bind, wp_log; intros s0 [C0 F0]%Hlog;
    pose proof (good_calm _ _ _ C0 G) as G0; pose proof (known_reg _ _ _ _ (calm_same_reg _ _ C0) K) as K0.
  - apply wp_bind, wp_deref, wp_bind.
    eapply wp_mono; [exact (setup_wanted ex VRouter p _ s0 G0 K0)|].
    intros r1 s1 (G1 & R1 & F1 & [o1 U1] & S1). pose proof (known_reg _ _ _ _ R1 K0) as K1.
    apply wp_bind, wp_deref, wp_bind.
    eapply wp_mono; [exact (setup_wanted ex VDhcp p _ s1 G1 K1)|].
    intros r2 s2 (G2 & R2 & F2 & [o2 U2] & S2). pose proof (known_reg _ _ _ _ R2 K1) as K2.
    apply wp_bind, wp_deref, wp_bind.
    eapply wp_mono; [exact (setup_wanted ex VNdp p _ s2 G2 K2)|].
    intros r3 s3 (G3 & R3 & F3 & [o3 U3] & S3). apply wp_skip.
    assert (same_cfg s s3) as F by (do 3 (etransitivity; [eassumption|]); done).
    split_and!; [done | by do 3 (etransitivity; [eauto using calm_same_reg|]) | done | |].
    + intros v Hv. split; [by rewrite (same_cfg_running _ _ _ F)|]. revert Hv. destruct v.
      * rewrite (up_own _ _ _ _ _ U3), decide_False by naive_solver.
        rewrite (up_own _ _ _ _ _ U2), decide_False by naive_solver.
        intros Hv%S1. by rewrite (same_cfg_mode _ _ _ _ F3), (same_cfg_mode _ _ _ _ F2).
      * rewrite (up_own _ _ _ _ _ U3), decide_False by naive_solver.
        intros Hv%S2. by rewrite (same_cfg_mode _ _ _ _ F3).
      * exact S3.
    + intros p' v' Hp. rewrite (up_own _ _ _ _ _ U3), decide_False by naive_solver.
      rewrite (up_own _ _ _ _ _ U2), decide_False by naive_solver.
      rewrite (up_own _ _ _ _ _ U1), decide_False by naive_solver. apply (ca_own _ _ C0).
  - wp_use disableServices_off; [done..|]. intros [] s1 (G1 & R1 & F1 & O1).
    split_and!; [done | by etransitivity; [by apply calm_same_reg|] | by etransitivity | |].
    + intros v. rewrite O1, decide_True by done. by intros [].
    + intros p' v' Hp. rewrite O1, decide_False by done. apply (ca_own _ _ C0).
Qed.
End Services.
