(* ===== verification/Kept.v ===== *)
(** * Invariants indexed by what is outside the store

    Some invariants relate the store to what the event loop keeps elsewhere
    (the timer closures queued, the readers in a system call): a family [Inv]
    of predicates on the store, of which an operation must keep every member.
    [Kept] is what such a family promises for the elementary operations; the
    handlers that open, close, register and forget interfaces ([Reload],
    [handleLinkEvent] and what they call) then keep it too. *)
From S2P Require Import Prelude Netip World Hoare Log Iface RawSock Sim Mirror Dhcpv6 Router Ndp Config Netlink Frame Resources Lifecycle.

(** Kept whatever [q]; by an operation on one interface, when its address has
    been allocated. *)
Definition keeps_inv {Q} (Inv : Q → St → Prop) (s s' : St) : Prop :=
  (next s <= next s')%positive ∧ ∀ q, Inv q s → Inv q s'.
Definition keeps_inv_at {Q} (Inv : Q → St → Prop) (p : loc) (s s' : St) : Prop :=
  (next s <= next s')%positive ∧ ((p < next s)%positive → ∀ q, Inv q s → Inv q s').
#[export] Instance keeps_inv_preorder {Q} (Inv : Q → St → Prop) : PreOrder (keeps_inv Inv).
Proof. split; [by intros s|]. intros s1 s2 s3 [A B] [A' B']. split; [lia | auto]. Qed.
#[export] Instance keeps_inv_at_preorder {Q} (Inv : Q → St → Prop) p : PreOrder (keeps_inv_at Inv p).
Proof.
  split; [by intros s|]. intros s1 s2 s3 [A B] [A' B']. split; [lia|].
  intros Hp q H. apply B'; [lia | auto].
Qed.
#[export] Hint Resolve keeps_inv_preorder keeps_inv_at_preorder : keeps.
Lemma keeps_at {Q} (Inv : Q → St → Prop) {A} p (m : M A) :
  keeps (keeps_inv Inv) m → keeps (keeps_inv_at Inv p) m.
Proof. intros Hm. eapply keeps_mono; [exact Hm|]. intros s s' [H1 H2]. by split. Qed.

(** The fields of an interface that belong to its services. *)
Definition svc_part (i : Interface) := (router i, dhcp i, ndp i, raSent i, rsTimer i, rsTimerN i).

Class Kept `{Kernel} {Q} (Inv : Q → St → Prop) : Prop := {
  kp_ifaces q s n p : Inv q s → interfaces s !! n = Some p → (p < next s)%positive;
  kp_frame q s s' : frame s s' → Inv q s → Inv q s';
  kp_assign p f : (∀ i, svc_part (f i) = svc_part i) → keeps (keeps_inv Inv) (assign p f);
  kp_delete n : keeps (keeps_inv Inv) (modify (λ s, set_interfaces (delete n (interfaces s)) s));
  kp_create n q s : Inv q s → wlp (findOrCreateInterface n) (λ p s', Inv q s' ∧ (p < next s')%positive) s;
  kp_setup v p e : keeps (keeps_inv_at Inv p) (setup v p e);
  kp_stop p : keeps (keeps_inv Inv) (stopRsTimer p)
}.

Section Kept.
Context `{KN : Kernel} `{!KernelOk KN} {Q} (Inv : Q → St → Prop) `{!Kept Inv}.

Lemma keeps_inv_frame {A} (m : M A) : stable frame m → keeps (keeps_inv Inv) m.
Proof.
  intros Hm. apply stable_keeps. eapply stable_mono; [exact Hm|]. intros s s' F.
  split; [by rewrite (fr_next _ _ F)|]. intros q. by apply kp_frame.
Qed.
Lemma kept_frame s s' q : frame s s' → Inv q s → Inv q s' ∧ (next s <= next s')%positive.
Proof. intros F Hi. split; [by eapply kp_frame | by rewrite (fr_next _ _ F)]. Qed.
Lemma query_frame s s' : emits query_ev s s' → frame s s'.
Proof. intros H. apply emits_frame. eapply emits_mono; [|exact H]. ev_tac. Qed.

(** ** Handlers that find their interfaces themselves *)

Definition inv_run {A} (m : M A) : Prop := ∀ q s, Inv q s → wlp m (λ _ s', Inv q s') s.
Lemma keeps_run {A} (m : M A) : keeps (keeps_inv Inv) m → inv_run m.
Proof. intros Hm q s Hi. eapply wlp_mono; [apply Hm|]. intros a s' [_ H]. auto. Qed.
Lemma frame_run {A} (m : M A) : stable frame m → inv_run m.
Proof. intros Hm. by apply keeps_run, keeps_inv_frame. Qed.
Lemma run_bind {A B} (m : M A) (f : A → M B) : inv_run m → (∀ a, inv_run (f a)) → inv_run (m ≫= f).
Proof. intros Hm Hf q s Hi. apply wlp_bind. eapply wlp_mono; [by apply Hm|]. intros a s' Hi'. by apply Hf. Qed.
Lemma run_forM {A} (l : list A) f : (∀ x, inv_run (f x)) → inv_run (forM l f).
Proof.
  intros Hf. induction l as [|x l IH]; cbn [forM]; [apply keeps_run, keeps_skip; typeclasses eauto|].
  by apply run_bind.
Qed.
Lemma keeps_at_run {A} p (m : M A) q s :
  keeps (keeps_inv_at Inv p) m → (p < next s)%positive → Inv q s → wlp m (λ _ s', Inv q s') s.
Proof. intros Hm Hp Hi. eapply wlp_mono; [apply Hm|]. intros a s' [_ H]. auto. Qed.

Lemma find_interface_at {A} test (k : option loc → M A) :
  inv_run (k None) → (∀ p, keeps (keeps_inv_at Inv p) (k (Some p))) → inv_run (find_interface test ≫= k).
Proof.
  intros HN HS q s Hi. apply wlp_bind, wp_to_wlp, wp_find_interface.
  - intros n p s' H1%query_frame Hn _. destruct (kept_frame _ _ _ H1 Hi) as [Hi' HX].
    eapply keeps_at_run; [apply HS | | done]. pose proof (kp_ifaces _ _ _ _ Hi Hn). lia.
  - intros s' H1%query_frame _. by apply HN, (kept_frame _ _ _ H1 Hi).
Qed.
Lemma range_interfaces_at f :
  (∀ c, keeps (keeps_inv_at Inv c) (f c)) → inv_run (cs ← range_interfaces; forM cs f).
Proof.
  intros Hf q s Hi. apply wlp_bind, wp_to_wlp, wp_range_interfaces. intros cs s' Hcs H1%query_frame.
  destruct (kept_frame _ _ _ H1 Hi) as [Hi' HX].
  assert (∀ c, c ∈ cs → (c < next s')%positive) as Hc.
  { intros c. rewrite Hcs. intros [n Hn]%elem_of_interfaces. pose proof (kp_ifaces _ _ _ _ Hi Hn). lia. }
  apply (wlp_forM (λ rest s, Inv q s ∧ ∀ c, c ∈ rest → (c < next s)%positive)); [done| |by intros s2 []].
  intros c rest s2 [Hi2 H2]. eapply wlp_mono; [apply Hf|]. intros [] s3 [H3 H4]. split.
  - apply H4; [|done]. apply H2, elem_of_cons. by left.
  - intros d Hd. assert (d < next s2)%positive by (apply H2, elem_of_cons; by right). lia.
Qed.

(** ** The handlers *)

Ltac solve_kept := solve_keeps_with ltac:(
  idtac; lazymatch goal with
  | |- keeps (keeps_inv _) (assign _ _) => apply kp_assign; done
  | |- keeps (keeps_inv _) _ => solve [apply keeps_inv_frame; solve_frame]
  | |- keeps (keeps_inv_at _ _) (assign _ _) => apply keeps_at, kp_assign; done
  | |- keeps (keeps_inv_at _ ?p) _ =>
      solve [apply (kp_setup VRouter) | apply (kp_setup VDhcp) | apply (kp_setup VNdp)
            | apply keeps_at, keeps_inv_frame; solve_frame]
  end).

Lemma disableServices_kept p : keeps (keeps_inv_at Inv p) (disableServices p).
Proof. unfold disableServices. solve_kept. Qed.
#[local] Hint Resolve disableServices_kept : keeps.
Lemma reloadServices_kept p : keeps (keeps_inv_at Inv p) (reloadServices p).
Proof. unfold reloadServices. solve_kept. Qed.
#[local] Hint Resolve reloadServices_kept : keeps.
Lemma closeInterface_kept p : keeps (keeps_inv_at Inv p) (closeInterface p).
Proof.
  unfold closeInterface. apply keeps_bind; [typeclasses eauto | solve_kept|]. intros i.
  apply keeps_bind; [typeclasses eauto | apply keeps_at, kp_delete|]. intros []. solve_kept.
  apply keeps_at, kp_stop.
Qed.
#[local] Hint Resolve closeInterface_kept : keeps.

Lemma parseInterfaceJSON_kept n o : inv_run (parseInterfaceJSON n o).
Proof.
  intros q s Hi. unfold parseInterfaceJSON. apply wlp_bind.
  eapply wlp_mono; [by apply kp_create|]. cbv beta. intros p s1 [Hi1 Hp].
  assert (∀ o i, svc_part (applyOptions o i) = svc_part i) as Hopt
    by (intros o' i; unfold applyOptions; by repeat case_match).
  eapply keeps_at_run; [|exact Hp | exact Hi1].
  unfold bindInterface, sys_linkByName. solve_kept; by apply keeps_at, kp_assign.
Qed.
Lemma loadConfigJSON_kept path : inv_run (loadConfigJSON path).
Proof.
  unfold loadConfigJSON, sys_readFile. apply run_bind; [apply frame_run; solve_frame|].
  intros [data|]; [|apply frame_run; solve_frame].
  destruct (k_unmarshal data) as [root|]; [|apply frame_run; solve_frame].
  do 3 (apply run_bind; [apply frame_run; solve_frame | intros ?]).
  apply run_forM. intros e. apply run_bind; [apply parseInterfaceJSON_kept|].
  intros err. apply frame_run. solve_frame.
Qed.
Lemma Reload_kept : inv_run Reload.
Proof.
  unfold Reload, setInterfaceDefaults.
  do 3 (apply run_bind; [apply keeps_run; solve_kept | intros ?]).
  apply run_bind; [apply loadConfigJSON_kept|]. intros [].
  do 3 (apply run_bind; [apply keeps_run; solve_kept | intros ?]).
  apply run_bind; [apply keeps_run | intros []; apply range_interfaces_at; intros c; solve_kept].
  solve_kept. apply kp_assign. intros i. unfold demoteMaster. by repeat case_match.
Qed.
Lemma handleLinkEvent_kept u : inv_run (handleLinkEvent u).
Proof. apply find_interface_at; [apply frame_run; solve_frame|]. intros p. unfold linkDeleted. solve_kept. Qed.
End Kept.
