(* ===== verification/Reload.v ===== *)
(** * Reloading and link changes

    The operations that register, rebind and forget interfaces keep the
    ownership of sockets sound: [closeInterface], [loadConfigJSON], [Reload]
    ([config.go]) and [handleLinkEvent] ([netlink.go]). *)
From S2P Require Import Prelude Netip World Hoare Log Iface RawSock Sim Mirror Dhcpv6 Router Ndp Config Netlink Frame Resources Lifecycle.

(** The state between two closures of the engine: sockets are owned as
    [ResInv] and [RegInv] say, by running interfaces, for relaying services. *)
Definition sound (s : St) : Prop := good None s ∧ ∀ p, serves s p.

Lemma serves_same s s' p :
  (∀ v, own s' p v = own s p v) → cfg (heap s' !!! p) = cfg (heap s !!! p) →
  serves s p → serves s' p.
Proof.
  intros Ho Hc H v. rewrite Ho. intros Hs. destruct (H v Hs) as [H1 H2]. unfold cfg in Hc.
  split; [congruence|]. destruct v; cbn in *; congruence.
Qed.
Lemma serves_off s p : (∀ v, own s p v = None) → serves s p.
Proof. intros H v. rewrite H. by intros []. Qed.

Lemma sound_frame s s' : frame s s' → sound s → sound s'.
Proof.
  intros F [G S]. pose proof (frame_calm _ _ F) as C. split; [by eapply good_calm|].
  intros p. eapply serves_same; [apply C | apply (frame_same_cfg _ _ F) | apply S].
Qed.

(** Only registered interfaces own sockets. *)
Lemma good_registered s p v : good None s → is_Some (own s p v) → interfaces s !! Name (heap s !!! p) = Some p.
Proof. intros [_ R] Ho. by destruct (rg_own _ _ R _ _ Ho). Qed.

Section Close.
Context `{KN : Kernel} `{!KernelOk KN}.

Definition close_result p s s' : Prop :=
  good None s' ∧ interfaces s' = delete (Name (heap s !!! p)) (interfaces s) ∧
  (∀ q, cfg (heap s' !!! q) = cfg (heap s !!! q)) ∧ (next s <= next s')%positive ∧ all_off p s s'.

Lemma good_deleted p s :
  good None s → known None s p →
  good (Some p) (set_interfaces (delete (Name (heap s !!! p)) (interfaces s)) s) ∧
  known (Some p) (set_interfaces (delete (Name (heap s !!! p)) (interfaces s)) s) p.
Proof.
  intros [[A B C D E] [N O]] [Hp [?|Hk]]; [done|]. split; [|by split; [|left]]. split; [by split|].
  split; cbn [interfaces set_interfaces heap next].
  - intros n q [_ Hn]%lookup_delete_Some. by apply N.
  - intros q v Ho. change (is_Some (own s q v)) in Ho. destruct (O q v Ho) as [?|Hq]; [done|].
    destruct (decide (Name (heap s !!! q) = Name (heap s !!! p))) as [Heq|Hne].
    + left. rewrite Heq in Hq. congruence.
    + right. by rewrite lookup_delete_ne.
Qed.

Lemma closeInterface_spec p s :
  good None s → known None s p → wp (closeInterface p) (λ _ s', close_result p s s') s.
Proof.
  intros G K. unfold closeInterface. apply wp_bind, wp_deref, wp_bind, wp_modify.
  destruct (good_deleted p s G K) as [G1 K1]. set (s1 := set_interfaces _ s) in *.
  apply (wp_three_off (Some p)); [done..|]. intros s2 (G2 & (I2 & N2 & X2) & [_ F2] & O2).
  pose proof (stopRsTimer_cfg p s2) as Hcfg.
  eapply wp_mono; [apply (wp_wlp _ _ _ _ (stopRsTimer_calm p s2) Hcfg)|].
  cbv beta. intros [] s3 [C3 [_ F3]].
  split_and!; [| | intros q; by rewrite F3, F2 | | ].
  - destruct (good_calm _ _ _ C3 G2) as [HR [N O]]. split; [done|]. split; [done|].
    intros q v Ho. right. destruct (O q v Ho) as [[= <-]|]; [|done].
    rewrite (ca_own _ _ C3), O2, decide_True in Ho by done. by destruct Ho.
  - by rewrite (ca_interfaces _ _ C3), I2.
  - pose proof (ca_next _ _ C3). cbn in X2. lia.
  - intros q v. rewrite (ca_own _ _ C3). apply O2.
Qed.
End Close.

(** ** Loading *)

Section Load.
Context `{KN : Kernel} `{!KernelOk KN}.

(** [p] is registered, and stays so. *)
Definition stays {A} (p : loc) (m : M A) : Prop := ∀ s, good None s → known None s p →
  wp m (λ _ s', good None s' ∧ known None s' p) s.
Lemma stays_calm {A} p (m : M A) : stable calm m → stays p m.
Proof.
  intros Hm s G K. wp_use Hm. intros a s' C. split; [by eapply good_calm|].
  eapply known_reg; [by apply calm_same_reg | done].
Qed.
Lemma stays_bind {A B} p (m : M A) (f : A → M B) :
  stays p m → (∀ a, stays p (f a)) → stays p (m ≫= f).
Proof.
  intros Hm Hf s G K. apply wp_bind. wp_use Hm; [done..|]. intros a s' [G' K'].
  by apply Hf.
Qed.

Lemma findOrCreateInterface_spec n s :
  good None s → wp (findOrCreateInterface n) (λ p s', good None s' ∧ known None s' p) s.
Proof.
  intros G. unfold findOrCreateInterface. apply wp_bind, wp_get.
  destruct (interfaces s !! n) as [p|] eqn:En.
  { apply wp_ret. split; [done|]. destruct G as [_ R]. by eapply registered_known. }
  apply wp_bind, wp_alloc, wp_bind, wp_assign, wp_bind, wp_assign, wp_bind, wp_modify, wp_ret.
  cbn [heap set_heap set_interfaces set_next interfaces next]. rewrite insert_insert_eq.
  match goal with |- context [set_heap (<[_ := ?i0]> _)] => set (i := i0) end.
  assert (Name i = n ∧ ∀ v, svc_sock i v = None) as [Hn Hv].
  { unfold i. rewrite lookup_total_insert_eq. by split; [|intros []]. }
  clearbody i. destruct G as [[A B C D E] [N O]].
  assert (∀ v, own s (next s) v = None) as Hfresh.
  { intros v. destruct (own s (next s) v) eqn:Eo; [|done].
    destruct (A _ _ _ Eo) as (_ & ? & _). lia. }
  set (s' := set_interfaces _ _).
  assert (∀ (q : loc) v, own s' q v = own s q v) as Ho.
  { intros q v. unfold own. cbn. rewrite lookup_total_assign. case_decide as Hq; [|done].
    subst q. rewrite Hv. by rewrite <- (Hfresh v). }
  assert (∀ q : loc, q ≠ next s → Name (heap s' !!! q) = Name (heap s !!! q)) as Hname.
  { intros q Hq. cbn. by rewrite lookup_total_assign, decide_False. }
  assert (Name (heap s' !!! next s) = n) as Hname'.
  { cbn. by rewrite lookup_total_assign, decide_True. }
  split; [split; split|].
  - intros q v k. rewrite Ho. intros Hk. destruct (A q v k Hk) as (? & ? & ? & ? & ? & ?).
    split_and!; [done | cbn; lia | cbn; lia | done..].
  - intros q v k q' v' k'. rewrite !Ho. apply B.
  - exact C.
  - intros fd Hfd. destruct (D fd Hfd) as [|(q & v & k & Hk)]; [by left|].
    right. exists q, v, k. by rewrite Ho.
  - intros c Hc%E. cbn. lia.
  - intros m q. cbn [interfaces s' set_interfaces]. intros [[<- <-]|[Hm Hq]]%lookup_insert_Some.
    + split; [done | cbn; lia].
    + destruct (N m q Hq) as [Hq1 Hq2]. rewrite Hname by (intros ->; lia). split; [done | cbn; lia].
  - intros q v. rewrite Ho. intros Hs. right. destruct (O q v Hs) as [|Hq]; [done|].
    assert (q ≠ next s) as Hne by (intros ->; rewrite Hfresh in Hs; by destruct Hs).
    rewrite Hname by done. cbn [interfaces s' set_interfaces].
    rewrite lookup_insert_ne; [done|]. intros ->. congruence.
  - split; [cbn; lia|]. right. rewrite Hname'. cbn. apply lookup_insert_eq.
Qed.

Lemma disableServices_stays p : stays p (disableServices p).
Proof.
  intros s G K. wp_use (disableServices_off None p s); [done..|]. intros [] s' (G' & R & _).
  split; [done | by eapply known_reg].
Qed.
Lemma bindInterface_stays p n l : stays p (bindInterface p n l).
Proof.
  unfold bindInterface. apply stays_bind; [apply stays_calm; solve_calm|]. intros i.
  apply stays_bind; [|intros []; apply stays_calm; solve_calm].
  unfold when. case_match; [|apply stays_calm; solve_calm].
  apply stays_bind; [apply disableServices_stays | intros []; apply stays_calm; solve_calm].
Qed.

Lemma applyOptions_calm p o : stable calm (assign p (applyOptions o)).
Proof.
  apply calm_assign; intros i; unfold applyOptions; [intros v|]; repeat case_match;
    subst; cbn; repeat case_match; by try destruct v.
Qed.

Lemma parseInterfaceJSON_good n o s :
  good None s → wp (parseInterfaceJSON n o) (λ _ s', good None s') s.
Proof.
  intros G. unfold parseInterfaceJSON. apply wp_bind.
  wp_use findOrCreateInterface_spec; [done|]. intros p s1 [G1 K1]. apply wp_bind, wp_deref.
  destruct (ji_Ifname o) as [ifn|].
  - assert (stays p (r ← sys_linkByName ifn;
      match r with
      | inl err => mret (Some (Wrapped "interface %q (%s): %w" err))
      | inr link => bindInterface p ifn link ;; assign p (applyOptions o) ;; mret None
      end)) as Hs.
    { apply stays_bind; [apply stays_calm; unfold sys_linkByName; solve_calm|].
      intros [e|l]; [apply stays_calm; solve_calm|].
      apply stays_bind; [apply bindInterface_stays|]. intros [].
      apply stays_bind; [apply stays_calm, applyOptions_calm | intros []; apply stays_calm; solve_calm]. }
    wp_use Hs; [done..|]. by intros r s2 [].
  - case_match; [by apply wp_ret|]. apply wp_bind. wp_use applyOptions_calm.
    intros [] s2 C. apply wp_ret. by eapply good_calm.
Qed.

Lemma loadConfigJSON_good path s : good None s → wp (loadConfigJSON path) (λ _ s', good None s') s.
Proof.
  intros G.
  assert (∀ {A} (m : M A) s, stable calm m → good None s → wp m (λ _ s', good None s') s) as Hc.
  { intros A m s1 Hm G1. wp_use Hm. intros a s2 C. by eapply good_calm. }
  unfold loadConfigJSON. apply wp_bind. wp_use Hc; [unfold sys_readFile; solve_calm | done|].
  intros [data|] s1 G1; [|apply Hc; [solve_calm | done]].
  destruct (k_unmarshal data) as [root|]; [|apply Hc; [solve_calm | done]].
  apply wp_bind, wp_get, wp_bind. wp_use Hc; [solve_calm | done|]. intros [] s2 G2.
  apply wp_bind. wp_use Hc; [solve_calm | done|]. intros entries s3 G3.
  apply (wp_forM (λ _ s', good None s')); [done| |done]. intros _ e _ s4 _ G4.
  apply wp_bind. wp_use parseInterfaceJSON_good; [done|]. intros err s5 G5.
  apply Hc; [solve_calm | done].
Qed.
End Load.

(** ** [Reload] *)

Section ReloadSpec.
Context `{KN : Kernel} `{!KernelOk KN}.

(** The last loop, over the pointers [cs] the map held in [s0]: those done serve
    soundly or are gone, the others are still registered; those in use stay. *)
Record reloading (s0 : St) (cs done : list loc) (s : St) : Prop := mkReloading {
  rl_good : good None s;
  rl_rest c : c ∈ cs → c ∉ done → known None s c;
  rl_done c : c ∈ done → serves s c;
  rl_inuse c n : c ∈ done → interfaces s !! n = Some c → Inuse (heap s !!! c) = true;
  rl_all n c : interfaces s !! n = Some c → c ∈ cs;
  rl_cfg q : cfg (heap s !!! q) = cfg (heap s0 !!! q);
  rl_sub n c : interfaces s !! n = Some c → interfaces s0 !! n = Some c;
  rl_kept n c : interfaces s0 !! n = Some c → Inuse (heap s0 !!! c) = true → interfaces s !! n = Some c
}.

Lemma same_cfg_inuse s s' q : cfg (heap s' !!! q) = cfg (heap s !!! q) → Inuse (heap s' !!! q) = Inuse (heap s !!! q).
Proof. unfold cfg. congruence. Qed.
Lemma reloading_reload s0 cs done c s s' :
  reloading s0 cs done s → Inuse (heap s !!! c) = true → reload_result None c s s' →
  reloading s0 cs (done ++ [c]) s'.
Proof.
  intros [G R D U A C B K] Hc (G' & Reg & F & S & O). split; [done| | | | | | |].
  - intros q Hq Hn. eapply known_reg; [exact Reg|]. apply R; set_solver.
  - intros q Hq. destruct (decide (q = c)) as [->|Hne]; [done|].
    eapply (serves_same s); [by intros v; apply O | apply F | apply D; set_solver].
  - destruct F as [-> F]. intros q n Hq Hn. rewrite (same_cfg_inuse _ _ _ (F q)).
    apply elem_of_app in Hq as [Hq| ->%list_elem_of_singleton]; [by eapply U | done].
  - intros n q. destruct F as [-> _]. apply A.
  - intros q. destruct F as [_ F]. by rewrite F.
  - destruct F as [-> _]. exact B.
  - destruct F as [-> _]. exact K.
Qed.
Lemma reloading_close s0 cs done c s s' :
  reloading s0 cs done s → Inuse (heap s !!! c) = false → c ∈ cs → c ∉ done → close_result c s s' →
  reloading s0 cs (done ++ [c]) s'.
Proof.
  intros [G R D U A C B K] Hu Hc Hn (G' & I & F & X & O). split; [done| | | | | | |].
  - intros q Hq Hnq. destruct (R q Hq) as [H1 H2]; [set_solver|]. split; [lia|]. right.
    destruct H2 as [|H2]; [done|]. destruct (R c Hc Hn) as [_ [|Hcn]]; [done|].
    assert (Name (heap s' !!! q) = Name (heap s !!! q)) as Hname
      by (specialize (F q); unfold cfg in F; congruence).
    rewrite I, Hname, lookup_delete_ne; [done|]. intros Heq. rewrite Heq in Hcn.
    assert (c = q) by congruence. set_solver.
  - intros q Hq. destruct (decide (q = c)) as [->|Hne].
    + apply serves_off. intros v. by rewrite O, decide_True.
    + eapply (serves_same s); [intros v; by rewrite O, decide_False | apply F | apply D; set_solver].
  - rewrite I. intros q n Hq [Hne Hq']%lookup_delete_Some. rewrite (same_cfg_inuse _ _ _ (F q)).
    apply elem_of_app in Hq as [Hq| ->%list_elem_of_singleton]; [by eapply U|].
    destruct G as [_ [N _]]. by destruct (N _ _ Hq') as [<- _].
  - intros n q. rewrite I. intros [_ Hq]%lookup_delete_Some. by eapply A.
  - intros q. by rewrite F.
  - intros n q. rewrite I. intros [_ Hq]%lookup_delete_Some. by apply B.
  - intros n q Hq Huse. rewrite I, lookup_delete_ne; [by apply K|]. intros <-.
    destruct (R c Hc Hn) as [_ [|Hcn]]; [done|]. rewrite (K _ _ Hq Huse) in Hcn. injection Hcn as ->.
    rewrite (same_cfg_inuse _ _ _ (C c)) in Hu. congruence.
Qed.

Lemma interfaces_NoDup s : RegInv None s → NoDup (map_to_list (interfaces s)).*2.
Proof.
  intros R. apply NoDup_fmap_2_strong; [|apply NoDup_map_to_list].
  intros [n p] [m q] Hn%elem_of_map_to_list Hm%elem_of_map_to_list. cbn. intros <-.
  destruct (rg_names _ _ R _ _ Hn) as [<- _], (rg_names _ _ R _ _ Hm) as [<- _]. done.
Qed.

Lemma reload_loop cs s :
  good None s → cs ≡ₚ (map_to_list (interfaces s)).*2 →
  wp (forM cs (λ c, i ← deref c; if Inuse i then reloadServices c else closeInterface c))
     (λ _ s', (sound s' ∧ ∀ n p, interfaces s' !! n = Some p → Inuse (heap s' !!! p) = true) ∧
       (∀ p, cfg (heap s' !!! p) = cfg (heap s !!! p)) ∧
       ∀ n p, interfaces s' !! n = Some p ↔ interfaces s !! n = Some p ∧ Inuse (heap s !!! p) = true) s.
Proof.
  intros G Hcs. assert (NoDup cs) as Hnd by (rewrite Hcs; apply interfaces_NoDup, G).
  assert (∀ n c, interfaces s !! n = Some c → c ∈ cs) as Hin
    by (intros n c Hn; rewrite Hcs; apply elem_of_interfaces; eauto).
  apply (wp_forM (reloading s cs)).
  - split; [done| |by intros c ?%elem_of_nil|by intros c n ?%elem_of_nil|done..]. intros c Hc _.
    rewrite Hcs in Hc. apply elem_of_interfaces in Hc as [n Hn].
    destruct G as [_ R]. by eapply registered_known.
  - intros done' c rest s1 -> HI. apply wp_bind, wp_deref.
    assert (c ∉ done') as Hc by (apply NoDup_app in Hnd as (_ & H & _); intros Hc; apply (H c Hc); set_solver).
    assert (c ∈ done' ++ c :: rest) as Hc' by set_solver.
    pose proof (rl_rest _ _ _ _ HI c Hc' Hc) as K. case_match.
    + wp_use (reloadServices_spec None c); [apply HI | done|]. intros [] s2. by apply reloading_reload.
    + wp_use closeInterface_spec; [apply HI | done|]. intros [] s2. by apply reloading_close.
  - intros s' HI.
    assert (∀ n p, interfaces s' !! n = Some p → Inuse (heap s' !!! p) = true) as Hu.
    { intros n p Hn. eapply (rl_inuse _ _ _ _ HI); [by eapply (rl_all _ _ _ _ HI) | exact Hn]. }
    split_and!; [|exact Hu|apply HI|].
    + split; [apply HI|]. intros p v Hs.
      pose proof (good_registered _ _ _ (rl_good _ _ _ _ HI) Hs) as Hr.
      by apply (rl_done _ _ _ _ HI p (rl_all _ _ _ _ HI _ _ Hr)).
    + intros n p. split; [|intros []; by apply (rl_kept _ _ _ _ HI)]. intros Hn.
      split; [by apply (rl_sub _ _ _ _ HI)|]. rewrite <- (same_cfg_inuse _ _ _ (rl_cfg _ _ _ _ HI p)). by eapply Hu.
Qed.

Lemma demoteMaster_same a b c i : (∀ v, svc_sock (demoteMaster a b c i) v = svc_sock i v) ∧
  Name (demoteMaster a b c i) = Name i.
Proof. unfold demoteMaster. repeat case_match; split; try done; by intros []. Qed.

Lemma good_then {A B} (m : M A) (f : A → M B) Q s :
  stable calm m → good None s →
  (∀ a s', calm s s' → good None s' → wp (f a) Q s') → wp (m ≫= f) Q s.
Proof.
  intros Hm G HQ. apply wp_bind. wp_use Hm. intros a s' C. apply HQ; [done | by eapply good_calm].
Qed.

Lemma Reload_registered s :
  good None s →
  wp Reload (λ _ s', sound s' ∧ ∀ n p, interfaces s' !! n = Some p → Inuse (heap s' !!! p) = true) s.
Proof.
  intros G. unfold Reload. apply good_then; [solve_calm | done|]. intros cs1 s1 _ G1.
  apply good_then; [|done|].
  { apply stable_forM; [typeclasses eauto|]. intros c. unfold setInterfaceDefaults.
    solve_calm; apply calm_assign; done. }
  intros [] s2 _ G2. apply wp_bind, wp_get, wp_bind. wp_use loadConfigJSON_good; [done|].
  intros [] s3 G3. apply good_then; [solve_calm | done|]. intros cs4 s4 _ G4.
  apply wp_bind, wp_get. apply good_then; [solve_calm | done|]. intros cs5 s5 _ G5.
  apply good_then; [|done|].
  { apply stable_forM; [typeclasses eauto|]. intros c.
    apply calm_assign; intros; apply demoteMaster_same. }
  intros [] s6 _ G6. apply wp_bind, wp_range_interfaces. intros cs7 s7 Hcs Hs7.
  assert (interfaces s7 = interfaces s6) as Ei by (by destruct Hs7 as (? & -> & _)).
  eapply wp_mono; [apply reload_loop; [|by rewrite Ei]|by intros [] s8 [? _]].
  eapply good_calm; [apply emits_calm; eapply emits_mono; [|exact Hs7]; ev_tac | done].
Qed.
Lemma Reload_sound s : good None s → wp Reload (λ _ s', sound s') s.
Proof. intros G. wp_use Reload_registered; [done|]. by intros [] s' []. Qed.
End ReloadSpec.

(** ** Link events *)

Section LinkSpec.
Context `{KN : Kernel} `{!KernelOk KN}.

Lemma keeps_frame_cfg {A} (m : M A) : stable frame m → keeps same_cfg m.
Proof. intros Hm. apply stable_keeps. eapply stable_mono; [exact Hm | apply frame_same_cfg]. Qed.

(** Rewriting the link state of an interface without sockets. *)
Lemma sound_relink p f s :
  good None s → (∀ q, q ≠ p → serves s q) → (∀ v, own s p v = None) →
  (∀ i v, svc_sock (f i) v = svc_sock i v) → (∀ i, Name (f i) = Name i) →
  let s' := set_heap (<[p := f (heap s !!! p)]> (heap s)) s in
  good None s' ∧ (∀ q, q ≠ p → serves s' q) ∧ (∀ v, own s' p v = None).
Proof.
  intros G S O Hf Hn s'. pose proof (calm_assign p f Hf Hn s) as C. unfold wp in C. cbn in C.
  fold s' in C. split_and!.
  - by eapply good_calm.
  - intros q Hq. eapply (serves_same s); [apply C | |by apply S].
    cbn [s' set_heap heap]. by rewrite lookup_total_assign, decide_False.
  - intros v. by rewrite (ca_own _ _ C).
Qed.

(** Everything off and forgotten, before an interface is rebound. *)
Lemma relink_off {A} p (k : M A) Q s :
  sound s → known None s p →
  (∀ s', good None s' → known None s' p → (∀ q, q ≠ p → serves s' q) → (∀ v, own s' p v = None) →
     wp k Q s') →
  wp (disableServices p ;; clearMirroredState p ;; k) Q s.
Proof.
  intros [G S] K HQ. apply wp_bind. wp_use (disableServices_off None p); [done..|].
  intros [] s1 (G1 & R1 & F1 & O1). apply wp_bind. wp_use clearMirroredState_frame.
  intros [] s2 F2. pose proof (frame_calm _ _ F2) as C2. apply HQ.
  - by eapply good_calm.
  - eapply known_reg; [by apply calm_same_reg|]. by eapply known_reg.
  - intros q Hq. apply (serves_same s1); [apply C2 | apply (frame_same_cfg _ _ F2) |].
    apply (serves_same s); [intros v; by rewrite O1, decide_False | apply F1 | apply S].
  - intros v. by rewrite (ca_own _ _ C2), O1, decide_True.
Qed.

Lemma sound_reload p s :
  good None s → known None s p → (∀ q, q ≠ p → serves s q) →
  wp (reloadServices p) (λ _ s', sound s') s.
Proof.
  intros G K S. wp_use (reloadServices_spec None p); [done..|].
  intros [] s' (G' & R & F & Sp & O). split; [done|]. intros q.
  destruct (decide (q = p)) as [->|Hq]; [done|].
  apply (serves_same s); [intros v; by apply O | apply F | by apply S].
Qed.

(** The three outcomes, from a sound state with [p] registered. *)
Lemma linkDeleted_sound p u s :
  sound s → known None s p → wp (linkDeleted p u) (λ _ s', sound s') s.
Proof.
  intros S K. unfold linkDeleted. apply wp_bind, wp_deref. case_match; [by apply wp_skip|].
  apply relink_off; [done..|]. intros s1 G1 K1 S1 O1. apply wp_assign.
  match goal with |- sound (set_heap (<[p := ?g]> _) _) =>
    destruct (sound_relink p (λ i, set_HaveLinkLocal false (set_cachedLLValid false
      (set_Addr6 [] (set_Running false (set_Ifindex 0 i))))) s1) as (G2 & S2 & O2) end;
    try done.
  split; [exact G2|]. intros q. destruct (decide (q = p)) as [->|Hq]; [|by apply S2].
  by apply serves_off.
Qed.

Lemma refresh_then {A} p (k : M A) Q s :
  good None s → known None s p → (∀ q, q ≠ p → serves s q) →
  (∀ s', good None s' → known None s' p → (∀ q, q ≠ p → serves s' q) → wp k Q s') →
  wp (refreshInterfaceAddresses p ;; k) Q s.
Proof.
  intros G K S HQ. apply wp_bind. wp_use refreshInterfaceAddresses_frame. intros [] s1 F.
  pose proof (frame_calm _ _ F) as C. apply HQ.
  - by eapply good_calm.
  - eapply known_reg; [by apply calm_same_reg | done].
  - intros q Hq. apply (serves_same s); [apply C | apply (frame_same_cfg _ _ F) | by apply S].
Qed.

Lemma handleLinkEvent_sound u s : sound s → wp (handleLinkEvent u) (λ _ s', sound s') s.
Proof.
  intros S. unfold handleLinkEvent. apply wp_bind, wp_find_interface.
  2: { intros s1 H1 _. apply wp_skip. eapply sound_frame; [|exact S].
       apply emits_frame. eapply emits_mono; [|exact H1]. ev_tac. }
  intros n p s1 H1 Hn _.
  assert (frame s s1) as F by (apply emits_frame; eapply emits_mono; [|exact H1]; ev_tac).
  pose proof (sound_frame _ _ F S) as S1.
  assert (known None s1 p) as K1.
  { rewrite <- (fr_interfaces _ _ F) in Hn. eapply registered_known; [apply S1 | exact Hn]. }
  case_match; [by apply linkDeleted_sound|]. apply wp_bind, wp_deref.
  set (running := has_bits (lu_Flags u) unix.IFF_RUNNING).
  destruct (Ifindex (heap s1 !!! p) =? lu_Index u).
  - apply wp_bind, wp_assign. set (s2 := set_heap _ s1). destruct S1 as [G1 S1].
    pose proof (calm_assign p (set_Running running) ltac:(by intros ? []) ltac:(done) s1) as C.
    unfold wp in C. cbn in C. fold s2 in C.
    assert (good None s2) as G2 by (by eapply good_calm).
    assert (known None s2 p) as K2 by (eapply known_reg; [by apply calm_same_reg | done]).
    assert (∀ q, q ≠ p → serves s2 q) as S2.
    { intros q Hq. apply (serves_same s1); [apply C | | apply S1].
      cbn. by rewrite lookup_total_assign, decide_False. }
    destruct (decide (Running (heap s1 !!! p) = running)) as [ER|ER].
    + rewrite bool_decide_eq_false_2 by (by intros ?). apply wp_skip. split; [done|].
      intros q. destruct (decide (q = p)) as [->|Hq]; [|by apply S2].
      apply (serves_same s1); [apply C | | apply S1].
      cbn. rewrite lookup_total_assign, decide_True by done. unfold cfg. cbn. by rewrite ER.
    + rewrite bool_decide_eq_true_2 by done. destruct running; cbn [when].
      * apply refresh_then; [done..|]. intros s3 G3 K3 S3. by apply sound_reload.
      * apply wp_bind, wp_skip. by apply sound_reload.
  - apply relink_off; [done..|]. intros s2 G2 K2 S2 O2. apply wp_bind, wp_assign.
    destruct (sound_relink p (λ i, set_Running running (set_Ifindex (lu_Index u) i)) s2)
      as (G3 & S3 & O3); try done.
    apply refresh_then; [done | | done |].
    + eapply known_reg; [|exact K2]. apply calm_same_reg.
      pose proof (calm_assign p (λ i, set_Running running (set_Ifindex (lu_Index u) i))
        ltac:(by intros ? []) ltac:(done) s2) as C. exact C.
    + intros s4 G4 K4 S4. by apply sound_reload.
Qed.
End LinkSpec.
