(* ===== verification/Timers.v ===== *)
(** * Timers

    The functions handed to [time.AfterFunc] that are still to run, whether
    their timer is running or their closure sits in the engine's queue: the
    debounced reconciliation ([netlink.go]), the start-up solicitations of each
    interface ([router.go]) and the periodic sweep. *)
From S2P Require Import Prelude Netip World Hoare Log Iface RawSock Sim Mirror Dhcpv6 Router Ndp Config Netlink Frame Resources Lifecycle Kept Reload.

Definition count (f : timer_fn) (l : list timer_fn) : nat := length (filter (λ g, g = f) l).
Lemma count_app f l k : count f (l ++ k) = (count f l + count f k)%nat.
Proof. unfold count. by rewrite filter_app, length_app. Qed.
Lemma count_cons f g l : count f (g :: l) = ((if decide (g = f) then 1 else 0) + count f l)%nat.
Proof. unfold count. rewrite filter_cons. by case_decide. Qed.
#[export] Instance count_perm f : Proper ((≡ₚ) ==> eq) (count f).
Proof. intros l k H. unfold count. by rewrite H. Qed.
Lemma count_in f l : (0 < count f l)%nat ↔ f ∈ l.
Proof.
  induction l as [|g l IH]; [cbn; split; [lia | by intros ?%elem_of_nil]|].
  rewrite count_cons, elem_of_cons. case_decide as H; [subst; split; [by left | lia]|].
  rewrite <- IH. split; [by right|]. by intros [->|].
Qed.

(** What is still to run; [q]: the closures in the queue. *)
Definition pending (s : St) (q : list timer_fn) : list timer_fn := (t_fn <$> timers s) ++ q.

Record TimInv (q : list timer_fn) (s : St) : Prop := mkTimInv {
  ti_reconcile : count FnReconcile (pending s q) = if reconcileScheduled s then 1%nat else 0%nat;
  ti_sweep : count FnSweepTick (pending s q) = 1%nat;
  ti_gen p g : FnSolicit p g ∈ pending s q → (p < next s)%positive ∧ g ≤ rsTimerN (heap s !!! p);
  ti_one p : (count (FnSolicit p (rsTimerN (heap s !!! p))) (pending s q) ≤ 1)%nat;
  ti_sent p : 0 ≤ raSent (heap s !!! p) ≤ maxRtrSolicitations ∧
    (FnSolicit p (rsTimerN (heap s !!! p)) ∈ pending s q → raSent (heap s !!! p) < maxRtrSolicitations);
  ti_ids x : x ∈ timers s → (t_id x < next s)%positive;
  ti_rs p t : rsTimer (heap s !!! p) = Some t → (t < next s)%positive ∧
    ∀ x, x ∈ timers s → t_id x = t → ∃ q g, t_fn x = FnSolicit q g;
  ti_ifaces n p : interfaces s !! n = Some p → (p < next s)%positive
}.

(** ** Closure *)

Definition clocks (i : Interface) := (raSent i, rsTimer i, rsTimerN i).

(** Nothing about timers changes. *)
Record tim_same (s s' : St) : Prop := mkTimSame {
  ts_clocks p : clocks (heap s' !!! p) = clocks (heap s !!! p);
  ts_timers : timers s' = timers s;
  ts_scheduled : reconcileScheduled s' = reconcileScheduled s;
  ts_next : (next s <= next s')%positive;
  ts_ifaces n p : interfaces s' !! n = Some p → interfaces s !! n = Some p
}.
Lemma ts_clock s s' p : tim_same s s' →
  raSent (heap s' !!! p) = raSent (heap s !!! p) ∧ rsTimer (heap s' !!! p) = rsTimer (heap s !!! p) ∧
  rsTimerN (heap s' !!! p) = rsTimerN (heap s !!! p).
Proof. intros H. pose proof (ts_clocks _ _ H p) as C. unfold clocks in C. by injection C. Qed.

Lemma TimInv_same q s s' : tim_same s s' → TimInv q s → TimInv q s'.
Proof.
  intros T [A B C D E F G H]. pose proof (ts_next _ _ T) as HN.
  assert (pending s' q = pending s q) as P by (unfold pending; by rewrite (ts_timers _ _ T)).
  split; rewrite ?P, ?(ts_scheduled _ _ T), ?(ts_timers _ _ T); try done.
  - intros p g Hg. destruct (ts_clock _ _ p T) as (_ & _ & ->). destruct (C p g Hg). split; [lia|done].
  - intros p. destruct (ts_clock _ _ p T) as (_ & _ & ->). apply D.
  - intros p. destruct (ts_clock _ _ p T) as (-> & _ & ->). apply E.
  - intros x Hx. specialize (F x Hx). lia.
  - intros p t. destruct (ts_clock _ _ p T) as (_ & -> & _). intros Ht. destruct (G p t Ht).
    split; [lia | done].
  - intros n p Hn%(ts_ifaces _ _ T)%H. lia.
Qed.
Lemma frame_tim_same s s' : frame s s' → tim_same s s'.
Proof.
  intros F. split; [|apply F|apply F|by rewrite (fr_next _ _ F)|by rewrite (fr_interfaces _ _ F)].
  intros p. pose proof (fr_core _ _ F p) as C. unfold core in C. unfold clocks. congruence.
Qed.

(** A closure fired or queued: only the split between timers and queue moves. *)
Lemma TimInv_perm q q' s s' :
  pending s' q' ≡ₚ pending s q → heap s' = heap s → interfaces s' = interfaces s →
  reconcileScheduled s' = reconcileScheduled s → (next s <= next s')%positive →
  (∀ x, x ∈ timers s' → x ∈ timers s ∨ (next s <= t_id x < next s')%positive) →
  TimInv q s → TimInv q' s'.
Proof.
  intros P Hh Hi Hr HN Ht [A B C D E F G H].
  split; rewrite ?Hh, ?Hi, ?Hr.
  - by rewrite P.
  - by rewrite P.
  - intros p g. rewrite P. intros Hg. destruct (C p g Hg). split; [lia|done].
  - intros p. rewrite P. apply D.
  - intros p. rewrite P. apply E.
  - intros x [Hx%F|Hx]%Ht; lia.
  - intros p t Hp. destruct (G p t Hp) as [G1 G2]. split; [lia|].
    intros x [Hx|Hx]%Ht Hid; [by apply (G2 x)|]. lia.
  - intros n p Hn%H. lia.
Qed.

(** The handlers preserve it whatever is queued; those of one interface, when
    its address has been allocated. *)
Notation tim_ok := (keeps_inv TimInv).
Notation tim_ok_at := (keeps_inv_at TimInv).
Lemma tim_same_ok s s' : tim_same s s' → tim_ok s s'.
Proof. intros T. split; [apply T|]. intros q. by apply TimInv_same. Qed.
Lemma keeps_tim_frame {A} (m : M A) : stable frame m → keeps tim_ok m.
Proof.
  intros Hm. apply stable_keeps. eapply stable_mono; [exact Hm|]. intros s s' F.
  by apply tim_same_ok, frame_tim_same.
Qed.

(** ** Elementary steps *)

Lemma keeps_tim_assign p f : (∀ i, clocks (f i) = clocks i) → keeps tim_ok (assign p f).
Proof.
  intros Hf. apply keeps_modify. intros s. apply tim_same_ok. split; try done.
  intros q. cbn [heap set_heap]. rewrite lookup_total_assign. by case_decide; subst.
Qed.
Lemma keeps_tim_modify f :
  (∀ s, heap (f s) = heap s ∧ timers (f s) = timers s ∧ reconcileScheduled (f s) = reconcileScheduled s ∧
        next (f s) = next s ∧ interfaces (f s) = interfaces s) → keeps tim_ok (modify f).
Proof.
  intros Hf. apply keeps_modify. intros s. destruct (Hf s) as (H1 & H2 & H3 & H4 & H5).
  apply tim_same_ok. split; rewrite ?H1, ?H2, ?H3, ?H4, ?H5; done || lia.
Qed.
Lemma keeps_tim_sys {A} (ans : list event → A) ev : keeps tim_ok (sys ans ev).
Proof. intros s. apply tim_same_ok. split; try done; cbn; lia. Qed.
Lemma keeps_tim_alloc : keeps tim_ok alloc.
Proof. intros s. apply tim_same_ok. split; try done; cbn; lia. Qed.

(** Another sending counter or no timer at all. *)
Lemma TimInv_raSent q s p f :
  (∀ i, rsTimer (f i) = rsTimer i ∧ rsTimerN (f i) = rsTimerN i ∧ raSent (f i) = 0) →
  TimInv q s → TimInv q (set_heap (<[p := f (heap s !!! p)]> (heap s)) s).
Proof.
  intros Hf [A B C D E F G H]. set (s' := set_heap _ s).
  assert (∀ r : loc, rsTimer (heap s' !!! r) = rsTimer (heap s !!! r) ∧
    rsTimerN (heap s' !!! r) = rsTimerN (heap s !!! r) ∧
    (raSent (heap s' !!! r) = raSent (heap s !!! r) ∨ raSent (heap s' !!! r) = 0)) as Hh.
  { intros r. unfold s'. cbn [heap set_heap]. rewrite lookup_total_assign.
    destruct (Hf (heap s !!! p)) as (? & ? & ?). case_decide; [subst|]; auto. }
  split; try done.
  - intros r g Hg. destruct (Hh r) as (_ & -> & _). by apply C.
  - intros r. destruct (Hh r) as (_ & -> & _). by apply D.
  - intros r. destruct (Hh r) as (_ & -> & [->| ->]); [by apply E|]. by split; [|intros _].
  - intros r t. destruct (Hh r) as (-> & _ & _). apply G.
Qed.

(** ** Solicitation timers *)

(** The solicitation of [p] now due, taken out of the queue: no other one of
    its generation is left. *)
Lemma TimInv_taken q s p g :
  TimInv (FnSolicit p g :: q) s →
  TimInv q s ∧ (p < next s)%positive ∧ g ≤ rsTimerN (heap s !!! p) ∧
  (g = rsTimerN (heap s !!! p) →
     FnSolicit p g ∉ pending s q ∧ raSent (heap s !!! p) < maxRtrSolicitations).
Proof.
  intros [A B C D E F G H].
  assert (pending s (FnSolicit p g :: q) ≡ₚ FnSolicit p g :: pending s q) as P
    by (unfold pending; by rewrite Permutation_middle).
  assert (∀ f, f ∈ pending s q → f ∈ pending s (FnSolicit p g :: q)) as Hsub
    by (intros f Hf; rewrite P; by apply elem_of_cons; right).
  assert (FnSolicit p g ∈ pending s (FnSolicit p g :: q)) as Hin by (rewrite P; apply elem_of_cons; by left).
  destruct (C p g Hin) as [C1 C2]. split_and!; [|done|done|].
  - split; try done; [by rewrite P, count_cons in A | by rewrite P, count_cons in B | | |].
    + intros r k Hk. by apply C, Hsub.
    + intros r. specialize (D r). rewrite P, count_cons in D. lia.
    + intros r. destruct (E r) as [E1 E2]. split; [done|]. intros Hk. by apply E2, Hsub.
  - intros ->. split; [|by apply E]. specialize (D p). rewrite P, count_cons, decide_True in D by done.
    rewrite <- count_in. lia.
Qed.

(** The state after [armSolicit]. *)
Definition armed (p : loc) (d g : Z) (s : St) : St :=
  set_heap (<[p := set_rsTimer (Some (next s)) (heap s !!! p)]> (heap s))
    (set_timers (timers s ++ [mkTimer (next s) d (FnSolicit p g)]) (set_next (Pos.succ (next s)) s)).
Lemma armSolicit_armed p d g s : armSolicit p d g s = Ok (tt, armed p d g s).
Proof. done. Qed.

Lemma TimInv_armed q s p d g :
  TimInv q s → (p < next s)%positive → g = rsTimerN (heap s !!! p) →
  FnSolicit p g ∉ pending s q → raSent (heap s !!! p) < maxRtrSolicitations → TimInv q (armed p d g s).
Proof.
  intros [A B C D E F G H] Hp -> Hn Hs. set (g := rsTimerN _) in *. set (s' := armed p d g s).
  assert (pending s' q ≡ₚ FnSolicit p g :: pending s q) as P.
  { unfold pending. cbn [timers s' armed set_heap set_timers]. rewrite fmap_app, <- (assoc_L (++)).
    cbn [fmap list_fmap t_fn app]. by rewrite Permutation_middle. }
  assert (∀ r : loc, raSent (heap s' !!! r) = raSent (heap s !!! r) ∧
    rsTimerN (heap s' !!! r) = rsTimerN (heap s !!! r) ∧
    rsTimer (heap s' !!! r) = if decide (p = r) then Some (next s) else rsTimer (heap s !!! r)) as Hh.
  { intros r. cbn [heap s' armed set_heap]. rewrite lookup_total_assign. by repeat case_decide; subst. }
  split; [by rewrite P, count_cons | by rewrite P, count_cons | | | | | |].
  - intros r k. rewrite P. destruct (Hh r) as (_ & -> & _).
    intros [[= -> ->]|Hk]%elem_of_cons; [by split; [cbn; lia|]|].
    destruct (C r k Hk). split; [cbn; lia | done].
  - intros r. destruct (Hh r) as (_ & -> & _). rewrite P, count_cons. case_decide as Hr; [|apply D].
    rewrite <- Hr. rewrite <- count_in in Hn. lia.
  - intros r. destruct (Hh r) as (-> & -> & _). destruct (E r) as [E1 E2]. split; [done|].
    rewrite P. intros [[= -> _]|Hk]%elem_of_cons; [done | by apply E2].
  - intros x. cbn [timers s' armed set_heap set_timers next set_next].
    intros [Hx|Hx]%elem_of_app; [specialize (F x Hx); lia|].
    apply list_elem_of_singleton in Hx as ->. cbn. lia.
  - intros r t. destruct (Hh r) as (_ & _ & ->).
    cbn [timers s' armed set_heap set_timers next set_next]. case_decide as Hr.
    + intros [= <-]. split; [lia|]. intros x [Hx|Hx]%elem_of_app Hid; [specialize (F x Hx); lia|].
      apply list_elem_of_singleton in Hx as ->. by exists p, g.
    + intros Ht. destruct (G r t Ht) as [G1 G2]. split; [lia|].
      intros x [Hx|Hx]%elem_of_app Hid; [by apply (G2 x)|].
      apply list_elem_of_singleton in Hx as ->. cbn in Hid. lia.
  - intros n r Hr. specialize (H n r Hr). cbn. lia.
Qed.

(** The timer of [p] stopped: it can only have been a solicitation. *)
Lemma TimInv_stopped q s p t :
  TimInv q s → rsTimer (heap s !!! p) = Some t →
  TimInv q (set_timers (filter (λ x, t_id x ≠ t) (timers s)) s).
Proof.
  intros [A B C D E F G H] Ht. set (s' := set_timers _ s). destruct (G p t Ht) as [_ Gt].
  assert (∀ f, (count f (pending s' q) ≤ count f (pending s q))%nat ∧
    ((∀ r g, f ≠ FnSolicit r g) → count f (pending s' q) = count f (pending s q))) as Hc.
  { intros f. unfold pending. rewrite !count_app. cbn [timers s' set_timers]. revert Gt.
    generalize (timers s). induction l as [|x l IH]; intros Gt; [done|].
    destruct IH as [IH1 IH2]; [intros y Hy; apply Gt; by apply elem_of_cons; right|].
    rewrite filter_cons. cbn [fmap list_fmap]. case_decide as Hx; cbn [fmap list_fmap].
    - rewrite !count_cons. split; [lia|]. intros Hf. specialize (IH2 Hf). lia.
    - rewrite count_cons. split; [lia|]. intros Hf. rewrite decide_False; [auto|].
      destruct (Gt x) as (r & g & Hg); [by left | by destruct (decide (t_id x = t))|].
      rewrite Hg. intros Heq. by apply (Hf r g). }
  assert (∀ f, f ∈ pending s' q → f ∈ pending s q) as Hsub
    by (intros f; rewrite <- !count_in; destruct (Hc f); lia).
  split; try done.
  - rewrite (proj2 (Hc _)); done.
  - rewrite (proj2 (Hc _)); done.
  - intros r g Hg. by apply C, Hsub.
  - intros r. change (heap s' !!! r) with (heap s !!! r). specialize (D r). destruct (Hc (FnSolicit r (rsTimerN (heap s !!! r)))). lia.
  - intros r. destruct (E r) as [E1 E2]. split; [done|]. intros Hg. by apply E2, Hsub.
  - intros x [_ Hx]%list_elem_of_filter. by apply F.
  - intros r t' Hr. destruct (G r t' Hr) as [G1 G2]. split; [done|].
    intros x [_ Hx]%list_elem_of_filter. by apply G2.
Qed.
Lemma TimInv_forget q s p : TimInv q s →
  TimInv q (set_heap (<[p := set_rsTimer None (heap s !!! p)]> (heap s)) s).
Proof.
  intros [A B C D E F G H]. set (s' := set_heap _ s).
  assert (∀ r : loc, raSent (heap s' !!! r) = raSent (heap s !!! r) ∧
    rsTimerN (heap s' !!! r) = rsTimerN (heap s !!! r) ∧
    (rsTimer (heap s' !!! r) = None ∨ rsTimer (heap s' !!! r) = rsTimer (heap s !!! r))) as Hh.
  { intros r. cbn [heap s' set_heap]. rewrite lookup_total_assign. case_decide; subst; auto. }
  split; try done.
  - intros r g. destruct (Hh r) as (_ & -> & _). apply C.
  - intros r. destruct (Hh r) as (_ & -> & _). apply D.
  - intros r. destruct (Hh r) as (-> & -> & _). apply E.
  - intros r t. destruct (Hh r) as (_ & _ & [->| ->]); [done | apply G].
Qed.

(** A new generation: the old solicitations are void. *)
Lemma TimInv_bump q s p : TimInv q s →
  let s' := set_heap (<[p := set_rsTimerN (rsTimerN (heap s !!! p) + 1) (heap s !!! p)]> (heap s)) s in
  TimInv q s' ∧ FnSolicit p (rsTimerN (heap s' !!! p)) ∉ pending s' q.
Proof.
  intros [A B C D E F G H] s'.
  assert (∀ r : loc, raSent (heap s' !!! r) = raSent (heap s !!! r) ∧
    rsTimer (heap s' !!! r) = rsTimer (heap s !!! r) ∧
    rsTimerN (heap s' !!! r) = if decide (p = r) then rsTimerN (heap s !!! r) + 1
                               else rsTimerN (heap s !!! r)) as Hh.
  { intros r. cbn [heap s' set_heap]. rewrite lookup_total_assign. by repeat case_decide; subst. }
  assert (∀ r, p = r → FnSolicit r (rsTimerN (heap s !!! r) + 1) ∉ pending s q) as Hnew.
  { intros r _ Hin. destruct (C _ _ Hin). lia. }
  split; [split; try done|].
  - intros r g Hg. destruct (Hh r) as (_ & _ & ->). destruct (C r g Hg). split; [done|].
    case_decide; lia.
  - intros r. destruct (Hh r) as (_ & _ & ->). case_decide as Hr; [|apply D].
    specialize (Hnew r Hr). rewrite <- count_in in Hnew. change (pending s' q) with (pending s q). lia.
  - intros r. destruct (Hh r) as (-> & _ & ->). split; [apply E|].
    case_decide as Hr; [intros Hin; by destruct (Hnew r Hr) | apply E].
  - intros r t. destruct (Hh r) as (_ & -> & _). apply G.
  - destruct (Hh p) as (_ & _ & ->). rewrite decide_True by done. by apply Hnew.
Qed.

(** ** The operations *)

Ltac solve_tim := solve_keeps_with ltac:(
  idtac; lazymatch goal with
  | |- keeps tim_ok (closeChan _) => apply keeps_closeChan; intros s0; apply tim_same_ok; split; done || (cbn; lia)
  | |- keeps tim_ok (assign _ _) => apply keeps_tim_assign; done
  | |- keeps tim_ok (modify _) => apply keeps_tim_modify; done
  | |- keeps tim_ok (sys _ _) => apply keeps_tim_sys
  | |- keeps tim_ok _ => solve [apply keeps_tim_frame; solve_frame]
  | |- keeps (tim_ok_at _) _ => solve [apply keeps_at; eauto with keeps nocore | apply keeps_at; apply keeps_tim_frame; solve_frame]
  end).

Section TimOps.
Context `{KN : Kernel} `{!KernelOk KN}.

Lemma keeps_tim_sys_err c : keeps tim_ok (sys_err c).
Proof. apply keeps_tim_sys. Qed.
Lemma keeps_tim_closeFD fd : keeps tim_ok (closeFD fd).
Proof. apply keeps_when; [typeclasses eauto | apply keeps_tim_sys]. Qed.
Lemma keeps_tim_spawn r : keeps tim_ok (spawn r).
Proof. by apply keeps_tim_modify. Qed.
Lemma drainSocket_tim fd : keeps tim_ok (drainSocket fd).
Proof.
  apply stable_keeps. eapply stable_mono; [apply drainSocket_stable|].
  intros s s' H. by apply tim_same_ok, frame_tim_same, emits_frame.
Qed.
#[local] Hint Resolve keeps_tim_sys keeps_tim_sys_err keeps_tim_closeFD keeps_tim_spawn keeps_tim_alloc
  drainSocket_tim : keeps.
Lemma tim_check fmt m k : keeps tim_ok m → keeps tim_ok k → keeps tim_ok (check fmt m k).
Proof. intros. unfold check. solve_tim. Qed.
Lemma tim_check_at p fmt m k : keeps tim_ok m → keeps (tim_ok_at p) k → keeps (tim_ok_at p) (check fmt m k).
Proof. intros. unfold check. apply keeps_bind; [typeclasses eauto | by apply keeps_at|]. solve_tim. Qed.
Lemma tim_closing fd b : keeps tim_ok b → keeps tim_ok (closing_on_error fd b).
Proof. intros. unfold closing_on_error. solve_tim. Qed.
Lemma tim_closing_at p fd b : keeps (tim_ok_at p) b → keeps (tim_ok_at p) (closing_on_error fd b).
Proof. intros. unfold closing_on_error. apply keeps_bind; [typeclasses eauto | done|]. solve_tim. Qed.
#[local] Hint Resolve tim_closing : keeps.

Lemma stopRsTimer_tim p : keeps tim_ok (stopRsTimer p).
Proof.
  unfold stopRsTimer. intros s. apply wlp_bind. change (wlp (match rsTimer (heap s !!! p) with
    | Some t => stopTimer t ;; assign p (set_rsTimer None) | None => skip end)
    (λ _ s', tim_ok s s') s).
  destruct (rsTimer (heap s !!! p)) as [t|] eqn:Et; [|change (tim_ok s s); reflexivity].
  split; [cbn; lia|]. intros q T.
  exact (TimInv_forget q _ p (TimInv_stopped q s p t T Et)).
Qed.
#[local] Hint Resolve stopRsTimer_tim : keeps.

Lemma dhcpv6Setup_tim p e : keeps tim_ok (dhcpv6Setup p e).
Proof.
  assert (∀ fd, keeps tim_ok (dhcpv6Configure p fd)).
  { intros fd. unfold dhcpv6Configure. apply keeps_bind; [typeclasses eauto | solve_tim|]. intros i.
    repeat (apply tim_check; [apply keeps_tim_sys|]). solve_tim. }
  unfold dhcpv6Setup, sys_socket. solve_tim.
Qed.
Lemma ndpSetup_tim p e : keeps tim_ok (ndpSetup p e).
Proof.
  assert (∀ g fd, keeps tim_ok (ndpConfigureCapture p g fd)).
  { intros g fd. unfold ndpConfigureCapture. apply keeps_bind; [typeclasses eauto | solve_tim|]. intros i.
    apply keeps_bind; [typeclasses eauto | solve_tim|]. intros [err|]; [solve_tim|].
    apply tim_check; [apply keeps_tim_sys|]. apply keeps_bind; [typeclasses eauto | solve_tim|].
    intros []. repeat (apply tim_check; [apply keeps_tim_sys|]). solve_tim. }
  assert (∀ fd, keeps tim_ok (ndpConfigurePing p fd)).
  { intros fd. unfold ndpConfigurePing. apply keeps_bind; [typeclasses eauto | solve_tim|]. intros i.
    repeat (apply tim_check; [apply keeps_tim_sys|]). unfold sys_socket. solve_tim. }
  unfold ndpSetup, sys_socket. solve_tim.
Qed.

(** The end of [routerSetup]: a new generation of at most one timer. *)
Lemma startRouter_tim p rs b :
  keeps (tim_ok_at p)
    (assign p (λ i, set_raSent 0 (set_router (Some rs) i)) ;;
     spawn (RouterReader rs) ;;
     when b (assign p (λ i, set_rsTimerN (rsTimerN i + 1) i) ;;
             i ← deref p; armSolicit p rtrFirstDelay (rsTimerN i)) ;;
     mret (@None goerr)).
Proof.
  intros s. set (s1 := set_readers (readers s ++ [RouterReader rs])
    (set_heap (<[p := set_raSent 0 (set_router (Some rs) (heap s !!! p))]> (heap s)) s)).
  assert (∀ q, TimInv q s → TimInv q s1) as H1.
  { intros q T. apply (TimInv_raSent q s p (λ i, set_raSent 0 (set_router (Some rs) i))) in T; [|done].
    eapply (TimInv_same q _ s1); [|exact T]. split; try done; cbn; lia. }
  assert (raSent (heap s1 !!! p) = 0) as H2 by (cbn; by rewrite lookup_total_assign, decide_True).
  destruct b; [|by split; [|intros _]].
  split; [cbn; lia|]. intros Hp q T. destruct (TimInv_bump q s1 p (H1 q T)) as [T2 Hn].
  apply (TimInv_armed q _ p rtrFirstDelay _ T2 Hp eq_refl Hn).
  cbn [heap set_heap]. rewrite lookup_total_assign, decide_True by done. cbn -[s1]. rewrite H2. done.
Qed.
Lemma routerSetup_tim p e : keeps (tim_ok_at p) (routerSetup p e).
Proof.
  assert (∀ fd, keeps (tim_ok_at p) (routerConfigure p fd)).
  { intros fd. unfold routerConfigure. apply keeps_bind; [typeclasses eauto | solve_tim|]. intros i.
    repeat (apply tim_check_at; [apply keeps_tim_sys|]).
    do 2 (apply keeps_bind; [typeclasses eauto | solve_tim | intros ?]). apply startRouter_tim. }
  unfold routerSetup, sys_socket. apply keeps_bind; [typeclasses eauto | solve_tim|]. intros i.
  apply keeps_bind; [typeclasses eauto | |].
  - apply keeps_at. solve_tim.
  - intros []. destruct (negb _); [apply keeps_at; solve_tim|].
    apply keeps_bind; [typeclasses eauto | solve_tim|]. intros [err|fd]; [apply keeps_at; solve_tim|].
    by apply tim_closing_at.
Qed.
#[local] Hint Resolve dhcpv6Setup_tim ndpSetup_tim routerSetup_tim : keeps.

End TimOps.

(** ** The family of invariants, whatever is queued *)

Section TimHandlers.
Context `{KN : Kernel} `{!KernelOk KN}.

Lemma findOrCreateInterface_tim n q s :
  TimInv q s → wlp (findOrCreateInterface n) (λ p s', TimInv q s' ∧ (p < next s')%positive) s.
Proof.
  intros T. apply wp_to_wlp. unfold findOrCreateInterface. apply wp_bind, wp_get.
  destruct (interfaces s !! n) as [p|] eqn:En.
  { apply wp_ret. split; [done|]. by eapply (ti_ifaces _ _ T). }
  apply wp_bind, wp_alloc, wp_bind, wp_assign, wp_bind, wp_assign, wp_bind, wp_modify, wp_ret.
  cbn [heap set_heap set_interfaces set_next interfaces next]. rewrite insert_insert_eq.
  match goal with |- context [set_heap (<[_ := ?i0]> _)] => set (i := i0) end.
  assert (clocks i = (0, None, 0)) as Hi by (unfold i; by rewrite lookup_total_insert_eq).
  clearbody i. unfold clocks in Hi. injection Hi as Hi1 Hi2 Hi3. destruct T as [A B C D E F G H].
  assert (∀ g, FnSolicit (next s) g ∉ pending s q) as Hfresh by (intros g [Hl _]%C; lia).
  set (s' := set_interfaces _ _). split; [|cbn; lia].
  assert (∀ r : loc, heap s' !!! r = if decide (next s = r) then i else heap s !!! r) as Hh
    by (intros r; apply lookup_total_assign).
  split; try done.
  - intros r g Hg. destruct (C r g Hg). rewrite Hh, decide_False by (intros <-; lia).
    split; [cbn; lia | done].
  - intros r. rewrite Hh. change (pending s' q) with (pending s q). case_decide as Hr; [|apply D].
    subst r. specialize (Hfresh (rsTimerN i)). rewrite <- count_in in Hfresh. lia.
  - intros r. rewrite Hh. case_decide as Hr; [|apply E]. subst r. rewrite Hi1. split; [done|].
    intros Hin. by apply Hfresh in Hin.
  - intros x Hx%F. cbn. lia.
  - intros r t. rewrite Hh. case_decide as Hr; [by rewrite Hi2|].
    intros Ht. destruct (G r t Ht). split; [cbn; lia | done].
  - intros m r. cbn. intros [[_ <-]|[_ Hm%H]]%lookup_insert_Some; lia.
Qed.

#[export] Instance TimInv_kept : Kept TimInv.
Proof.
  split.
  - intros q s n p T. apply (ti_ifaces _ _ T).
  - intros q s s' F. by apply TimInv_same, frame_tim_same.
  - intros p f Hf. apply keeps_tim_assign. intros i. specialize (Hf i). unfold svc_part in Hf.
    unfold clocks. congruence.
  - intros n. apply keeps_modify. intros s. apply tim_same_ok. split; try done.
    intros m q. cbn. by intros [_ ?]%lookup_delete_Some.
  - apply findOrCreateInterface_tim.
  - intros [] p e; cbn [setup]; [apply routerSetup_tim | apply keeps_at, dhcpv6Setup_tim |
      apply keeps_at, ndpSetup_tim].
  - apply stopRsTimer_tim.
Qed.
End TimHandlers.

(** ** The closures of the timers *)

Section TimFire.
Context `{KN : Kernel} `{!KernelOk KN}.

Lemma getLinkLocalAddr_tim p : keeps tim_ok (getLinkLocalAddr p).
Proof. apply keeps_tim_frame, getLinkLocalAddr_frame. Qed.

(** What stays true of [p] while its solicitation is being sent. *)
Record sending (q : list timer_fn) (p : loc) (g : Z) (s : St) : Prop := mkSending {
  se_inv : TimInv q s;
  se_next : (p < next s)%positive;
  se_gen : g = rsTimerN (heap s !!! p);
  se_none : FnSolicit p g ∉ pending s q;
  se_sent : raSent (heap s !!! p) < maxRtrSolicitations
}.
Lemma sending_same q p g s s' : tim_same s s' → sending q p g s → sending q p g s'.
Proof.
  intros TS [A B C D E]. destruct (ts_clock _ _ p TS) as (H1 & _ & H3). pose proof (ts_next _ _ TS).
  split; [by eapply TimInv_same | lia | by rewrite H3 | | by rewrite H1].
  unfold pending. by rewrite (ts_timers _ _ TS).
Qed.
Lemma sending_rearm q p g d s : sending q p g s → wlp (armSolicit p d g) (λ _ s', TimInv q s') s.
Proof.
  intros [A B C D E]. unfold wlp. rewrite armSolicit_armed. by apply TimInv_armed.
Qed.

Lemma solicitTimerFire_tim q p g s :
  TimInv (FnSolicit p g :: q) s → wlp (solicitTimerFire p g) (λ _ s', TimInv q s') s.
Proof.
  intros T. destruct (TimInv_taken q s p g T) as (T1 & Hp & _ & Hone).
  unfold solicitTimerFire. apply wp_to_wlp, wp_bind, wp_deref.
  destruct (Z.eqb_spec (rsTimerN (heap s !!! p)) g) as [Hg|Hg]; cbn [negb orb]; [|by apply wp_skip].
  symmetry in Hg. destruct (Hone Hg) as [Hn Hs].
  assert (sending q p g s) as S by (by split). clear Hone T T1 Hp Hg Hn Hs.
  destruct (_ || _); [exact (se_inv _ _ _ _ S)|].
  assert (∀ {A} (m : M A) (f : A → M unit) s, stable frame m → sending q p g s →
    (∀ a s', sending q p g s' → wp (f a) (λ _ s', TimInv q s') s') →
    wp (m ≫= f) (λ _ s', TimInv q s') s) as Hstep.
  { intros A m f s1 Hm S1 Hf. apply wp_bind. wp_use Hm. intros a s2 F. apply Hf.
    by eapply sending_same; [apply frame_tim_same|]. }
  assert (∀ d s, sending q p g s → wp (armSolicit p d g) (λ _ s', TimInv q s') s) as Harm.
  { intros d s1 S1. pose proof (sending_rearm q p g d s1 S1) as H. unfold wlp in H. unfold wp.
    by rewrite armSolicit_armed in *. }
  apply Hstep; [apply getLinkLocalAddr_frame | done|]. intros [a|] s1 S1; [|by apply Harm].
  apply Hstep; [solve_frame | done|]. intros sent s2 S2.
  destruct sent; cbn [negb]; [|by apply Harm].
  apply wp_bind, wp_assign. set (s3 := set_heap _ s2). apply wp_bind, wp_deref.
  assert (TimInv q s3 ∧ rsTimerN (heap s3 !!! p) = g ∧
    raSent (heap s3 !!! p) = raSent (heap s2 !!! p) + 1) as (T3 & N3 & R3).
  { destruct S2 as [[A B C D E F G H] Hp Hg Hn Hs].
    assert (∀ r : loc, rsTimer (heap s3 !!! r) = rsTimer (heap s2 !!! r) ∧
      rsTimerN (heap s3 !!! r) = rsTimerN (heap s2 !!! r) ∧
      raSent (heap s3 !!! r) = raSent (heap s2 !!! r) + (if decide (p = r) then 1 else 0)) as Hh.
    { intros r. cbn [heap s3 set_heap]. rewrite lookup_total_assign. repeat case_decide; subst; try done.
      split_and!; [done | done | lia]. }
    split_and!; [|by destruct (Hh p) as (_ & -> & _)|destruct (Hh p) as (_ & _ & ->);
      by rewrite decide_True].
    split; try done.
    - intros r k. destruct (Hh r) as (_ & -> & _). apply C.
    - intros r. destruct (Hh r) as (_ & -> & _). apply D.
    - intros r. destruct (Hh r) as (_ & -> & ->). destruct (E r) as [E1 E2]. case_decide as Hr.
      + subst r. rewrite <- Hg in *. split; [lia|]. intros Hin. by destruct Hn.
      + rewrite Z.add_0_r. by split.
    - intros r t. destruct (Hh r) as (-> & _ & _). apply G. }
  destruct (Z.ltb_spec (raSent (heap s3 !!! p)) maxRtrSolicitations) as [Hlt|Hge]; cbn [when];
    [|by apply wp_skip].
  apply Harm. destruct S2 as [A B C D E]. by split.
Qed.

(** ** Reconciliation *)

Lemma scheduleReconcile_tim q s : TimInv q s → wp scheduleReconcile (λ _ s', TimInv q s') s.
Proof.
  intros T. unfold scheduleReconcile. apply wp_bind, wp_get.
  destruct (reconcileScheduled s) eqn:Es; [by apply wp_skip|].
  apply wp_bind, wp_modify. set (s' := set_timers
    (timers s ++ [mkTimer (next s) reconcileDebounce FnReconcile])
    (set_next (Pos.succ (next s)) (set_reconcileScheduled true s))).
  cut (TimInv q s'); [done|]. destruct T as [A B C D E F G H].
  assert (pending s' q ≡ₚ FnReconcile :: pending s q) as P.
  { unfold pending. cbn [timers s' set_timers]. rewrite fmap_app, <- (assoc_L (++)).
    cbn [fmap list_fmap t_fn app]. by rewrite Permutation_middle. }
  split.
  - rewrite P, count_cons, decide_True by done. rewrite Es in A. cbn. by rewrite A.
  - by rewrite P, count_cons.
  - intros p g. rewrite P. intros [|Hg]%elem_of_cons; [done|]. destruct (C p g Hg).
    split; [cbn; lia | done].
  - intros p. rewrite P, count_cons. apply D.
  - intros p. destruct (E p) as [E1 E2]. split; [done|]. rewrite P.
    intros [|Hg]%elem_of_cons; [done|]. by apply E2.
  - intros x. cbn. intros [Hx%F|Hx]%elem_of_app; [lia|].
    apply list_elem_of_singleton in Hx as ->. cbn. lia.
  - intros p t Ht. destruct (G p t Ht) as [G1 G2]. split; [cbn; lia|]. cbn.
    intros x [Hx|Hx]%elem_of_app Hid; [by apply G2|].
    apply list_elem_of_singleton in Hx as ->. cbn in Hid. lia.
  - intros n p Hn%H. cbn. lia.
Qed.

Lemma reconcileFire_tim q s : TimInv (FnReconcile :: q) s → wp reconcileFire (λ _ s', TimInv q s') s.
Proof.
  intros T. unfold reconcileFire. apply wp_bind, wp_modify.
  wp_use reconcileKernelState_frame. intros [] s2 F2. eapply TimInv_same; [by apply frame_tim_same|].
  clear F2. destruct T as [A B C D E F G H].
  assert (pending s (FnReconcile :: q) ≡ₚ FnReconcile :: pending s q) as P
    by (unfold pending; by rewrite Permutation_middle).
  assert (∀ f, f ∈ pending s q → f ∈ pending s (FnReconcile :: q)) as Hsub
    by (intros f Hf; rewrite P; by apply elem_of_cons; right).
  change (pending (set_reconcileScheduled false s) q) with (pending s q) in *.
  split; try done.
  - rewrite P, count_cons, decide_True in A by done. cbn.
    change (count FnReconcile (pending s q) = 0%nat). destruct (reconcileScheduled s); lia.
  - by rewrite P, count_cons in B.
  - intros p g Hg. by apply C, Hsub.
  - intros p. specialize (D p). by rewrite P, count_cons in D.
  - intros p. destruct (E p) as [E1 E2]. split; [done|]. intros Hg. by apply E2, Hsub.
Qed.

Lemma handleRouteEvent_tim u : inv_run TimInv (handleRouteEvent u).
Proof.
  intros q s T. unfold handleRouteEvent. destruct (_ || _); [by apply wp_to_wlp, wp_skip|].
  destruct (ru_Dst u) as [dst|]; [|by apply wp_to_wlp, wp_skip].
  destruct (negb _); [by apply wp_to_wlp, wp_skip|].
  apply wlp_bind, wp_to_wlp, wp_find_interface.
  - intros n p s' H1 _ _. assert (TimInv q s') as T'.
    { eapply TimInv_same; [|exact T]. apply frame_tim_same, emits_frame.
      eapply emits_mono; [|exact H1]. ev_tac. }
    apply wp_to_wlp, wp_bind, wp_deref. case_match; [by apply wp_skip | by apply scheduleReconcile_tim].
  - intros s' H1 _. apply wp_to_wlp, wp_skip. eapply TimInv_same; [|exact T].
    apply frame_tim_same, emits_frame. eapply emits_mono; [|exact H1]. ev_tac.
Qed.

(** Scheduling touches nothing but the timers. *)
Lemma scheduleReconcile_sound s : sound s → wp scheduleReconcile (λ _ s', sound s') s.
Proof.
  intros [[HR [N O]] S]. unfold scheduleReconcile. apply wp_bind, wp_get.
  case_match; [by apply wp_skip|]. apply wp_bind, wp_modify.
  set (s' := set_timers (timers s ++ [mkTimer (next s) reconcileDebounce FnReconcile])
    (set_next (Pos.succ (next s)) (set_reconcileScheduled true s))).
  cut (sound s'); [done|]. destruct HR as [A B C D E]. split; [split; split|].
  - intros p v k Hk. destruct (A p v k Hk) as (? & ? & ? & ? & ? & ?).
    split_and!; [done | cbn; lia | cbn; lia | done..].
  - exact B.
  - exact C.
  - exact D.
  - intros c Hc%E. cbn. lia.
  - intros n p Hn. destruct (N n p Hn). split; [done | cbn; lia].
  - exact O.
  - exact S.
Qed.
End TimFire.
