(* ===== verification/Engine.v ===== *)
(** * The event loop ([internal/relay/engine.go]) and everything that feeds it

    One goroutine runs the closures of the channel [Eng.events] one after the
    other; the timers, the packet readers, the netlink monitor and the signal
    handler run in goroutines of their own and only post.  The step relation
    interleaves them in every way the scheduler can. *)
From S2P Require Import Prelude Netip World Hoare Log Iface RawSock Sim Mirror Dhcpv6 Router Ndp Config Netlink Frame Resources Lifecycle Kept Reload Timers.

(** [make(chan func(), 1024)], and [mirrorSweepInterval] in milliseconds. *)
Definition eventsCap : nat := 1024.
Definition mirrorSweepInterval := 300000.

(** The closures posted to the engine. *)
Inductive task : Type :=
| TReload
| TSweep
| TReconcile
| TSolicit (iface : loc) (gen : Z)
| TLink (u : LinkUpdate)
| TAddr (u : AddrUpdate)
| TNeigh (u : NeighUpdate)
| TRoute (u : RouteUpdate)
| TRouter (rs : routerSock) (data : list Z)
| TDhcp (ds : dhcpSock) (src : Addr) (data : list Z)
| TNdp (ns : ndpSock) (srcMAC data : list Z).

Definition runTask `{Kernel} (t : task) : M unit :=
  match t with
  | TReload => Reload
  | TSweep => sweepFailedAndOrphans
  | TReconcile => reconcileFire
  | TSolicit p gen => solicitTimerFire p gen
  | TLink u => handleLinkEvent u
  | TAddr u => handleAddrEvent u
  | TNeigh u => handleNeighEvent u
  | TRoute u => handleRouteEvent u
  | TRouter rs data => handleICMPv6 rs data
  | TDhcp ds src data => handleDHCPv6 ds src data
  | TNdp ns mac data => handleSolicit ns mac data
  end.

(** What a goroutine does after its [Post] returns: end, re-arm the sweep,
    read the next packet, wait for the next netlink event or signal, or (the
    main goroutine) call [Run]. *)
Inductive resume : Type := RDone | RRearm | RReader (r : reader) | RMonitor | RSignal | RMain.

(** [st]: the store the closures share; [events]: the channel; [posting]: the
    goroutines inside [Post], in no particular order; [receiving]: the readers
    blocked in their system call; the flags: the single netlink and signal
    goroutines are waiting; the engine runs. *)
Record engine : Type := mkEngine {
  st : St;
  events : list task;
  posting : list (task * resume);
  receiving : list reader;
  monitor_idle : bool;
  signal_idle : bool;
  running : bool
}.

(** The function of a timer: what it posts, and how it goes on. *)
Definition timer_post (f : timer_fn) : task * resume :=
  match f with
  | FnSolicit p gen => (TSolicit p gen, RDone)
  | FnReconcile => (TReconcile, RDone)
  | FnSweepTick => (TSweep, RRearm)
  end.

(** [startMirrorSweep], and the re-arming inside [tick]. *)
Definition startMirrorSweep : M unit := _ ← afterFunc mirrorSweepInterval FnSweepTick; skip.

(** The netlink events the monitor passes on; a [net.IP] is a byte string. *)
Definition netlink_task (t : task) : Prop :=
  match t with
  | TLink _ | TRoute _ => True
  | TAddr u => Forall is_byte (net_IP (au_IPNet u))
  | TNeigh u => Forall is_byte (nu_IP u)
  | _ => False
  end.

Definition reader_done (r : reader) : loc :=
  match r with RouterReader rs => rs_done rs | DhcpReader ds => ds_done ds | NdpReader ns => ns_done ns end.

Definition map_step {A} (f : A → task) (s : loop_step A) : loop_step task :=
  match s with
  | LoopReturn => LoopReturn
  | LoopContinue => LoopContinue
  | LoopSleep => LoopSleep
  | LoopPost a => LoopPost (f a)
  end.
(** The body of a reader's loop after the first check of [done]. *)
Definition reader_turn `{Kernel} (r : reader) (res : recv_result) (done2 : bool) : loop_step task :=
  match r with
  | RouterReader rs => map_step (TRouter rs) (routerReadTurn false res done2)
  | DhcpReader ds => map_step (λ p, TDhcp ds p.1 p.2) (dhcpReadTurn false res done2)
  | NdpReader ns => map_step (λ p, TNdp ns p.1 p.2) (ndpReadTurn false res done2)
  end.

(** What a read can give: the buffer holds so many bytes. *)
Definition reader_buf (r : reader) : nat :=
  match r with RouterReader _ | DhcpReader _ => 8192%nat | NdpReader _ => 2048%nat end.
Definition recv_valid (n : nat) (res : recv_result) : Prop :=
  match res with
  | RecvError _ => True
  | Received data oob _ => Forall is_byte data ∧ (length data ≤ n)%nat
  end.

Definition set_st (s : St) (e : engine) : engine :=
  mkEngine s (events e) (posting e) (receiving e) (monitor_idle e) (signal_idle e) (running e).
Definition set_posting (l : list (task * resume)) (e : engine) : engine :=
  mkEngine (st e) (events e) l (receiving e) (monitor_idle e) (signal_idle e) (running e).
Definition set_events (l : list task) (e : engine) : engine :=
  mkEngine (st e) l (posting e) (receiving e) (monitor_idle e) (signal_idle e) (running e).
Definition set_receiving (l : list reader) (e : engine) : engine :=
  mkEngine (st e) (events e) (posting e) l (monitor_idle e) (signal_idle e) (running e).
Definition set_flags (m sg r : bool) (e : engine) : engine :=
  mkEngine (st e) (events e) (posting e) (receiving e) m sg r.

(** The goroutine after its [Post]. *)
Definition resumed (r : resume) (e : engine) : engine :=
  match r with
  | RDone => e
  | RRearm => match startMirrorSweep (st e) with Ok (_, s') => set_st s' e | _ => e end
  | RReader rd => set_st (set_readers (readers (st e) ++ [rd]) (st e)) e
  | RMonitor => set_flags true (signal_idle e) (running e) e
  | RSignal => set_flags (monitor_idle e) true (running e) e
  | RMain => set_flags (monitor_idle e) (signal_idle e) true e
  end.

(** Where a reader goes after a turn. *)
Definition after_turn (r : reader) (l : loop_step task) (e : engine) : engine :=
  match l with
  | LoopReturn => e
  | LoopContinue | LoopSleep => set_st (set_readers (readers (st e) ++ [r]) (st e)) e
  | LoopPost t => set_posting (posting e ++ [(t, RReader r)]) e
  end.

Inductive step `{Kernel} : engine → engine → Prop :=
| StepRun e t rest s' :
    running e = true → events e = t :: rest → runTask t (st e) = Ok (tt, s') →
    step e (set_st s' (set_events rest e))
| StepPost e l1 t r l2 :
    posting e = l1 ++ (t, r) :: l2 → (length (events e) < eventsCap)%nat →
    step e (resumed r (set_events (events e ++ [t]) (set_posting (l1 ++ l2) e)))
| StepTimer e l1 x l2 :
    timers (st e) = l1 ++ x :: l2 →
    step e (set_posting (posting e ++ [timer_post (t_fn x)]) (set_st (set_timers (l1 ++ l2) (st e)) e))
| StepCheck e l1 r l2 :
    readers (st e) = l1 ++ r :: l2 →
    step e (let e' := set_st (set_readers (l1 ++ l2) (st e)) e in
            if bool_decide (reader_done r ∈ closed (st e)) then e'
            else set_receiving (receiving e ++ [r]) e')
| StepReceive e l1 r l2 res :
    receiving e = l1 ++ r :: l2 → recv_valid (reader_buf r) res →
    step e (after_turn r (reader_turn r res (bool_decide (reader_done r ∈ closed (st e))))
              (set_receiving (l1 ++ l2) e))
| StepMonitor e t :
    monitor_idle e = true → netlink_task t →
    step e (set_flags false (signal_idle e) (running e) (set_posting (posting e ++ [(t, RMonitor)]) e))
| StepSighup e :
    signal_idle e = true →
    step e (set_flags (monitor_idle e) false (running e) (set_posting (posting e ++ [(TReload, RSignal)]) e)).

(** The store when the monitor starts: nothing configured, nothing open. *)
Record booting (s : St) : Prop := mkBooting {
  bo_heap : heap s = ∅;
  bo_interfaces : interfaces s = ∅;
  bo_mirrored : mirroredNeighs s = ∅;
  bo_scheduled : reconcileScheduled s = false;
  bo_timers : timers s = [];
  bo_readers : readers s = [];
  bo_closed : closed s = ∅;
  bo_fds : open_fds (trace s) = ∅
}.

(** The end of [main]: the monitor and its sweep are started, the signal
    goroutine waits, and the main goroutine is about to post [Reload]. *)
Definition started (e : engine) : Prop :=
  ∃ s s', booting s ∧ startMirrorSweep s = Ok (tt, s') ∧
    e = mkEngine s' [] [(TReload, RMain)] [] true true false.

Definition reachable `{Kernel} (e : engine) : Prop := ∃ e0, started e0 ∧ rtc step e0 e.

(** ** The invariant *)

(** Timer functions still to be run, queued or being posted. *)
Definition task_fns (t : task) : list timer_fn :=
  match t with TSolicit p gen => [FnSolicit p gen] | TReconcile => [FnReconcile] | _ => [] end.
Definition posting_fns (p : task * resume) : list timer_fn :=
  task_fns p.1 ++ match p.2 with RRearm => [FnSweepTick] | _ => [] end.
Definition queued (e : engine) : list timer_fn :=
  (events e ≫= task_fns) ++ (posting e ≫= posting_fns).

(** Packets and the addresses of netlink events are byte strings. *)
Definition task_wf (t : task) : Prop :=
  match t with
  | TAddr u => Forall is_byte (net_IP (au_IPNet u))
  | TNeigh u => Forall is_byte (nu_IP u)
  | TRouter _ data | TDhcp _ _ data | TNdp _ _ data => Forall is_byte data
  | _ => True
  end.

Record EngInv (e : engine) : Prop := mkEngInv {
  ei_sound : sound (st e);
  ei_timers : TimInv (queued e) (st e);
  ei_events : Forall task_wf (events e);
  ei_posting : Forall (λ p, task_wf p.1) (posting e)
}.

Section Engine.
Context `{KN : Kernel} `{!KernelOk KN}.

Lemma sound_calm_cfg s s' : calm s s' → same_cfg s s' → sound s → sound s'.
Proof.
  intros C [_ F] [G S]. split; [by eapply good_calm|]. intros p.
  eapply serves_same; [apply C | apply F | apply S].
Qed.

Lemma solicitTimerFire_cfg p g : keeps same_cfg (solicitTimerFire p g).
Proof.
  unfold solicitTimerFire. solve_keeps; try apply armSolicit_cfg.
  - apply stable_keeps. eapply stable_mono; [apply getLinkLocalAddr_frame | apply frame_same_cfg].
Qed.

(** Every closure runs to its end and keeps the invariant. *)
Lemma runTask_inv q t s :
  sound s → TimInv (task_fns t ++ q) s → task_wf t →
  wp (runTask t) (λ _ s', sound s' ∧ TimInv q s') s.
Proof.
  intros S T Hwf.
  assert (∀ m : M unit, task_fns t = [] → stable frame m → wp m (λ _ s', sound s' ∧ TimInv q s') s)
    as Hframe.
  { intros m Ht Hm. rewrite Ht in T. wp_use Hm. intros [] s' F.
    split; [by eapply sound_frame | by eapply TimInv_same; [apply frame_tim_same|]]. }
  assert (∀ m : M unit, task_fns t = [] → wp m (λ _ s', sound s') s → inv_run TimInv m →
    wp m (λ _ s', sound s' ∧ TimInv q s') s) as Hboth.
  { intros m Ht Hm Hr. rewrite Ht in T. eapply wp_mono; [apply (wp_wlp _ _ _ _ Hm (Hr q s T))|].
    by intros []. }
  destruct t; cbn [runTask task_fns app] in *.
  - apply Hboth; [done | apply Reload_sound, S | apply (Reload_kept TimInv)].
  - apply Hframe; [done | apply sweepFailedAndOrphans_frame].
  - pose proof (reconcileFire_tim q s T) as HT. unfold reconcileFire in *.
    apply (wp_and _ (λ _ s', sound s')); [|exact HT]. apply wp_bind, wp_modify. wp_use reconcileKernelState_frame. intros [] s' F.
    eapply sound_frame; [exact F|]. destruct S as [[[] []] ?]. split; [split; by split | done].
  - pose proof (solicitTimerFire_calm iface gen s) as HC.
    pose proof (solicitTimerFire_cfg iface gen s) as HF.
    apply (wp_wlp _ (λ _ s', sound s')); [|by apply solicitTimerFire_tim].
    eapply wp_mono; [exact (wp_wlp _ _ _ _ HC HF)|].
    cbv beta. intros [] s' [C F]. by eapply sound_calm_cfg.
  - apply Hboth; [done | by apply handleLinkEvent_sound | apply (handleLinkEvent_kept TimInv)].
  - apply Hframe; [done | apply handleAddrEvent_frame].
  - apply Hframe; [done | apply handleNeighEvent_frame].
  - apply Hboth; [done | | apply handleRouteEvent_tim]. unfold handleRouteEvent.
    destruct (_ || _); [by apply wp_skip|]. destruct (ru_Dst u); [|by apply wp_skip].
    destruct (negb _); [by apply wp_skip|]. apply wp_bind.
    wp_use ifaceByIndex_stable. intros o s' H1.
    assert (sound s') as S'.
    { eapply sound_frame; [|exact S]. apply emits_frame. eapply emits_mono; [|exact H1]. ev_tac. }
    destruct o; [|by apply wp_skip]. apply wp_bind, wp_deref.
    case_match; [by apply wp_skip | by apply scheduleReconcile_sound].
  - apply Hframe; [done | by apply handleICMPv6_frame].
  - apply Hframe; [done | apply handleDHCPv6_frame].
  - apply Hframe; [done | apply handleSolicit_frame].
Qed.
End Engine.

Section Reachable.
Context `{KN : Kernel} `{!KernelOk KN}.

Lemma started_inv e : started e → EngInv e.
Proof.
  intros (s & s' & [Hh Hi _ Hs Ht Hr Hc Hf] & [= <-] & ->).
  assert (∀ p v, own s p v = None) as Hown.
  { intros p v. unfold own. rewrite Hh. by destruct v. }
  set (s' := set_timers (timers s ++ [mkTimer (next s) mirrorSweepInterval FnSweepTick])
    (set_next (Pos.succ (next s)) s)).
  assert (∀ p : loc, heap s' !!! p = inhabitant) as Hdef
    by (intros p; change (heap s !!! p = inhabitant); rewrite Hh; apply lookup_total_empty).
  assert (pending s' (queued (mkEngine s' [] [(TReload, RMain)] [] true true false)) = [FnSweepTick])
    as Hp by (unfold pending; cbn; by rewrite Ht).
  split; [split; [split; split|]| | |]; cbn [st events posting].
  - intros p v k. change (own s' p v) with (own s p v). by rewrite Hown.
  - intros p v k p' v' k'. change (own s' p v) with (own s p v). by rewrite Hown.
  - by intros fd ?%elem_of_empty.
  - intros fd. change (trace s') with (trace s). rewrite Hf. by intros ?%elem_of_empty.
  - intros c. change (closed s') with (closed s). rewrite Hc. by intros ?%elem_of_empty.
  - intros n p. change (interfaces s') with (interfaces s). by rewrite Hi.
  - intros p v. change (own s' p v) with (own s p v). rewrite Hown. by intros [].
  - intros p v. change (own s' p v) with (own s p v). rewrite Hown. by intros [].
  - split; rewrite ?Hp; try done.
    + change (reconcileScheduled s') with (reconcileScheduled s). by rewrite Hs.
    + intros p g. by intros ?%list_elem_of_singleton.
    + intros p. rewrite count_cons. case_decide; [done | cbn; lia].
    + intros p. rewrite Hdef. split; [done|]. by intros ?%list_elem_of_singleton.
    + intros x. cbn. rewrite Ht. intros ->%list_elem_of_singleton. cbn. lia.
    + intros p t. by rewrite Hdef.
    + intros n p. change (interfaces s') with (interfaces s). by rewrite Hi.
  - done.
  - by repeat constructor.
Qed.

Lemma bind_snoc {A B} (f : A → list B) l x : (l ++ [x]) ≫= f = (l ≫= f) ++ f x.
Proof. rewrite bind_app. cbn. by rewrite app_nil_r. Qed.

Lemma queued_split e l1 p l2 :
  posting e = l1 ++ p :: l2 → queued e ≡ₚ posting_fns p ++ queued (set_posting (l1 ++ l2) e).
Proof.
  intros Hp. unfold queued. rewrite Hp. cbn [events posting set_posting].
  rewrite !bind_app, bind_cons. solve_Permutation.
Qed.

(** Changing readers only. *)
Lemma sound_readers l s : sound s → sound (set_readers l s).
Proof. intros [[[] []] ?]. split; [split; by split | done]. Qed.
Lemma TimInv_readers q l s : TimInv q s → TimInv q (set_readers l s).
Proof. intros []. by split. Qed.
Lemma TimInv_queue q q' s : q' ≡ₚ q → TimInv q s → TimInv q' s.
Proof. intros P. apply TimInv_perm; try done; [unfold pending; by rewrite P | by left]. Qed.

Lemma sound_timers l n s : (next s <= n)%positive → sound s → sound (set_timers l (set_next n s)).
Proof.
  intros Hn [[[A B C D E] [N O]] S]. split; [split; split|]; try done.
  - intros p v k Hk. destruct (A p v k Hk) as (? & ? & ? & ? & ? & ?).
    split_and!; [done | cbn; lia | cbn; lia | done..].
  - intros c Hc%E. cbn. lia.
  - intros m p Hm. destruct (N m p Hm). split; [done | cbn; lia].
Qed.

Lemma post_inv e l1 t r l2 :
  posting e = l1 ++ (t, r) :: l2 → EngInv e →
  EngInv (resumed r (set_events (events e ++ [t]) (set_posting (l1 ++ l2) e))).
Proof.
  intros Hp [S T Ev Po]. rewrite Hp in Po. apply Forall_app in Po as [Po1 Po2].
  inversion Po2 as [|?? Ht Po3]; subst. cbn in Ht.
  set (e' := set_events (events e ++ [t]) (set_posting (l1 ++ l2) e)).
  assert (queued e ≡ₚ match r with RRearm => [FnSweepTick] | _ => [] end ++ queued e') as P.
  { rewrite (queued_split e l1 (t, r) l2) by done. unfold queued, e'.
    cbn [events posting set_events set_posting]. rewrite bind_snoc.
    unfold posting_fns at 1. cbn [fst snd]. solve_Permutation. }
  assert (Forall task_wf (events e')) as Ev' by (apply Forall_app; by split; [|repeat constructor]).
  assert (Forall (λ p, task_wf p.1) (posting e')) as Po' by by apply Forall_app.
  destruct r; cbn [resumed].
  - split; try done. by eapply TimInv_queue.
  - split; try done; cbn [st set_st startMirrorSweep].
    + assert (next (st e) <= Pos.succ (next (st e)))%positive as Hle by lia.
      exact (sound_timers _ _ (st e) Hle S).
    + change (TimInv (queued e') (set_timers (timers (st e) ++
        [mkTimer (next (st e)) mirrorSweepInterval FnSweepTick])
        (set_next (Pos.succ (next (st e))) (st e)))).
      eapply (TimInv_perm (queued e) _ (st e)); [|done|done|done| | |exact T]; cbn [timers set_timers next set_next].
      * unfold pending. cbn [timers set_timers set_next]. rewrite fmap_app, P. cbn [fmap list_fmap t_fn].
        solve_Permutation.
      * lia.
      * intros x [Hx|Hx]%elem_of_app; [by left|]. apply list_elem_of_singleton in Hx as ->.
        right. cbn. lia.
  - split; try done; [by apply sound_readers | apply TimInv_readers; by eapply TimInv_queue].
  - split; try done. by eapply TimInv_queue.
  - split; try done. by eapply TimInv_queue.
  - split; try done. by eapply TimInv_queue.
Qed.

(** What a reader posts is what it read. *)
Lemma reader_turn_wf r res d t :
  recv_valid (reader_buf r) res → reader_turn r res d = LoopPost t → task_wf t ∧ task_fns t = [].
Proof.
  intros Hv. unfold reader_turn, map_step, routerReadTurn, dhcpReadTurn, ndpReadTurn.
  destruct r, res as [err|data oob from]; repeat case_match; try done; intros [= <-];
    simplify_eq; by destruct Hv.
Qed.
Lemma turn_inv e r l :
  (∀ t, l = LoopPost t → task_wf t ∧ task_fns t = []) → EngInv e → EngInv (after_turn r l e).
Proof.
  intros Hl [S T Ev Po].
  destruct l as [| | |t]; cbn [after_turn]; split; try done;
    try (by apply sound_readers); try (by apply TimInv_readers).
  - eapply TimInv_queue; [|exact T]. unfold queued. destruct (Hl t eq_refl) as [_ Hf].
    cbn [events posting set_posting]. rewrite bind_snoc. unfold posting_fns at 2. cbn [fst snd].
    by rewrite Hf, !app_nil_r.
  - apply Forall_app. split; [done|]. repeat constructor. cbn. by destruct (Hl t eq_refl).
Qed.

Lemma step_inv e e' : step e e' → EngInv e → EngInv e'.
Proof.
  intros Hs I. destruct Hs as
    [e t rest s' Hrun He Hr | e l1 t r l2 Hp _ | e l1 x l2 Ht | e l1 r l2 Hrd
    | e l1 r l2 res Hrc Hv | e t Hm Hn | e Hsg].
  - destruct I as [S T Ev Po]. rewrite He in Ev. inversion Ev as [|?? Hwf Ev']; subst.
    assert (queued e = task_fns t ++ queued (set_st s' (set_events rest e))) as Q.
    { unfold queued. rewrite He. cbn. by rewrite <- (assoc_L (++)). }
    rewrite Q in T. pose proof (runTask_inv _ _ _ S T Hwf) as H. unfold wp in H. rewrite Hr in H.
    destruct H. by split.
  - by apply post_inv.
  - destruct I as [S T Ev Po].
    assert (queued (set_posting (posting e ++ [timer_post (t_fn x)]) e) ≡ₚ t_fn x :: queued e) as Q.
    { unfold queued. cbn [events posting set_posting]. rewrite bind_snoc.
      replace (posting_fns (timer_post (t_fn x))) with [t_fn x] by by destruct (t_fn x).
      solve_Permutation. }
    split; try done.
    + exact (sound_timers (l1 ++ l2) _ (st e) (Pos.le_refl _) S).
    + cbn [st set_posting set_st]. eapply (TimInv_perm (queued e) _ (st e)); [| done..| cbn; lia | |exact T].
      * unfold pending. cbn [timers set_timers].
        change (queued (set_posting ?p (set_st ?s e))) with (queued (set_posting p e)).
        rewrite Q, Ht, !fmap_app. cbn [fmap list_fmap]. solve_Permutation.
      * intros y Hy. left. rewrite Ht. set_solver.
    + apply Forall_app. split; [done|]. repeat constructor. by destruct (t_fn x).
  - destruct I as [S T Ev Po]. destruct (bool_decide _); split; try done;
      first [by apply sound_readers | by apply TimInv_readers].
  - apply turn_inv; [intros t Ht; by eapply reader_turn_wf|]. by destruct I.
  - destruct I as [S T Ev Po]. split; try done.
    + eapply TimInv_queue; [|exact T]. unfold queued.
      cbn [events posting set_flags set_posting]. rewrite bind_snoc. unfold posting_fns at 2.
      cbn [fst snd]. rewrite app_nil_r. destruct t; by rewrite ?app_nil_r.
    + apply Forall_app. split; [done|]. repeat constructor. by destruct t.
  - destruct I as [S T Ev Po]. split; try done.
    + eapply TimInv_queue; [|exact T]. unfold queued.
      cbn [events posting set_flags set_posting]. rewrite bind_snoc. unfold posting_fns at 2.
      by rewrite !app_nil_r.
    + apply Forall_app. split; [done|]. by repeat constructor.
Qed.

Lemma reachable_inv e : reachable e → EngInv e.
Proof.
  intros (e0 & H0 & Hs). pose proof (started_inv e0 H0) as I. clear H0.
  induction Hs as [|e1 e2 e3 H12 _ IH]; [done|]. by eapply IH, step_inv.
Qed.
End Reachable.

(** ** Properties *)

Section Properties.
Context `{KN : Kernel} `{!KernelOk KN}.

(** C1: in every reachable state the closure at the head of the queue runs
    to its end: no handler panics (no index out of range, no channel closed
    twice) or loops, whatever packets, netlink events, signals and timers
    came before and in whatever order. *)
Theorem engine_progress e t rest :
  reachable e → running e = true → events e = t :: rest →
  ∃ s', runTask t (st e) = Ok (tt, s') ∧ step e (set_st s' (set_events rest e)).
Proof.
  intros [S T Ev _]%reachable_inv Hr He. rewrite He in Ev. inversion Ev as [|?? Hwf _]; subst.
  unfold queued in T. rewrite He, bind_cons, <- (assoc_L (++)) in T.
  destruct (wp_elim _ _ _ (runTask_inv _ _ _ S T Hwf)) as ([] & s' & Hrun & _).
  exists s'. split; [done | by apply StepRun with (t := t)].
Qed.

(** C2: in every reachable state the descriptors open are exactly those the
    services of registered interfaces hold; no two services share one, and
    the channel of each is still open.  Nothing leaks, across any sequence
    of reloads, link changes and failures. *)
Theorem engine_descriptors e :
  reachable e →
  (∀ fd, fd ∈ open_fds (trace (st e)) ↔
     ∃ n p v k, interfaces (st e) !! n = Some p ∧ own (st e) p v = Some k ∧ fd ∈ sk_fds k) ∧
  (∀ p v k p' v' k' fd, own (st e) p v = Some k → own (st e) p' v' = Some k' →
     fd ∈ sk_fds k → fd ∈ sk_fds k' → p = p' ∧ v = v') ∧
  (∀ p v k, own (st e) p v = Some k → sk_done k ∉ closed (st e)).
Proof.
  intros [[[HR [N O]] _] _ _ _]%reachable_inv. split_and!.
  - intros fd. split.
    + intros [|(p & v & k & Hk & Hin)]%(ri_noleak _ _ HR); [by apply not_elem_of_empty in H|].
      destruct (O p v ltac:(by eexists)) as [|Hn]; [done|]. by exists (Name (heap (st e) !!! p)), p, v, k.
    + intros (n & p & v & k & _ & Hk & Hin). by apply (ri_sock _ _ HR p v k Hk).
  - intros p v k p' v' k' fd Hk Hk' Hin Hin'.
    destruct (decide (p = p')) as [->|Hp]; [destruct (decide (v = v')) as [->|Hv]; [done|]|].
    + by destruct (proj2 (ri_disj _ _ HR _ _ _ _ _ _ Hk Hk' (or_intror Hv)) fd Hin).
    + by destruct (proj2 (ri_disj _ _ HR _ _ _ _ _ _ Hk Hk' (or_introl Hp)) fd Hin).
  - intros p v k Hk. by apply (ri_sock _ _ HR p v k Hk).
Qed.

(** C3: in every reachable state a service has sockets only on a registered
    interface that is running and relays that service, and the sockets
    point back at their interface. *)
Theorem engine_services e p v k :
  reachable e → own (st e) p v = Some k →
  interfaces (st e) !! Name (heap (st e) !!! p) = Some p ∧
  Running (heap (st e) !!! p) = true ∧ svc_mode (heap (st e) !!! p) v = ModeRelay ∧
  sk_iface k = p.
Proof.
  intros [[G S] _ _ _]%reachable_inv Hk.
  assert (is_Some (own (st e) p v)) as Hs by by eexists.
  destruct (S p v Hs) as [H1 H2]. split_and!; [by eapply good_registered | done | |].
  - by destruct (svc_mode _ v).
  - destruct G as [HR _]. by apply (ri_sock _ _ HR p v k).
Qed.

(** C6: in every reachable state exactly one reconciliation is under way
    (its timer running, or its closure posted and not yet run) when
    [reconcileScheduled] is set, and none otherwise; the periodic sweep is
    armed exactly once. *)
Theorem engine_reconcile e :
  reachable e →
  count FnReconcile (pending (st e) (queued e)) = (if reconcileScheduled (st e) then 1 else 0)%nat ∧
  count FnSweepTick (pending (st e) (queued e)) = 1%nat.
Proof. intros [_ T _ _]%reachable_inv. split; apply T. Qed.

(** C7: in every reachable state an interface has sent at most three start-up
    solicitations since its socket was opened, at most one more is pending
    in its current generation, and none once three are sent. *)
Theorem engine_solicitations e p :
  reachable e →
  let i := heap (st e) !!! p in
  0 ≤ raSent i ≤ maxRtrSolicitations ∧
  (count (FnSolicit p (rsTimerN i)) (pending (st e) (queued e)) ≤ 1)%nat ∧
  (raSent i = maxRtrSolicitations → FnSolicit p (rsTimerN i) ∉ pending (st e) (queued e)).
Proof.
  intros [_ T _ _]%reachable_inv i. destruct (ti_sent _ _ T p) as [H1 H2].
  split_and!; [apply H1 | apply H1 | apply T|]. intros Hi Hin. apply H2 in Hin. fold i in Hin. lia.
Qed.
End Properties.

(** ** A scheduler that can be run

    [exec cs e]: the steps chosen by [cs], if they are possible. *)

Inductive choice : Type :=
| CRun
| CPost (n : nat)
| CTimer (n : nat)
| CCheck (n : nat)
| CReceive (n : nat) (res : recv_result)
| CMonitor (t : task)
| CSighup.
#[export] Instance bytes_dec l : Decision (Forall is_byte l).
Proof. apply Forall_dec. intros b. apply and_dec; apply _. Defined.
#[export] Instance recv_valid_dec n res : Decision (recv_valid n res).
Proof. destruct res; cbn; [apply _|]. apply and_dec; apply _. Defined.
#[export] Instance netlink_task_dec t : Decision (netlink_task t).
Proof. destruct t; cbn; apply _. Defined.

Section Exec.
Context `{KN : Kernel}.

Definition without {A} (n : nat) (l : list A) : list A := take n l ++ drop (S n) l.
Definition exec1 (c : choice) (e : engine) : option engine :=
  match c with
  | CRun =>
      match events e with
      | t :: rest =>
          if running e then
            match runTask t (st e) with Ok (_, s') => Some (set_st s' (set_events rest e)) | _ => None end
          else None
      | [] => None
      end
  | CPost n =>
      match posting e !! n with
      | Some (t, r) =>
          if (length (events e) <? eventsCap)%nat
          then Some (resumed r (set_events (events e ++ [t]) (set_posting (without n (posting e)) e)))
          else None
      | None => None
      end
  | CTimer n =>
      match timers (st e) !! n with
      | Some x => Some (set_posting (posting e ++ [timer_post (t_fn x)])
                          (set_st (set_timers (without n (timers (st e))) (st e)) e))
      | None => None
      end
  | CCheck n =>
      match readers (st e) !! n with
      | Some r => Some (let e' := set_st (set_readers (without n (readers (st e))) (st e)) e in
                        if bool_decide (reader_done r ∈ closed (st e)) then e'
                        else set_receiving (receiving e ++ [r]) e')
      | None => None
      end
  | CReceive n res =>
      match receiving e !! n with
      | Some r =>
          if decide (recv_valid (reader_buf r) res)
          then Some (after_turn r (reader_turn r res (bool_decide (reader_done r ∈ closed (st e))))
                       (set_receiving (without n (receiving e)) e))
          else None
      | None => None
      end
  | CMonitor t =>
      if monitor_idle e && bool_decide (netlink_task t) then
        Some (set_flags false (signal_idle e) (running e) (set_posting (posting e ++ [(t, RMonitor)]) e))
      else None
  | CSighup =>
      if signal_idle e then
        Some (set_flags (monitor_idle e) false (running e) (set_posting (posting e ++ [(TReload, RSignal)]) e))
      else None
  end.
Fixpoint exec (cs : list choice) (e : engine) : option engine :=
  match cs with [] => Some e | c :: cs' => exec1 c e ≫= exec cs' end.

Lemma exec1_step c e e' : exec1 c e = Some e' → step e e'.
Proof.
  destruct c as [|n|n|n|n res|t|]; cbn [exec1].
  - destruct (events e) as [|t rest] eqn:He; [done|]. destruct (running e) eqn:Hr; [|done].
    destruct (runTask t (st e)) as [[[] s']| |] eqn:Ht; try done. intros [= <-].
    by apply StepRun with (t := t).
  - destruct (posting e !! n) as [[t r]|] eqn:Hn; [|done].
    destruct (Nat.ltb_spec (length (events e)) eventsCap); [|done]. intros [= <-].
    apply StepPost; [|done]. by rewrite (take_drop_middle _ _ _ Hn).
  - destruct (timers (st e) !! n) as [x|] eqn:Hn; [|done]. intros [= <-].
    apply StepTimer. by rewrite (take_drop_middle _ _ _ Hn).
  - destruct (readers (st e) !! n) as [r|] eqn:Hn; [|done]. intros [= <-].
    apply StepCheck. by rewrite (take_drop_middle _ _ _ Hn).
  - destruct (receiving e !! n) as [r|] eqn:Hn; [|done]. case_decide as Hv; [|done]. intros [= <-].
    apply StepReceive; [by rewrite (take_drop_middle _ _ _ Hn) | done].
  - destruct (monitor_idle e) eqn:Hm; [|done]. cbn. case_bool_decide as Hn; [|done]. intros [= <-].
    by apply StepMonitor.
  - destruct (signal_idle e) eqn:Hs; [|done]. intros [= <-]. by apply StepSighup.
Qed.
Lemma exec_steps cs e e' : exec cs e = Some e' → rtc step e e'.
Proof.
  revert e. induction cs as [|c cs IH]; intros e; cbn [exec]; [by intros [= <-]|].
  destruct (exec1 c e) as [e1|] eqn:E1; cbn; [|done]. intros H.
  apply rtc_l with e1; [by eapply exec1_step | by apply IH].
Qed.
(** The state a schedule leads to. *)
Definition after (cs : list choice) (e : engine) : engine := default e (exec cs e).
Definition possible (cs : list choice) (e : engine) : bool :=
  match exec cs e with Some _ => true | None => false end.
Lemma after_reachable cs e : started e → possible cs e = true → reachable (after cs e).
Proof.
  intros He Hp. exists e. split; [done|]. unfold possible, after in *.
  destruct (exec cs e) as [e'|] eqn:E; [|done]. by eapply exec_steps.
Qed.
End Exec.

(** ** The properties at work: booting on the sample network *)

Definition sample_boot : St := set_ConfigFile "/etc/ipv6-relay/config.json" initial_state.
Definition sample_start : engine :=
  mkEngine (set_timers [mkTimer 1%positive mirrorSweepInterval FnSweepTick] (set_next 2%positive sample_boot))
    [] [(TReload, RMain)] [] true true false.
Lemma sample_started : started sample_start.
Proof. by exists sample_boot, (st sample_start). Qed.

(** [Reload] posted, run, and the master's first solicitation sent. *)
Definition sample_posted : engine := @after sample_kernel [CPost 0] sample_start.
Definition sample_loaded : engine := @after sample_kernel [CPost 0; CRun] sample_start.
Definition sample_solicited : engine :=
  @after sample_kernel [CPost 0; CRun; CTimer 1; CPost 0; CRun] sample_start.

Lemma sample_posted_reachable : @reachable sample_kernel sample_posted.
Proof. apply after_reachable; [apply sample_started | by vm_compute]. Qed.
Lemma sample_loaded_reachable : @reachable sample_kernel sample_loaded.
Proof. apply after_reachable; [apply sample_started | by vm_compute]. Qed.
Lemma sample_solicited_reachable : @reachable sample_kernel sample_solicited.
Proof. apply after_reachable; [apply sample_started | by vm_compute]. Qed.

Lemma engine_progress_witness :
  ∃ s', @runTask sample_kernel TReload (st sample_posted) = Ok (tt, s') ∧
    @step sample_kernel sample_posted (set_st s' (set_events [] sample_posted)).
Proof. apply (engine_progress (KN := sample_kernel) sample_posted TReload []); [apply sample_posted_reachable | done | done]. Defined.

Lemma engine_descriptors_witness :
  open_fds (trace (st sample_loaded)) ≠ ∅ ∧
  ∀ fd, fd ∈ open_fds (trace (st sample_loaded)) ↔
    ∃ n p v k, interfaces (st sample_loaded) !! n = Some p ∧ own (st sample_loaded) p v = Some k ∧ fd ∈ sk_fds k.
Proof.
  split; [by vm_compute|].
  apply (engine_descriptors (KN := sample_kernel)), sample_loaded_reachable.
Defined.

(** The pointer of the interface with a name. *)
Definition named (s : St) (n : string) : loc := default 1%positive (interfaces s !! n).

Lemma engine_services_witness :
  ∃ k, own (st sample_loaded) (named (st sample_loaded) "lan") VDhcp = Some k ∧
    sk_iface k = named (st sample_loaded) "lan".
Proof.
  eexists. split; [by vm_compute|].
  eapply (engine_services (KN := sample_kernel) sample_loaded _ VDhcp); [apply sample_loaded_reachable|].
  by vm_compute.
Defined.

Lemma engine_reconcile_witness :
  count FnSweepTick (pending (st sample_loaded) (queued sample_loaded)) = 1%nat.
Proof. apply (engine_reconcile (KN := sample_kernel)), sample_loaded_reachable. Defined.

Lemma engine_solicitations_witness :
  let p := named (st sample_loaded) "wan" in
  let i := heap (st sample_loaded) !!! p in
  FnSolicit p (rsTimerN i) ∈ pending (st sample_loaded) (queued sample_loaded) ∧
  (count (FnSolicit p (rsTimerN i)) (pending (st sample_loaded) (queued sample_loaded)) ≤ 1)%nat.
Proof.
  split; [apply (bool_decide_eq_true_1 _); by vm_compute|].
  apply (engine_solicitations (KN := sample_kernel)), sample_loaded_reachable.
Defined.
