(* ===== verification/Caches.v ===== *)
(** * Caches and stored data

    Two caches the handlers trust: the link-local address an interface keeps
    ([cachedLL], [iface.go]) is one of its current addresses, usable as a
    source, and the neighbours recorded as mirrored ([mirroredNeighs],
    [netlink.go]) are addresses that may be mirrored.  And the types of the
    stored data: addresses, prefix lengths and lifetimes fit their widths.
    Every operation of the program keeps these facts. *)
From S2P Require Import Prelude Netip World Hoare Log Iface RawSock Sim Mirror Dhcpv6 Router Ndp Config Netlink Frame Resources Lifecycle Kept Reload Timers Engine.

(** The kernel answers with addresses that are byte strings. *)
Definition kernel_typed `{Kernel} : Prop :=
  (∀ h i l a, k_addrList h i = Some l → a ∈ l → Forall is_byte (net_IP (a_IPNet a))) ∧
  (∀ h i l n, k_neighList h i = Some l → n ∈ l → Forall is_byte (n_IP n)).

(** The fields of an [IPAddr] fit their Go types. *)
Definition ip_typed (a : IPAddr) : Prop :=
  addr_wf (ip_Addr a) ∧ 0 ≤ PrefixLen a < 2 ^ 8 ∧ 0 ≤ PreferredLT a < 2 ^ 32 ∧ 0 ≤ ValidLT a < 2 ^ 32.

Definition ll_source_ok (i : Interface) : Prop :=
  cachedLLValid i = true → ∃ a, a ∈ Addr6 i ∧ is_ll_source a = true ∧ cachedLL i = ip_Addr a.
Definition has_ll (i : Interface) : bool := existsb (λ a, IsLinkLocalUnicast (ip_Addr a)) (Addr6 i).
Definition ll_ok `{Kernel} (i : Interface) : Prop :=
  ll_source_ok i ∧ HaveLinkLocal i = has_ll i ∧ (kernel_typed → Forall ip_typed (Addr6 i)).
Definition key_ok `{Kernel} (k : mirroredNeighKey) : Prop :=
  mirrorable (k_addr k) = true ∧ (kernel_typed → addr_wf (k_addr k)).
Definition keys_ok `{Kernel} (m : gmap mirroredNeighKey bool) : Prop :=
  ∀ k b, m !! k = Some b → b = true ∧ key_ok k.
Definition cached `{Kernel} (s : St) : Prop := (∀ p, ll_ok (heap s !!! p)) ∧ keys_ok (mirroredNeighs s).

Definition keeps_cached `{Kernel} : relation St := λ s s', cached s → cached s'.
#[export] Instance keeps_cached_preorder `{Kernel} : PreOrder keeps_cached.
Proof. split; [exact (λ s Hc, Hc)|]. intros s1 s2 s3 H1 H2 Hc. exact (H2 (H1 Hc)). Qed.
#[export] Hint Resolve keeps_cached_preorder : keeps.

Lemma cached_emits `{Kernel} P s s' : emits P s s' → keeps_cached s s'.
Proof. intros (evs & -> & _). exact id. Qed.
Lemma cached_assign `{Kernel} p f : (∀ i, ll_ok i → ll_ok (f i)) → keeps keeps_cached (assign p f).
Proof.
  intros Hf. apply keeps_modify. intros s [L K]. split; [|done]. intros q. cbn [heap set_heap].
  rewrite lookup_total_assign. case_decide; [apply Hf, L | apply L].
Qed.
(** Fields other than the addresses and the cache. *)
Definition ll_part (i : Interface) := (Addr6 i, cachedLL i, cachedLLValid i, HaveLinkLocal i).
Lemma cached_assign_same `{Kernel} p f : (∀ i, ll_part (f i) = ll_part i) → keeps keeps_cached (assign p f).
Proof.
  intros Hf. apply cached_assign. intros i L. unfold ll_ok, ll_source_ok, has_ll. specialize (Hf i).
  unfold ll_part in Hf. injection Hf as -> -> -> ->. exact L.
Qed.
Lemma cached_assign_reset `{Kernel} p f :
  (∀ i, cachedLLValid (f i) = false ∧ (HaveLinkLocal i = has_ll i → HaveLinkLocal (f i) = has_ll (f i)) ∧
        (Addr6 (f i) = Addr6 i ∨ Addr6 (f i) = [])) →
  keeps keeps_cached (assign p f).
Proof.
  intros Hf. apply cached_assign. intros i (_ & Hll & Ht). destruct (Hf i) as (Hv & Hl & Ha).
  split_and!; [unfold ll_source_ok; by rewrite Hv | by apply Hl|]. destruct Ha as [->| ->]; [done | by constructor].
Qed.
Lemma cached_modify `{Kernel} f :
  (∀ s, heap (f s) = heap s ∧ mirroredNeighs (f s) = mirroredNeighs s) → keeps keeps_cached (modify f).
Proof. intros Hf. apply keeps_modify. intros s. destruct (Hf s) as [H1 H2]. unfold keeps_cached, cached. by rewrite H1, H2. Qed.
Lemma cached_sys `{Kernel} {A} (ans : list event → A) ev : keeps keeps_cached (sys ans ev).
Proof. exact (λ s Hc, Hc). Qed.
Lemma cached_alloc `{Kernel} : keeps keeps_cached alloc.
Proof. exact (λ s Hc, Hc). Qed.
Lemma cached_afterFunc `{Kernel} d f : keeps keeps_cached (afterFunc d f).
Proof. exact (λ s Hc, Hc). Qed.
Lemma cached_closeChan `{Kernel} c : keeps keeps_cached (closeChan c).
Proof. apply keeps_closeChan. exact (λ s Hc, Hc). Qed.
Lemma set_mirrored_cached `{Kernel} k : key_ok k → keeps keeps_cached (set_mirrored k).
Proof.
  intros Hk. apply keeps_modify. intros s [L K]. split; [done|]. intros k' b.
  cbn [mirroredNeighs set_mirroredNeighs]. intros [[<- <-]|[_ H']]%lookup_insert_Some; [done | by apply K].
Qed.
Lemma delete_mirrored_cached `{Kernel} k : keeps keeps_cached (delete_mirrored k).
Proof.
  apply keeps_modify. intros s [L K]. split; [done|]. intros k' b.
  cbn [mirroredNeighs set_mirroredNeighs]. intros [_ H']%lookup_delete_Some. by apply K.
Qed.
#[export] Hint Resolve cached_sys cached_alloc cached_afterFunc cached_closeChan delete_mirrored_cached : keeps.

Ltac solve_cached := solve_keeps_with ltac:(
  idtac; lazymatch goal with
  | |- keeps _ (assign _ _) => first [solve [apply cached_assign_same; intros; repeat case_match; done]
                                     | solve [apply cached_assign_reset; intros i; split_and!; [done | intros H; exact H || reflexivity | by (left; done) || right]]]
  | |- keeps _ (modify _) => apply cached_modify; done
  | |- keeps _ _ => solve [apply stable_keeps; eapply stable_mono; [solve [eauto with stable nocore] |
              intros ? ?; apply cached_emits]]
  end).

Section Caches.
Context `{KN : Kernel} `{!KernelOk KN}.

Lemma sys_err_cached c : keeps keeps_cached (sys_err c).
Proof. apply cached_sys. Qed.
Lemma closeFD_cached fd : keeps keeps_cached (closeFD fd).
Proof. apply keeps_when; [typeclasses eauto | apply cached_sys]. Qed.
Lemma spawn_cached r : keeps keeps_cached (spawn r).
Proof. by apply cached_modify. Qed.
Lemma stopTimer_cached t : keeps keeps_cached (stopTimer t).
Proof. by apply cached_modify. Qed.
#[local] Hint Resolve sys_err_cached closeFD_cached spawn_cached stopTimer_cached : keeps.

(** ** Addresses *)

(** The address found is put in the cache. *)
Lemma getLinkLocalAddr_cached p : keeps keeps_cached (getLinkLocalAddr p).
Proof.
  intros s. unfold getLinkLocalAddr. apply wlp_bind, wp_to_wlp, wp_deref. apply wp_to_wlp.
  destruct (cachedLLValid (heap s !!! p)); [exact id|].
  destruct (find is_ll_source (Addr6 (heap s !!! p))) as [a|] eqn:Ea; [|exact id].
  apply wp_bind, wp_assign, wp_ret. intros [H K]. split; [|done]. intros q. cbn [heap set_heap].
  rewrite lookup_total_assign. case_decide as Hq; [|apply H]. split; [|apply (H p)]. intros _. exists a.
  apply find_some in Ea as [Hin Ha]. by apply list_elem_of_In in Hin.
Qed.
Lemma updateLinkLocalState_cached p : keeps keeps_cached (updateLinkLocalState p).
Proof. unfold updateLinkLocalState. solve_cached. Qed.
Lemma setInterfaceDefaults_cached p : keeps keeps_cached (setInterfaceDefaults p).
Proof. unfold setInterfaceDefaults. solve_cached. Qed.
#[local] Hint Resolve getLinkLocalAddr_cached updateLinkLocalState_cached setInterfaceDefaults_cached : keeps.

(** What [fetchAddr6] stores. *)
Lemma lifetimeAbs_range lft now : 0 ≤ lifetimeAbs lft now < 2 ^ 32.
Proof. unfold lifetimeAbs. repeat case_match; unfold u32; lia || (apply Z.mod_pos_bound; lia). Qed.
Lemma To16_is_byte ip : Forall is_byte ip → Forall is_byte (To16 ip).
Proof.
  intros Hb. unfold To16. repeat case_match; [|done|constructor].
  apply Forall_app. split; [by repeat (constructor; [done|])|]. repeat (constructor; [done|]). done.
Qed.
Lemma AddrFromSlice_wf ip a : Forall is_byte ip → AddrFromSlice ip = Some a → addr_wf a.
Proof.
  intros Hb. pose proof (be_val_range ip Hb) as Hr. unfold AddrFromSlice.
  destruct (Nat.eqb_spec (length ip) 4) as [H4|]; [|destruct (Nat.eqb_spec (length ip) 16) as [H16|]; [|done]];
    intros [= <-]; unfold addr_wf; cbn [AddrFrom16].
  - replace (2 ^ 32) with (256 ^ Z.of_nat 4) by done. by rewrite H4 in Hr.
  - unfold AddrFrom16. replace (2 ^ 128) with (256 ^ Z.of_nat 16) by done. by rewrite H16 in Hr.
Qed.
Lemma Unmap_wf a : addr_wf a → addr_wf (Unmap a).
Proof. destruct a as [|a|a]; [exact id | exact id|]. intros Ha. cbn. case_match; [|exact Ha]. cbn. unfold u32. apply Z.mod_pos_bound. lia. Qed.
Lemma neighAddr_wf ip a : Forall is_byte ip → neighAddr ip = Some a → addr_wf a.
Proof.
  intros Hb. unfold neighAddr. destruct (AddrFromSlice (To16 ip)) as [x|] eqn:E; [|done]. intros [= <-].
  eapply Unmap_wf, AddrFromSlice_wf; [by apply To16_is_byte | exact E].
Qed.
Lemma convertAddr_typed now a x : Forall is_byte (net_IP (a_IPNet a)) → convertAddr now a = Some x → ip_typed x.
Proof.
  intros Hb. unfold convertAddr. destruct (AddrFromSlice _) as [ip|] eqn:E; [|done]. cbn. intros [= <-].
  split_and!; cbn; try apply lifetimeAbs_range; try (unfold u8; apply Z.mod_pos_bound; lia).
  eapply Unmap_wf, AddrFromSlice_wf; [by apply To16_is_byte | exact E].
Qed.
Lemma fetchAddr6_typed i s :
  wlp (fetchAddr6 i) (λ l s', emits query_ev s s' ∧ (kernel_typed → Forall ip_typed l)) s.
Proof.
  apply wlp_and; [apply wp_to_wlp, fetchAddr6_stable|].
  unfold fetchAddr6. apply wlp_bind, wp_to_wlp, wp_sys. intros [l|] _; [|by apply wlp_ret].
  apply wlp_bind, wp_to_wlp, wp_sys. intros [addrs|] Ha; [|by apply wlp_ret].
  apply wlp_bind. eapply wlp_keeps; [apply stable_keeps, nowMono_stable|]. intros t s3 _. apply wlp_ret.
  intros [HT _]. apply Forall_forall. intros x Hx. apply list_elem_of_omap in Hx as (a & Hin & Hx).
  eapply convertAddr_typed; [|exact Hx]. by eapply HT.
Qed.

(** A new address list is followed by a reset of the cache. *)
Lemma refreshInterfaceAddresses_cached p : keeps keeps_cached (refreshInterfaceAddresses p).
Proof.
  intros s. unfold refreshInterfaceAddresses. apply wlp_bind, wlp_deref, wlp_bind.
  eapply wlp_mono; [apply fetchAddr6_typed|]. cbv beta. intros l s1 [E T].
  apply wlp_bind, wlp_assign, wlp_assign. intros Hc. apply (cached_emits _ _ _ E) in Hc as [L K].
  split; [|done]. intros q. cbn [heap set_heap].
  rewrite !lookup_total_assign. case_decide as Hq; [|apply L].
  rewrite decide_True by done. split_and!; [by intros ? | done | exact T].
Qed.
#[local] Hint Resolve refreshInterfaceAddresses_cached : keeps.

(** ** Mirroring *)

Lemma guard_key_ok a i :
  IsLoopback a || IsMulticast a || IsLinkLocalUnicast a = false → (kernel_typed → addr_wf a) → key_ok (mkKey a i).
Proof.
  unfold key_ok, mirrorable. cbn [k_addr].
  destruct (IsLoopback a), (IsMulticast a), (IsLinkLocalUnicast a); cbn; intros H ?; by split.
Qed.

Lemma seedNeigh_cached p n : (kernel_typed → Forall is_byte (n_IP n)) → keeps keeps_cached (seedNeigh p n).
Proof.
  intros Hb. unfold seedNeigh. destruct (negb _); [solve_cached|]. destruct (neighAddr (n_IP n)) as [a|] eqn:Ha; [|solve_cached].
  destruct (_ || _) eqn:Ea; [solve_cached|]. solve_cached. apply set_mirrored_cached, guard_key_ok; [done|].
  intros T. by eapply neighAddr_wf; [apply Hb|].
Qed.
Lemma seedMirroredNeighbors_cached p : keeps keeps_cached (seedMirroredNeighbors p).
Proof.
  unfold seedMirroredNeighbors, sys_linkByIndex. apply keeps_bind; [typeclasses eauto | solve_cached|]. intros i.
  apply keeps_bind; [typeclasses eauto | solve_cached|]. intros [l|]; [|solve_cached].
  intros s. apply wlp_bind, wp_to_wlp, wp_sys. intros [ns|] Hns; [|exact (λ Hc, Hc)].
  set (s1 := set_trace _ s). assert (keeps keeps_cached (forM ns (seedNeigh p))) as Hk; [|exact (Hk s1)].
  apply keeps_forM_in; [typeclasses eauto|]. intros n Hn. apply seedNeigh_cached. intros [_ T]. by eapply T.
Qed.
Lemma sweepNeigh_cached p live n : keeps keeps_cached (sweepNeigh p live n).
Proof. unfold sweepNeigh. solve_cached. Qed.
Lemma sweepRoute_cached p live r : keeps keeps_cached (sweepRoute p live r).
Proof. unfold sweepRoute. solve_cached. Qed.
#[local] Hint Resolve seedMirroredNeighbors_cached sweepNeigh_cached sweepRoute_cached : keeps.
Lemma sweepFailedAndOrphans_cached : keeps keeps_cached sweepFailedAndOrphans.
Proof.
  unfold sweepFailedAndOrphans, sweepIfaceFailedAndOrphans, sys_linkByIndex, sys_neighList, sys_routeList.
  solve_cached.
Qed.
Lemma reconcileKernelState_cached : keeps keeps_cached reconcileKernelState.
Proof. unfold reconcileKernelState. solve_cached. Qed.
Lemma clearMirroredState_cached p : keeps keeps_cached (clearMirroredState p).
Proof. unfold clearMirroredState. solve_cached. Qed.
#[local] Hint Resolve sweepFailedAndOrphans_cached reconcileKernelState_cached clearMirroredState_cached : keeps.

(** ** Packets *)

Lemma sendICMP6WithLLSrc_cached fd p d i pl : keeps keeps_cached (sendICMP6WithLLSrc fd p d i pl).
Proof. unfold sendICMP6WithLLSrc. solve_cached. Qed.
#[local] Hint Resolve sendICMP6WithLLSrc_cached : keeps.
Lemma relayPing_cached t p : keeps keeps_cached (relayPing t p).
Proof. unfold relayPing. solve_cached. Qed.
#[local] Hint Resolve relayPing_cached : keeps.
Lemma handleSolicit_cached ns mac data : keeps keeps_cached (handleSolicit ns mac data).
Proof. unfold handleSolicit. solve_cached. Qed.
Lemma relayLinkAddressOrZero_cached p : keeps keeps_cached (relayLinkAddressOrZero p).
Proof. apply stable_keeps. eapply stable_mono; [apply relayLinkAddressOrZero_stable | apply cached_emits]. Qed.
#[local] Hint Resolve relayLinkAddressOrZero_cached : keeps.
Lemma handleDHCPv6_cached ds src data : keeps keeps_cached (handleDHCPv6 ds src data).
Proof.
  unfold handleDHCPv6, relayServerResponse, relayClientRequest, deliverReply, relayWithHops, sendToMasters.
  solve_cached.
Qed.
Lemma handleICMPv6_cached rs data : keeps keeps_cached (handleICMPv6 rs data).
Proof. unfold handleICMPv6, forwardRouterSolicitation, forwardRouterAdvertisement. solve_cached. Qed.

(** ** Services *)

Lemma check_cached fmt m k : keeps keeps_cached m → keeps keeps_cached k → keeps keeps_cached (check fmt m k).
Proof. intros. unfold check. solve_cached. Qed.
Lemma closing_cached fd b : keeps keeps_cached b → keeps keeps_cached (closing_on_error fd b).
Proof. intros. unfold closing_on_error. solve_cached. Qed.
#[local] Hint Resolve closing_cached : keeps.
Lemma armSolicit_cached p d g : keeps keeps_cached (armSolicit p d g).
Proof. unfold armSolicit. solve_cached. Qed.
Lemma stopRsTimer_cached p : keeps keeps_cached (stopRsTimer p).
Proof. unfold stopRsTimer. solve_cached. Qed.
Lemma drainSocket_cached fd : keeps keeps_cached (drainSocket fd).
Proof. apply stable_keeps. eapply stable_mono; [apply drainSocket_stable | apply cached_emits]. Qed.
#[local] Hint Resolve armSolicit_cached stopRsTimer_cached drainSocket_cached : keeps.
Lemma solicitTimerFire_cached p g : keeps keeps_cached (solicitTimerFire p g).
Proof. unfold solicitTimerFire. solve_cached. Qed.

Lemma routerSetup_cached p e : keeps keeps_cached (routerSetup p e).
Proof.
  assert (∀ fd, keeps keeps_cached (routerConfigure p fd)).
  { intros fd. unfold routerConfigure. apply keeps_bind; [typeclasses eauto | solve_cached|]. intros i.
    repeat (apply check_cached; [apply cached_sys|]). solve_cached. }
  unfold routerSetup, sys_socket. solve_cached.
Qed.
Lemma dhcpv6Setup_cached p e : keeps keeps_cached (dhcpv6Setup p e).
Proof.
  assert (∀ fd, keeps keeps_cached (dhcpv6Configure p fd)).
  { intros fd. unfold dhcpv6Configure. apply keeps_bind; [typeclasses eauto | solve_cached|]. intros i.
    repeat (apply check_cached; [apply cached_sys|]). solve_cached. }
  unfold dhcpv6Setup, sys_socket. solve_cached.
Qed.
Lemma ndpSetup_cached p e : keeps keeps_cached (ndpSetup p e).
Proof.
  assert (∀ g fd, keeps keeps_cached (ndpConfigureCapture p g fd)).
  { intros g fd. unfold ndpConfigureCapture. apply keeps_bind; [typeclasses eauto | solve_cached|]. intros i.
    apply keeps_bind; [typeclasses eauto | solve_cached|]. intros [err|]; [solve_cached|].
    apply check_cached; [apply cached_sys|]. apply keeps_bind; [typeclasses eauto | solve_cached|].
    intros []. repeat (apply check_cached; [apply cached_sys|]). solve_cached. }
  assert (∀ fd, keeps keeps_cached (ndpConfigurePing p fd)).
  { intros fd. unfold ndpConfigurePing. apply keeps_bind; [typeclasses eauto | solve_cached|]. intros i.
    repeat (apply check_cached; [apply cached_sys|]). unfold sys_socket. solve_cached. }
  unfold ndpSetup, sys_socket. solve_cached.
Qed.
#[local] Hint Resolve routerSetup_cached dhcpv6Setup_cached ndpSetup_cached : keeps.
Lemma reloadServices_cached p : keeps keeps_cached (reloadServices p).
Proof. unfold reloadServices, disableServices. solve_cached. Qed.
Lemma disableServices_cached p : keeps keeps_cached (disableServices p).
Proof. unfold disableServices. solve_cached. Qed.
#[local] Hint Resolve reloadServices_cached disableServices_cached : keeps.

(** ** Configuration and link changes *)

Lemma findOrCreateInterface_cached n : keeps keeps_cached (findOrCreateInterface n).
Proof. unfold findOrCreateInterface. solve_cached. Qed.
#[local] Hint Resolve findOrCreateInterface_cached : keeps.
Lemma parseInterfaceJSON_cached n o : keeps keeps_cached (parseInterfaceJSON n o).
Proof.
  assert (∀ i, ll_part (applyOptions o i) = ll_part i) by (intros i; unfold applyOptions; by repeat case_match).
  assert (∀ p, keeps keeps_cached (assign p (applyOptions o))) by (intros; by apply cached_assign_same).
  unfold parseInterfaceJSON, bindInterface, sys_linkByName. solve_cached.
Qed.
#[local] Hint Resolve parseInterfaceJSON_cached : keeps.
Lemma SetLogLevel_cached l : keeps keeps_cached (SetLogLevel l).
Proof. by apply cached_modify. Qed.
#[local] Hint Resolve SetLogLevel_cached : keeps.
Lemma loadConfigJSON_cached path : keeps keeps_cached (loadConfigJSON path).
Proof. unfold loadConfigJSON, sys_readFile. solve_cached. Qed.
#[local] Hint Resolve loadConfigJSON_cached : keeps.
Lemma Reload_cached : keeps keeps_cached Reload.
Proof.
  assert (∀ a b c i, ll_part (demoteMaster a b c i) = ll_part i)
    by (intros; unfold demoteMaster; by repeat case_match).
  assert (∀ a b c p, keeps keeps_cached (assign p (demoteMaster a b c))) by (intros; by apply cached_assign_same).
  unfold Reload, copyIfaceList, closeInterface. solve_cached.
Qed.
Lemma handleLinkEvent_cached u : keeps keeps_cached (handleLinkEvent u).
Proof. unfold handleLinkEvent, linkDeleted. solve_cached. Qed.
Lemma handleAddrEvent_cached u : keeps keeps_cached (handleAddrEvent u).
Proof. unfold handleAddrEvent. solve_cached. Qed.
Lemma handleNeighEvent_cached u : Forall is_byte (nu_IP u) → keeps keeps_cached (handleNeighEvent u).
Proof.
  intros Hb. unfold handleNeighEvent. destruct (negb _); [solve_cached|].
  apply keeps_bind; [typeclasses eauto | solve_cached|]. intros [p|]; [|solve_cached].
  apply keeps_bind; [typeclasses eauto | solve_cached|]. intros i. case_match; [solve_cached|].
  destruct (To4 _); [solve_cached|]. destruct (neighAddr (nu_IP u)) as [a|] eqn:Ha; [|solve_cached].
  destruct (IsLoopback a || _ || _) eqn:Ea; [solve_cached|]. solve_cached.
  apply set_mirrored_cached, guard_key_ok; [done|]. intros _. by eapply neighAddr_wf.
Qed.
Lemma handleRouteEvent_cached u : keeps keeps_cached (handleRouteEvent u).
Proof. unfold handleRouteEvent, scheduleReconcile. solve_cached. Qed.

Lemma runTask_cached t : task_wf t → keeps keeps_cached (runTask t).
Proof.
  intros Hwf. destruct t; cbn [runTask].
  - apply Reload_cached.
  - apply sweepFailedAndOrphans_cached.
  - unfold reconcileFire. solve_cached.
  - apply solicitTimerFire_cached.
  - apply handleLinkEvent_cached.
  - apply handleAddrEvent_cached.
  - by apply handleNeighEvent_cached.
  - apply handleRouteEvent_cached.
  - apply handleICMPv6_cached.
  - apply handleDHCPv6_cached.
  - apply handleSolicit_cached.
Qed.
End Caches.

(** ** Reachable states *)

Section Reachable.
Context `{KN : Kernel} `{!KernelOk KN}.

Lemma cached_same s s' :
  heap s' = heap s → mirroredNeighs s' = mirroredNeighs s → cached s → cached s'.
Proof. unfold cached. by intros -> ->. Qed.

Lemma step_cached e e' : step e e' → EngInv e → cached (st e) → cached (st e').
Proof.
  intros Hs I. destruct Hs as [e t rest s' _ He Hr | e l1 t r l2 _ _ | | e l1 r l2 _ | e l1 r l2 res _ _ | |];
    try exact id.
  - destruct I as [_ _ Ev _]. rewrite He in Ev. inversion Ev as [|?? Hwf _]; subst.
    pose proof (runTask_cached t Hwf (st e)) as H. unfold wlp in H. rewrite Hr in H. exact H.
  - by destruct r.
  - by case_match.
  - by destruct (reader_turn _ _ _).
Qed.
Lemma reachable_cached e : reachable e → cached (st e).
Proof.
  intros (e0 & H0 & Hs). pose proof (started_inv e0 H0) as I0. destruct H0 as (s & s' & B & [= <-] & ->).
  assert (cached s) as H0.
  { split; [intros p; rewrite (bo_heap _ B), lookup_total_empty; split_and!; [by intros ? | done | by constructor]|].
    intros k b. by rewrite (bo_mirrored _ B). }
  change (cached (st (mkEngine (set_timers (timers s ++ [mkTimer (next s) mirrorSweepInterval FnSweepTick])
    (set_next (Pos.succ (next s)) s)) [] [(TReload, RMain)] [] true true false))) in H0.
  induction Hs as [|e1 e2 e3 H12 _ IH]; [done|]. apply IH; [by eapply step_inv | by eapply step_cached].
Qed.
End Reachable.

(** ** Properties *)

Section Properties.
Context `{KN : Kernel} `{!KernelOk KN}.

(** C27: in every reachable state the caches agree with what they cache: a
    link-local address an interface has cached is on its current address list,
    link-local, IPv6 and not tentative; [HaveLinkLocal] tells whether the list
    holds a link-local address; and only addresses that are neither loopback,
    multicast nor link-local are recorded as mirrored neighbours. *)
Theorem engine_caches e :
  reachable e →
  (∀ p, let i := heap (st e) !!! p in
     (cachedLLValid i = true → ∃ a, a ∈ Addr6 i ∧ is_ll_source a = true ∧ cachedLL i = ip_Addr a) ∧
     HaveLinkLocal i = existsb (λ a, IsLinkLocalUnicast (ip_Addr a)) (Addr6 i)) ∧
  (∀ k b, mirroredNeighs (st e) !! k = Some b → b = true ∧ mirrorable (k_addr k) = true).
Proof.
  intros [H K]%reachable_cached. split.
  - intros p i. split; apply (H p).
  - intros k b Hk. destruct (K k b Hk) as (-> & Hm & _). done.
Qed.

(** C28: with a kernel that answers with byte strings, in every reachable state
    the data the program keeps fit their types: every address of an
    interface and every recorded neighbour is a 32-bit or 128-bit address, a
    prefix length an 8-bit and a lifetime a 32-bit unsigned number. *)
Theorem engine_types e :
  reachable e → kernel_typed →
  (∀ p, Forall ip_typed (Addr6 (heap (st e) !!! p))) ∧
  (∀ k b, mirroredNeighs (st e) !! k = Some b → addr_wf (k_addr k)).
Proof.
  intros [H K]%reachable_cached T. split.
  - intros p. by apply (H p).
  - intros k b Hk. destruct (K k b Hk) as (_ & _ & Hw). by apply Hw.
Qed.
End Properties.

Lemma engine_caches_witness :
  let i := heap (st sample_solicited) !!! named (st sample_solicited) "wan" in
  raSent i = 1 ∧ length (Addr6 i) = 1%nat ∧
  (∃ a, a ∈ Addr6 i ∧ is_ll_source a = true ∧ cachedLL i = ip_Addr a) ∧
  HaveLinkLocal i = existsb (λ a, IsLinkLocalUnicast (ip_Addr a)) (Addr6 i).
Proof.
  split; [by vm_compute|]. split; [by vm_compute|].
  destruct (engine_caches (KN := sample_kernel) sample_solicited sample_solicited_reachable) as [H _].
  destruct (H (named (st sample_solicited) "wan")) as [H1 H2]. split; [apply H1; by vm_compute | exact H2].
Defined.

(** The sample network answers with byte strings. *)
Lemma sample_kernel_typed : kernel_typed (H := sample_kernel).
Proof.
  assert (∀ A (f : A → list Z) (l : list (Z * list A)) i a,
    forallb (λ p, forallb (λ a, forallb (λ b, (0 <=? b) && (b <? 256)) (f a)) p.2) l = true →
    a ∈ default [] (assoc i l) → Forall is_byte (f a)) as Hall.
  { intros A f l i a Hl Ha. unfold assoc in Ha. destruct (find _ l) as [x|] eqn:E; [|by apply not_elem_of_nil in Ha].
    apply find_some in E as [Hin _]. rewrite forallb_forall in Hl. specialize (Hl x Hin). rewrite forallb_forall in Hl.
    cbn in Ha. apply list_elem_of_In, Hl in Ha. by apply bytes_ok. }
  split; intros h i l a [= <-] Hin.
  - apply (Hall _ (λ a, net_IP (a_IPNet a)) _ _ a) in Hin; [done | by vm_compute].
  - apply (Hall _ n_IP _ _ a) in Hin; [done | by vm_compute].
Qed.
Lemma engine_types_witness :
  length (Addr6 (heap (st sample_loaded) !!! named (st sample_loaded) "lan")) ≠ 0%nat ∧
  (∀ p, Forall ip_typed (Addr6 (heap (st sample_loaded) !!! p))) ∧
  (∃ k b, mirroredNeighs (st sample_loaded) !! k = Some b ∧ addr_wf (k_addr k)).
Proof.
  destruct (engine_types (KN := sample_kernel) sample_loaded sample_loaded_reachable sample_kernel_typed) as [H1 H2].
  split; [by vm_compute|]. split; [exact H1|].
  exists (mkKey (global_addr 7) 3), true. assert (mirroredNeighs (st sample_loaded) !! mkKey (global_addr 7) 3 = Some true)
    as E by by vm_compute. split; [exact E | by eapply H2].
Defined.
