(* ===== verification/Readers.v ===== *)
(** * Reader goroutines

    Which reader goroutines live beside the engine: every socket record of a
    service ([routerSock], [dhcpSock], [ndpSock]) has exactly one, and the
    [done] channel of every other reader is closed, so that it ends and the
    packets it still has queued are ignored.  Every operation of the program
    and every step of the engine keep this. *)
From S2P Require Import Prelude Netip World Hoare Log Iface RawSock Sim Mirror Dhcpv6 Router Ndp Config Netlink Frame Resources Lifecycle Kept Reload Timers Engine.

#[export] Instance routerSock_eq_dec : EqDecision routerSock.
Proof. solve_decision. Defined.
#[export] Instance dhcpSock_eq_dec : EqDecision dhcpSock.
Proof. solve_decision. Defined.
#[export] Instance ndpSock_eq_dec : EqDecision ndpSock.
Proof. solve_decision. Defined.
#[export] Instance reader_eq_dec : EqDecision reader.
Proof. solve_decision. Defined.

Definition reader_ptr (r : reader) : loc :=
  match r with RouterReader rs => rs_ptr rs | DhcpReader ds => ds_ptr ds | NdpReader ns => ns_ptr ns end.

(** The reader that serves the socket of a service. *)
Definition svc_reader (i : Interface) (v : service) : option reader :=
  match v with
  | VRouter => RouterReader <$> router i
  | VDhcp => DhcpReader <$> dhcp i
  | VNdp => NdpReader <$> ndp i
  end.
Definition serving (s : St) (p : loc) (v : service) : option reader := svc_reader (heap s !!! p) v.

Definition occurs (r : reader) (l : list reader) : nat := length (filter (λ x, x = r) l).
Lemma occurs_app r l k : occurs r (l ++ k) = (occurs r l + occurs r k)%nat.
Proof. unfold occurs. by rewrite filter_app, length_app. Qed.
Lemma occurs_cons r x l : occurs r (x :: l) = ((if decide (x = r) then 1 else 0) + occurs r l)%nat.
Proof. unfold occurs. rewrite filter_cons. by case_decide. Qed.
Lemma occurs_nil r : occurs r [] = 0%nat.
Proof. done. Qed.
#[export] Instance occurs_perm r : Proper ((≡ₚ) ==> eq) (occurs r).
Proof. intros l k H. unfold occurs. by rewrite H. Qed.
Lemma occurs_none r l : r ∉ l → occurs r l = 0%nat.
Proof.
  induction l as [|x l IH]; [done|]. intros [Hx Hl]%not_elem_of_cons.
  rewrite occurs_cons, IH, decide_False by done. done.
Qed.

(** [q]: the readers not in the list of the store (in a system call, or in
    [Post]), and those whose packets wait in the queue. *)
Record ReadInv (q : list reader * list reader) (s : St) : Prop := mkReadInv {
  rd_known r : r ∈ readers s ++ q.1 ++ q.2 →
    (reader_ptr r < next s)%positive ∧ (reader_done r ∈ closed s ∨ ∃ p v, serving s p v = Some r);
  rd_serving p v r : serving s p v = Some r →
    (p < next s)%positive ∧ (reader_ptr r < next s)%positive ∧ occurs r (readers s ++ q.1) = 1%nat;
  rd_ptr r r' : r ∈ readers s ++ q.1 ++ q.2 → r' ∈ readers s ++ q.1 ++ q.2 →
    reader_ptr r = reader_ptr r' → r = r';
  rd_ifaces n p : interfaces s !! n = Some p → (p < next s)%positive
}.

(** The same readers and sockets. *)
Record still (s s' : St) : Prop := mkStill {
  sl_readers : readers s' = readers s;
  sl_closed : closed s' = closed s;
  sl_next : (next s <= next s')%positive;
  sl_serving p v : serving s' p v = serving s p v;
  sl_ifaces n p : interfaces s' !! n = Some p → interfaces s !! n = Some p
}.
#[export] Instance still_preorder : PreOrder still.
Proof.
  split; [by split|]. intros s1 s2 s3 [] []. split; try congruence; [lia | auto].
Qed.
#[export] Hint Resolve still_preorder : keeps.

Lemma still_keeps s s' : still s s' → keeps_inv ReadInv s s'.
Proof.
  intros [R C N S I]. split; [done|]. intros q [A B U D]. split; rewrite ?R, ?C; [| |exact U|].
  - intros r Hr. destruct (A r Hr) as [H1 [H2|(p & v & H2)]]; (split; [lia|]); [by left|].
    right. exists p, v. by rewrite S.
  - intros p v r. rewrite S. intros H. destruct (B p v r H) as (? & ? & ?). split_and!; [lia..|done].
  - intros n p Hn%I%D. lia.
Qed.
Lemma keeps_still {A} (m : M A) : keeps still m → keeps (keeps_inv ReadInv) m.
Proof. intros Hm. eapply keeps_mono; [exact Hm|]. apply still_keeps. Qed.
Lemma frame_still s s' : frame s s' → still s s'.
Proof.
  intros F. split; try apply F; [by rewrite (fr_next _ _ F)| |by rewrite (fr_interfaces _ _ F)]. intros p v.
  pose proof (fr_core _ _ F p) as C. unfold core in C. injection C as _ H1 H2 H3 _ _ _.
  unfold serving. destruct v; cbn; congruence.
Qed.

Lemma still_frame {A} (m : M A) : stable frame m → keeps still m.
Proof. intros Hm. apply stable_keeps. eapply stable_mono; [exact Hm | apply frame_still]. Qed.

(** Field updates that leave the sockets alone. *)
Definition sock_part (i : Interface) := (router i, dhcp i, ndp i).
Lemma sock_part_svc i j v : sock_part i = sock_part j → svc_reader i v = svc_reader j v.
Proof. unfold sock_part. intros [= H1 H2 H3]. destruct v; cbn; congruence. Qed.
Lemma still_assign p f : (∀ i, sock_part (f i) = sock_part i) → keeps still (assign p f).
Proof.
  intros Hf. apply keeps_modify. intros s. split; try done. intros q v. unfold serving. cbn [heap set_heap].
  rewrite lookup_total_assign. case_decide; [|done]. subst. by apply sock_part_svc.
Qed.
Lemma still_modify f :
  (∀ s, heap (f s) = heap s ∧ readers (f s) = readers s ∧ closed (f s) = closed s ∧ next (f s) = next s ∧
        interfaces (f s) = interfaces s) → keeps still (modify f).
Proof.
  intros Hf. apply keeps_modify. intros s. destruct (Hf s) as (H1 & H2 & H3 & H4 & H5).
  split; rewrite ?H4, ?H5; try done. intros p v. unfold serving. by rewrite H1.
Qed.
Lemma still_sys {A} (ans : list event → A) ev : keeps still (sys ans ev).
Proof. intros s. by split. Qed.
Lemma still_afterFunc d f : keeps still (afterFunc d f).
Proof. intros s. split; try done. change (next s <= Pos.succ (next s))%positive. lia. Qed.
Lemma still_stopTimer t : keeps still (stopTimer t).
Proof. by apply still_modify. Qed.
#[export] Hint Resolve still_sys still_afterFunc still_stopTimer : keeps.

Ltac solve_still := solve_keeps_with ltac:(
  idtac; lazymatch goal with
  | |- keeps still (assign _ _) => solve [apply still_assign; intros; repeat case_match; done]
  | |- keeps still (modify _) => apply still_modify; done
  | |- keeps still _ => solve [apply still_frame; solve_frame]
  end).

(** ** Closing and opening one service *)

(** A socket of [p] is closed: its reader's channel with it. *)
Lemma close_keeps p v r i q s :
  serving s p v = Some r → svc_reader i v = None → (∀ v', v' ≠ v → svc_reader i v' = serving s p v') →
  ReadInv q s →
  ReadInv q (set_heap (<[p := i]> (heap s)) (set_closed ({[reader_done r]} ∪ closed s) s)).
Proof.
  intros Hr Hi Hv [A B U D]. set (s' := set_heap _ _).
  assert (∀ p' w, serving s' p' w = if decide (p' = p ∧ w = v) then None else serving s p' w) as O.
  { intros p' w. unfold serving at 1. cbn [s' heap set_heap]. rewrite lookup_total_assign.
    destruct (decide (p = p')) as [<-|]; case_decide as Hd; try done.
    - by destruct Hd as [_ ->].
    - apply Hv. intros ->. by apply Hd.
    - by destruct Hd as [-> _]. }
  split; [| |exact U|exact D].
  - intros x Hx. destruct (A x Hx) as [H1 H2]. split; [done|]. cbn [s' closed set_heap set_closed].
    destruct H2 as [H2|(p' & w & H2)]; [left; set_solver|].
    destruct (decide (p' = p ∧ w = v)) as [[-> ->]|Hd].
    + left. rewrite Hr in H2. injection H2 as ->. set_solver.
    + right. exists p', w. by rewrite O, decide_False.
  - intros p' w x. rewrite O. case_decide; [done|]. apply B.
Qed.

(** A socket is allocated, its reader started. *)
Lemma open_keeps p v r i q s :
  serving s p v = None → (p < next s)%positive → svc_reader i v = Some r → reader_ptr r = next s →
  (∀ v', v' ≠ v → svc_reader i v' = serving s p v') →
  ReadInv q s → ReadInv q (installed p i r s).
Proof.
  intros Hn Hp Hi Hptr Hv [A B U D]. set (s' := installed _ _ _ _).
  assert (∀ p' w, serving s' p' w = if decide (p' = p ∧ w = v) then Some r else serving s p' w) as O.
  { intros p' w. unfold serving at 1. cbn [s' installed heap set_readers set_heap].
    rewrite lookup_total_assign.
    destruct (decide (p = p')) as [<-|]; case_decide as Hd; try done.
    - by destruct Hd as [_ ->].
    - apply Hv. intros ->. by apply Hd.
    - by destruct Hd as [-> _]. }
  assert (readers s' = readers s ++ [r]) as R by done.
  assert (next s' = Pos.succ (Pos.succ (next s))) as N by done.
  assert (∀ x, x ∈ readers s' ++ q.1 ++ q.2 → x = r ∨ x ∈ readers s ++ q.1 ++ q.2) as Hin
    by (rewrite R; set_solver).
  assert (r ∉ readers s ++ q.1 ++ q.2) as Hfresh.
  { intros Hr. destruct (A r Hr). lia. }
  split.
  - intros x [->|Hx]%Hin.
    + split; [lia|]. right. exists p, v. by rewrite O, decide_True.
    + destruct (A x Hx) as [H1 H2]. split; [lia|]. destruct H2 as [H2|(p' & w & H2)]; [by left|].
      right. exists p', w. rewrite O, decide_False; [done|]. intros [-> ->]. congruence.
  - intros p' w x. rewrite O, R. case_decide as Hd.
    + destruct Hd as [-> ->]. intros [= <-]. split_and!; [lia..|].
      rewrite !occurs_app, occurs_cons, decide_True by done. rewrite !occurs_none by set_solver. done.
    + intros H. destruct (B p' w x H) as (H1 & H2 & H3). split_and!; [lia..|].
      rewrite !occurs_app, occurs_cons, decide_False by (intros ->; lia). cbn.
      rewrite occurs_app in H3. unfold occurs in *. lia.
  - intros x y [->|Hx]%Hin [->|Hy]%Hin; try done.
    + destruct (A y Hy). lia.
    + destruct (A x Hx). lia.
    + by apply U.
  - intros n x Hx%D. cbn. lia.
Qed.

(** ** Set-up *)

Section Setups.
Context `{KN : Kernel} `{!KernelOk KN}.

Lemma wlp_closeChan c (Q : unit → St → Prop) s :
  Q tt (set_closed ({[c]} ∪ closed s) s) → wlp (closeChan c) Q s.
Proof. intros HQ. unfold wlp, closeChan, mbind, M_bind, get. by destruct (bool_decide _). Qed.
Lemma wlp_closeFD fd (Q : unit → St → Prop) s : (∀ t, Q tt (set_trace t s)) → wlp (closeFD fd) Q s.
Proof.
  intros HQ. unfold closeFD. destruct (0 <=? fd); [apply HQ|].
  change (Q tt s). rewrite <- (set_trace_id s). apply HQ.
Qed.

(** The store after a close: the reader of the old socket is told to end. *)
Definition closes p v s s' : Prop := keeps_inv ReadInv s s' ∧ serving s' p v = None.
Lemma closes_nothing p v s : serving s p v = None → closes p v s s.
Proof. intros H. by split. Qed.
Lemma closes_socket p v r i t s :
  serving s p v = Some r → svc_reader i v = None → (∀ v', v' ≠ v → svc_reader i v' = serving s p v') →
  closes p v s (set_heap (<[p := i]> (heap s)) (set_trace t (set_closed ({[reader_done r]} ∪ closed s) s))).
Proof.
  intros Hr Hi Hv. split.
  - split; [done|]. intros q H. apply (close_keeps p v r i q (set_trace t s)); try done.
    destruct H as [A B U D]. by split.
  - unfold serving. cbn [heap set_heap]. by rewrite lookup_total_assign, decide_True.
Qed.

Lemma routerClose_keeps p s :
  wlp (match router (heap s !!! p) with
       | Some rs => closeChan (rs_done rs) ;; closeFD (rs_fd rs) ;; assign p (set_router None)
       | None => skip
       end) (λ _ s', closes p VRouter s s') s.
Proof.
  destruct (router (heap s !!! p)) as [rs|] eqn:E.
  - apply wlp_bind, wlp_closeChan, wlp_bind, wlp_closeFD. intros t.
    apply (closes_socket p VRouter (RouterReader rs) (set_router None (heap s !!! p)) t s); [unfold serving; cbn; by rewrite E | done | by intros []].
  - apply wp_to_wlp, wp_skip, closes_nothing. unfold serving. cbn. by rewrite E.
Qed.
Lemma dhcpClose_keeps p s :
  wlp (match dhcp (heap s !!! p) with
       | Some ds => closeChan (ds_done ds) ;; closeFD (ds_fd ds) ;; assign p (set_dhcp None)
       | None => skip
       end) (λ _ s', closes p VDhcp s s') s.
Proof.
  destruct (dhcp (heap s !!! p)) as [ds|] eqn:E.
  - apply wlp_bind, wlp_closeChan, wlp_bind, wlp_closeFD. intros t.
    apply (closes_socket p VDhcp (DhcpReader ds) (set_dhcp None (heap s !!! p)) t s); [unfold serving; cbn; by rewrite E | done | by intros []].
  - apply wp_to_wlp, wp_skip, closes_nothing. unfold serving. cbn. by rewrite E.
Qed.
Lemma ndpClose_keeps p s :
  wlp (match ndp (heap s !!! p) with
       | Some ns => closeChan (ns_done ns) ;; closeFD (ns_fd ns) ;; closeFD (ns_pingFd ns) ;;
                    assign p (set_ndp None)
       | None => skip
       end) (λ _ s', closes p VNdp s s') s.
Proof.
  destruct (ndp (heap s !!! p)) as [ns|] eqn:E.
  - apply wlp_bind, wlp_closeChan, wlp_bind, wlp_closeFD. intros t0. apply wlp_bind, wlp_closeFD. intros t.
    apply (closes_socket p VNdp (NdpReader ns) (set_ndp None (heap s !!! p)) t s); [unfold serving; cbn; by rewrite E | done | by intros []].
  - apply wp_to_wlp, wp_skip, closes_nothing. unfold serving. cbn. by rewrite E.
Qed.

(** [m] may install a socket for a service of [p] that has none. *)
Definition opens {A} p v (m : M A) : Prop :=
  ∀ s, serving s p v = None → wlp m (λ _ s', keeps_inv_at ReadInv p s s') s.
Lemma opens_still {A} p v (m : M A) : keeps still m → opens p v m.
Proof. intros Hm s _. by apply keeps_at, keeps_still. Qed.
Lemma still_keeps_at p s s' : still s s' → keeps_inv_at ReadInv p s s'.
Proof. intros [H1 H2]%still_keeps. by split. Qed.
Lemma opens_bind {A B} p v (m : M A) (f : A → M B) :
  keeps still m → (∀ a, opens p v (f a)) → opens p v (m ≫= f).
Proof.
  intros Hm Hf s Hn. apply wlp_bind. eapply wlp_mono; [apply Hm|]. cbv beta. intros a s1 S.
  eapply wlp_mono; [apply Hf; by rewrite (sl_serving _ _ S)|].
  cbv beta. intros _ s2 K. etransitivity; [by apply still_keeps_at | done].
Qed.
Lemma opens_then {A B} p v (m : M A) (f : A → M B) :
  opens p v m → (∀ a, keeps still (f a)) → opens p v (m ≫= f).
Proof.
  intros Hm Hf s Hn. apply wlp_bind. eapply wlp_mono; [by apply Hm|]. cbv beta. intros a s1 K.
  eapply wlp_mono; [apply Hf|]. cbv beta. intros _ s2 S. etransitivity; [done | by apply still_keeps_at].
Qed.
Lemma opens_check p v fmt c k : opens p v k → opens p v (check fmt (sys_err c) k).
Proof.
  intros Hk. unfold check. apply opens_bind; [apply still_sys|].
  intros [e|]; [apply opens_still; solve_still | done].
Qed.
Lemma opens_closing p v fd b : opens p v b → opens p v (closing_on_error fd b).
Proof.
  intros Hb. unfold closing_on_error. apply opens_then; [done|]. intros a. unfold closeFD. solve_still.
Qed.
(** The socket record and its channel are allocated and the reader started. *)
Lemma opens_install p v (f : loc → loc → Interface → Interface) (r : loc → loc → reader) rest :
  (∀ a d i, svc_reader (f a d i) v = Some (r a d) ∧ reader_ptr (r a d) = a ∧
            ∀ v', v' ≠ v → svc_reader (f a d i) v' = svc_reader i v') →
  keeps still rest →
  opens p v (ptr ← alloc; done ← alloc; assign p (f ptr done) ;; spawn (r ptr done) ;; (rest : M (option goerr))).
Proof.
  intros Hf Hr s Hn. set (a := next s). set (d := Pos.succ a).
  destruct (Hf a d (heap s !!! p)) as (H1 & H2 & H3).
  change (wlp rest (λ _ s', keeps_inv_at ReadInv p s s') (installed p (f a d (heap s !!! p)) (r a d) s)).
  eapply wlp_mono; [apply Hr|]. cbv beta. intros _ s' S. etransitivity; [|by apply still_keeps_at].
  split; [cbn; lia|]. intros Hp q. by apply (open_keeps p v).
Qed.

Lemma drainSocket_still fd : keeps still (drainSocket fd).
Proof.
  apply still_frame. eapply stable_emits_frame; [apply drainSocket_stable | done].
Qed.
Lemma routerConfigure_opens p fd : opens p VRouter (routerConfigure p fd).
Proof.
  unfold routerConfigure. apply opens_bind; [solve_still|]. intros i.
  do 7 apply opens_check. apply opens_bind; [solve_still|]. intros f. do 2 apply opens_check.
  apply (opens_install p VRouter (λ a d i, set_raSent 0 (set_router (Some (mkRouterSock a fd p d)) i))
    (λ a d, RouterReader (mkRouterSock a fd p d))).
  - intros a d j. split_and!; [done..|]. by intros [].
  - unfold armSolicit. solve_still.
Qed.
Lemma dhcpv6Configure_opens p fd : opens p VDhcp (dhcpv6Configure p fd).
Proof.
  unfold dhcpv6Configure. apply opens_bind; [solve_still|]. intros i. repeat apply opens_check.
  apply (opens_install p VDhcp (λ a d, set_dhcp (Some (mkDhcpSock a fd p d)))
    (λ a d, DhcpReader (mkDhcpSock a fd p d))).
  - intros a d j. split_and!; [done..|]. by intros [].
  - solve_still.
Qed.
Lemma ndpConfigurePing_opens p g : opens p VNdp (ndpConfigurePing p g).
Proof.
  unfold ndpConfigurePing. apply opens_bind; [solve_still|]. intros i. repeat apply opens_check.
  apply opens_bind; [apply still_sys|]. intros [e|fd]; [apply opens_still; solve_still|].
  apply opens_closing. unfold ndpConfigureCapture. apply opens_bind; [solve_still|]. intros j.
  apply opens_bind; [solve_still|]. intros [e|]; [apply opens_still; solve_still|].
  apply opens_check, opens_bind; [apply drainSocket_still|]. intros _. repeat apply opens_check.
  apply (opens_install p VNdp (λ a d, set_ndp (Some (mkNdpSock a fd g p d)))
    (λ a d, NdpReader (mkNdpSock a fd g p d))).
  - intros a d k. split_and!; [done..|]. by intros [].
  - solve_still.
Qed.

(** A close, then perhaps a new socket. *)
Lemma setup_keeps p v (close : M unit) (rest : M (option goerr)) s :
  wlp close (λ _ s', closes p v s s') s → opens p v rest →
  wlp (close ;; rest) (λ _ s', keeps_inv_at ReadInv p s s') s.
Proof.
  intros Hc Hr. apply wlp_bind. eapply wlp_mono; [exact Hc|]. cbv beta. intros [] s1 [[HN HK] Hn].
  eapply wlp_mono; [by apply Hr|]. cbv beta. intros r s2 K. etransitivity; [|exact K]. by split.
Qed.
Lemma routerSetup_readers p e : keeps (keeps_inv_at ReadInv p) (routerSetup p e).
Proof.
  intros s. apply (setup_keeps p VRouter _ _ s (routerClose_keeps p s)).
  destruct (negb _); [apply opens_still; unfold stopRsTimer; solve_still|].
  apply opens_bind; [apply still_sys|]. intros [err|fd]; [apply opens_still; solve_still|].
  apply opens_closing, routerConfigure_opens.
Qed.
Lemma dhcpv6Setup_readers p e : keeps (keeps_inv_at ReadInv p) (dhcpv6Setup p e).
Proof.
  intros s. apply (setup_keeps p VDhcp _ _ s (dhcpClose_keeps p s)).
  destruct (negb _); [apply opens_still; solve_still|].
  apply opens_bind; [apply still_sys|]. intros [err|fd]; [apply opens_still; solve_still|].
  apply opens_closing, dhcpv6Configure_opens.
Qed.
Lemma ndpSetup_readers p e : keeps (keeps_inv_at ReadInv p) (ndpSetup p e).
Proof.
  intros s. apply (setup_keeps p VNdp _ _ s (ndpClose_keeps p s)).
  destruct (negb _); [apply opens_still; solve_still|].
  apply opens_bind; [apply still_sys|]. intros [err|fd]; [apply opens_still; solve_still|].
  apply opens_closing, ndpConfigurePing_opens.
Qed.

(** ** The family of invariants, whatever readers are elsewhere *)

Lemma findOrCreateInterface_readers n q s :
  ReadInv q s → wlp (findOrCreateInterface n) (λ p s', ReadInv q s' ∧ (p < next s')%positive) s.
Proof.
  intros R. apply wp_to_wlp. unfold findOrCreateInterface. apply wp_bind, wp_get.
  destruct (interfaces s !! n) as [p|] eqn:En.
  { apply wp_ret. split; [done|]. by eapply rd_ifaces. }
  apply wp_bind, wp_alloc, wp_bind, wp_assign, wp_bind, wp_assign, wp_bind, wp_modify, wp_ret.
  cbn [heap set_heap set_interfaces set_next interfaces next]. rewrite insert_insert_eq.
  match goal with |- context [set_heap (<[_ := ?i0]> _)] => set (i := i0) end.
  assert (∀ v, svc_reader i v = None) as Hi
    by (unfold i; rewrite lookup_total_insert_eq; by intros []).
  clearbody i. destruct R as [A B U D]. set (s' := set_interfaces _ _). split; [|cbn; lia].
  assert (∀ (r : loc) v, serving s' r v = if decide (next s = r) then None else serving s r v) as Hs.
  { intros r v. unfold serving at 1. cbn [s' heap set_heap set_interfaces].
    rewrite lookup_total_assign. by case_decide. }
  split; try done.
  - intros r Hr. destruct (A r Hr) as [H1 H2]. split; [cbn; lia|]. destruct H2 as [H2|(p & v & H2)]; [by left|].
    right. exists p, v. rewrite Hs, decide_False; [done|]. intros <-. destruct (B _ _ _ H2). lia.
  - intros p v r. rewrite Hs. case_decide; [done|]. intros H2. destruct (B _ _ _ H2) as (H3 & H4 & H5).
    split_and!; [cbn; lia..|done].
  - intros m p. cbn. intros [[_ <-]|[_ Hm%D]]%lookup_insert_Some; lia.
Qed.

#[export] Instance ReadInv_kept : Kept ReadInv.
Proof.
  split.
  - intros q s n p R. apply (rd_ifaces _ _ R).
  - intros q s s' F. by apply still_keeps, frame_still.
  - intros p f Hf. apply keeps_still, still_assign. intros i. specialize (Hf i). unfold svc_part in Hf.
    unfold sock_part. congruence.
  - intros n. apply keeps_modify. intros s. apply still_keeps. split; try done.
    intros m q. cbn. by intros [_ ?]%lookup_delete_Some.
  - apply findOrCreateInterface_readers.
  - intros [] p e; [apply routerSetup_readers | apply dhcpv6Setup_readers | apply ndpSetup_readers].
  - intros p. apply keeps_still. unfold stopRsTimer. solve_still.
Qed.

Lemma runTask_readers t : task_wf t → inv_run ReadInv (runTask t).
Proof.
  intros Hwf. destruct t; cbn [runTask].
  - apply (Reload_kept ReadInv).
  - apply (frame_run ReadInv); solve_frame.
  - apply keeps_run, keeps_still. unfold reconcileFire. solve_still.
  - apply keeps_run, keeps_still. unfold solicitTimerFire, armSolicit. solve_still.
  - apply (handleLinkEvent_kept ReadInv).
  - apply (frame_run ReadInv); solve_frame.
  - apply (frame_run ReadInv); solve_frame.
  - apply keeps_run, keeps_still. unfold handleRouteEvent, scheduleReconcile, ifaceByIndex, find_interface. solve_still.
  - by apply (frame_run ReadInv), handleICMPv6_frame.
  - apply (frame_run ReadInv); solve_frame.
  - apply (frame_run ReadInv); solve_frame.
Qed.
End Setups.

(** ** The steps of the engine *)

(** Readers elsewhere than in the list of the store: in a system call, or in
    [Post]; and readers whose packets are queued or being posted. *)
Definition resume_readers (r : resume) : list reader := match r with RReader rd => [rd] | _ => [] end.
Definition task_readers (t : task) : list reader :=
  match t with
  | TRouter rs _ => [RouterReader rs]
  | TDhcp ds _ _ => [DhcpReader ds]
  | TNdp ns _ _ => [NdpReader ns]
  | _ => []
  end.
Definition away (e : engine) : list reader := receiving e ++ (posting e ≫= λ p, resume_readers p.2).
Definition waiting (e : engine) : list reader :=
  (events e ≫= task_readers) ++ (posting e ≫= λ p, task_readers p.1).
Definition read_inv (e : engine) : Prop := ReadInv (away e, waiting e) (st e).

(** All reader goroutines alive. *)
Definition live_readers (e : engine) : list reader := readers (st e) ++ away e.

Lemma serving_own s p v r :
  serving s p v = Some r → ∃ k, own s p v = Some k ∧ sk_done k = reader_done r.
Proof.
  unfold serving, own. destruct v; cbn;
    intros (x & E & ->)%fmap_Some; rewrite E; by eexists.
Qed.
Lemma own_serving s p v k :
  own s p v = Some k → ∃ r, serving s p v = Some r ∧ sk_done k = reader_done r.
Proof.
  unfold serving, own. destruct v; cbn;
    intros (x & E & ->)%fmap_Some; rewrite E; by eexists.
Qed.
Lemma sound_done s p v r : sound s → serving s p v = Some r → reader_done r ∉ closed s.
Proof.
  intros [[R _] _] (k & Hk & <-)%serving_own. by apply (ri_sock _ _ R _ _ _ Hk).
Qed.

(** Readers move between the places, and those told to end may disappear. *)
Lemma ReadInv_move q q' s s' :
  heap s' = heap s → closed s' = closed s → interfaces s' = interfaces s → (next s <= next s')%positive →
  (∀ p v r, serving s p v = Some r → reader_done r ∉ closed s) →
  (∀ r, reader_done r ∈ closed s ∨ occurs r (readers s' ++ q'.1) = occurs r (readers s ++ q.1)) →
  (∀ r, r ∈ readers s' ++ q'.1 ++ q'.2 → r ∈ readers s ++ q.1 ++ q.2) →
  ReadInv q s → ReadInv q' s'.
Proof.
  intros Hh Hc Hi Hn Hd Ho Hin [A B U D].
  assert (∀ p v, serving s' p v = serving s p v) as Hs by (intros; unfold serving; by rewrite Hh).
  split; rewrite ?Hc, ?Hi.
  - intros r Hr%Hin. destruct (A r Hr) as [H1 H2]. split; [lia|]. setoid_rewrite Hs. done.
  - intros p v r. rewrite Hs. intros H. destruct (B p v r H) as (H1 & H2 & H3).
    split_and!; [lia..|]. by destruct (Ho r) as [?%(Hd p v r H)| ->].
  - intros r r' Hr%Hin Hr'%Hin. by apply U.
  - intros n p Hp%D. lia.
Qed.
Lemma read_inv_move e e' :
  heap (st e') = heap (st e) → closed (st e') = closed (st e) → interfaces (st e') = interfaces (st e) →
  (next (st e) <= next (st e'))%positive → sound (st e) →
  (∀ r, reader_done r ∈ closed (st e) ∨ occurs r (live_readers e') = occurs r (live_readers e)) →
  (∀ r, r ∈ live_readers e' ++ waiting e' → r ∈ live_readers e ++ waiting e) →
  read_inv e → read_inv e'.
Proof.
  intros Hh Hc Hi Hn S Ho Hin R.
  apply (ReadInv_move (away e, waiting e) (away e', waiting e') (st e) (st e')); try done.
  - intros p v r. by apply sound_done.
  - intros r Hr. unfold live_readers in Hin. cbn in *. rewrite !(assoc_L (++)) in *. by apply Hin.
Qed.

Section Steps.
Context `{KN : Kernel} `{!KernelOk KN}.

(** A turn of a reader's loop: it goes on, or its channel was found closed. *)
Lemma reader_turn_goes r res d : reader_turn r res d = LoopReturn → d = true.
Proof.
  unfold reader_turn, map_step, routerReadTurn, dhcpReadTurn, ndpReadTurn.
  destruct d; [done|]. by destruct r, res as [err|data oob from]; repeat case_match.
Qed.
Lemma reader_turn_posts r res d t : reader_turn r res d = LoopPost t → task_readers t = [r].
Proof.
  unfold reader_turn, map_step, routerReadTurn, dhcpReadTurn, ndpReadTurn.
  by destruct r, res as [err|data oob from]; repeat case_match; intros [= <-].
Qed.

Lemma resumed_rearm e : resumed RRearm e =
  set_st (set_timers (timers (st e) ++ [mkTimer (next (st e)) mirrorSweepInterval FnSweepTick])
    (set_next (Pos.succ (next (st e))) (st e))) e.
Proof. done. Qed.

Ltac move_tac :=
  rewrite ?resumed_rearm;
  unfold live_readers, away, waiting;
  cbn [st events posting receiving set_st set_events set_posting set_receiving set_flags readers
       set_readers set_timers set_next resumed];
  rewrite ?bind_app, ?bind_cons, ?occurs_app; cbn [mbind list_bind app fst snd resume_readers task_readers];
  rewrite ?app_nil_r, ?occurs_app, ?occurs_cons, ?occurs_nil.

Lemma run_read_inv e t rest s' :
  events e = t :: rest → runTask t (st e) = Ok (tt, s') → EngInv e → read_inv e →
  read_inv (set_st s' (set_events rest e)).
Proof.
  intros He Hr [S _ Ev _] R. rewrite He in Ev. inversion Ev as [|?? Hwf _]; subst.
  assert (read_inv (set_events rest e)) as R'.
  { apply (read_inv_move e); [done..| | | exact R].
    - intros r. by right.
    - intros r. unfold live_readers, waiting, away. rewrite He. cbn. set_solver. }
  pose proof (runTask_readers t Hwf _ _ R') as H. unfold wlp in H. cbn [st set_events] in H.
  by rewrite Hr in H.
Qed.
Lemma post_read_inv e l1 t r l2 :
  posting e = l1 ++ (t, r) :: l2 → EngInv e → read_inv e →
  read_inv (resumed r (set_events (events e ++ [t]) (set_posting (l1 ++ l2) e))).
Proof.
  intros Hp I R. apply (read_inv_move e); try exact R; try apply I; try by destruct r.
  - destruct r; try apply Pos.le_refl. rewrite resumed_rearm. cbn. lia.
  - intros x. right. destruct r; move_tac; rewrite Hp; move_tac; cbn; lia.
  - intros x. destruct r; unfold live_readers, waiting, away; rewrite Hp; move_tac; cbn; set_solver.
Qed.
Lemma check_read_inv e l1 r l2 :
  readers (st e) = l1 ++ r :: l2 → EngInv e → read_inv e →
  read_inv (let e' := set_st (set_readers (l1 ++ l2) (st e)) e in
            if bool_decide (reader_done r ∈ closed (st e)) then e' else set_receiving (receiving e ++ [r]) e').
Proof.
  intros Hrd I R. apply (read_inv_move e); try exact R; try apply I; try (by case_bool_decide).
  - intros x. destruct (decide (reader_done x ∈ closed (st e))) as [|Hx]; [by left|right].
    case_bool_decide as Hd; move_tac; rewrite Hrd; move_tac; [|lia].
    rewrite decide_False by (by intros ->). lia.
  - intros x. case_bool_decide as Hd; unfold live_readers, waiting, away; rewrite Hrd; move_tac; set_solver.
Qed.
Lemma receive_read_inv e l1 r l2 res :
  receiving e = l1 ++ r :: l2 → EngInv e → read_inv e →
  read_inv (after_turn r (reader_turn r res (bool_decide (reader_done r ∈ closed (st e))))
              (set_receiving (l1 ++ l2) e)).
Proof.
  intros Hrc I R.
  pose proof (reader_turn_goes r res (bool_decide (reader_done r ∈ closed (st e)))) as Hg.
  pose proof (reader_turn_posts r res (bool_decide (reader_done r ∈ closed (st e)))) as Hps.
  destruct (reader_turn _ _ _) as [| | |t]; cbn [after_turn]; apply (read_inv_move e); try exact R; try apply I;
    try done; try apply Pos.le_refl.
  - intros x. destruct (decide (reader_done x ∈ closed (st e))) as [|Hx]; [by left|right].
    specialize (Hg eq_refl). apply bool_decide_eq_true in Hg.
    move_tac; rewrite Hrc; move_tac. rewrite decide_False by (by intros ->). lia.
  - intros x. unfold live_readers, waiting, away; rewrite Hrc; move_tac; set_solver.
  - intros x. right. move_tac; rewrite Hrc; move_tac. cbn. lia.
  - intros x. unfold live_readers, waiting, away; rewrite Hrc; move_tac; set_solver.
  - intros x. right. move_tac; rewrite Hrc; move_tac. cbn. lia.
  - intros x. unfold live_readers, waiting, away; rewrite Hrc; move_tac; set_solver.
  - intros x. right. move_tac; rewrite Hrc; move_tac. cbn. lia.
  - intros x. specialize (Hps t eq_refl). unfold live_readers, waiting, away; rewrite Hrc; move_tac.
    rewrite Hps. set_solver.
Qed.

Lemma step_read_inv e e' : step e e' → EngInv e → read_inv e → read_inv e'.
Proof.
  intros Hs I R. destruct Hs as
    [e t rest s' Hrun He Hr | e l1 t r l2 Hp _ | e l1 x l2 Ht | e l1 r l2 Hrd
    | e l1 r l2 res Hrc Hv | e t Hm Hn | e Hsg].
  - by eapply run_read_inv.
  - by apply post_read_inv.
  - apply (read_inv_move e); try exact R; try apply I; try done; try apply Pos.le_refl.
    + intros r. right. move_tac. destruct (t_fn x); cbn; lia.
    + intros r. move_tac. destruct (t_fn x); cbn; set_solver.
  - by apply check_read_inv.
  - by apply receive_read_inv.
  - apply (read_inv_move e); try exact R; try apply I; try done; try apply Pos.le_refl.
    + intros r. right. move_tac. cbn. lia.
    + intros r. move_tac. destruct t; try done; cbn; set_solver.
  - apply (read_inv_move e); try exact R; try apply I; try done; try apply Pos.le_refl.
    + intros r. right. move_tac. cbn. lia.
    + intros r. move_tac. set_solver.
Qed.

Lemma reachable_read_inv e : reachable e → EngInv e ∧ read_inv e.
Proof.
  intros (e0 & H0 & Hs). assert (EngInv e0 ∧ read_inv e0) as I.
  { split; [by apply started_inv|]. destruct H0 as (s & s' & B & [= <-] & ->).
    assert (∀ p v, serving s p v = None) as Hn.
    { intros p v. unfold serving. rewrite (bo_heap _ B), lookup_total_empty. by destruct v. }
    split.
    - intros r. cbn. rewrite (bo_readers _ B). by intros ?%not_elem_of_nil.
    - intros p v r Hs'. change (serving s p v = Some r) in Hs'. by rewrite Hn in Hs'.
    - intros r r'. cbn. rewrite (bo_readers _ B). by intros ?%not_elem_of_nil.
    - intros n p. cbn. by rewrite (bo_interfaces _ B). }
  clear H0. induction Hs as [|e1 e2 e3 H12 _ IH]; [done|]. apply IH. destruct I as [I R].
  split; [by eapply step_inv | by eapply step_read_inv].
Qed.
End Steps.

(** ** Properties *)

Section Properties.
Context `{KN : Kernel} `{!KernelOk KN}.

(** C4: in every reachable state the socket of every service has exactly one
    reader goroutine, and the [done] channel of every other reader (running,
    in a system call, or about to post) is closed, so that it ends at its next
    check; the channel of a reader whose socket is in use is open. *)
Theorem engine_readers e :
  reachable e →
  (∀ p v r, serving (st e) p v = Some r →
     occurs r (live_readers e) = 1%nat ∧ reader_done r ∉ closed (st e)) ∧
  (∀ r, r ∈ live_readers e →
     (∃ p v, serving (st e) p v = Some r) ∨ reader_done r ∈ closed (st e)).
Proof.
  intros [I R]%reachable_read_inv. split.
  - intros p v r Hr. split; [by apply (rd_serving _ _ R p v r)|]. eapply sound_done; [apply I | exact Hr].
  - intros r Hr. destruct (rd_known _ _ R r) as [_ H]; [|tauto].
    unfold live_readers in Hr. cbn. rewrite (assoc_L (++)). set_solver.
Qed.

(** C5: in every reachable state, a packet still queued from a reader whose
    socket has been closed is dropped without any effect when its turn comes,
    even when the interface has a new socket by then: no memory is changed
    and nothing is sent, logged or asked of the kernel. *)
Theorem engine_stale_packets e t rest r :
  reachable e → events e = t :: rest → task_readers t = [r] → reader_done r ∈ closed (st e) →
  runTask t (st e) = Ok (tt, st e).
Proof.
  intros [I R]%reachable_read_inv He Ht Hd.
  assert (∀ p v r', serving (st e) p v = Some r' → reader_ptr r' ≠ reader_ptr r) as Hne.
  { intros p v r' Hr' Hp. assert (r' = r) as ->; [|by apply (sound_done _ _ _ _ (ei_sound _ I) Hr')].
    apply (rd_ptr _ _ R); [| |done].
    - destruct (rd_serving _ _ R p v r' Hr') as (_ & _ & Ho). cbn in *. rewrite (assoc_L (++)).
      apply elem_of_app. left. destruct (decide (r' ∈ readers (st e) ++ away e)) as [|Hn]; [done|].
      by rewrite (occurs_none _ _ Hn) in Ho.
    - cbn. unfold waiting. rewrite He. cbn. rewrite Ht. set_solver. }
  destruct t; try done; injection Ht as <-; cbn [runTask].
  - apply handleICMPv6_stale. left. intros r' Hr'.
    apply (Hne (rs_iface rs) VRouter (RouterReader r')). unfold serving. cbn. by rewrite Hr'.
  - apply handleDHCPv6_stale. left. intros r' Hr'.
    apply (Hne (ds_iface ds) VDhcp (DhcpReader r')). unfold serving. cbn. by rewrite Hr'.
  - apply handleSolicit_stale. left. intros r' Hr'.
    apply (Hne (ns_iface ns) VNdp (NdpReader r')). unfold serving. cbn. by rewrite Hr'.
Qed.
End Properties.

(** ** The properties at work *)

(** A Router Advertisement arrives on the master while a second [Reload] is
    already queued: its socket is replaced before the packet's turn. *)
Definition sample_race : list choice :=
  [CPost 0; CRun; CCheck 0; CSighup; CPost 0; CReceive 0 (Received sample_ra [] None); CPost 0; CRun].
Definition sample_raced : engine := @after sample_kernel sample_race sample_start.
Lemma sample_raced_reachable : @reachable sample_kernel sample_raced.
Proof. apply after_reachable; [apply sample_started | by vm_compute]. Qed.

(** The socket the packet came from, closed by then. *)
Definition sample_old : routerSock := mkRouterSock 4%positive 3 2%positive 5%positive.

Lemma engine_readers_witness :
  RouterReader sample_old ∈ live_readers sample_raced ∧
  (∀ p v, serving (st sample_raced) p v ≠ Some (RouterReader sample_old)) ∧
  ∃ r, serving (st sample_raced) (named (st sample_raced) "wan") VRouter = Some r ∧
    occurs r (live_readers sample_raced) = 1%nat ∧ reader_done r ∉ closed (st sample_raced).
Proof.
  destruct (engine_readers (KN := sample_kernel) sample_raced sample_raced_reachable) as [H1 H2].
  split_and!.
  - apply (bool_decide_eq_true_1 _). by vm_compute.
  - intros p v Hs. destruct (H1 p v _ Hs) as [_ Hc]. apply Hc.
    apply (bool_decide_eq_true_1 _). by vm_compute.
  - eexists. split; [by vm_compute|]. eapply (H1 (named (st sample_raced) "wan") VRouter). by vm_compute.
Defined.

Lemma engine_stale_packets_witness :
  router (heap (st sample_raced) !!! rs_iface sample_old) ≠ None ∧
  @runTask sample_kernel (TRouter sample_old sample_ra) (st sample_raced) = Ok (tt, st sample_raced).
Proof.
  split; [by vm_compute|].
  apply (engine_stale_packets (KN := sample_kernel) sample_raced (TRouter sample_old sample_ra) []
    (RouterReader sample_old)); [apply sample_raced_reachable | by vm_compute | done |].
  apply (bool_decide_eq_true_1 _). by vm_compute.
Defined.
