(* ===== verification/Liveness.v ===== *)
(** * What eventually happens

    Infinite executions of the daemon: under a scheduler that keeps giving the
    engine goroutine and the goroutines inside [Post] their turns, every
    closure handed to [Post] is run, in the order of the queue.  And the one
    situation in which the engine never starts ([Engine.Post] of [engine.go],
    called by [main.go] before [Run]). *)
From S2P Require Import Prelude Netip World Hoare Log Iface RawSock Sim Mirror Dhcpv6 Router Ndp Config Netlink Frame Resources Lifecycle Kept Reload Timers Engine.

Section Liveness.
Context `{KN : Kernel} `{!KernelOk KN}.

(** An execution: at every instant some goroutine makes a step, or none. *)
Record execution (σ : nat → engine) : Prop := mkExecution {
  ex_start : started (σ 0%nat);
  ex_step n : σ (S n) = σ n ∨ step (σ n) (σ (S n))
}.

(** The engine runs the closure [t]; a goroutine's [Post] returns. *)
Definition ran (t : task) (e e' : engine) : Prop :=
  ∃ rest s', running e = true ∧ events e = t :: rest ∧ runTask t (st e) = Ok (tt, s') ∧
    e' = set_st s' (set_events rest e).
Definition post_returned (p : task * resume) (e e' : engine) : Prop :=
  ∃ l1 l2, posting e = l1 ++ p :: l2 ∧
    e' = resumed p.2 (set_events (events e ++ [p.1]) (set_posting (l1 ++ l2) e)).

(** The engine goroutine gets a turn again and again: then it runs the next
    closure, if it can. *)
Definition engine_scheduled (σ : nat → engine) : Prop :=
  ∀ n, ∃ m, (n ≤ m)%nat ∧ ∀ t e', ran t (σ m) e' → σ (S m) = e'.
(** A goroutine inside [Post] is not passed over for ever while there is room
    in the channel again and again. *)
Definition posters_scheduled (σ : nat → engine) : Prop :=
  ∀ n p, p ∈ posting (σ n) →
    (∀ i, ∃ m, (i ≤ m)%nat ∧ (length (events (σ m)) < eventsCap)%nat) →
    ∃ m, (n ≤ m)%nat ∧ post_returned p (σ m) (σ (S m)).

Lemma execution_reachable σ n : execution σ → reachable (σ n).
Proof.
  intros X. exists (σ 0%nat). split; [apply X|]. induction n as [|n IH]; [reflexivity|].
  destruct (ex_step _ X n) as [-> | Hs]; [done|]. by apply rtc_r with (σ n).
Qed.

(** One step, seen by the queue: a closure joins it, the first one is run, or
    nothing. *)
Lemma events_resumed r e : events (resumed r e) = events e.
Proof. by destruct r. Qed.
Lemma step_queue e e' :
  step e e' →
  (∃ t, ran t e e') ∨
  (∃ p, post_returned p e e' ∧ (length (events e) < eventsCap)%nat) ∨
  events e' = events e ∧ running e' = running e ∧ (∀ p, p ∈ posting e → p ∈ posting e').
Proof.
  intros Hs. destruct Hs as [e t rest s' Hrun He Hr | e l1 t r l2 Hp Hl | e l1 x l2 Ht | e l1 r l2 Hrd
    | e l1 r l2 res Hrc Hv | e t Hm Hn | e Hsg].
  - left. exists t, rest, s'. done.
  - right; left. exists (t, r). split; [by exists l1, l2 | done].
  - do 2 right. split_and!; [done..|]. cbn. set_solver.
  - do 2 right. by case_bool_decide.
  - do 2 right. destruct (reader_turn _ _ _); split_and!; try done. cbn. set_solver.
  - do 2 right. split_and!; [done..|]. cbn. set_solver.
  - do 2 right. split_and!; [done..|]. cbn. set_solver.
Qed.
Lemma ran_queue t e e' : ran t e e' → events e = t :: events e' ∧ running e' = true.
Proof. intros (rest & s' & Hr & -> & _ & ->). done. Qed.
Lemma post_queue p e e' :
  post_returned p e e' → events e' = events e ++ [p.1] ∧ (running e = true → running e' = true).
Proof. intros (l1 & l2 & _ & ->). rewrite events_resumed. split; [done|]. by destruct p as [t []]. Qed.

(** The channel never holds more than its capacity, and the engine, once
    started, runs for ever. *)
Lemma step_bounded e e' :
  step e e' → (length (events e) ≤ eventsCap)%nat → (length (events e') ≤ eventsCap)%nat.
Proof.
  intros [(t & Ht)|[(p & Hp & Hl)|(Hq & _)]]%step_queue Hb.
  - destruct (ran_queue _ _ _ Ht) as [Hq _]. rewrite Hq in Hb. cbn in Hb. lia.
  - destruct (post_queue _ _ _ Hp) as [-> _]. rewrite length_app. cbn. lia.
  - by rewrite Hq.
Qed.
Lemma reachable_bounded e : reachable e → (length (events e) ≤ eventsCap)%nat.
Proof.
  intros (e0 & (s & s' & _ & _ & ->) & Hs).
  assert (length (events (mkEngine s' [] [(TReload, RMain)] [] true true false)) ≤ eventsCap)%nat as H
    by (cbn; lia). revert H.
  induction Hs as [|e1 e2 e3 H12 _ IH]; [done|]. intros H. by eapply IH, step_bounded.
Qed.
Lemma running_stays σ n m : execution σ → (n ≤ m)%nat → running (σ n) = true → running (σ m) = true.
Proof.
  intros X Hnm Hr. induction Hnm as [|m _ IH]; [done|].
  destruct (ex_step _ X m) as [-> | Hs]; [done|].
  apply step_queue in Hs as [(t & Ht)|[(p & Hp & Hl)|(_ & Hq & _)]].
  - by apply (ran_queue _ _ _ Ht).
  - by apply (post_queue _ _ _ Hp).
  - by rewrite Hq.
Qed.

(** A queued closure is run, or comes no further from the head. *)
Lemma queue_one σ n k t :
  execution σ → events (σ n) !! k = Some t →
  ran t (σ n) (σ (S n)) ∨ ∃ k', (k' ≤ k)%nat ∧ events (σ (S n)) !! k' = Some t.
Proof.
  intros X Hk. destruct (ex_step _ X n) as [-> | Hs]; [right; eauto|].
  apply step_queue in Hs as [(t0 & Ht)|[(p & Hp & Hl)|(Hq & _)]].
  - destruct (ran_queue _ _ _ Ht) as [He _]. rewrite He in Hk. destruct k as [|k]; cbn in Hk.
    + injection Hk as <-. by left.
    + right. exists k. split; [lia | done].
  - right. exists k. split; [done|]. destruct (post_queue _ _ _ Hp) as [-> _].
    by apply lookup_app_l_Some.
  - right. exists k. by rewrite Hq.
Qed.
Lemma queue_until σ n m k t :
  execution σ → (n ≤ m)%nat → events (σ n) !! k = Some t →
  (∃ j, (n ≤ j)%nat ∧ ran t (σ j) (σ (S j))) ∨ ∃ k', (k' ≤ k)%nat ∧ events (σ m) !! k' = Some t.
Proof.
  intros X Hnm Hk. induction Hnm as [|m Hnm IH]; [right; eauto|].
  destruct IH as [|(k1 & Hk1 & H1)]; [by left|].
  destruct (queue_one σ m k1 t X H1) as [|(k2 & Hk2 & H2)]; [left; eauto|].
  right. exists k2. split; [lia | done].
Qed.
(** A turn of the engine with a closure in the queue. *)
Lemma engine_turn σ m :
  execution σ → running (σ m) = true → events (σ m) ≠ [] →
  (∀ t e', ran t (σ m) e' → σ (S m) = e') → ∃ t, ran t (σ m) (σ (S m)).
Proof.
  intros X Hr Hne Hturn. destruct (events (σ m)) as [|t rest] eqn:He; [done|].
  destruct (reachable_inv _ (execution_reachable σ m X)) as [S T Ev _]. rewrite He in Ev.
  inversion Ev as [|?? Hwf _]; subst. unfold queued in T. rewrite He, bind_cons, <- (assoc_L (++)) in T.
  destruct (wp_elim _ _ _ (runTask_inv _ _ _ S T Hwf)) as ([] & s' & Hrun & _).
  assert (ran t (σ m) (set_st s' (set_events rest (σ m)))) as Ht by (by exists rest, s').
  exists t. by rewrite (Hturn _ _ Ht).
Qed.
Lemma queued_runs σ n k t :
  execution σ → engine_scheduled σ → running (σ n) = true → events (σ n) !! k = Some t →
  ∃ m, (n ≤ m)%nat ∧ ran t (σ m) (σ (S m)).
Proof.
  intros X F. revert n. induction (lt_wf k) as [k _ IH]. intros n Hr Hk.
  destruct (F n) as (m & Hnm & Hturn).
  destruct (queue_until σ n m k t X Hnm Hk) as [|(k1 & Hk1 & H1)]; [done|].
  pose proof (running_stays σ n m X Hnm Hr) as Hrm.
  destruct (engine_turn σ m X Hrm) as (t0 & Ht0); [by intros E; rewrite E in H1 | done|].
  destruct (ran_queue _ _ _ Ht0) as [He Hr']. rewrite He in H1. destruct k1 as [|k1]; cbn in H1.
  - injection H1 as ->. eauto.
  - destruct (IH k1 ltac:(lia) (S m) Hr' H1) as (j & Hj & Hran). exists j. split; [lia | done].
Qed.

(** The channel has room again and again. *)
Lemma room_again σ n :
  execution σ → engine_scheduled σ → running (σ n) = true →
  ∀ i, ∃ m, (i ≤ m)%nat ∧ (length (events (σ m)) < eventsCap)%nat.
Proof.
  intros X F Hr i. destruct (F (n `max` i)%nat) as (m & Hm & Hturn).
  destruct (decide (length (events (σ m)) < eventsCap)%nat) as [|Hfull]; [exists m; split; [lia | done]|].
  pose proof (running_stays σ n m X ltac:(lia) Hr) as Hrm.
  destruct (engine_turn σ m X Hrm) as (t & Ht); [|done|].
  { intros E. rewrite E in Hfull. unfold eventsCap in Hfull. cbn in Hfull. lia. }
  exists (S m). split; [lia|]. destruct (ran_queue _ _ _ Ht) as [He _].
  pose proof (reachable_bounded _ (execution_reachable σ m X)) as Hb. rewrite He in Hb. cbn in Hb. lia.
Qed.
Lemma posted_runs σ n p :
  execution σ → engine_scheduled σ → posters_scheduled σ → running (σ n) = true → p ∈ posting (σ n) →
  ∃ m, (n ≤ m)%nat ∧ ran p.1 (σ m) (σ (S m)).
Proof.
  intros X F G Hr Hp. destruct (G n p Hp (room_again σ n X F Hr)) as (m & Hnm & Hret).
  destruct (post_queue _ _ _ Hret) as [He Hr'].
  destruct (queued_runs σ (S m) (length (events (σ m))) p.1 X F) as (j & Hj & Hran).
  - apply Hr'. by apply (running_stays σ n m).
  - rewrite He. by rewrite lookup_app_r, Nat.sub_diag by lia.
  - exists j. split; [lia | done].
Qed.

(** ** The engine that never starts *)

(** The monitor has filled the channel while the main goroutine is still
    inside its first [Post]: nobody can move the queue. *)
Definition jammed (e : engine) : Prop :=
  running e = false ∧ (eventsCap ≤ length (events e))%nat.
Lemma jammed_step e e' : step e e' → jammed e → jammed e' ∧ events e' = events e.
Proof.
  intros [(t & Ht)|[(p & Hp & Hl)|(Hq & Hr & _)]]%step_queue [J1 J2].
  - destruct Ht as (? & ? & Hr & _). congruence.
  - lia.
  - unfold jammed. by rewrite Hr, Hq.
Qed.
Lemma jammed_forever e e' : rtc step e e' → jammed e → jammed e' ∧ events e' = events e.
Proof.
  induction 1 as [|e1 e2 e3 H12 _ IH]; [done|]. intros [J E]%(jammed_step e1 e2 H12).
  destruct (IH J) as [J' E']. split; [done | congruence].
Qed.

(** The monitor passing on [n] events while the main goroutine does not get its turn. *)
Definition flooded (s : St) (t : task) (n : nat) : engine :=
  mkEngine s (replicate n t) [(TReload, RMain)] [] true true false.
Lemma flood_step s t n :
  netlink_task t → (n < eventsCap)%nat → rtc step (flooded s t n) (flooded s t (S n)).
Proof.
  intros Ht Hn. eapply rtc_l; [by apply (StepMonitor (flooded s t n) t)|]. apply rtc_once.
  assert (flooded s t (S n) = resumed RMonitor (set_events (replicate n t ++ [t])
    (set_posting ([(TReload, RMain)] ++ []) (set_flags false true false (flooded s t n))))) as ->.
  { unfold flooded. cbn. by rewrite <- replicate_S_end. }
  by apply (StepPost (set_flags false true false (set_posting [(TReload, RMain); (t, RMonitor)]
    (flooded s t n))) [(TReload, RMain)] t RMonitor []); [|cbn; rewrite length_replicate].
Qed.
Lemma flood s t n :
  netlink_task t → (n ≤ eventsCap)%nat → rtc step (flooded s t 0) (flooded s t n).
Proof.
  intros Ht. induction n as [|n IH]; intros Hn; [reflexivity|].
  etransitivity; [apply IH; lia | by apply flood_step].
Qed.
End Liveness.

(** ** Properties *)

Section Properties.
Context `{KN : Kernel} `{!KernelOk KN}.

(** C9: once the engine runs, every closure in the queue and every closure a
    goroutine is posting is eventually run, whatever the other goroutines,
    the network and the kernel do, provided the scheduler keeps giving the
    engine its turns and does not pass over a goroutine in [Post] for ever. *)
Theorem engine_live σ n :
  execution σ → engine_scheduled σ → posters_scheduled σ → running (σ n) = true →
  (∀ t, t ∈ events (σ n) → ∃ m, (n ≤ m)%nat ∧ ran t (σ m) (σ (S m))) ∧
  (∀ t r, (t, r) ∈ posting (σ n) → ∃ m, (n ≤ m)%nat ∧ ran t (σ m) (σ (S m))).
Proof.
  intros X F G Hr. split.
  - intros t [k Hk]%list_elem_of_lookup. by eapply queued_runs.
  - intros t r Hp. by apply (posted_runs σ n (t, r)).
Qed.

(** C32: the daemon can start without its engine ever running: [main] posts the
    first [Reload] before it calls [Run], so if the netlink monitor fills the
    channel first, [main] waits in [Post] for ever and no event is handled
    again. *)
Theorem startup_deadlock s t :
  booting s → netlink_task t →
  ∃ e, reachable e ∧ (TReload, RMain) ∈ posting e ∧ length (events e) = eventsCap ∧
    ∀ e', rtc step e e' → running e' = false ∧ events e' = events e.
Proof.
  intros B Ht. unfold reachable, started.
  set (s' := set_timers (timers s ++ [mkTimer (next s) mirrorSweepInterval FnSweepTick])
    (set_next (Pos.succ (next s)) s)).
  exists (flooded s' t eventsCap). split_and!.
  - exists (flooded s' t 0). split; [by exists s, s' | by apply flood].
  - cbn. set_solver.
  - apply length_replicate.
  - intros e' Hs. assert (jammed (flooded s' t eventsCap)) as J.
    { split; [done|]. cbn [flooded events]. by rewrite length_replicate. }
    by destruct (jammed_forever _ _ Hs J) as [[? _] ?].
Qed.
End Properties.

(** ** The properties at work *)

(** A schedule as an execution, then silence. *)
Section Schedule.
Context `{KN : Kernel} (cs : list choice) (e : engine).
Hypotheses (He : started e) (Hp : possible cs e = true).

Definition scheduled (n : nat) : engine := after (take n cs) e.
Lemma exec_prefix cs' e' n : possible cs' e' = true → is_Some (exec (take n cs') e').
Proof.
  revert e' n. induction cs' as [|c0 cs' IH]; intros e' [|n] Hpos; cbn; [by eexists..|].
  unfold possible in Hpos. cbn in Hpos. destruct (exec1 c0 e') as [e1|]; [|done]. by apply IH.
Qed.
Lemma exec_take cs' e' n c :
  possible cs' e' = true → cs' !! n = Some c →
  exec1 c (after (take n cs') e') = Some (after (take (S n) cs') e').
Proof.
  revert e' n. induction cs' as [|c0 cs' IH]; intros e' n Hpos Hn; [done|].
  unfold possible in Hpos. cbn [exec] in Hpos. destruct (exec1 c0 e') as [e1|] eqn:E1; [|done]. cbn in Hpos.
  destruct n as [|n]; cbn in Hn.
  - injection Hn as <-. unfold after. cbn. by rewrite E1.
  - specialize (IH e1 n Hpos Hn). unfold after in *. cbn [take exec]. rewrite E1. cbn [mbind option_bind].
    destruct (exec_prefix cs' e1 n Hpos) as [x Hx], (exec_prefix cs' e1 (S n) Hpos) as [y Hy].
    by rewrite Hx, Hy in *.
Qed.
Lemma scheduled_step n c : cs !! n = Some c → exec1 c (scheduled n) = Some (scheduled (S n)).
Proof. by apply exec_take. Qed.
Lemma scheduled_end n : (length cs ≤ n)%nat → scheduled n = scheduled (length cs).
Proof. intros Hn. unfold scheduled. by rewrite !take_ge. Qed.
Lemma scheduled_execution : execution scheduled.
Proof.
  split; [exact He|]. intros n. destruct (cs !! n) as [c|] eqn:Hn.
  - right. by eapply exec1_step, scheduled_step.
  - apply lookup_ge_None in Hn. left. by rewrite (scheduled_end n), (scheduled_end (S n)) by lia.
Qed.
Lemma scheduled_post n p l :
  cs !! n = Some (CPost 0) → posting (scheduled n) = p :: l →
  post_returned p (scheduled n) (scheduled (S n)).
Proof.
  intros Hn Hl. pose proof (scheduled_step _ _ Hn) as H. cbn [exec1] in H. rewrite Hl in H.
  destruct p as [t r]. cbn in H. case_match; [|done]. injection H as <-.
  by exists [], l.
Qed.
Lemma scheduled_quiet : events (scheduled (length cs)) = [] → engine_scheduled scheduled.
Proof.
  intros Hq n. exists (n `max` length cs)%nat. split; [lia|]. intros t e' (rest & s' & _ & Hev & _).
  rewrite scheduled_end, Hq in Hev by lia. done.
Qed.
End Schedule.

(** Booting on the sample network, then [SIGHUP], then silence. *)
Definition sample_path : list choice := [CPost 0; CRun; CSighup; CPost 0; CRun].
Definition sample_run : nat → engine := scheduled (KN := sample_kernel) sample_path sample_start.

Lemma sample_possible : possible (KN := sample_kernel) sample_path sample_start = true.
Proof. by vm_compute. Qed.
Lemma sample_execution : execution (KN := sample_kernel) sample_run.
Proof. apply scheduled_execution; [apply sample_started | apply sample_possible]. Qed.
Lemma sample_postings :
  ((λ n, posting (sample_run n)) <$> seq 0 6) = [[(TReload, RMain)]; []; []; [(TReload, RSignal)]; []; []].
Proof. by vm_compute. Qed.
Lemma sample_post n p :
  sample_path !! n = Some (CPost 0) → posting (sample_run n) = [p] →
  post_returned p (sample_run n) (sample_run (S n)).
Proof. exact (scheduled_post _ _ sample_possible n p []). Qed.
Lemma sample_posters : posters_scheduled sample_run.
Proof.
  intros n p Hin _.
  assert (((λ n, posting (sample_run n)) <$> seq 0 6) !! (n `min` 5)%nat = Some (posting (sample_run n))) as Hl.
  { rewrite list_lookup_fmap, lookup_seq_lt by lia. cbn [fmap option_fmap option_map Nat.add]. do 2 f_equal.
    destruct (decide (n ≤ 5)%nat); [by rewrite Nat.min_l|]. rewrite Nat.min_r by lia.
    symmetry. apply (scheduled_end sample_path sample_start). cbn. lia. }
  rewrite sample_postings in Hl. apply (f_equal (default [])) in Hl. cbn [from_option id] in Hl.
  exists n. split; [done|].
  destruct (decide (n < 5)%nat) as [Hn|Hn].
  - rewrite Nat.min_l in Hl by lia.
    do 5 (destruct n as [|n]; [rewrite <- Hl in Hin; cbn in Hin;
      first [solve [inversion Hin] | apply list_elem_of_singleton in Hin as ->;
             apply sample_post; [reflexivity | rewrite <- Hl; reflexivity]]|]). clear -Hn. lia.
  - rewrite Nat.min_r in Hl by lia. rewrite <- Hl in Hin. inversion Hin.
Qed.

Lemma engine_live_witness :
  events (sample_run 1) = [TReload] ∧ posting (sample_run 3) = [(TReload, RSignal)] ∧
  (∃ m, (1 ≤ m)%nat ∧ ran (KN := sample_kernel) TReload (sample_run m) (sample_run (S m))) ∧
  (∃ m, (3 ≤ m)%nat ∧ ran (KN := sample_kernel) TReload (sample_run m) (sample_run (S m))).
Proof.
  assert (engine_scheduled (KN := sample_kernel) sample_run) as F
    by (apply scheduled_quiet; by vm_compute).
  split_and!; [by vm_compute | by vm_compute | |].
  - apply (engine_live (KN := sample_kernel) sample_run 1 sample_execution F sample_posters); [by vm_compute|].
    assert (events (sample_run 1) = [TReload]) as -> by by vm_compute. apply list_elem_of_here.
  - apply (engine_live (KN := sample_kernel) sample_run 3 sample_execution F sample_posters) with RSignal;
      [by vm_compute|].
    assert (posting (sample_run 3) = [(TReload, RSignal)]) as -> by by vm_compute. apply list_elem_of_here.
Defined.

Lemma startup_deadlock_witness :
  ∃ e, @reachable sample_kernel e ∧ (TReload, RMain) ∈ posting e ∧ length (events e) = eventsCap ∧
    ∀ e', rtc (@step sample_kernel) e e' → running e' = false ∧ events e' = events e.
Proof.
  apply (startup_deadlock (KN := sample_kernel) sample_boot (TNeigh (mkNeighUpdate unix.RTM_NEWNEIGH 3 0 [])));
    [by split | constructor].
Defined.
