(* ===== verification/Configured.v ===== *)
(** * What a configuration means

    [Reload] ([config.go]) against the configuration file it reads: which of
    the configured interfaces are registered afterwards, and with which
    options; which options the file no longer mentions fall back to their
    default, and which do not; when masters without a slave are disabled. *)
From S2P Require Import Prelude Netip World Hoare Log Iface RawSock Sim Mirror Dhcpv6 Router Ndp Config Netlink Frame Resources Lifecycle Kept Reload Timers Engine.

Definition relays (i : Interface) : Prop := RA i = ModeRelay ∧ DHCPv6 i = ModeRelay ∧ NDP i = ModeRelay.
Definition relays_nothing (i : Interface) : Prop :=
  RA i = ModeDisabled ∧ DHCPv6 i = ModeDisabled ∧ NDP i = ModeDisabled.

(** An interface no entry has been applied to yet; [m]: it was a master. *)
Definition unread (m : bool) (i : Interface) : Prop :=
  Inuse i = false ∧ LearnRoutes i = true ∧ NdpFromLinkLocal i = true ∧ Master i = m.
(** An interface with the options of the entry [o], defaults for the others;
    but [Master] falls back to what it was before. *)
Definition configured (o : jsonIface) (m : bool) (i : Interface) : Prop :=
  Inuse i = true ∧
  LearnRoutes i = default true (ji_NdproxyRouting o) ∧
  NdpFromLinkLocal i = default true (ji_NdpFromLinkLocal o) ∧
  Master i = default m (ji_Master o) ∧
  ∀ x, ji_Ifname o = Some x → Ifname i = x.

(** The options, as [cfg] has them. *)
Definition options (i : Interface) :=
  (Master i, LearnRoutes i, NdpFromLinkLocal i, Inuse i, (RA i, DHCPv6 i, NDP i)).
Lemma cfg_options i j : cfg i = cfg j → options i = options j ∧ Ifname i = Ifname j.
Proof. unfold cfg, options. intros H. injection H; intros. split; congruence. Qed.
Lemma options_relays i j : options i = options j → relays i ↔ relays j.
Proof. unfold options, relays. intros H. injection H; intros. split; intros (? & ? & ?); split_and!; congruence. Qed.
Lemma options_relays_nothing i j : options i = options j → relays_nothing i ↔ relays_nothing j.
Proof.
  unfold options, relays_nothing. intros H. injection H; intros. split; intros (? & ? & ?); split_and!; congruence.
Qed.
Lemma options_unread m i j : options i = options j → unread m i → unread m j.
Proof. unfold options, unread. intros H. injection H; intros. destruct_and!; split_and!; congruence. Qed.
Lemma cfg_configured o m i j : cfg i = cfg j → configured o m i → configured o m j.
Proof.
  intros [H1 H2]%cfg_options. unfold options in H1. injection H1; intros. unfold configured in *.
  destruct_and!. split_and!; [congruence..|]. intros x Hx. rewrite <- H2. auto.
Qed.
Lemma applyOptions_options o i :
  options (applyOptions o i) = (default (Master i) (ji_Master o), default (LearnRoutes i) (ji_NdproxyRouting o),
    default (NdpFromLinkLocal i) (ji_NdpFromLinkLocal o), true, (RA i, DHCPv6 i, NDP i)) ∧
  Ifname (applyOptions o i) = Ifname i.
Proof. unfold applyOptions, options. by destruct o as [? [] [] []]. Qed.
Lemma unread_configured o m i :
  unread m i → (∀ x, ji_Ifname o = Some x → Ifname i = x) → configured o m (applyOptions o i).
Proof.
  intros (_ & HL & HN & HM) Hx. destruct (applyOptions_options o i) as [H1 H2].
  unfold options in H1. injection H1 as E1 E2 E3 E4 _ _ _. unfold configured.
  rewrite E1, E2, E3, E4, H2, HL, HN, HM. done.
Qed.
Lemma applyOptions_relays o i : relays (applyOptions o i) ↔ relays i.
Proof.
  destruct (applyOptions_options o i) as [H1 _]. unfold options in H1. injection H1 as _ _ _ _ E1 E2 E3.
  unfold relays. by rewrite E1, E2, E3.
Qed.

Section Configured.
Context `{KN : Kernel} `{!KernelOk KN}.

(** The link an entry names can always be found; can never be. *)
Definition found (o : jsonIface) : Prop :=
  ∃ x, ji_Ifname o = Some x ∧ ∀ h, ∃ l, k_linkByName h x = inr l.
Definition missing (o : jsonIface) : Prop :=
  ∃ x, ji_Ifname o = Some x ∧ ∀ h, ∃ e, k_linkByName h x = inl e.

(** ** One entry *)

(** What an operation on [p] leaves of the configuration. *)
Definition others_same (p : loc) (s s' : St) : Prop :=
  interfaces s' = interfaces s ∧ ∀ q, q ≠ p → cfg (heap s' !!! q) = cfg (heap s !!! q).

Lemma others_trans p s1 s2 s3 : others_same p s1 s2 → others_same p s2 s3 → others_same p s1 s3.
Proof. intros [A B] [A' B']. split; [congruence|]. intros q Hq. by rewrite B', B. Qed.
Lemma others_assign p f s : others_same p s (set_heap (<[p := f (heap s !!! p)]> (heap s)) s).
Proof.
  split; [done|]. intros q Hq. cbn [heap set_heap]. by rewrite lookup_total_assign, decide_False.
Qed.

Lemma bindInterface_options p x l s :
  wlp (bindInterface p x l) (λ _ s', others_same p s s' ∧
    options (heap s' !!! p) = options (heap s !!! p) ∧ Ifname (heap s' !!! p) = x) s.
Proof.
  unfold bindInterface. apply wlp_bind, wlp_deref, wlp_bind.
  apply (wlp_keeps same_cfg).
  { apply keeps_when; [typeclasses eauto|].
    apply keeps_bind; [typeclasses eauto | apply disableServices_cfg|].
    intros []. apply keeps_frame_cfg, clearMirroredState_frame. }
  intros [] s1 C1. apply wlp_bind, wlp_assign.
  apply (wlp_keeps same_cfg); [apply keeps_frame_cfg, refreshInterfaceAddresses_frame|].
  intros [] s2 C2. destruct C1 as [I1 F1], C2 as [I2 F2].
  destruct (cfg_options _ _ (F2 p)) as [H1 H2]. destruct (cfg_options _ _ (F1 p)) as [H3 _].
  cbn [heap set_heap interfaces] in *. rewrite lookup_total_assign, decide_True in H1, H2 by done.
  split; [split|split].
  - congruence.
  - intros q Hq. rewrite F2, lookup_total_assign, decide_False by done. apply F1.
  - rewrite H1. exact H3.
  - by rewrite H2.
Qed.

(** What [parseInterfaceJSON] starts from: the interface registered under the
    name, or a new one. *)
Definition new_interface (n : string) : Interface :=
  mkInterface n "" 0 false false true true false [] AddrNone false false
    ModeRelay ModeRelay ModeRelay None None None 0 None 0.
Definition entered (n : string) (p : loc) (s s' : St) : Prop :=
  (interfaces s !! n = Some p ∧ s' = s) ∨
  (interfaces s !! n = None ∧ p = next s ∧ interfaces s' = <[n := p]> (interfaces s) ∧
   heap s' !!! p = new_interface n ∧ ∀ q, q ≠ p → heap s' !!! q = heap s !!! q).
Lemma findOrCreateInterface_enters n s :
  wlp (findOrCreateInterface n) (λ p s', entered n p s s') s.
Proof.
  unfold findOrCreateInterface. apply wlp_bind, wp_to_wlp, wp_get. apply wp_to_wlp.
  destruct (interfaces s !! n) as [p|] eqn:En; [by left|].
  apply wp_bind, wp_alloc, wp_bind, wp_assign, wp_bind, wp_assign, wp_bind, wp_modify, wp_ret. right.
  split_and!; try done.
  - cbn. by rewrite lookup_total_insert_eq, lookup_total_assign, decide_True.
  - intros q Hq. cbn. by rewrite !lookup_total_assign, !decide_False.
Qed.

(** The entry [o] for [n] is applied, or its link was not found. *)
Definition parsed (n : string) (o : jsonIface) (s s' : St) : Prop :=
  ∃ p s1, entered n p s s1 ∧ others_same p s1 s' ∧
    ((cfg (heap s' !!! p) = cfg (heap s1 !!! p) ∧ ¬ found o) ∨
     (∃ j, heap s' !!! p = applyOptions o j ∧ options j = options (heap s1 !!! p) ∧
        (∀ x, ji_Ifname o = Some x → Ifname j = x) ∧ ¬ missing o)).
Lemma parseInterfaceJSON_parsed n o s : wlp (parseInterfaceJSON n o) (λ _ s', parsed n o s s') s.
Proof.
  unfold parseInterfaceJSON. apply wlp_bind.
  eapply wlp_mono; [apply findOrCreateInterface_enters|]. cbv beta. intros p s1 E.
  apply wlp_bind, wlp_deref. destruct (ji_Ifname o) as [x|] eqn:Ex.
  - apply wlp_bind, wp_to_wlp, wp_sys. intros r Hr. set (s2 := set_trace _ s1).
    destruct r as [e|l].
    + apply wlp_ret. exists p, s1. split; [done|]. split; [by split|]. left. split; [done|].
      intros (y & Hy & Hf). rewrite Ex in Hy. injection Hy as <-. destruct (Hf (trace s1)) as [l Hl]. congruence.
    + apply wlp_bind. eapply wlp_mono; [apply bindInterface_options|]. cbv beta.
      intros [] s3 (O3 & P3 & N3). apply wlp_bind, wlp_assign, wlp_ret. exists p, s1. split; [done|].
      split; [by eapply others_trans; [|apply others_assign]|]. right. exists (heap s3 !!! p).
      split_and!; [cbn; by rewrite lookup_total_insert_eq | done | congruence|].
      intros (y & Hy & Hf). rewrite Ex in Hy. injection Hy as <-. destruct (Hf (trace s1)) as [e He]. congruence.
  - destruct (bool_decide _).
    + apply wlp_ret. exists p, s1. split; [done|]. split; [by split|]. left. split; [done|].
      intros (y & Hy & _). congruence.
    + apply wlp_bind, wlp_assign, wlp_ret. exists p, s1. split; [done|]. split; [apply others_assign|].
      right. exists (heap s1 !!! p). split_and!; [cbn; by rewrite lookup_total_insert_eq | done | congruence|].
      intros (y & Hy & _). congruence.
Qed.

(** ** All entries *)

(** [prev]: who was registered before, and as a master; [done]: the entries
    read. *)
Definition role (prev : gmap string bool) (n : string) : bool := default false (prev !! n).
Record loading (prev : gmap string bool) (done : list (string * jsonIface)) (s : St) : Prop := mkLoading {
  ld_good : good None s;
  ld_each n p : interfaces s !! n = Some p →
    relays (heap s !!! p) ∧
    ((unread (role prev n) (heap s !!! p) ∧ ∀ o, (n, o) ∈ done → ¬ found o) ∨
     ∃ o, (n, o) ∈ done ∧ ¬ missing o ∧ configured o (role prev n) (heap s !!! p));
  ld_found n o : (n, o) ∈ done → found o → is_Some (interfaces s !! n);
  ld_prev n : interfaces s !! n = None → prev !! n = None;
  ld_new n : is_Some (interfaces s !! n) → is_Some (prev !! n) ∨ n ∈ done.*1
}.

Lemma entered_each prev done n p s s1 :
  loading prev done s → n ∉ done.*1 → entered n p s s1 →
  unread (role prev n) (heap s1 !!! p) ∧ relays (heap s1 !!! p) ∧ interfaces s1 !! n = Some p ∧
  (∀ m q, m ≠ n → interfaces s1 !! m = Some q ↔ interfaces s !! m = Some q) ∧
  ∀ m q, m ≠ n → interfaces s !! m = Some q → q ≠ p ∧ heap s1 !!! q = heap s !!! q.
Proof.
  intros [G E F V W] Hn [[Hp ->]|(Hp & -> & Hi & Hh & Hq)].
  - destruct (E n p Hp) as [R [[U _]|(o & Ho & _)]].
    + split_and!; try done. intros m q Hm Hq. split; [|done]. intros ->. apply Hm.
      destruct G as [_ [N _]]. destruct (N _ _ Hp) as [<- _], (N _ _ Hq) as [<- _]. done.
    + destruct Hn. apply list_elem_of_fmap. by exists (n, o).
  - rewrite Hi, Hh. split_and!; [by unfold role; rewrite (V n Hp) | done | apply lookup_insert_eq | |].
    + intros m q Hm. by rewrite lookup_insert_ne by done.
    + intros m q Hm Hmq. destruct G as [_ [N _]]. destruct (N _ _ Hmq) as [_ Hlt].
      assert (q ≠ next s) by (intros ->; lia). split; [done | by apply Hq].
Qed.

Lemma loading_step prev done n o s s' :
  loading prev done s → n ∉ done.*1 → parsed n o s s' → good None s' → loading prev (done ++ [(n, o)]) s'.
Proof.
  intros L Hn (p & s1 & He & [Hi Ho] & Hp) G'.
  destruct (entered_each _ _ _ _ _ _ L Hn He) as (U & R & Hnp & Hreg & Hother).
  destruct L as [G E F V W].
  assert (∀ x, (n, x) ∈ done ++ [(n, o)] ↔ x = o) as Hx.
  { intros x. rewrite elem_of_app, list_elem_of_singleton. split; [|intros ->; by right].
    intros [Hin|[= ->]]; [|done]. destruct Hn. apply list_elem_of_fmap. by exists (n, x). }
  assert (∀ m x, m ≠ n → (m, x) ∈ done ++ [(n, o)] ↔ (m, x) ∈ done) as Hy.
  { intros m x Hm. rewrite elem_of_app, list_elem_of_singleton. naive_solver. }
  split; [done| | | |]; rewrite ?Hi.
  - intros m q Hm. destruct (decide (m = n)) as [->|Hne].
    + rewrite Hnp in Hm. injection Hm as <-. setoid_rewrite Hx.
      destruct Hp as [[Hc Hf]|(j & -> & Hj & Hfn & Hms)].
      * destruct (cfg_options _ _ Hc) as [Hc' _]. symmetry in Hc'.
        split; [by apply (options_relays _ _ Hc')|]. left.
        split; [by eapply options_unread|]. by intros ? ->.
      * symmetry in Hj. split; [by apply applyOptions_relays, (options_relays _ _ Hj)|]. right. exists o.
        split_and!; [done..|]. apply unread_configured; [by eapply options_unread | done].
    + apply Hreg in Hm as Hm'; [|done]. destruct (Hother m q Hne Hm') as [Hqp Hh].
      destruct (E m q Hm') as [R' E']. rewrite <- Hh in R', E'. specialize (Ho q Hqp). symmetry in Ho.
      destruct (cfg_options _ _ Ho) as [Ho' _]. split; [by apply (options_relays _ _ Ho')|].
      setoid_rewrite Hy; [|done..]. destruct E' as [[U' Hf]|(x & Hin & Hms & Hc)].
      * left. split; [by eapply options_unread | done].
      * right. exists x. split_and!; [done..|]. by eapply cfg_configured.
  - intros m x Hin Hf. destruct (decide (m = n)) as [->|Hne]; [by rewrite Hnp|].
    apply Hy in Hin; [|done]. destruct (F m x Hin Hf) as [q Hq]. exists q. by apply Hreg.
  - intros m Hm. destruct (decide (m = n)) as [->|Hne]; [congruence|]. apply V.
    destruct (interfaces s !! m) as [q|] eqn:Hq; [|done]. apply Hreg in Hq; [|done]. congruence.
  - intros m. rewrite fmap_app. destruct (decide (m = n)) as [->|Hne]; [right; set_solver|].
    intros [q Hq]. apply Hreg in Hq; [|done]. destruct (W m (mk_is_Some _ _ Hq)); [by left | right; set_solver].
Qed.
Lemma loading_frame prev done s s' : frame s s' → loading prev done s → loading prev done s'.
Proof.
  intros Fr [G E F V W]. destruct (frame_same_cfg _ _ Fr) as [Hi Hc]. split; rewrite ?Hi; try done.
  - eapply good_calm; [by apply frame_calm | done].
  - intros n p Hn. destruct (E n p Hn) as [R E']. specialize (Hc p). symmetry in Hc.
    destruct (cfg_options _ _ Hc) as [Hc' _]. split; [by apply (options_relays _ _ Hc')|].
    destruct E' as [[U Hf]|(o & ? & ? & H)]; [left; split; [by eapply options_unread | done]|].
    right. exists o. split_and!; [done..|]. by eapply cfg_configured.
Qed.
Lemma loading_then {A B} prev done (m : M A) (f : A → M B) Q s :
  stable frame m → loading prev done s →
  (∀ a s', loading prev done s' → wp (f a) Q s') → wp (m ≫= f) Q s.
Proof. intros Hm L HQ. apply wp_bind. wp_use Hm. intros a s' F. apply HQ. by eapply loading_frame. Qed.

(** The file can be read and holds the configuration [root]. *)
Definition reads (path : string) (root : jsonRoot) : Prop :=
  ∀ h, ∃ d, k_readFile h path = Some d ∧ k_unmarshal d = Some root.

Lemma loadConfigJSON_loading root prev path s :
  reads path root → loading prev [] s →
  wp (loadConfigJSON path) (λ _ s', ∃ entries, entries ≡ₚ map_to_list (jr_Interfaces root) ∧
    loading prev entries s') s.
Proof.
  intros Hr L. unfold loadConfigJSON. apply wp_bind, wp_sys. intros r Hd.
  destruct (Hr (trace s)) as (d & Hd' & Hu). rewrite Hd' in Hd. subst r. rewrite Hu.
  set (s1 := set_trace _ s). assert (loading prev [] s1) as L1.
  { eapply loading_frame; [|exact L]. apply emits_frame. eexists. split; [done|]. by repeat constructor. }
  apply (loading_then prev []); [solve_frame | done|]. intros s0 s2 L2.
  apply (loading_then prev []); [solve_frame | done|]. intros [] s3 L3.
  apply wp_bind, wp_range. intros entries s4 He F4%query_frame. pose proof (loading_frame _ _ _ _ F4 L3) as L4.
  assert (NoDup entries.*1) as Hnd by (rewrite He; apply NoDup_fst_map_to_list).
  apply (wp_forM (loading prev)); [done| |intros s' L'; by exists entries].
  intros done' [n o] rest s5 -> L5. cbn [fst snd].
  assert (n ∉ done'.*1) as Hn.
  { rewrite fmap_app in Hnd. apply NoDup_app in Hnd as (_ & H & _). intros Hin. apply (H n Hin). cbn. set_solver. }
  apply wp_bind. eapply wp_mono.
  { apply (wp_wlp _ _ _ _ (parseInterfaceJSON_good n o s5 (ld_good _ _ _ L5)) (parseInterfaceJSON_parsed n o s5)). }
  cbv beta. intros err s6 [G6 P6]. pose proof (loading_step _ _ _ _ _ _ L5 Hn P6 G6) as L6.
  assert (stable frame (match err with Some _ => Warnf "%v" | None => skip end)) as Hm by solve_frame.
  wp_use Hm. intros [] s7 F7. by eapply loading_frame.
Qed.

(** ** The loops around it *)

Definition was_master (s : St) (n : string) : bool :=
  match interfaces s !! n with Some p => Master (heap s !!! p) | None => false end.
Definition roles (s : St) : gmap string bool := (λ p, Master (heap s !!! p)) <$> interfaces s.
Lemma role_roles s n : role (roles s) n = was_master s n.
Proof. unfold role, roles, was_master. rewrite lookup_fmap. by destruct (interfaces s !! n). Qed.
Lemma roles_Some s n : is_Some (roles s !! n) ↔ is_Some (interfaces s !! n).
Proof. unfold roles. by rewrite lookup_fmap, fmap_is_Some. Qed.

Lemma reset_loading cs s :
  good None s → cs ≡ₚ (map_to_list (interfaces s)).*2 →
  wp (forM cs (λ c, setInterfaceDefaults c ;; assign c (set_Inuse false))) (λ _ s', ConfigFile s' = ConfigFile s ∧ loading (roles s) [] s') s.
Proof.
  intros G Hcs.
  assert (stable calm (forM cs (λ c, setInterfaceDefaults c ;; assign c (set_Inuse false)))) as Hcalm.
  { apply stable_forM; [typeclasses eauto|]. intros c. unfold setInterfaceDefaults.
    solve_calm; apply calm_assign; done. }
  eapply wp_mono.
  { apply wp_and; [apply Hcalm|].
    apply (wp_forM (λ done s', (ConfigFile s' = ConfigFile s ∧ interfaces s' = interfaces s) ∧
      (∀ c, Master (heap s' !!! c) = Master (heap s !!! c)) ∧
      ∀ c, c ∈ done → relays (heap s' !!! c) ∧ unread (Master (heap s !!! c)) (heap s' !!! c))
      cs _ (λ _ s', (ConfigFile s' = ConfigFile s ∧ interfaces s' = interfaces s) ∧
        ∀ c, c ∈ cs → relays (heap s' !!! c) ∧ unread (Master (heap s !!! c)) (heap s' !!! c))).
    - split_and!; [done..|]. by intros c ?%elem_of_nil.
    - intros done' c rest s1 _ (H1 & H2 & H3). apply wp_bind, wp_assign, wp_assign.
      cbn [heap set_heap interfaces]. split; [exact H1|split].
      + intros q. rewrite !lookup_total_assign. repeat case_decide; subst; try done; apply H2.
      + intros q Hq. rewrite !lookup_total_assign. specialize (H2 q). repeat case_decide; subst; try done.
        apply H3. set_solver.
    - intros s' (H1 & _ & H3). done. }
  cbv beta. intros [] s' (C & [Hcf Hi] & Hall). split; [done|]. split.
  - by eapply good_calm.
  - intros n p Hn. rewrite Hi in Hn. destruct (Hall p) as [R U].
    { rewrite Hcs. apply elem_of_interfaces. eauto. }
    split; [done|]. left. rewrite role_roles. split; [unfold was_master; by rewrite Hn|]. by intros o ?%elem_of_nil.
  - by intros n o ?%elem_of_nil.
  - intros n. rewrite Hi. unfold roles. rewrite lookup_fmap. by intros ->.
  - intros n. rewrite Hi, roles_Some. by left.
Qed.

Lemma demote_loop f cs s :
  NoDup cs →
  wp (forM cs (λ c, assign c f)) (λ _ s', interfaces s' = interfaces s ∧
    (∀ c, c ∈ cs → heap s' !!! c = f (heap s !!! c))) s.
Proof.
  intros Hnd. apply (wp_forM (λ done s', interfaces s' = interfaces s ∧
    ∀ c, heap s' !!! c = if decide (c ∈ done) then f (heap s !!! c) else heap s !!! c)).
  - split; [done|]. intros c. by rewrite decide_False by apply not_elem_of_nil.
  - intros done' c rest s1 -> [H1 H2]. apply wp_assign. split; [done|]. intros q. cbn [heap set_heap].
    assert (c ∉ done') as Hc by (apply NoDup_app in Hnd as (_ & H & _); intros Hc; apply (H c Hc); set_solver).
    rewrite lookup_total_assign. destruct (decide (c = q)) as [<-|Hne].
    + rewrite H2, decide_False, decide_True by set_solver. done.
    + rewrite H2. destruct (decide (q ∈ done')), (decide (q ∈ done' ++ [c])); try done; set_solver.
  - intros s' [H1 H2]. split; [done|]. intros c Hc. by rewrite H2, decide_True.
Qed.

(** With all modes on relay, the three tests agree. *)
Lemma demoteMaster_relays b i :
  relays i →
  (if Master i && negb b then relays_nothing (demoteMaster b b b i) else relays (demoteMaster b b b i)) ∧
  Master (demoteMaster b b b i) = Master i ∧ Inuse (demoteMaster b b b i) = Inuse i ∧
  LearnRoutes (demoteMaster b b b i) = LearnRoutes i ∧
  NdpFromLinkLocal (demoteMaster b b b i) = NdpFromLinkLocal i ∧ Ifname (demoteMaster b b b i) = Ifname i.
Proof.
  intros (H1 & H2 & H3). destruct i. cbn in H1, H2, H3. subst. destruct b, Master; by vm_compute.
Qed.
Lemma demoteMaster_configured o m b i : relays i → configured o m i → configured o m (demoteMaster b b b i).
Proof.
  intros (_ & H1 & H2 & H3 & H4 & H5)%(demoteMaster_relays b) C. unfold configured.
  by rewrite H1, H2, H3, H4, H5.
Qed.
Lemma existsb_mode (h : gmap loc Interface) (mode : Interface → Mode) cs :
  (∀ c, c ∈ cs → mode (h !!! c) = ModeRelay) →
  existsb (λ c, negb (Master (h !!! c)) && bool_decide (mode (h !!! c) = ModeRelay)) cs
    = existsb (λ c, negb (Master (h !!! c))) cs.
Proof.
  intros H. induction cs as [|c cs IH]; [done|]. cbn [existsb]. rewrite IH by set_solver.
  rewrite (bool_decide_eq_true_2 (mode _ = _)) by (apply H; set_solver). by rewrite andb_true_r.
Qed.

(** The state before the last loop: the masters are demoted when there is no
    slave among all registered, used or not. *)
Definition slave_left (s : St) : Prop := ∃ n p, interfaces s !! n = Some p ∧ Master (heap s !!! p) = false.
Record applied (root : jsonRoot) (prev : gmap string bool) (s : St) : Prop := mkApplied {
  ap_good : good None s;
  ap_used n p : interfaces s !! n = Some p → Inuse (heap s !!! p) = true →
    ∃ o, jr_Interfaces root !! n = Some o ∧ ¬ missing o ∧ configured o (role prev n) (heap s !!! p);
  ap_unused n p : interfaces s !! n = Some p → Inuse (heap s !!! p) = false →
    Master (heap s !!! p) = role prev n ∧ ∀ o, jr_Interfaces root !! n = Some o → ¬ found o;
  ap_modes n p : interfaces s !! n = Some p →
    (relays (heap s !!! p) ∧ slave_left s) ∨
    (Master (heap s !!! p) = true ∧ relays_nothing (heap s !!! p) ∧ ¬ slave_left s);
  ap_found n o : jr_Interfaces root !! n = Some o → found o →
    ∃ p, interfaces s !! n = Some p ∧ Inuse (heap s !!! p) = true;
  ap_prev n : is_Some (prev !! n) → is_Some (interfaces s !! n);
  ap_new n : is_Some (interfaces s !! n) → is_Some (prev !! n) ∨ is_Some (jr_Interfaces root !! n)
}.

Lemma demoted_applied root prev entries cs b s s' :
  entries ≡ₚ map_to_list (jr_Interfaces root) → loading prev entries s → cs ≡ₚ (map_to_list (interfaces s)).*2 →
  b = existsb (λ c, negb (Master (heap s !!! c))) cs → good None s' → interfaces s' = interfaces s →
  (∀ c, c ∈ cs → heap s' !!! c = demoteMaster b b b (heap s !!! c)) → applied root prev s'.
Proof.
  intros He [G E F V W] Hcs Hb G' Hi Hh.
  assert (∀ n p, interfaces s !! n = Some p → heap s' !!! p = demoteMaster b b b (heap s !!! p)) as Hd.
  { intros n p Hn. apply Hh. rewrite Hcs. apply elem_of_interfaces. eauto. }
  assert (∀ n o, (n, o) ∈ entries ↔ jr_Interfaces root !! n = Some o) as Hin
    by (intros n o; rewrite He; apply elem_of_map_to_list).
  assert (∀ n p, interfaces s !! n = Some p → Master (heap s' !!! p) = Master (heap s !!! p) ∧
    Inuse (heap s' !!! p) = Inuse (heap s !!! p)) as Hsame.
  { intros n p Hn. rewrite (Hd n p Hn). destruct (E n p Hn) as [R _].
    by destruct (demoteMaster_relays b _ R) as (_ & H2 & H3 & _). }
  assert (slave_left s' ↔ b = true) as Hslave.
  { rewrite Hb, existsb_exists. unfold slave_left. rewrite Hi. split.
    - intros (n & p & Hn & Hm). exists p. destruct (Hsame n p Hn) as [<- _]. rewrite Hm. split; [|done].
      apply list_elem_of_In. rewrite Hcs. apply elem_of_interfaces. eauto.
    - intros (p & Hp%list_elem_of_In & Hm%negb_true_iff). rewrite Hcs in Hp. apply elem_of_interfaces in Hp as [n Hn].
      exists n, p. by destruct (Hsame n p Hn) as [-> _]. }
  split; [done|..]; rewrite ?Hi.
  - intros n p Hn Hu. destruct (E n p Hn) as [R E']. destruct (Hsame n p Hn) as [_ H]. rewrite (Hd n p Hn).
    destruct E' as [[[Hu' _] _]|(o & Ho%Hin & Hms & Hc)]; [congruence|]. exists o.
    split_and!; [done..|]. by apply demoteMaster_configured.
  - intros n p Hn. destruct (Hsame n p Hn) as [-> ->]. intros Hu. destruct (E n p Hn) as [R E'].
    destruct E' as [[U Hno]|(o & _ & _ & Hu' & _)]; [|congruence]. split; [apply U|].
    intros o Ho%Hin. by apply Hno.
  - intros n p Hn. destruct (Hsame n p Hn) as [HM _]. rewrite (Hd n p Hn) in HM |- *. rewrite HM.
    destruct (E n p Hn) as [R _]. destruct (demoteMaster_relays b _ R) as (H1 & _).
    rewrite Hslave. destruct b; cbn [negb] in H1; [rewrite andb_false_r in H1; by left|]. rewrite andb_true_r in H1.
    destruct (Master (heap s !!! p)) eqn:Em; [by right|]. exfalso.
    assert (slave_left s') as Hs%Hslave; [|done]. exists n, p. rewrite Hi. by rewrite (proj1 (Hsame n p Hn)).
  - intros n o Ho Hf. apply Hin in Ho as Ho'. destruct (F n o Ho' Hf) as [p Hp]. exists p.
    split; [done|]. destruct (Hsame n p Hp) as [_ ->]. destruct (E n p Hp) as [R E'].
    destruct E' as [[_ Hno]|(o' & _ & _ & Hc)]; [by destruct (Hno o Ho')|]. apply Hc.
  - intros n Hp. destruct (interfaces s !! n) eqn:En; [done|]. rewrite (V n En) in Hp. by destruct Hp.
  - intros n Hn. destruct (W n Hn) as [|([m o] & -> & Hin')%list_elem_of_fmap]; [by left|]. right.
    exists o. by apply Hin.
Qed.

(** [Reload] up to its last loop. *)
Lemma wp_applied {A} root (k : M A) Q s :
  good None s → reads (ConfigFile s) root → (∀ s', applied root (roles s) s' → wp k Q s') →
  wp (cs ← range_interfaces;
      forM cs (λ c, setInterfaceDefaults c ;; assign c (set_Inuse false)) ;;
      s ← get;
      loadConfigJSON (ConfigFile s) ;;
      cs ← range_interfaces;
      s ← get;
      let any mode := existsb (λ c, let i := heap s !!! c in
                        negb (Master i) && bool_decide (mode i = ModeRelay)) cs in
      cs ← range_interfaces;
      forM cs (λ c, assign c (demoteMaster (any DHCPv6) (any RA) (any NDP))) ;;
      k) Q s.
Proof.
  intros G Hr HQ. apply wp_bind, wp_range_interfaces. intros cs1 s1 Hcs1 Hs1.
  assert (good None s1) as G1 by (eapply good_calm; [by apply frame_calm, query_frame | done]).
  destruct Hs1 as (t1 & -> & _). apply wp_bind. wp_use (reset_loading cs1); [done|done|].
  change (roles (set_trace _ s)) with (roles s). intros [] s2 [Hcf L2]. apply wp_bind, wp_get, wp_bind. rewrite Hcf.
  wp_use loadConfigJSON_loading; [done..|]. intros [] s3 (entries & He & L3).
  apply wp_bind, wp_range_interfaces. intros cs4 s4 Hcs4 Hs4.
  pose proof (loading_frame _ _ _ _ (query_frame _ _ Hs4) L3) as L4.
  assert (interfaces s4 = interfaces s3) as Ei4 by (by destruct Hs4 as (? & -> & _)).
  rewrite <- Ei4 in Hcs4. apply wp_bind, wp_get.
  assert (∀ c, c ∈ cs4 → relays (heap s4 !!! c)) as Hrel.
  { intros c. rewrite Hcs4. intros [n Hn]%elem_of_interfaces. by destruct (ld_each _ _ _ L4 n c Hn). }
  cbv beta zeta. rewrite !existsb_mode by (intros c Hc; by apply Hrel). set (b := existsb _ cs4).
  apply wp_bind, wp_range_interfaces. intros cs5 s5 Hcs5 Hs5.
  pose proof (loading_frame _ _ _ _ (query_frame _ _ Hs5) L4) as L5.
  assert (interfaces s5 = interfaces s4 ∧ heap s5 = heap s4) as [Ei5 Eh5] by (by destruct Hs5 as (? & -> & _)).
  rewrite <- Ei5 in Hcs4, Hcs5.
  assert (NoDup cs5) as Hnd by (rewrite Hcs5; apply interfaces_NoDup, (ld_good _ _ _ L5)).
  assert (stable calm (forM cs5 (λ c, assign c (demoteMaster b b b)))) as Hcalm.
  { apply stable_forM; [typeclasses eauto|]. intros c. apply calm_assign; intros; apply demoteMaster_same. }
  apply wp_bind. eapply wp_mono; [apply wp_and; [apply Hcalm | by apply demote_loop]|].
  cbv beta. intros [] s6 (C & Hi & Hh). apply HQ. eapply (demoted_applied root _ entries cs4 b s5); try done.
  - unfold b. by rewrite Eh5.
  - eapply good_calm; [exact C | apply L5].
  - intros c Hc. apply Hh. by rewrite Hcs5, <- Hcs4.
Qed.
End Configured.

(** ** The name of the file stays *)

Definition same_file (s s' : St) : Prop := ConfigFile s' = ConfigFile s.
#[local] Instance same_file_preorder : PreOrder same_file.
Proof. split; [by intros s|]. unfold same_file. intros s1 s2 s3. congruence. Qed.

Section File.
Context `{KN : Kernel} `{!KernelOk KN}.
#[local] Hint Resolve same_file_preorder : keeps.
Lemma file_emits {A} P (m : M A) : stable (emits P) m → keeps same_file m.
Proof. intros Hm. apply stable_keeps. eapply stable_mono; [exact Hm|]. by intros s s' (evs & -> & _). Qed.
Lemma file_frame {A} (m : M A) : stable frame m → keeps same_file m.
Proof. intros Hm. apply stable_keeps. eapply stable_mono; [exact Hm|]. intros s s' F. apply F. Qed.

Ltac solve_file := solve_keeps_with ltac:(
  idtac; lazymatch goal with
  | |- keeps _ (closeChan _) => by apply keeps_closeChan
  | |- keeps _ (assign _ _) => by apply keeps_modify
  | |- keeps _ (modify _) => by apply keeps_modify
  | |- keeps _ (sys _ _) => by intros ?
  | |- keeps _ (sys_err _) => by intros ?
  | |- keeps _ alloc => by intros ?
  | |- keeps _ (afterFunc _ _) => by intros ?
  | |- keeps _ (check _ _ _) => unfold check
  | |- keeps _ (closing_on_error _ _) => unfold closing_on_error
  | |- keeps _ (_ ≫= _) => fail
  | |- keeps _ (match _ with _ => _ end) => fail
  | |- keeps _ _ => solve [apply file_frame; solve_frame | eapply file_emits; eauto with stable nocore]
  end).
Lemma file_closeFD fd : keeps same_file (closeFD fd).
Proof. unfold closeFD, sys_close. solve_file. Qed.
Lemma file_drainSocket fd : keeps same_file (drainSocket fd).
Proof. eapply file_emits, drainSocket_stable. Qed.
#[local] Hint Resolve file_closeFD file_drainSocket : keeps.
Lemma setup_file v p e : keeps same_file (setup v p e).
Proof.
  destruct v; cbn [setup]; unfold routerSetup, routerConfigure, dhcpv6Setup, dhcpv6Configure, ndpSetup, ndpConfigurePing,
    ndpConfigureCapture, setProxyNDP, sys_readFile, sys_socket, bindToDevice, setsockoptInt, joinMulticast6, attachFilter,
    stopRsTimer, stopTimer, armSolicit, spawn; solve_file.
Qed.
Lemma Reload_file s : wlp Reload (λ _ s', ConfigFile s' = ConfigFile s) s.
Proof.
  pose proof (setup_file VRouter) as H1. pose proof (setup_file VDhcp) as H2. pose proof (setup_file VNdp) as H3.
  cbn [setup] in *. assert (keeps same_file Reload) as H; [|exact (H s)].
  unfold Reload, loadConfigJSON, parseInterfaceJSON, findOrCreateInterface, setInterfaceDefaults, bindInterface, copyIfaceList,
    reloadServices, closeInterface, disableServices, stopRsTimer, stopTimer, sys_readFile, sys_linkByName. solve_file; auto.
Qed.
End File.

(** ** Properties *)

Section Properties.
Context `{KN : Kernel} `{!KernelOk KN}.

(** The last loop keeps the interfaces in use and changes no option. *)
Lemma Reload_applied root s :
  good None s → reads (ConfigFile s) root →
  wp Reload (λ _ s', ∃ s1, applied root (roles s) s1 ∧ sound s' ∧
    (∀ p, cfg (heap s' !!! p) = cfg (heap s1 !!! p)) ∧
    ∀ n p, interfaces s' !! n = Some p ↔ interfaces s1 !! n = Some p ∧ Inuse (heap s1 !!! p) = true) s.
Proof.
  intros G Hr. unfold Reload. cbv zeta.
  refine (wp_applied root (cs ← copyIfaceList;
    forM cs (λ c, i ← deref c; if Inuse i then reloadServices c else closeInterface c)) _ s G Hr _).
  intros s1 A1. apply wp_bind, wp_range_interfaces. intros cs s2 Hcs Hs2.
  assert (interfaces s2 = interfaces s1 ∧ heap s2 = heap s1) as [Ei Eh] by (by destruct Hs2 as (? & -> & _)).
  eapply wp_mono; [apply reload_loop; [|by rewrite Ei]|].
  { eapply good_calm; [by apply frame_calm, query_frame | apply A1]. }
  cbv beta. rewrite Ei, Eh. intros [] s3 ([S _] & Hc & Hreg). by exists s1.
Qed.

(** C8: a [Reload] that reads a configuration leaves registered exactly the
    interfaces of it whose link is found (one whose link is not found is
    dropped, though configured), each with the options its entry gives, with
    the defaults for [ndproxy_routing] and [ndp_from_link_local] when the entry
    omits them, but with its previous role when it omits [master]; slaves
    relay everything, masters too unless no slave is left. *)
Theorem Reload_configures root s :
  good None s → reads (ConfigFile s) root →
  wp Reload (λ _ s',
    (∀ n p, interfaces s' !! n = Some p → ∃ o, jr_Interfaces root !! n = Some o ∧ ¬ missing o ∧
       configured o (was_master s n) (heap s' !!! p) ∧
       (relays (heap s' !!! p) ∨ Master (heap s' !!! p) = true ∧ relays_nothing (heap s' !!! p) ∧
          ∀ m q, interfaces s' !! m = Some q → Master (heap s' !!! q) = true)) ∧
    (∀ n o, jr_Interfaces root !! n = Some o → found o → is_Some (interfaces s' !! n))) s.
Proof.
  intros G Hr. wp_use Reload_applied; [done..|]. intros [] s3 (s1 & [G1 U1 _ E1 F1 _ _] & _ & Hc & Hreg).
  assert (∀ p, options (heap s3 !!! p) = options (heap s1 !!! p)) as Ho by (intros p; apply cfg_options, Hc).
  assert (∀ p, Master (heap s3 !!! p) = Master (heap s1 !!! p)) as Hm.
  { intros p. specialize (Ho p). unfold options in Ho. by injection Ho. }
  split.
  - intros n p [Hn Hu]%Hreg.
    destruct (U1 n p Hn Hu) as (o & Hno & Hms & Hco). rewrite role_roles in Hco. exists o. split_and!; [done..| |].
    + by eapply cfg_configured; [symmetry; apply Hc|].
    + destruct (E1 n p Hn) as [[Hr' _]|(HM & Hd & Hall)]; [left; by apply (options_relays _ _ (Ho p))|]. right.
      rewrite Hm. split_and!; [done|by apply (options_relays_nothing _ _ (Ho p))|].
      intros m q [Hq _]%Hreg; rewrite Hm; apply not_false_iff_true; intros Hq'; apply Hall; by exists m, q.
  - intros n o Hno Hf. destruct (F1 n o Hno Hf) as (p & Hp & Hu). exists p. by apply Hreg.
Qed.

(** The same for a configuration of masters only, all of which are found. *)
Definition only_masters (root : jsonRoot) (s : St) : Prop :=
  ∀ n o, jr_Interfaces root !! n = Some o → found o ∧ default (was_master s n) (ji_Master o) = true.
(** A slave the configuration does not mention. *)
Definition stale_slave (root : jsonRoot) (s : St) : Prop :=
  ∃ n p, interfaces s !! n = Some p ∧ Master (heap s !!! p) = false ∧ jr_Interfaces root !! n = None.
(** All that is registered are the masters of the configuration. *)
Definition masters_of (root : jsonRoot) (s : St) : Prop :=
  (∀ n, is_Some (interfaces s !! n) ↔ is_Some (jr_Interfaces root !! n)) ∧
  ∀ n p, interfaces s !! n = Some p → Master (heap s !!! p) = true.

Lemma Reload_masters root s :
  good None s → reads (ConfigFile s) root → only_masters root s →
  wp Reload (λ _ s', (sound s' ∧ masters_of root s' ∧
    (stale_slave root s → ∀ n p, interfaces s' !! n = Some p → relays (heap s' !!! p)) ∧
    (¬ stale_slave root s → ∀ n p, interfaces s' !! n = Some p → relays_nothing (heap s' !!! p))) ∧
    ConfigFile s' = ConfigFile s) s.
Proof.
  intros G Hr Hroot.
  eapply wp_mono; [exact (wp_wlp _ _ _ _ (Reload_applied root s G Hr) (Reload_file s))|]. cbv beta.
  intros [] s3 [(s1 & [G1 U1 N1 E1 F1 P1 W1] & S & Hc & Hreg) Hfile]. split; [|done]. split; [done|].
  assert (∀ p, options (heap s3 !!! p) = options (heap s1 !!! p)) as Ho by (intros p; apply cfg_options, Hc).
  assert (∀ n p, interfaces s3 !! n = Some p → Master (heap s3 !!! p) = true ∧ is_Some (jr_Interfaces root !! n)) as HM.
  { intros n p [Hn Hu]%Hreg. destruct (U1 n p Hn Hu) as (o & Hno & _ & (_ & _ & _ & Hm & _)).
    rewrite role_roles in Hm. specialize (Ho p). unfold options in Ho. injection Ho as -> _ _ _ _ _ _.
    rewrite Hm. split; [by apply (Hroot n) | done]. }
  assert (slave_left s1 ↔ stale_slave root s) as Hstale.
  { split.
    - intros (n & p & Hn & Hm). destruct (Inuse (heap s1 !!! p)) eqn:Hu.
      { destruct (HM n p) as [Hm' _]; [by apply Hreg|]. specialize (Ho p). unfold options in Ho. injection Ho as E _ _ _ _ _ _.
        congruence. }
      destruct (N1 n p Hn Hu) as [Hm' Hno]. destruct (jr_Interfaces root !! n) as [o|] eqn:Eo.
      { destruct (Hno o eq_refl). by apply (Hroot n). }
      destruct (W1 n (mk_is_Some _ _ Hn)) as [[q Hq]%roles_Some|[o Ho']]; [|congruence]. exists n, q.
      rewrite Hm, role_roles in Hm'. unfold was_master in Hm'. by rewrite Hq in Hm'.
    - intros (n & q & Hq & Hm & Hno). destruct (P1 n) as [p Hp]; [apply roles_Some; by eexists|]. exists n, p.
      split; [done|]. destruct (Inuse (heap s1 !!! p)) eqn:Hu.
      { destruct (U1 n p Hp Hu) as (o & Ho' & _). congruence. }
      destruct (N1 n p Hp Hu) as [-> _]. rewrite role_roles. unfold was_master. by rewrite Hq. }
  split_and!.
  - split; [|intros n p Hn; by apply (HM n)]. intros n. split; [intros [p Hn]; by apply (HM n p)|].
    intros [o Hno]. destruct (F1 n o Hno) as (p & Hp); [by apply (Hroot n)|]. exists p. by apply Hreg.
  - intros Hs%Hstale n p [Hn _]%Hreg. destruct (E1 n p Hn) as [[Hr' _]|(_ & _ & Hno)]; [|done].
    by apply (options_relays _ _ (Ho p)).
  - intros Hs n p [Hn _]%Hreg. destruct (E1 n p Hn) as [[_ Hs'%Hstale]|(_ & Hd & _)]; [done|].
    by apply (options_relays_nothing _ _ (Ho p)).
Qed.

(** Without a mode that relays there is no socket. *)
Lemma relays_nothing_closed s :
  sound s → (∀ n p, interfaces s !! n = Some p → relays_nothing (heap s !!! p)) → open_fds (trace s) = ∅.
Proof.
  intros [[R N] S] H. apply elem_of_equiv_empty_L. intros fd [Hx|(p & v & k & Hk & _)]%(ri_noleak _ _ R).
  - by apply not_elem_of_empty in Hx.
  - destruct (rg_own _ _ N p v ltac:(by eexists)) as [|Hn]; [done|].
    destruct (S p v ltac:(by eexists)) as [_ Hm]. destruct (H _ _ Hn) as (H1 & H2 & H3). by destruct v.
Qed.

(** C33: [Reload] looks for a slave among all interfaces registered before, not
    among those it keeps.  When the configuration holds masters only, all of
    them found, then after it exactly these are registered, with no slave to
    relay for; but they go on relaying if one of the interfaces it just
    removed was a slave, and only without one are they disabled and is every
    socket closed.  A second [Reload] of the same configuration always
    disables them. *)
Theorem Reload_counts_stale_slave root s :
  good None s → reads (ConfigFile s) root → only_masters root s →
  wp Reload (λ _ s', masters_of root s' ∧
    (stale_slave root s → ∀ n p, interfaces s' !! n = Some p → relays (heap s' !!! p)) ∧
    (¬ stale_slave root s →
       open_fds (trace s') = ∅ ∧ ∀ n p, interfaces s' !! n = Some p → relays_nothing (heap s' !!! p))) s ∧
  wp (Reload ;; Reload) (λ _ s', masters_of root s' ∧ open_fds (trace s') = ∅ ∧
    ∀ n p, interfaces s' !! n = Some p → relays_nothing (heap s' !!! p)) s.
Proof.
  intros G Hr Hroot. split.
  - wp_use Reload_masters; [done..|]. intros [] s' ((S & M & H1 & H2) & _). split_and!; [done..|].
    intros Hs. specialize (H2 Hs). split; [by apply relays_nothing_closed | done].
  - apply wp_bind. wp_use Reload_masters; [done..|]. intros [] s1 (([G1 _] & [M1 M1'] & _) & Hf).
    rewrite <- Hf in Hr. wp_use (Reload_masters root); [done..| |].
    + intros n o Hno. destruct (Hroot n o Hno) as [Hfd _]. split; [done|].
      destruct (M1 n) as [_ [p Hp]]; [by eexists|]. unfold was_master. rewrite Hp.
      destruct (Hroot n o Hno) as [_ Hm]. destruct (ji_Master o); [done|]. by apply (M1' n).
    + intros [] s2 ((S2 & M2 & _ & H2) & _).
      assert (¬ stale_slave root s1) as Hs
        by (intros (n & p & Hn & Hm & _); by rewrite (M1' n p Hn) in Hm).
      specialize (H2 Hs). split_and!; [done | by apply relays_nothing_closed | done].
Qed.
End Properties.

(** ** The property at work

    A configuration that drops the role of the master: it stays one. *)
Definition roleless_json : jsonRoot :=
  mkJsonRoot None {["wan" := mkJsonIface (Some "eth0"%string) None (Some false) None;
                    "usb" := mkJsonIface (Some "usb0"%string) None None None]}.
Definition roleless_kernel : Kernel :=
  sim_kernel (mkSim (λ _ _, None) (λ _ _, None) [(ConfigFile sample_boot, [])] (sim_macs sample_sim)
    (sim_links sample_sim) (sim_addrs sample_sim) (sim_neighs sample_sim) [] 1000 (λ _, Some roleless_json)
    (λ _, Some [])).

Lemma Reload_configures_witness :
  ∃ s', @Reload roleless_kernel (st sample_loaded) = Ok (tt, s') ∧
    (∃ p, interfaces s' !! "wan"%string = Some p ∧ Master (heap s' !!! p) = true ∧
       LearnRoutes (heap s' !!! p) = false) ∧
    interfaces s' !! "usb"%string = None ∧ interfaces s' !! "lan"%string = None.
Proof.
  assert (good None (st sample_loaded)) as G
    by apply (reachable_inv (KN := sample_kernel)), sample_loaded_reachable.
  destruct (wp_elim _ _ _ (Reload_configures (KN := roleless_kernel) roleless_json (st sample_loaded) G
    ltac:(intros h; by exists []))) as ([] & s' & Hs & H1 & H2).
  exists s'. split; [exact Hs|]. split_and!.
  - destruct (H2 "wan"%string _ eq_refl) as [p Hp].
    { exists "eth0"%string. split; [done|]. intros h. by eexists. }
    exists p. destruct (H1 _ _ Hp) as (o & Ho & _ & (_ & HL & _ & HM & _) & _). injection Ho as <-.
    assert (was_master (st sample_loaded) "wan" = true) as Hw by by vm_compute.
    rewrite Hw in HM. split_and!; [exact Hp | exact HM | exact HL].
  - destruct (interfaces s' !! "usb"%string) as [p|] eqn:Hp; [|done]. exfalso.
    destruct (H1 _ _ Hp) as (o & Ho & Hms & _). injection Ho as <-. apply Hms.
    exists "usb0"%string. split; [done|]. intros h. by eexists.
  - destruct (interfaces s' !! "lan"%string) as [p|] eqn:Hp; [|done]. exfalso.
    destruct (H1 _ _ Hp) as (o & Ho & _). done.
Defined.

(** The sample network with a configuration that keeps only the master. *)
Definition master_json : jsonRoot :=
  mkJsonRoot None {["wan" := mkJsonIface (Some "eth0"%string) (Some true) None None]}.
Definition master_kernel : Kernel :=
  sim_kernel (mkSim (λ _ _, None) (λ _ _, None) [(ConfigFile sample_boot, [])] (sim_macs sample_sim)
    (sim_links sample_sim) (sim_addrs sample_sim) (sim_neighs sample_sim) [] 1000 (λ _, Some master_json)
    (λ _, Some [])).

Lemma Reload_counts_stale_slave_witness :
  (∃ s' p, @Reload master_kernel (st sample_loaded) = Ok (tt, s') ∧ interfaces s' !! "wan"%string = Some p ∧
     interfaces s' !! "lan"%string = None ∧ RA (heap s' !!! p) = ModeRelay) ∧
  ∃ s' p, (@Reload master_kernel ;; @Reload master_kernel) (st sample_loaded) = Ok (tt, s') ∧
     interfaces s' !! "wan"%string = Some p ∧ RA (heap s' !!! p) = ModeDisabled ∧ open_fds (trace s') = ∅.
Proof.
  assert (good None (st sample_loaded)) as G
    by apply (reachable_inv (KN := sample_kernel)), sample_loaded_reachable.
  assert (@only_masters master_kernel master_json (st sample_loaded)) as HM.
  { unfold only_masters. cbn [jr_Interfaces master_json]. intros n o [<- <-]%lookup_singleton_Some.
    split; [|done]. exists "eth0"%string. split; [done|]. intros h. by eexists. }
  destruct (Reload_counts_stale_slave (KN := master_kernel) master_json (st sample_loaded) G
    ltac:(intros h; by exists []) HM) as [W1 W2].
  apply wp_elim in W1 as ([] & s1 & E1 & [D1 _] & R1 & _). apply wp_elim in W2 as ([] & s2 & E2 & [D2 _] & F2 & R2).
  split.
  - destruct (D1 "wan"%string) as [_ [p Hp]]; [by eexists|]. exists s1, p. split_and!; [exact E1 | exact Hp | |].
    + destruct (interfaces s1 !! "lan"%string) as [q|] eqn:Hq; [|done]. exfalso.
      destruct (D1 "lan"%string) as [[o Ho] _]; [by eexists|]. done.
    + refine (proj1 (R1 _ _ _ Hp)). exists "lan"%string, (named (st sample_loaded) "lan"). split_and!; by vm_compute.
  - destruct (D2 "wan"%string) as [_ [p Hp]]; [by eexists|]. exists s2, p.
    split_and!; [exact E2 | exact Hp | exact (proj1 (R2 _ _ Hp)) | exact F2].
Defined.
