(* ===== verification/Termination.v ===== *)
(** * Loops over untrusted bytes

    The three loops whose models carry fuel: the option scan of a Relay-Reply
    ([relayServerResponse], [dhcpv6.go]), the option rewriting of a Router
    Advertisement ([fixSourceLinkAddrOption], [router.go]) and the trimming of
    a sysctl file ([bytes.TrimSpace], used by [setProxyNDP], [ndp.go]).  How
    many turns each can make, and that the fuel the models give is enough. *)
From S2P Require Import Prelude Netip World Hoare Log Iface RawSock Sim Mirror Dhcpv6 Router.

(** Two computations with enough fuel agree and do not run out. *)
Lemma replyScan_enough data f1 f2 off acc :
  (length data ≤ off + 4 * f1)%nat → (length data ≤ off + 4 * f2)%nat →
  replyScan f1 data off acc = replyScan f2 data off acc ∧ replyScan f1 data off acc ≠ OutOfFuel.
Proof.
  revert f2 off acc. induction f1 as [|f1 IH]; intros f2 off acc H1 H2.
  - destruct f2; cbn [replyScan]; destruct (Nat.leb_spec (off + 4) (length data)); try lia; done.
  - destruct f2 as [|f2]; cbn [replyScan]; destruct (Nat.leb_spec (off + 4) (length data)); try lia; try done.
    destruct (slice data off (off + 2)) as [t| |] eqn:Et; [|done|unfold slice in Et; by case_bool_decide].
    destruct (slice data (off + 2) (off + 4)) as [l| |] eqn:El; [|done|unfold slice in El; by case_bool_decide].
    cbn [mbind res_bind]. rewrite slice_ok by lia. cbn [mbind res_bind].
    destruct (_ <? _)%nat eqn:E; [done|]. apply Nat.ltb_ge in E. rewrite slice_ok by lia. cbn [mbind res_bind]. apply IH; lia.
Qed.

Lemma fixOptions_enough mac f1 f2 data opt :
  (length data ≤ opt + 1 + 8 * f1)%nat → (length data ≤ opt + 1 + 8 * f2)%nat →
  fixOptions f1 data opt mac = fixOptions f2 data opt mac ∧ fixOptions f1 data opt mac ≠ OutOfFuel.
Proof.
  revert f2 data opt. induction f1 as [|f1 IH]; intros f2 data opt H1 H2.
  - destruct f2; cbn [fixOptions]; destruct (Nat.leb_spec (opt + 2) (length data)); try lia; done.
  - destruct f2 as [|f2]; cbn [fixOptions]; destruct (Nat.leb_spec (opt + 2) (length data)); try lia; try done.
    destruct (idx_ok data opt) as (ty & _ & ->); [lia|]. destruct (idx_ok data (opt + 1)) as (l & _ & ->); [lia|].
    cbn [mbind res_bind]. destruct (_ || _) eqn:E; [done|]. apply orb_false_iff in E as [E1 E2].
    apply Nat.eqb_neq in E1. apply Nat.ltb_ge in E2. set (optLen := (Z.to_nat l * 8)%nat) in *.
    assert (8 ≤ optLen)%nat by (unfold optLen in *; lia). destruct (ty =? ndOptSourceLinkAddr); [|apply IH; lia].
    clearbody optLen.
    assert (((optLen - 2) `min` 6) ≤ optLen - 2)%nat as Hle by lia. revert Hle. generalize ((optLen - 2) `min` 6)%nat.
    intros n Hle. assert (opt + 2 ≤ opt + 2 + n ≤ length data)%nat as Hsl by (clear -Hle E2 H0; lia).
    rewrite (slice_ok data _ _ Hsl). cbn [mbind res_bind].
    destruct (slice mac 0 n) as [src| |] eqn:Es; [|done|unfold slice in Es; by case_bool_decide].
    cbn [mbind res_bind]. assert (length src = n) as Hn.
    { unfold slice in Es. case_bool_decide as Hb; [|done]. injection Es as <-. rewrite length_take, length_drop. lia. }
    apply IH; rewrite length_splice by lia; lia.
Qed.

Lemma trimPrefixes_enough ps f1 f2 l :
  Forall (λ p, p ≠ []) ps → (length l ≤ f1)%nat → (length l ≤ f2)%nat →
  trimPrefixes f1 ps l = trimPrefixes f2 ps l.
Proof.
  intros Hps. revert f2 l. induction f1 as [|f1 IH]; intros f2 l H1 H2.
  - destruct l; [|cbn in H1; lia]. destruct f2; cbn [trimPrefixes]; [done|].
    destruct (find _ ps) as [p|] eqn:E; [|done]. apply find_some in E as [Hin Hp].
    rewrite Forall_forall in Hps. apply list_elem_of_In, Hps in Hin. unfold is_prefix in Hp.
    apply bool_decide_eq_true in Hp. by rewrite take_nil in Hp.
  - destruct f2 as [|f2]; cbn [trimPrefixes]; destruct (find _ ps) as [p|] eqn:E; try done;
      apply find_some in E as [Hin Hp]; rewrite Forall_forall in Hps; apply list_elem_of_In, Hps in Hin;
      unfold is_prefix in Hp; apply bool_decide_eq_true in Hp.
    + destruct l; [by rewrite take_nil in Hp | cbn in H2; lia].
    + destruct p as [|b p]; [done|]. destruct l as [|x l]; [by rewrite take_nil in Hp|].
      apply IH; rewrite length_drop; cbn in *; lia.
Qed.

(** C29: the loops over received options and over the sysctl file end, whatever
    their input: each option of a Relay-Reply takes at least four bytes, each
    option of a Router Advertisement that is rewritten or skipped at least
    eight (one of length zero or past the end stops the loop), each blank at
    least one; with at least that much fuel the result no longer depends on it
    and is never [OutOfFuel]. *)
Theorem loops_terminate data fuel :
  (length data ≤ fuel)%nat →
  (∀ off acc turns, (length data ≤ off + 4 * turns)%nat →
     replyScan turns data off acc = replyScan fuel data off acc ∧ replyScan turns data off acc ≠ OutOfFuel) ∧
  (∀ opt mac turns, (length data ≤ opt + 1 + 8 * turns)%nat →
     fixOptions turns data opt mac = fixOptions fuel data opt mac ∧ fixOptions turns data opt mac ≠ OutOfFuel) ∧
  trimPrefixes fuel space_encodings data = trimPrefixes (length data) space_encodings data.
Proof.
  intros Hf. split_and!.
  - intros off acc turns Ht. apply replyScan_enough; lia.
  - intros opt mac turns Ht. apply fixOptions_enough; lia.
  - apply trimPrefixes_enough; [|done|done]. apply Forall_forall. intros p Hp ->.
    apply list_elem_of_In in Hp. vm_compute in Hp. intuition discriminate.
Qed.

Lemma loops_terminate_witness :
  (length sample_envelope = 56)%nat ∧ replyScan 6 sample_envelope 34 noReplyOpts ≠ OutOfFuel ∧
  replyScan 6 sample_envelope 34 noReplyOpts = replyScan 56 sample_envelope 34 noReplyOpts.
Proof.
  assert (length sample_envelope = 56)%nat as L by by vm_compute.
  split; [exact L|]. destruct (loops_terminate sample_envelope 56) as [H _]; [rewrite L; lia|].
  destruct (H 34%nat noReplyOpts 6%nat) as [H1 H2]; [rewrite L; lia|]. split; [exact H2 | exact H1].
Defined.
