(* ===== verification/Neighbours.v ===== *)
(** * What neighbour and route changes amount to

    The functional behaviour of [netlink.go] on the neighbour and route
    tables and on [mirroredNeighs]: one neighbour update, the sweep of an
    interface, the reconciliation, the removal of everything an interface
    mirrors, and the sysctl write. *)
From S2P Require Import Prelude Netip World Hoare Log Iface RawSock Sim Mirror Netlink Timers Engine.

(** [mirrors M ops s s']: the record of mirrored neighbours became [M], the
    table operations [ops] were made in this order, and nothing else of the
    memory changed. *)
Definition mirrors (M : gmap mirroredNeighKey bool) (ops : list call) : relation St :=
  λ s s', emitted table_ops ops (set_mirroredNeighs M s) s'.

Lemma mirrors_same ops s s' : emitted table_ops ops s s' → mirrors (mirroredNeighs s) ops s s'.
Proof. unfold mirrors. by destruct s. Qed.
Lemma mirrors_set M s : mirrors M [] s (set_mirroredNeighs M s).
Proof. apply emitted_refl. Qed.
Lemma mirrors_trans M1 M2 o1 o2 s s1 s2 :
  mirrors M1 o1 s s1 → mirrors M2 o2 s1 s2 → mirrors M2 (o1 ++ o2) s s2.
Proof.
  intros (e1 & -> & <-) (e2 & -> & <-). exists (e1 ++ e2). split; [|by rewrite bind_app].
  by rewrite (assoc_L (++)).
Qed.
Lemma mirrors_queries P s s' : (∀ e, P e → table_ops e = []) → emits P s s' → mirrors (mirroredNeighs s) [] s s'.
Proof. intros HP H. apply mirrors_same. by eapply emits_emitted. Qed.
Lemma mirrors_mem M ops s s' :
  mirrors M ops s s' → heap s' = heap s ∧ interfaces s' = interfaces s ∧ mirroredNeighs s' = M.
Proof. by intros (evs & -> & _). Qed.

Lemma mirror_ops_mem s s' a p add xs :
  heap s' = heap s → interfaces s' = interfaces s → mirror_ops s' a p add xs → mirror_ops s a p add xs.
Proof.
  intros Eh Ei (cs & Hcs & ->). exists cs. split; [by rewrite <- Ei|].
  unfold mirror_proxies, mirror_target, mirror_route. by rewrite Eh.
Qed.

(** The real (not proxy) entry of a neighbour, by which it is removed or probed. *)
Definition gone_op (a : Addr) (ifindex : Z) : call :=
  NeighDel (mkNeigh ifindex unix.AF_INET6 0 0 (AsSlice a)).
Definition probe_op (a : Addr) (ifindex : Z) : call :=
  NeighSet (mkNeigh ifindex unix.AF_INET6 unix.NUD_PROBE 0 (AsSlice a)).

Section Ops.
Context `{Kernel}.

Lemma table_call_mirrors c (k : option goerr → M unit) s :
  (∀ err, stable (emits log_ev) (k err)) → (∀ e, table_ops (EvCall c e) = [c]) →
  wp (err ← sys_err c; k err) (λ _ s', mirrors (mirroredNeighs s) [c] s s') s.
Proof.
  intros Hk Hc. apply wp_bind, wp_sys. intros err _. wp_use Hk. intros [] s' Hs'.
  apply mirrors_same. rewrite <- (Hc err). exact (emitted_one_then _ _ _ _ _ log_ev_table_ops Hs').
Qed.
Lemma deleteFailedNeigh_mirrors a i s :
  wp (deleteFailedNeigh a i) (λ _ s', mirrors (mirroredNeighs s) [gone_op a i] s s') s.
Proof. apply table_call_mirrors; [intros err; solve_stable | done]. Qed.
Lemma probeNeighbor_mirrors a i s :
  wp (probeNeighbor a i) (λ _ s', mirrors (mirroredNeighs s) [probe_op a i] s s') s.
Proof. apply table_call_mirrors; [intros err; solve_stable | done]. Qed.

Lemma ndpMirrorAddr_mirrors a p add s :
  wp (ndpMirrorAddr a p add)
     (λ _ s', ∃ xs, mirror_ops s a p add xs ∧ mirrors (mirroredNeighs s) xs s s') s.
Proof. wp_use ndpMirrorAddr_ops. intros [] s' (xs & Hxs & Hs'). exists xs. split; [done | by apply mirrors_same]. Qed.

(** A query, then the rest. *)
Lemma wp_query {A B} (m : M A) (f : A → M B) Q s :
  stable (emits query_ev) m →
  (∀ a s', emits query_ev s s' → wp (f a) Q s') → wp (m ≫= f) Q s.
Proof. intros Hm HQ. apply wp_bind. wp_use Hm. apply HQ. Qed.
End Ops.

(** ** One neighbour update *)

(** The address an update of the neighbour table of [i] concerns. *)
Definition real_addr (ip : list Z) : option Addr :=
  match neighAddr ip with
  | Some a => if mirrorable a then Some a else None
  | None => None
  end.
Definition reacts_to (i : Interface) (u : NeighUpdate) : option Addr :=
  if bool_decide (NDP i = ModeRelay) then
    match To4 (nu_IP u) with Some _ => None | None => real_addr (nu_IP u) end
  else None.

(** Edge-triggered mirroring: a resolved neighbour not yet mirrored is
    mirrored and recorded; a failed one is reaped, and its mirror removed if
    there is one; everything else is nothing. *)
Definition neigh_reaction (s s' : St) (p : loc) (a : Addr) (state : Z) : Prop :=
  let i := Ifindex (heap s !!! p) in
  let key := mkKey a i in
  if has_bits state resolvedMask && negb (is_mirrored s key) then
    ∃ xs, mirror_ops s a p true xs ∧ mirrors (<[key := true]> (mirroredNeighs s)) xs s s'
  else if has_bits state unix.NUD_FAILED then
    if is_mirrored s key then
      ∃ xs, mirror_ops s a p false xs ∧
        mirrors (delete key (mirroredNeighs s)) (xs ++ [gone_op a i]) s s'
    else mirrors (mirroredNeighs s) [gone_op a i] s s'
  else mirrors (mirroredNeighs s) [] s s'.

Lemma not_mirrorable_guard a :
  IsLoopback a || IsMulticast a || IsLinkLocalUnicast a = negb (mirrorable a).
Proof. unfold mirrorable. by destruct (IsLoopback a), (IsMulticast a), (IsLinkLocalUnicast a). Qed.

Section NeighEvent.
Context `{Kernel}.

(** Recording or forgetting a key, then mirroring. *)
Lemma record_and_mirror M' a p add s :
  wp (modify (λ s, set_mirroredNeighs (M' (mirroredNeighs s)) s) ;; ndpMirrorAddr a p add)
     (λ _ s', ∃ xs, mirror_ops s a p add xs ∧ mirrors (M' (mirroredNeighs s)) xs s s') s.
Proof.
  apply wp_bind, wp_modify. wp_use ndpMirrorAddr_mirrors. intros [] s' (xs & Hxs & Hs').
  exists xs. split; [exact Hxs | exact Hs'].
Qed.

Lemma neigh_reaction_from s s1 s' p a state :
  emits query_ev s s1 → neigh_reaction s1 s' p a state → neigh_reaction s s' p a state.
Proof.
  intros Hq. pose proof (mirrors_queries _ _ _ query_ev_table_ops Hq) as H0.
  destruct Hq as (evs & -> & _). unfold neigh_reaction. cbv zeta.
  change (is_mirrored (set_trace ?t s)) with (is_mirrored s).
  change (heap (set_trace ?t s)) with (heap s). cbn [mirroredNeighs set_trace].
  assert (∀ M ops, mirrors M ops (set_trace (trace s ++ evs) s) s' → mirrors M ops s s') as Hfrom.
  { intros M ops HM. exact (mirrors_trans _ _ [] _ _ _ _ H0 HM). }
  repeat case_match; try exact (Hfrom _ _); intros (xs & Hxs & HM); exists xs; (split; [exact Hxs | by apply Hfrom]).
Qed.

Lemma neigh_body s p a state :
  wp (let key := mkKey a (Ifindex (heap s !!! p)) in
      s ← get;
      if has_bits state resolvedMask && negb (is_mirrored s key) then
        set_mirrored key ;; ndpMirrorAddr a p true
      else if has_bits state unix.NUD_FAILED then
        when (is_mirrored s key) (delete_mirrored key ;; ndpMirrorAddr a p false) ;;
        deleteFailedNeigh a (Ifindex (heap s !!! p))
      else skip)
     (λ _ s', neigh_reaction s s' p a state) s.
Proof.
  cbv zeta. apply wp_bind, wp_get. unfold neigh_reaction. cbv zeta.
  destruct (_ && _); [exact (record_and_mirror (insert _ true) a p true s)|].
  destruct (has_bits state unix.NUD_FAILED); [|apply wp_skip, mirrors_same, emitted_refl].
  destruct (is_mirrored s _); cbn [when]; apply wp_bind.
  - eapply wp_mono; [exact (record_and_mirror (delete _) a p false s)|]. cbv beta.
    intros [] s1 (xs & Hxs & H1). wp_use deleteFailedNeigh_mirrors. intros [] s2 H2.
    exists xs. split; [done|]. destruct (mirrors_mem _ _ _ _ H1) as (_ & _ & EM).
    rewrite EM in H2. by eapply mirrors_trans.
  - apply wp_skip, deleteFailedNeigh_mirrors.
Qed.

(** C20: a neighbour update changes nothing unless it is a new entry of a
    registered relaying interface about an address that may be mirrored; then
    an appearance is mirrored and recorded once, a failure removes the mirror
    if there is one and always reaps the entry, and a confirmation of what is
    already mirrored makes no table operation. *)
Theorem handleNeighEvent_reaction u s :
  wp (handleNeighEvent u) (λ _ s',
    (nu_Type u = unix.RTM_NEWNEIGH ∧ ∃ n p,
       interfaces s !! n = Some p ∧ Ifindex (heap s !!! p) = nu_LinkIndex u ∧
       match reacts_to (heap s !!! p) u with
       | Some a => neigh_reaction s s' p a (nu_State u)
       | None => mirrors (mirroredNeighs s) [] s s'
       end) ∨
    ((nu_Type u = unix.RTM_NEWNEIGH →
      ∀ n p, interfaces s !! n = Some p → Ifindex (heap s !!! p) ≠ nu_LinkIndex u) ∧
     mirrors (mirroredNeighs s) [] s s')) s.
Proof.
  unfold handleNeighEvent. destruct (Z.eqb_spec (nu_Type u) unix.RTM_NEWNEIGH) as [Ht|Ht]; cbn [negb].
  2: { apply wp_skip. right. split; [done | apply mirrors_same, emitted_refl]. }
  apply wp_bind, wp_find_interface.
  - intros n p s1 Hq Hn Hi%Z.eqb_eq. pose proof Hq as Hq'. destruct Hq as (evs & -> & Hevs). apply wp_bind, wp_deref.
    apply (wp_mono _ (λ _ s', match reacts_to (heap s !!! p) u with
        | Some a => neigh_reaction s s' p a (nu_State u)
        | None => mirrors (mirroredNeighs s) [] s s'
        end)); [|intros [] s' HQ; left; split; [exact Ht | by exists n, p]].
    cbn [heap set_trace]. unfold reacts_to.
    pose proof (mirrors_queries _ _ _ query_ev_table_ops Hq') as H0.
    destruct (NDP (heap s !!! p)); [by apply wp_skip|]. rewrite bool_decide_eq_false_2, bool_decide_eq_true_2 by (done || by intros ?).
    destruct (To4 (nu_IP u)); [by apply wp_skip|]. unfold real_addr.
    destruct (neighAddr (nu_IP u)) as [a|]; [|by apply wp_skip].
    rewrite not_mirrorable_guard. destruct (mirrorable a); cbn [negb]; [|by apply wp_skip].
    eapply wp_mono; [exact (neigh_body (set_trace (trace s ++ evs) s) p a (nu_State u))|].
    intros [] s'. by apply neigh_reaction_from.
  - intros s1 Hq Hno. apply wp_skip. right. split.
    + intros _ n p Hn. apply Z.eqb_neq. exact (Hno n p Hn).
    + by eapply mirrors_queries, Hq; apply query_ev_table_ops.
Qed.
End NeighEvent.

(** ** Forgetting an interface *)

(** The keys of one interface among some addresses are gone. *)
Definition forget (ifindex : Z) (l : list Addr) (M : gmap mirroredNeighKey bool) : gmap mirroredNeighKey bool :=
  foldl (λ M a, delete (mkKey a ifindex) M) M l.
Lemma forget_app i l k M : forget i (l ++ k) M = forget i k (forget i l M).
Proof. apply foldl_app. Qed.
Lemma lookup_forget i l M k :
  forget i l M !! k = if decide (k_ifindex k = i ∧ k_addr k ∈ l) then None else M !! k.
Proof.
  induction l as [|a l IH] using rev_ind.
  - rewrite decide_False; [done|]. intros [_ []%elem_of_nil].
  - rewrite forget_app. cbn [forget foldl]. destruct (decide (mkKey a i = k)) as [<-|Hk].
    + rewrite lookup_delete_eq, decide_True; [done|]. split; [done | set_solver].
    + rewrite lookup_delete_ne by done. rewrite IH.
      destruct (decide (k_ifindex k = i ∧ k_addr k ∈ l)) as [[<- H]|Hn].
      * rewrite decide_True; [done|]. split; [done | set_solver].
      * rewrite decide_False; [done|]. intros [<- [Hl|Ha]%elem_of_app]; [by apply Hn|].
        apply list_elem_of_singleton in Ha as <-. by destruct k.
Qed.

(** One mirroring per address and interface, in order. *)
Definition mirrorings (s : St) (add : bool) (l : list (Addr * loc)) (ops : list call) : Prop :=
  ∃ xss, Forall2 (λ ap xs, mirror_ops s ap.1 ap.2 add xs) l xss ∧ ops = concat xss.
Definition at_iface (p : loc) (l : list Addr) : list (Addr * loc) := (λ a, (a, p)) <$> l.

Lemma mirrorings_nil s add : mirrorings s add [] [].
Proof. exists []. split; [constructor | done]. Qed.
Lemma mirrorings_one s a p add xs : mirror_ops s a p add xs → mirrorings s add [(a, p)] xs.
Proof. intros H. exists [xs]. split; [by repeat constructor | cbn; by rewrite app_nil_r]. Qed.
Lemma mirrorings_app s add l k o1 o2 :
  mirrorings s add l o1 → mirrorings s add k o2 → mirrorings s add (l ++ k) (o1 ++ o2).
Proof.
  intros (x1 & H1 & ->) (x2 & H2 & ->). exists (x1 ++ x2). split; [by apply Forall2_app | by rewrite concat_app].
Qed.

Section Loops.
Context `{Kernel}.

(** A loop whose iterations each mirror some addresses. *)
Lemma wp_mirror_loop {B} (Rel : B → list (Addr * loc) → Prop) add (f : B → M unit) l M ops0 s0 s :
  mirrors M ops0 s0 s →
  (∀ x s ops, x ∈ l → mirrors M ops s0 s →
     wp (f x) (λ _ s', ∃ prs xs, Rel x prs ∧ mirrorings s0 add prs xs ∧ mirrors M (ops ++ xs) s0 s') s) →
  wp (forM l f) (λ _ s', ∃ prss ops, Forall2 Rel l prss ∧ mirrorings s0 add (concat prss) ops ∧
    mirrors M (ops0 ++ ops) s0 s') s.
Proof.
  intros H0 Hf.
  apply (wp_forM (λ done s', ∃ prss ops, Forall2 Rel done prss ∧ mirrorings s0 add (concat prss) ops ∧
    mirrors M (ops0 ++ ops) s0 s')); [| |done].
  - exists [], []. rewrite app_nil_r. split_and!; [constructor | apply mirrorings_nil | done].
  - intros done' x rest s1 -> (prss & ops & HR & Hops & H1). wp_use (Hf x); [set_solver | exact H1|].
    intros [] s2 (prs & xs & Hx & Hxs & H2). exists (prss ++ [prs]), (ops ++ xs). split_and!.
    + apply Forall2_app; [done | by repeat constructor].
    + rewrite concat_app. cbn. rewrite app_nil_r. by apply mirrorings_app.
    + by rewrite (assoc_L (++)).
Qed.

(** One that also takes the addresses out of the record. *)
Lemma wp_forget_loop {B} (g : B → option Addr) (p : loc) (f : B → M unit) (l : list B) M0 ops0 s0 s :
  mirrors M0 ops0 s0 s →
  (∀ x s M ops, mirrors M ops s0 s →
     wp (f x) (λ _ s', match g x with
       | None => mirrors M ops s0 s'
       | Some a => ∃ xs, mirror_ops s0 a p false xs ∧
           mirrors (delete (mkKey a (Ifindex (heap s0 !!! p))) M) (ops ++ xs) s0 s'
       end) s) →
  wp (forM l f) (λ _ s', ∃ ops, mirrorings s0 false (at_iface p (omap g l)) ops ∧
    mirrors (forget (Ifindex (heap s0 !!! p)) (omap g l) M0) (ops0 ++ ops) s0 s') s.
Proof.
  intros H0 Hf. set (ix := Ifindex (heap s0 !!! p)) in *.
  apply (wp_forM (λ done s', ∃ ops, mirrorings s0 false (at_iface p (omap g done)) ops ∧
    mirrors (forget ix (omap g done) M0) (ops0 ++ ops) s0 s')); [| |done].
  - exists []. split; [apply mirrorings_nil | by rewrite app_nil_r].
  - intros done' x rest s1 _ (ops & Hops & H1). wp_use (Hf x); [exact H1|]. intros [] s2.
    unfold at_iface in *. rewrite omap_app, fmap_app. cbn [omap list_omap]. destruct (g x) as [a|].
    + intros (xs & Hxs & H2). exists (ops ++ xs). split; [by apply mirrorings_app, mirrorings_one|].
      rewrite forget_app, (assoc_L (++)). exact H2.
    + intros H2. exists ops. cbn. rewrite !app_nil_r. by split.
Qed.

(** One mirroring after others, in terms of the first state. *)
Lemma mirror_after a p add M ops s0 s :
  mirrors M ops s0 s →
  wp (ndpMirrorAddr a p add)
     (λ _ s', ∃ xs, mirror_ops s0 a p add xs ∧ mirrors M (ops ++ xs) s0 s') s.
Proof.
  intros H0. wp_use ndpMirrorAddr_mirrors. intros [] s' (xs & Hxs & H1).
  destruct (mirrors_mem _ _ _ _ H0) as (Eh & Ei & EM). rewrite EM in H1.
  exists xs. split; [by eapply mirror_ops_mem | by eapply mirrors_trans].
Qed.
Lemma mirrors_query_after P M ops s0 s s' :
  (∀ e, P e → table_ops e = []) → mirrors M ops s0 s → emits P s s' → mirrors M ops s0 s'.
Proof.
  intros HP H0 Hq. destruct (mirrors_mem _ _ _ _ H0) as (_ & _ & EM).
  rewrite <- (app_nil_r ops). eapply mirrors_trans; [exact H0|]. rewrite <- EM. by eapply mirrors_queries.
Qed.
Lemma mirrors_delete_after k M ops s0 s :
  mirrors M ops s0 s → mirrors (delete k M) ops s0 (set_mirroredNeighs (delete k (mirroredNeighs s)) s).
Proof. intros (evs & -> & H0). by exists evs. Qed.
End Loops.

(** The addresses of its own an interface has mirrored. *)
Definition own_mirrored (i : Interface) : list Addr :=
  ip_Addr <$> filter (λ a, mirrored_addr i (ip_Addr a) = true) (Addr6 i).

Lemma Forall2_eq_fmap {A B} (h : A → B) l k : Forall2 (λ x y, y = h x) l k → k = h <$> l.
Proof. induction 1; cbn; congruence. Qed.
Lemma own_mirrored_pairs i p :
  concat ((λ a, if mirrored_addr i (ip_Addr a) then [(ip_Addr a, p)] else []) <$> Addr6 i)
    = at_iface p (own_mirrored i).
Proof.
  unfold at_iface, own_mirrored. induction (Addr6 i) as [|a l IH]; [done|].
  rewrite filter_cons. cbn. rewrite IH. by destruct (mirrored_addr i (ip_Addr a)).
Qed.

Section Clear.
Context `{Kernel}.

(** The loop over the addresses of an interface, in both directions. *)
Lemma own_loop (body : bool → bool) p add M ops0 s0 s :
  mirrors M ops0 s0 s →
  wp (forM (Addr6 (heap s0 !!! p)) (λ a,
        i ← deref p;
        if body (bool_decide (NDP i = ModeRelay)) && mirrored_addr i (ip_Addr a)
        then ndpMirrorAddr (ip_Addr a) p add else skip))
     (λ _ s', ∃ ops, mirrorings s0 add
          (if body (bool_decide (NDP (heap s0 !!! p) = ModeRelay)) then at_iface p (own_mirrored (heap s0 !!! p)) else []) ops ∧
        mirrors M (ops0 ++ ops) s0 s') s.
Proof.
  intros H0. set (i := heap s0 !!! p). set (b := body (bool_decide (NDP i = ModeRelay))).
  eapply wp_mono; [apply (wp_mirror_loop (λ a prs, prs = if b && mirrored_addr i (ip_Addr a)
    then [(ip_Addr a, p)] else []) add _ _ M ops0 s0 s H0)|].
  - cbv beta. intros a s1 ops _ H1. apply wp_bind, wp_deref. destruct (mirrors_mem _ _ _ _ H1) as (Eh & _ & _).
    rewrite Eh. fold i. fold b. destruct (b && _).
    + wp_use mirror_after; [exact H1|]. intros [] s2 (xs & Hxs & H2). exists [(ip_Addr a, p)], xs.
      split_and!; [done | by apply mirrorings_one | done].
    + apply wp_skip. exists [], []. rewrite app_nil_r. split_and!; [done | apply mirrorings_nil | done].
  - cbv beta. intros [] s' (prss & ops & HR%Forall2_eq_fmap & Hops & H1). exists ops. split; [|done].
    subst prss. destruct b; cbn [andb] in Hops; [by rewrite own_mirrored_pairs in Hops|].
    assert (∀ l : list IPAddr, concat ((λ _, []) <$> l) = @nil (Addr * loc)) as E
      by (induction l; [done | assumption]).
    by rewrite E in Hops.
Qed.

Lemma clear_keys p M ops0 s0 s keys :
  mirrors M ops0 s0 s →
  let ix := Ifindex (heap s0 !!! p) in
  let addrs := omap (λ k, if k_ifindex k =? ix then Some (k_addr k) else None) keys in
  wp (forM keys (λ key,
        i ← deref p;
        if negb (k_ifindex key =? Ifindex i) then skip
        else ndpMirrorAddr (k_addr key) p false ;; delete_mirrored key))
     (λ _ s', ∃ ops, mirrorings s0 false (at_iface p addrs) ops ∧
        mirrors (forget ix addrs M) (ops0 ++ ops) s0 s') s.
Proof.
  intros H0 ix addrs. apply (wp_forget_loop _ p); [done|]. intros key s1 M1 ops1 H1.
  apply wp_bind, wp_deref. destruct (mirrors_mem _ _ _ _ H1) as (-> & _ & _). fold ix.
  destruct (Z.eqb_spec (k_ifindex key) ix) as [E|E]; cbn [negb]; [|by apply wp_skip].
  apply wp_bind. wp_use mirror_after; [exact H1|]. intros [] s2 (xs & Hxs & H2).
  apply wp_modify. exists xs. split; [done|].
  replace (mkKey (k_addr key) ix) with key by (destruct key; cbn in *; congruence).
  by apply mirrors_delete_after.
Qed.

Lemma mirrored_on (M : gmap mirroredNeighKey bool) ix keys :
  keys ≡ₚ (map_to_list M).*1 →
  let addrs := omap (λ k, if k_ifindex k =? ix then Some (k_addr k) else None) keys in
  (∀ a, a ∈ addrs ↔ is_Some (M !! mkKey a ix)) ∧ NoDup addrs.
Proof.
  intros Hk addrs.
  assert (∀ a, a ∈ addrs ↔ mkKey a ix ∈ keys) as Ha.
  { intros a. unfold addrs. rewrite list_elem_of_omap. split.
    - intros (k & Hin & Hs). destruct (Z.eqb_spec (k_ifindex k) ix); [|done]. injection Hs as <-. by destruct k; cbn in *; subst.
    - intros Hin. exists (mkKey a ix). cbn. by rewrite Z.eqb_refl. }
  split.
  - intros a. rewrite Ha, Hk, list_elem_of_fmap. split.
    + intros ([k b] & E & Hin%elem_of_map_to_list). cbn in E. subst. eauto.
    + intros [b Hb]. exists (mkKey a ix, b). by rewrite elem_of_map_to_list.
  - assert (NoDup keys) as Hnd by (rewrite Hk; apply NoDup_fst_map_to_list). clear Hk Ha. unfold addrs. clear addrs.
    induction Hnd as [|k keys Hn _ IH]; cbn; [constructor|].
    destruct (Z.eqb_spec (k_ifindex k) ix) as [E|E]; [|done]. constructor; [|done].
    intros (k' & Hin & Hs)%list_elem_of_omap. destruct (Z.eqb_spec (k_ifindex k') ix); [|done].
    injection Hs as Es. apply Hn. by replace k with k' by (destruct k, k'; cbn in *; congruence).
Qed.
End Clear.

(** ** The sweep *)

(** Of a neighbour entry that is not our own proxy entry: the address it is
    about, when that is one the sweep looks at. *)
Definition entry_addr (n : Neigh) : option Addr :=
  if has_bits (n_Flags n) unix.NTF_PROXY then None else real_addr (n_IP n).
Definition failed_addr (n : Neigh) : option Addr :=
  if has_bits (n_State n) unix.NUD_FAILED then entry_addr n else None.
Definition live_addr (n : Neigh) : option Addr :=
  if has_bits (n_State n) unix.NUD_FAILED then None else entry_addr n.

(** The destination of a host route of ours on [i], and the ones without a
    live neighbour. *)
Definition owned_route (i : Interface) (r : Route) : option Addr :=
  if (r_LinkIndex r =? Ifindex i) && (r_Priority r =? ourRouteMetric) then
    dst ← r_Dst r; if is_host_route dst then neighAddr (net_IP dst) else None
  else None.
Definition orphan (i : Interface) (live : gset Addr) (r : Route) : option Addr :=
  a ← owned_route i r; if decide (a ∈ live) then None else Some a.

(** The operations on the neighbour entries: a failed one is removed after
    its mirror, if it has one; a stale one is probed. *)
Fixpoint entry_ops (s : St) (p : loc) (M : gmap mirroredNeighKey bool) (l : list Neigh) (ops : list call) : Prop :=
  let ix := Ifindex (heap s !!! p) in
  match l with
  | [] => ops = []
  | n :: l =>
      match entry_addr n with
      | None => entry_ops s p M l ops
      | Some a =>
          if has_bits (n_State n) unix.NUD_FAILED then
            ∃ xs rest, ops = xs ++ gone_op a ix :: rest ∧
              (if default false (M !! mkKey a ix) then mirror_ops s a p false xs else xs = []) ∧
              entry_ops s p (if default false (M !! mkKey a ix) then delete (mkKey a ix) M else M) l rest
          else ∃ rest, ops = (if has_bits (n_State n) unix.NUD_STALE then [probe_op a ix] else []) ++ rest ∧
              entry_ops s p M l rest
      end
  end.

(** The record after the sweep of the entries: the failed ones are out. *)
Definition reap (ix : Z) (M : gmap mirroredNeighKey bool) (n : Neigh) : gmap mirroredNeighKey bool :=
  match failed_addr n with
  | Some a => if default false (M !! mkKey a ix) then delete (mkKey a ix) M else M
  | None => M
  end.
Lemma entry_ops_cons s p M n l ops :
  entry_ops s p M (n :: l) ops ↔ ∃ xs rest, ops = xs ++ rest ∧ entry_ops s p M [n] xs ∧
    entry_ops s p (reap (Ifindex (heap s !!! p)) M n) l rest.
Proof.
  cbn [entry_ops]. unfold reap, failed_addr. destruct (entry_addr n) as [a|].
  - destruct (has_bits (n_State n) unix.NUD_FAILED).
    + split.
      * intros (xs & rest & -> & Hx & Hr). exists (xs ++ [gone_op a (Ifindex (heap s !!! p))]), rest.
        rewrite <- (assoc_L (++)). split_and!; [done | by exists xs, [] | done].
      * intros (? & rest & -> & (xs & ? & -> & Hx & ->) & Hr). exists xs, rest.
        rewrite <- (assoc_L (++)). by split_and!.
    + split.
      * intros (rest & -> & Hr). eexists _, rest. split_and!; [done | by exists []; rewrite app_nil_r | done].
      * intros (? & rest & -> & (? & -> & ->) & Hr). exists rest. by rewrite app_nil_r.
  - replace (if has_bits _ _ then None else None) with (@None Addr) by by case_match. split.
    + intros Hr. by exists [], ops.
    + by intros (? & ? & -> & -> & Hr).
Qed.

(** Only [true] is ever stored ([keys_ok] of reachable states). *)
Definition keys_true (M : gmap mirroredNeighKey bool) : Prop := ∀ k b, M !! k = Some b → b = true.

Section Sweep.
Context `{Kernel}.

Lemma sweepNeigh_step p live n M ops s0 s :
  mirrors M ops s0 s →
  wp (sweepNeigh p live n) (λ live' s', live' = list_to_set (option_list (live_addr n)) ∪ live ∧
    ∃ xs, entry_ops s0 p M [n] xs ∧ mirrors (reap (Ifindex (heap s0 !!! p)) M n) (ops ++ xs) s0 s') s.
Proof.
  intros H0. destruct (mirrors_mem _ _ _ _ H0) as (Eh & _ & EM).
  assert (∀ live' : gset Addr, wp (mret live') (λ l s', l = live' ∧ ∃ xs : list call, xs = [] ∧ mirrors M (ops ++ xs) s0 s') s) as Hret.
  { intros live'. apply wp_ret. split; [done|]. exists []. by rewrite app_nil_r. }
  unfold sweepNeigh, live_addr, reap, failed_addr. cbn [entry_ops]. unfold entry_addr, real_addr.
  destruct (has_bits (n_Flags n) unix.NTF_PROXY).
  { wp_use (Hret live). intros l s1 [-> H1]. repeat case_match; (split; [set_solver | exact H1]). }
  destruct (neighAddr (n_IP n)) as [a|].
  2: { wp_use (Hret live). intros l s1 [-> H1]. repeat case_match; (split; [set_solver | exact H1]). }
  rewrite not_mirrorable_guard. destruct (mirrorable a); cbn [negb].
  2: { wp_use (Hret live). intros l s1 [-> H1]. repeat case_match; (split; [set_solver | exact H1]). }
  apply wp_bind, wp_deref. rewrite Eh.
  destruct (has_bits (n_State n) unix.NUD_FAILED).
  - apply wp_bind, wp_get. unfold is_mirrored. rewrite EM.
    set (k := mkKey a (Ifindex (heap s0 !!! p))).
    apply wp_bind, (wp_mono _ (λ _ s', ∃ xs, (if default false (M !! k) then mirror_ops s0 a p false xs else xs = []) ∧
      mirrors (if default false (M !! k) then delete k M else M) (ops ++ xs) s0 s')).
    { destruct (default false (M !! k)); cbn [when].
      - apply wp_bind, wp_modify. wp_use mirror_after; [by apply mirrors_delete_after|]. intros [] s1 H1. exact H1.
      - apply wp_skip. exists []. by rewrite app_nil_r. }
    cbv beta. intros [] s1 (xs & Hxs & H1). apply wp_bind. wp_use deleteFailedNeigh_mirrors.
    intros [] s2 H2. apply wp_ret. split; [set_solver|].
    exists (xs ++ [gone_op a (Ifindex (heap s0 !!! p))]). split; [by exists xs, []|].
    destruct (mirrors_mem _ _ _ _ H1) as (_ & _ & EM1). rewrite EM1 in H2. rewrite (assoc_L (++)).
    by eapply mirrors_trans.
  - apply wp_bind, (wp_mono _ (λ _ s', mirrors M (ops ++ (if has_bits (n_State n) unix.NUD_STALE
      then [probe_op a (Ifindex (heap s0 !!! p))] else [])) s0 s')).
    { destruct (has_bits (n_State n) unix.NUD_STALE); cbn [when]; [|apply wp_skip; by rewrite app_nil_r].
      wp_use probeNeighbor_mirrors. intros [] s1 H1. rewrite EM in H1. by eapply mirrors_trans. }
    cbv beta. intros [] s1 H1. apply wp_ret. split; [cbn; set_solver|].
    eexists. split; [by exists []; rewrite app_nil_r | exact H1].
Qed.

Lemma sweep_entries p l : ∀ live M ops s0 s,
  mirrors M ops s0 s →
  wp (foldM (sweepNeigh p) live l) (λ live' s', live' = list_to_set (omap live_addr l) ∪ live ∧
    ∃ xs, entry_ops s0 p M l xs ∧ mirrors (foldl (reap (Ifindex (heap s0 !!! p))) M l) (ops ++ xs) s0 s') s.
Proof.
  induction l as [|n l IH]; intros live M ops s0 s H0; cbn [foldM].
  - apply wp_ret. split; [set_solver|]. exists []. by rewrite app_nil_r.
  - apply wp_bind. wp_use sweepNeigh_step; [exact H0|]. intros live1 s1 (-> & xs & Hxs & H1).
    eapply wp_mono; [by apply IH|]. cbv beta. intros live2 s2 (-> & ys & Hys & H2). split.
    + cbn [omap list_omap]. destruct (live_addr n); cbn; set_solver.
    + exists (xs ++ ys). rewrite (assoc_L (++)). split; [|exact H2]. apply entry_ops_cons. by exists xs, ys.
Qed.

Lemma sweep_routes p live M ops s0 s l :
  mirrors M ops s0 s →
  let i := heap s0 !!! p in
  wp (forM l (sweepRoute p live))
     (λ _ s', ∃ xs, mirrorings s0 false (at_iface p (omap (orphan i live) l)) xs ∧
        mirrors (forget (Ifindex i) (omap (orphan i live) l) M) (ops ++ xs) s0 s') s.
Proof.
  intros H0 i. apply (wp_forget_loop (orphan i live) p); [done|]. intros r s1 M1 ops1 H1.
  destruct (mirrors_mem _ _ _ _ H1) as (Eh & _ & _).
  unfold sweepRoute, orphan, owned_route. apply wp_bind, wp_deref. rewrite Eh. fold i.
  destruct (r_LinkIndex r =? Ifindex i); cbn [negb andb orb]; [|by apply wp_skip].
  destruct (r_Priority r =? ourRouteMetric); cbn [negb andb orb]; [|by apply wp_skip].
  destruct (r_Dst r) as [dst|]; cbn [mbind option_bind]; [|by apply wp_skip].
  destruct (is_host_route dst); cbn [negb]; [|by apply wp_skip].
  destruct (neighAddr (net_IP dst)) as [a|]; cbn [mbind option_bind]; [|by apply wp_skip].
  destruct (decide (a ∈ live)) as [Ha|Ha];
    [rewrite bool_decide_eq_true_2 by done; by apply wp_skip | rewrite bool_decide_eq_false_2 by done].
  apply wp_bind, wp_modify, wp_bind, wp_log. intros s2 H2. wp_use mirror_after; [|by intros []].
  eapply mirrors_query_after; [apply log_ev_table_ops | | exact H2]. by apply mirrors_delete_after.
Qed.

(** The record, by key: the failed and the orphaned are out. *)
Lemma lookup_reap_all ix l : ∀ M k,
  keys_true M → foldl (reap ix) M l !! k = forget ix (omap failed_addr l) M !! k.
Proof.
  induction l as [|n l IH]; intros M k HM; [done|]. cbn [foldl omap list_omap].
  unfold reap at 2. destruct (failed_addr n) as [a|]; [|by apply IH].
  cbn [forget foldl]. destruct (M !! mkKey a ix) as [b|] eqn:E; cbn [default].
  - rewrite (HM _ _ E). cbn. apply IH. intros k' b' [_ Hk]%lookup_delete_Some. by eapply HM.
  - rewrite delete_id by done. by apply IH.
Qed.
End Sweep.

(** ** The whole of an interface *)

Lemma mirrorings_mem s s' add l ops :
  heap s' = heap s → interfaces s' = interfaces s → mirrorings s' add l ops → mirrorings s add l ops.
Proof.
  intros Eh Ei (xss & H & ->). exists xss. split; [|done]. eapply Forall2_impl; [exact H|].
  intros [a p] xs. by apply mirror_ops_mem.
Qed.
Lemma mirrors_events M ops s s' e : mirrors M ops s s' → e ∈ trace s → e ∈ trace s'.
Proof. intros (evs & -> & _) He. apply elem_of_app. by left. Qed.

(** The record after a sweep that saw the entries [ns] and took out [gone]. *)
Lemma lookup_swept ix ns gone M k :
  keys_true M →
  forget ix gone (foldl (reap ix) M ns) !! k
    = if decide (k_ifindex k = ix ∧ k_addr k ∈ omap failed_addr ns ++ gone) then None else M !! k.
Proof.
  intros HM. rewrite lookup_forget, lookup_reap_all by done. rewrite lookup_forget.
  repeat case_decide; set_solver.
Qed.

Section Properties.
Context `{KN : Kernel}.

(** The sweep, with when the list of routes was read. *)
Lemma sweep_exact p s :
  wp (sweepIfaceFailedAndOrphans p) (λ _ s',
    let i := heap s !!! p in
    let link := k_linkByIndex (trace s) (Ifindex i) in
    match link with
    | None => mirrors (mirroredNeighs s) [] s s'
    | Some l =>
        match k_neighList (trace s ++ [EvLinkByIndex (Ifindex i) link]) (l_Index l) with
        | None => mirrors (mirroredNeighs s) [] s s'
        | Some ns => ∃ routes ops1 ops2,
            let gone := omap (orphan i (list_to_set (omap live_addr ns))) (default [] routes) in
            EvRouteList (l_Index l) routes ∈ trace s' ∧ (∃ h rest, routes = k_routeList h (l_Index l) ∧
              trace s' = h ++ EvRouteList (l_Index l) routes :: rest) ∧
            entry_ops s p (mirroredNeighs s) ns ops1 ∧
            mirrorings s false (at_iface p gone) ops2 ∧
            emitted table_ops (ops1 ++ ops2) (set_mirroredNeighs (mirroredNeighs s') s) s' ∧
            (keys_true (mirroredNeighs s) → ∀ k, mirroredNeighs s' !! k =
              if decide (k_ifindex k = Ifindex i ∧ k_addr k ∈ omap failed_addr ns ++ gone)
              then None else mirroredNeighs s !! k)
        end
    end) s.
Proof.
  cbv zeta. unfold sweepIfaceFailedAndOrphans. apply wp_bind, wp_deref, wp_bind, wp_sys.
  intros link ->. set (i := heap s !!! p). set (link := k_linkByIndex (trace s) (Ifindex i)).
  pose proof (mirrors_same _ s _ (emitted_one table_ops (EvLinkByIndex (Ifindex i) link) s)) as H0.
  cbn [table_ops] in H0. destruct link as [l|]; [|by apply wp_skip].
  apply wp_bind, wp_sys. intros neighs ->. cbn [trace set_trace].
  set (neighs := k_neighList _ _). set (h2 := _ ++ [EvNeighList _ _]).
  assert (mirrors (mirroredNeighs s) [] s (set_trace h2 s)) as H1.
  { exists [EvLinkByIndex (Ifindex i) (Some l); EvNeighList (l_Index l) neighs]. split; [|done].
    unfold h2. rewrite <- (assoc_L (++)). by destruct s. }
  change (set_trace h2 (set_trace _ s)) with (set_trace h2 s).
  destruct neighs as [ns|].
  2: { apply wp_log. intros s2 H2. eapply mirrors_query_after; [apply log_ev_table_ops | exact H1 | exact H2]. }
  apply wp_bind. wp_use sweep_entries; [exact H1|]. intros live s2 (-> & ops1 & Hops1 & H2).
  rewrite (right_id_L ∅ (∪)). cbn [app] in H2. apply wp_bind, wp_sys. intros routes Hroutes.
  set (s3 := set_trace _ s2). set (M1 := foldl _ _ _) in H2.
  assert (mirrors M1 ops1 s s3) as H3.
  { destruct (mirrors_mem _ _ _ _ H2) as (_ & _ & EM). rewrite <- (app_nil_r ops1).
    eapply mirrors_trans; [exact H2|]. rewrite <- EM. apply mirrors_same.
    exact (emitted_one table_ops (EvRouteList (l_Index l) routes) s2). }
  assert (EvRouteList (l_Index l) routes ∈ trace s3) as He by (cbn; set_solver).
  assert (∀ M ops s4, mirrors M ops s3 s4 → ∃ h rest, routes = k_routeList h (l_Index l) ∧
    trace s4 = h ++ EvRouteList (l_Index l) routes :: rest) as Hread.
  { intros M ops s4 (evs & -> & _). exists (trace s2), evs. split; [done|]. cbn. by rewrite <- (assoc_L (++)). }
  destruct (mirrors_mem _ _ _ _ H3) as (Eh & Ei & EM).
  assert (∀ gone ops2 s4, mirrorings s3 false (at_iface p gone) ops2 →
     mirrors (forget (Ifindex i) gone M1) ops2 s3 s4 →
     EvRouteList (l_Index l) routes ∈ trace s4 ∧ mirrorings s false (at_iface p gone) ops2 ∧
     emitted table_ops (ops1 ++ ops2) (set_mirroredNeighs (mirroredNeighs s4) s) s4 ∧
     (keys_true (mirroredNeighs s) → ∀ k, mirroredNeighs s4 !! k =
        if decide (k_ifindex k = Ifindex i ∧ k_addr k ∈ omap failed_addr ns ++ gone)
        then None else mirroredNeighs s !! k)) as Hdone.
  { intros gone ops2 s4 Hops2 H4. pose proof (mirrors_trans _ _ _ _ _ _ _ H3 H4) as H5.
    destruct (mirrors_mem _ _ _ _ H5) as (_ & _ & EM4). split_and!.
    - exact (mirrors_events _ _ _ _ _ H4 He).
    - by eapply mirrorings_mem.
    - by rewrite EM4.
    - intros HM k. rewrite EM4. by apply lookup_swept. }
  destruct routes as [rs|].
  - eapply wp_mono; [apply (sweep_routes p _ M1 [] s3 s3)|].
    { rewrite <- EM. apply mirrors_same, emitted_refl. }
    cbv beta. intros [] s4 (ops2 & Hops2 & H4). rewrite Eh in Hops2, H4. fold i in Hops2, H4.
    exists (Some rs), ops1, ops2. destruct (Hdone _ _ _ Hops2 H4) as (A & B & C & D). split_and!; [done | by eapply Hread | done..].
  - apply wp_log. intros s4 H4. exists None, ops1, [].
    assert (mirrors M1 [] s3 s4) as H5 by (rewrite <- EM; eapply mirrors_queries, H4; apply log_ev_table_ops).
    destruct (Hdone [] [] s4) as (A & B & C & D); [apply mirrorings_nil | exact H5 |].
    split_and!; [done | by eapply Hread | done..].
Qed.

(** C21: the sweep of an interface, exactly: every failed entry of the kernel's
    list is removed (after its mirror, if recorded), every stale one is probed,
    and then every host route of ours whose destination is not a live entry is
    taken down together with its proxy entries; the record loses exactly the
    failed and orphaned addresses of this interface. *)
Theorem sweepIfaceFailedAndOrphans_exact p s :
  wp (sweepIfaceFailedAndOrphans p) (λ _ s',
    let i := heap s !!! p in
    let link := k_linkByIndex (trace s) (Ifindex i) in
    match link with
    | None => mirrors (mirroredNeighs s) [] s s'
    | Some l =>
        match k_neighList (trace s ++ [EvLinkByIndex (Ifindex i) link]) (l_Index l) with
        | None => mirrors (mirroredNeighs s) [] s s'
        | Some ns => ∃ routes ops1 ops2,
            let gone := omap (orphan i (list_to_set (omap live_addr ns))) (default [] routes) in
            EvRouteList (l_Index l) routes ∈ trace s' ∧
            entry_ops s p (mirroredNeighs s) ns ops1 ∧
            mirrorings s false (at_iface p gone) ops2 ∧
            emitted table_ops (ops1 ++ ops2) (set_mirroredNeighs (mirroredNeighs s') s) s' ∧
            (keys_true (mirroredNeighs s) → ∀ k, mirroredNeighs s' !! k =
              if decide (k_ifindex k = Ifindex i ∧ k_addr k ∈ omap failed_addr ns ++ gone)
              then None else mirroredNeighs s !! k)
        end
    end) s.
Proof.
  wp_use sweep_exact. cbv zeta. intros [] s'. destruct (k_linkByIndex _ _); [|done]. destruct (k_neighList _ _); [|done].
  intros (routes & ops1 & ops2 & A & _ & B). by exists routes, ops1, ops2.
Qed.

(** Removing what an interface mirrors takes down, each once, its own
    mirrored addresses and the neighbours recorded for it, and forgets exactly
    the latter. *)
Lemma clearMirroredState_exact p s :
  wp (clearMirroredState p) (λ _ s',
    let i := heap s !!! p in
    ∃ addrs ops1 ops2,
      NoDup addrs ∧ (∀ a, a ∈ addrs ↔ is_Some (mirroredNeighs s !! mkKey a (Ifindex i))) ∧
      mirrorings s false (if bool_decide (NDP i = ModeRelay) then at_iface p (own_mirrored i) else []) ops1 ∧
      mirrorings s false (at_iface p addrs) ops2 ∧
      mirrors (filter (λ kb, k_ifindex kb.1 ≠ Ifindex i) (mirroredNeighs s)) (ops1 ++ ops2) s s') s.
Proof.
  unfold clearMirroredState. apply wp_bind, wp_deref. cbv zeta. set (i := heap s !!! p).
  apply wp_bind. eapply wp_mono; [apply (own_loop id p false (mirroredNeighs s) [] s s), mirrors_same, emitted_refl|].
  cbv beta. intros [] s1 (ops1 & Hops1 & H1). cbn [app id] in *. fold i in Hops1.
  destruct (mirrors_mem _ _ _ _ H1) as (Eh & Ei & EM). apply wp_bind, wp_get. rewrite EM.
  apply wp_bind, wp_range. intros keys s2 Hkeys Hq.
  pose proof (mirrors_query_after _ _ _ _ _ _ query_ev_table_ops H1 Hq) as H2.
  eapply wp_mono; [exact (clear_keys p _ _ s s2 keys H2)|]. cbv beta zeta. fold i.
  destruct (mirrored_on _ (Ifindex i) keys Hkeys) as [Ha Hnd]. cbv zeta in Ha, Hnd.
  intros [] s3 (ops2 & Hops2 & H3). eexists _, ops1, ops2. split_and!; [exact Hnd | exact Ha | done..|].
  replace (filter _ _) with (forget (Ifindex i)
    (omap (λ k, if k_ifindex k =? Ifindex i then Some (k_addr k) else None) keys) (mirroredNeighs s)); [done|].
  apply map_eq. intros k. rewrite lookup_forget.
  destruct (mirroredNeighs s !! k) as [b|] eqn:E.
  - destruct (decide (k_ifindex k = Ifindex i)) as [Ek|Ek].
    + rewrite decide_True.
      * symmetry. apply map_lookup_filter_None_2. right. intros ? _ H. by apply H.
      * split; [done|]. apply Ha. rewrite <- Ek. destruct k as [ka ki]. cbn in *. eauto.
    + rewrite decide_False by by intros [].
      symmetry. by apply map_lookup_filter_Some_2.
  - rewrite (map_lookup_filter_None_2 _ _ k) by by left. by destruct (decide _).
Qed.

(** ** Reconciliation and route updates *)

(** The addresses of its own every relaying interface mirrors. *)
Definition own_pairs (s : St) (p : loc) : list (Addr * loc) :=
  if bool_decide (NDP (heap s !!! p) = ModeRelay) then at_iface p (own_mirrored (heap s !!! p)) else [].
(** Where a recorded neighbour belongs. *)
Definition belongs (s : St) (k : mirroredNeighKey) (prs : list (Addr * loc)) : Prop :=
  (∃ n p, interfaces s !! n = Some p ∧ Ifindex (heap s !!! p) = k_ifindex k ∧ prs = [(k_addr k, p)]) ∨
  ((∀ n p, interfaces s !! n = Some p → Ifindex (heap s !!! p) ≠ k_ifindex k) ∧ prs = []).

Lemma setProxyNDP_mirrors n b M ops s0 s :
  mirrors M ops s0 s → wp (setProxyNDP n b) (λ _ s', mirrors M ops s0 s') s.
Proof.
  intros H0. wp_use setProxyNDP_quiet. intros err s1 H1. destruct (mirrors_mem _ _ _ _ H0) as (_ & _ & EM).
  rewrite <- (app_nil_r ops). eapply mirrors_trans; [exact H0|]. rewrite <- EM. by apply mirrors_same.
Qed.

Lemma reconcile_own c M ops s0 s :
  mirrors M ops s0 s →
  wp (i ← deref c;
      if bool_decide (NDP i ≠ ModeRelay) then skip
      else forM (Addr6 i) (λ a,
             i ← deref c;
             if mirrored_addr i (ip_Addr a) then ndpMirrorAddr (ip_Addr a) c true else skip))
     (λ _ s', ∃ prs xs, prs = own_pairs s0 c ∧ mirrorings s0 true prs xs ∧ mirrors M (ops ++ xs) s0 s') s.
Proof.
  intros H0. apply wp_bind, wp_deref. destruct (mirrors_mem _ _ _ _ H0) as (-> & _ & _).
  unfold own_pairs. destruct (NDP (heap s0 !!! c)) eqn:EN.
  - apply wp_skip. exists [], []. rewrite app_nil_r. split_and!; [done | apply mirrorings_nil | done].
  - eapply wp_mono; [exact (own_loop (λ _, true) c true M ops s0 s H0)|]. cbv beta.
    intros [] s1 (xs & Hxs & H1). by exists (at_iface c (own_mirrored (heap s0 !!! c))), xs.
Qed.

Lemma reconcile_key k M ops s0 s :
  mirrors M ops s0 s →
  wp (iface ← ifaceByIndex (k_ifindex k);
      match iface with
      | None => skip
      | Some p => ndpMirrorAddr (k_addr k) p true
      end)
     (λ _ s', ∃ prs xs, belongs s0 k prs ∧ mirrorings s0 true prs xs ∧ mirrors M (ops ++ xs) s0 s') s.
Proof.
  intros H0. destruct (mirrors_mem _ _ _ _ H0) as (Eh & Ei & _).
  apply wp_bind, wp_find_interface; rewrite Eh, Ei.
  - intros n p s1 Hq Hn Hi%Z.eqb_eq.
    pose proof (mirrors_query_after _ _ _ _ _ _ query_ev_table_ops H0 Hq) as H1.
    wp_use mirror_after; [exact H1|]. intros [] s2 (xs & Hxs & H2). exists [(k_addr k, p)], xs.
    split_and!; [left; by exists n, p | by apply mirrorings_one | done].
  - intros s1 Hq Hno. apply wp_skip. exists [], []. rewrite app_nil_r. split_and!.
    + right. split; [|done]. intros n p Hn. apply Z.eqb_neq. by eapply Hno.
    + apply mirrorings_nil.
    + by eapply mirrors_query_after, Hq; [apply query_ev_table_ops|].
Qed.

Lemma reconcile_exact s :
  wp reconcileKernelState (λ _ s', ∃ cs keys prss ops1 ops2,
    cs ≡ₚ (map_to_list (interfaces s)).*2 ∧ keys ≡ₚ (map_to_list (mirroredNeighs s)).*1 ∧
    Forall2 (belongs s) keys prss ∧
    mirrorings s true (cs ≫= own_pairs s) ops1 ∧ mirrorings s true (concat prss) ops2 ∧
    mirrors (mirroredNeighs s) (ops1 ++ ops2) s s') s.
Proof.
  unfold reconcileKernelState. set (M := mirroredNeighs s).
  apply wp_bind, wp_range_interfaces. intros cs0 s0 _ Hq0.
  pose proof (mirrors_queries _ _ _ query_ev_table_ops Hq0) as H0.
  apply wp_bind, (wp_mono _ (λ _ s', mirrors M [] s s')).
  { apply (wp_forM (λ _ s', mirrors M [] s s')); [done| |done]. intros _ c _ s1 _ H1.
    apply wp_bind, wp_deref. case_match; [by apply wp_skip|]. apply wp_bind.
    wp_use setProxyNDP_mirrors; [exact H1|]. intros err s2 H2. destruct err; [|by apply wp_skip].
    apply wp_log. intros s3 H3. eapply mirrors_query_after; [apply log_ev_table_ops | exact H2 | exact H3]. }
  cbv beta. clear s0 Hq0 H0. intros [] s1 H1. destruct (mirrors_mem _ _ _ _ H1) as (_ & Ei & _).
  apply wp_bind, wp_range_interfaces. rewrite Ei. intros cs s2 Hcs Hq.
  pose proof (mirrors_query_after _ _ _ _ _ _ query_ev_table_ops H1 Hq) as H2.
  apply wp_bind. eapply wp_mono; [apply (wp_mirror_loop (λ c prs, prs = own_pairs s c) true _ cs M [] s s2 H2)|].
  { intros c s3 ops _ H3. exact (reconcile_own c M ops s s3 H3). }
  cbv beta. intros [] s3 (prss1 & ops1 & ->%Forall2_eq_fmap & Hops1 & H3). cbn [app] in H3.
  destruct (mirrors_mem _ _ _ _ H3) as (_ & _ & EM). apply wp_bind, wp_get. rewrite EM.
  apply wp_bind, wp_range. intros keys s4 Hkeys Hq4.
  pose proof (mirrors_query_after _ _ _ _ _ _ query_ev_table_ops H3 Hq4) as H4.
  eapply wp_mono; [apply (wp_mirror_loop (belongs s) true _ keys M ops1 s s4 H4)|].
  { intros k s5 ops _ H5. exact (reconcile_key k M ops s s5 H5). }
  cbv beta. intros [] s5 (prss & ops2 & HR & Hops2 & H5).
  exists cs, keys, prss, ops1, ops2. split_and!; try done.
  replace (cs ≫= own_pairs s) with (concat (own_pairs s <$> cs)); [done|].
  clear. induction cs as [|c cs IH]; [done|]. cbn. by rewrite IH.
Qed.

(** C22: the reconciliation only adds: it mirrors again the own addresses of
    every relaying interface, each interface once, and every recorded neighbour
    whose interface is still registered, each once; the record stays as it is. *)
Theorem reconcileKernelState_exact s :
  wp reconcileKernelState (λ _ s', ∃ cs keys prss ops1 ops2,
    cs ≡ₚ (map_to_list (interfaces s)).*2 ∧ keys ≡ₚ (map_to_list (mirroredNeighs s)).*1 ∧
    Forall2 (belongs s) keys prss ∧
    mirrorings s true (cs ≫= own_pairs s) ops1 ∧ mirrorings s true (concat prss) ops2 ∧
    mirrors (mirroredNeighs s) (ops1 ++ ops2) s s') s.
Proof. apply reconcile_exact. Qed.

(** A deletion of one of our host routes. *)
Definition owned_deletion (u : RouteUpdate) : bool :=
  (ru_Type u =? unix.RTM_DELROUTE) && (ru_Priority u =? ourRouteMetric) &&
  match ru_Dst u with Some dst => is_host_route dst | None => false end.

(** C38: a route update arms one reconciliation exactly when it deletes one of
    our host routes on a registered relaying interface and none is under way;
    otherwise it changes nothing. *)
Theorem handleRouteEvent_arms u s :
  wp (handleRouteEvent u) (λ _ s', ∃ s1 b, emits query_ev s s1 ∧
    s' = (if b && negb (reconcileScheduled s)
          then set_timers (timers s ++ [mkTimer (next s) reconcileDebounce FnReconcile])
                 (set_next (Pos.succ (next s)) (set_reconcileScheduled true s1))
          else s1) ∧
    (b = true → owned_deletion u = true ∧ ∃ n p, interfaces s !! n = Some p ∧
       Ifindex (heap s !!! p) = ru_LinkIndex u ∧ NDP (heap s !!! p) = ModeRelay) ∧
    (b = false → owned_deletion u = false ∨
       (∃ n p, interfaces s !! n = Some p ∧ Ifindex (heap s !!! p) = ru_LinkIndex u ∧ NDP (heap s !!! p) ≠ ModeRelay) ∨
       (∀ n p, interfaces s !! n = Some p → Ifindex (heap s !!! p) ≠ ru_LinkIndex u))) s.
Proof.
  unfold handleRouteEvent, owned_deletion.
  destruct (ru_Type u =? unix.RTM_DELROUTE), (ru_Priority u =? ourRouteMetric); cbn [negb andb orb];
    try (apply wp_skip; exists s, false; split_and!; [reflexivity | done | done | by left]).
  destruct (ru_Dst u) as [dst|];
    [|apply wp_skip; exists s, false; split_and!; [reflexivity | done | done | by left]].
  destruct (is_host_route dst); cbn [negb];
    [|apply wp_skip; exists s, false; split_and!; [reflexivity | done | done | by left]].
  apply wp_bind, wp_find_interface.
  - intros n p s1 Hq Hn Hi%Z.eqb_eq. apply wp_bind, wp_deref.
    pose proof Hq as (evs & Es1 & _). replace (heap s1) with (heap s) by by subst s1.
    destruct (NDP (heap s !!! p)) eqn:EN.
    + apply wp_skip. exists s1, false. split_and!; [done..|]. intros _. right. left. exists n, p.
      split_and!; [done..|]. congruence.
    + rewrite bool_decide_eq_false_2 by (by intros ?). unfold scheduleReconcile. apply wp_bind, wp_get.
      replace (reconcileScheduled s1) with (reconcileScheduled s) by by subst s1.
      destruct (reconcileScheduled s) eqn:ES; refine (wp_intro _ _ _ tt _ eq_refl _); cbv beta; exists s1, true;
        (split_and!; [done | by subst s1 | intros _; split; [done | by exists n, p] | done]).
  - intros s1 Hq Hno. apply wp_skip. exists s1, false. split_and!; [done..|]. intros _. right. right.
    intros n p Hn. apply Z.eqb_neq. by eapply Hno.
Qed.
End Properties.

(** ** The sweep and an interface's own addresses *)

(** One of several mirrorings is a part of the operations. *)
Lemma mirrorings_in s add l ops a p :
  (a, p) ∈ l → mirrorings s add l ops → ∃ o1 xs o2, ops = o1 ++ xs ++ o2 ∧ mirror_ops s a p add xs.
Proof.
  intros Hin (xss & HR & ->). induction HR as [|ap xs l xss Hx _ IH]; [by apply not_elem_of_nil in Hin|].
  apply elem_of_cons in Hin as [<-|Hin].
  - by exists [], xs, (concat xss).
  - destruct (IH Hin) as (o1 & ys & o2 & E & Hy). exists (xs ++ o1), ys, o2. cbn. by rewrite E, <- !(assoc_L (++)).
Qed.
Lemma mirror_ops_route s a p add xs :
  LearnRoutes (heap s !!! p) = true → IsLinkLocalUnicast a = false →
  mirror_ops s a p add xs → route_op a add (Ifindex (heap s !!! p)) ∈ xs.
Proof.
  intros HL Ha (cs & _ & ->). unfold mirror_route. rewrite HL, Ha. apply elem_of_app. right. by apply list_elem_of_singleton.
Qed.

Section Own.
Context `{KN : Kernel} `{!KernelOk KN}.

(** C35: an address of its own that an interface mirrors has no neighbour entry,
    so the sweep of the interface takes its host route for an orphan: when the
    kernel lists the route at the moment the sweep asks, the sweep removes it and
    the proxy entries on the masters, and a reconciliation after that installs
    them all again. *)
Theorem sweep_removes_own_address n p a l ns s :
  let i := heap s !!! p in
  interfaces s !! n = Some p → NDP i = ModeRelay → LearnRoutes i = true →
  a ∈ own_mirrored i → IsLinkLocalUnicast a = false →
  k_linkByIndex (trace s) (Ifindex i) = Some l →
  k_neighList (trace s ++ [EvLinkByIndex (Ifindex i) (Some l)]) (l_Index l) = Some ns →
  a ∉ omap live_addr ns →
  wp (sweepIfaceFailedAndOrphans p) (λ _ s1, ∃ h rest,
    let routes := k_routeList h (l_Index l) in
    trace s1 = h ++ EvRouteList (l_Index l) routes :: rest ∧
    ((∃ r, r ∈ default [] routes ∧ owned_route i r = Some a) →
      ∃ o1 down o2, trace s1 ≫= table_ops = (trace s ≫= table_ops) ++ o1 ++ down ++ o2 ∧
        mirror_ops s a p false down ∧ route_op a false (Ifindex i) ∈ down ∧
        wp reconcileKernelState (λ _ s2,
          ∃ u1 up u2, trace s2 ≫= table_ops = (trace s1 ≫= table_ops) ++ u1 ++ up ++ u2 ∧
            mirror_ops s a p true up ∧ route_op a true (Ifindex i) ∈ up) s1)) s.
Proof.
  intros i Hn HN HL Hown Ha Hlink Hneigh Hns. wp_use sweep_exact. cbv zeta. fold i. rewrite Hlink, Hneigh.
  intros [] s1 (routes & ops1 & ops2 & _ & (h & rest & -> & Ht) & _ & H2 & He & _). exists h, rest. split; [exact Ht|].
  intros (r & Hin & Ho). apply (mirrorings_in _ _ _ _ a p) in H2 as (o1 & down & o2 & -> & Hdown).
  2: { apply list_elem_of_fmap. exists a. split; [done|]. apply list_elem_of_omap. exists r. split; [done|].
       unfold orphan. rewrite Ho. cbn. by rewrite decide_False by (by rewrite elem_of_list_to_set). }
  destruct He as (evs & Es1 & Hevs). exists (ops1 ++ o1), down, o2. split_and!; [| done | by apply mirror_ops_route |].
  { rewrite Es1. cbn. by rewrite bind_app, Hevs, <- !(assoc_L (++)). }
  wp_use reconcile_exact. intros [] s2 (cs & keys & prss & u1 & u2 & Hcs & _ & _ & U1 & _ & (evs2 & Es2 & Hevs2)).
  assert (heap s1 = heap s ∧ interfaces s1 = interfaces s) as [Eh Ei] by by rewrite Es1.
  apply (mirrorings_in _ _ _ _ a p) in U1 as (v1 & up & v2 & -> & Hup).
  2: { apply list_elem_of_bind. exists p. split.
       - unfold own_pairs. rewrite Eh. fold i. rewrite HN, bool_decide_eq_true_2 by done. apply list_elem_of_fmap. by exists a.
       - rewrite Hcs, Ei. apply elem_of_interfaces. by exists n. }
  apply (mirror_ops_mem s s1) in Hup; [|done..].
  exists v1, up, (v2 ++ u2). split_and!; [| done | by apply mirror_ops_route].
  rewrite Es2. cbn. by rewrite bind_app, Hevs2, <- !(assoc_L (++)).
Qed.
End Own.

(** [eth1] has the address [global_addr 1] itself, mirrored like any other, and
    a live neighbour [global_addr 7]; the kernel lists the host routes of both. *)
Definition own_route_sim : sim := mkSim (λ _ _, None) (λ _ _, None) [] [] (sim_links sample_sim) []
  [(3, [sample_neigh 3 (global_addr 7)])]
  [(3, [host_route (global_addr 1) 3 ourRouteMetric unix.RTPROT_STATIC;
        host_route (global_addr 7) 3 ourRouteMetric unix.RTPROT_STATIC])]
  1000 (λ _, None) (λ _, None).
Definition own_route_kernel : Kernel := sim_kernel own_route_sim.

Lemma sweep_removes_own_address_witness :
  wp (@sweepIfaceFailedAndOrphans own_route_kernel 2%positive) (λ _ s1,
    RouteDel (host_route (global_addr 1) 3 ourRouteMetric 0) ∈ trace s1 ≫= table_ops ∧
    wp (@reconcileKernelState own_route_kernel) (λ _ s2,
      RouteReplace (host_route (global_addr 1) 3 ourRouteMetric unix.RTPROT_STATIC) ∈ trace s2 ≫= table_ops) s1) sample_state.
Proof.
  eapply wp_mono.
  { apply (sweep_removes_own_address (KN := own_route_kernel) "lan" 2%positive (global_addr 1) (sample_link 3)
      [sample_neigh 3 (global_addr 7)] sample_state).
    - done.
    - done.
    - done.
    - apply list_elem_of_In. vm_compute. by right; left.
    - done.
    - by vm_compute.
    - by vm_compute.
    - rewrite list_elem_of_In. vm_compute. intuition discriminate. }
  cbv beta. intros [] s1 (h & rest & _ & H). destruct H as (o1 & down & o2 & E1 & _ & Hd & W).
  { exists (host_route (global_addr 1) 3 ourRouteMetric unix.RTPROT_STATIC).
    split; [apply elem_of_cons; by left | by vm_compute]. }
  split.
  - rewrite E1. rewrite !elem_of_app. right. right. left. exact Hd.
  - eapply wp_mono; [exact W|]. cbv beta. intros [] s2 (u1 & up & u2 & E2 & _ & Hu).
    rewrite E2, !elem_of_app. right. right. left. exact Hu.
Defined.
