(* ===== verification/Links.v ===== *)
(** * Links and addresses that come and go

    The functional behaviour of [handleLinkEvent] and [handleAddrEvent]
    ([netlink.go]): which sockets are open afterwards, what the interface
    knows of its link, which mirrored neighbours are still recorded, and what
    was written to the neighbour and route tables; and what [closeInterface]
    ([config.go]) leaves of these. *)
From S2P Require Import Prelude Netip World Hoare Log Iface RawSock Sim Mirror Dhcpv6 Router Ndp Config Netlink Frame Resources Lifecycle Kept Reload Timers Engine Neighbours.

(** What a stretch of the history wrote to the tables. *)
Definition wrote (ops : list call) (s s' : St) : Prop :=
  ∃ evs, trace s' = trace s ++ evs ∧ evs ≫= table_ops = ops.
Lemma wrote_trans o1 o2 s1 s2 s3 : wrote o1 s1 s2 → wrote o2 s2 s3 → wrote (o1 ++ o2) s1 s3.
Proof.
  intros (e1 & H1 & <-) (e2 & H2 & <-). exists (e1 ++ e2).
  split; [by rewrite H2, H1, (assoc_L (++)) | apply bind_app].
Qed.
Lemma wrote_nil_trans ops s1 s2 s3 : wrote [] s1 s2 → wrote ops s2 s3 → wrote ops s1 s3.
Proof. apply (wrote_trans []). Qed.
Lemma mirrors_wrote M ops s s' : mirrors M ops s s' → wrote ops s s' ∧ mirroredNeighs s' = M.
Proof. intros (evs & -> & H). split; [by exists evs | done]. Qed.

(** ** Closing the services writes to no table *)

(** The tables, the record and the addresses are as they were. *)
Definition still_mirrored (s s' : St) : Prop :=
  wrote [] s s' ∧ mirroredNeighs s' = mirroredNeighs s ∧ ∀ q, Addr6 (heap s' !!! q) = Addr6 (heap s !!! q).
#[export] Instance still_mirrored_preorder : PreOrder still_mirrored.
Proof.
  split.
  - intros s. split_and!; [|done..]. exists []. by rewrite app_nil_r.
  - intros s1 s2 s3 (A & B & C) (A' & B' & C'). split_and!; [by eapply wrote_nil_trans | congruence|].
    intros q. by rewrite C'.
Qed.
#[export] Hint Resolve still_mirrored_preorder : keeps.
Lemma quiet_still P s s' : (∀ e, P e → table_ops e = []) → emits P s s' → still_mirrored s s'.
Proof.
  intros HP H. apply (emits_emitted table_ops) in H as (evs & -> & H); [|done]. split_and!; [by exists evs | done..].
Qed.
Lemma tables_sys {A} (ans : list event → A) ev :
  (∀ a, table_ops (ev a) = []) → keeps still_mirrored (sys ans ev).
Proof.
  intros He s. split_and!; [|done..]. exists [ev (ans (trace s))]. split; [done|]. cbn. by rewrite He.
Qed.
Lemma tables_assign p f : (∀ i, Addr6 (f i) = Addr6 i) → keeps still_mirrored (assign p f).
Proof.
  intros Hf. apply keeps_modify. intros s. split_and!; [exists []; by rewrite app_nil_r | done|]. intros q.
  cbn [heap set_heap]. rewrite lookup_total_assign. by case_decide; subst.
Qed.
Lemma tables_modify f :
  (∀ s, trace (f s) = trace s ∧ mirroredNeighs (f s) = mirroredNeighs s ∧ heap (f s) = heap s) →
  keeps still_mirrored (modify f).
Proof.
  intros Hf. apply keeps_modify. intros s. destruct (Hf s) as (H1 & H2 & H3). split_and!; [|done|].
  - exists []. by rewrite H1, app_nil_r.
  - by rewrite H3.
Qed.

Ltac solve_still := solve_keeps_with ltac:(
  idtac; lazymatch goal with
  | |- keeps _ (closeChan _) => apply keeps_closeChan; intros; split_and!; [exists []; by rewrite app_nil_r | done..]
  | |- keeps _ (assign _ _) => by apply tables_assign
  | |- keeps _ (modify _) => by apply tables_modify
  | |- keeps _ (sys _ _) => by apply tables_sys
  | |- keeps _ (sys_err _) => by apply tables_sys
  | |- keeps _ (afterFunc _ _) => intros ?; split_and!; [exists []; by rewrite app_nil_r | done..]
  end).

Section Quiet.
Context `{KN : Kernel} `{!KernelOk KN}.

Lemma still_closeFD fd : keeps still_mirrored (closeFD fd).
Proof. apply keeps_when; [typeclasses eauto | by apply tables_sys]. Qed.
Lemma still_stopRsTimer p : keeps still_mirrored (stopRsTimer p).
Proof. unfold stopRsTimer, stopTimer. solve_still. Qed.
#[local] Hint Resolve still_closeFD still_stopRsTimer : keeps.
Lemma routerSetup_off_still p : keeps still_mirrored (routerSetup p false).
Proof. unfold routerSetup. cbn [andb negb]. solve_still. Qed.
Lemma dhcpv6Setup_off_still p : keeps still_mirrored (dhcpv6Setup p false).
Proof. unfold dhcpv6Setup. cbn [andb negb]. solve_still. Qed.
Lemma ndpSetup_off_still p : keeps still_mirrored (ndpSetup p false).
Proof. unfold ndpSetup, setProxyNDP, sys_readFile. cbn [andb negb]. solve_still. Qed.
#[local] Hint Resolve routerSetup_off_still dhcpv6Setup_off_still ndpSetup_off_still : keeps.
Lemma disableServices_still p : keeps still_mirrored (disableServices p).
Proof. unfold disableServices. solve_still. Qed.
End Quiet.

(** ** Opening the services of an interface records under its index alone *)

(** What an interface knows of its addresses. *)
Definition ll_part (i : Interface) := (Addr6 i, HaveLinkLocal i, cachedLLValid i).
Definition seeds (p : loc) (s s' : St) : Prop :=
  (Ifindex (heap s' !!! p) = Ifindex (heap s !!! p) ∧ ll_part (heap s' !!! p) = ll_part (heap s !!! p)) ∧
  (∃ ops, wrote ops s s') ∧
  ∀ k, k_ifindex k ≠ Ifindex (heap s !!! p) → mirroredNeighs s' !! k = mirroredNeighs s !! k.
#[export] Instance seeds_preorder p : PreOrder (seeds p).
Proof.
  split.
  - intros s. split_and!; [done|done| |done]. exists [], []. by rewrite app_nil_r.
  - intros s1 s2 s3 ([A D] & [o1 B] & C) ([A' D'] & [o2 B'] & C'). split_and!; [congruence|congruence| |].
    + exists (o1 ++ o2). by eapply wrote_trans.
    + intros k Hk. rewrite C' by congruence. by apply C.
Qed.
#[export] Hint Resolve seeds_preorder : keeps.
Lemma seeds_emits p P s s' : emits P s s' → seeds p s s'.
Proof. intros (evs & -> & _). split_and!; [done|done| |done]. by eexists _, evs. Qed.
Lemma seeds_modify p f :
  (∀ s, trace (f s) = trace s ∧ mirroredNeighs (f s) = mirroredNeighs s ∧
        Ifindex (heap (f s) !!! p) = Ifindex (heap s !!! p) ∧ ll_part (heap (f s) !!! p) = ll_part (heap s !!! p)) →
  keeps (seeds p) (modify f).
Proof.
  intros Hf. apply keeps_modify. intros s. destruct (Hf s) as (H1 & H2 & H3). split_and!; [apply H3|apply H3| |by intros; rewrite H2].
  exists [], []. by rewrite H1, app_nil_r.
Qed.
Lemma seeds_assign p q f :
  (∀ i, Ifindex (f i) = Ifindex i ∧ ll_part (f i) = ll_part i) → keeps (seeds p) (assign q f).
Proof.
  intros Hf. apply seeds_modify. intros s. split_and!; try done; cbn [heap set_heap];
    rewrite lookup_total_assign; case_decide; subst; try done; apply Hf.
Qed.
Lemma seeds_sys {A} p (ans : list event → A) ev : keeps (seeds p) (sys ans ev).
Proof. intros s. split_and!; [done|done| |done]. by eexists _, [ev (ans (trace s))]. Qed.
Lemma seeds_alloc p : keeps (seeds p) alloc.
Proof. intros s. split_and!; [done|done| |done]. exists [], []. by rewrite app_nil_r. Qed.
Lemma seeds_afterFunc p d f : keeps (seeds p) (afterFunc d f).
Proof. intros s. split_and!; [done|done| |done]. exists [], []. by rewrite app_nil_r. Qed.
Lemma seeds_closeChan p c : keeps (seeds p) (closeChan c).
Proof. apply keeps_closeChan. intros s. split_and!; [done|done| |done]. exists [], []. by rewrite app_nil_r. Qed.
#[export] Hint Resolve seeds_sys seeds_alloc seeds_afterFunc seeds_closeChan : keeps.

Ltac solve_seeds := solve_keeps_with ltac:(
  idtac; lazymatch goal with
  | |- keeps _ (assign _ _) => by apply seeds_assign
  | |- keeps _ (modify _) => by apply seeds_modify
  | |- keeps _ (sys_err _) => apply seeds_sys
  | |- keeps _ (check _ _ _) => unfold check
  | |- keeps _ (closing_on_error _ _) => unfold closing_on_error
  | |- keeps _ _ => solve [apply stable_keeps; eapply stable_mono; [solve [eauto with stable nocore] |
              intros ? ?; apply seeds_emits]]
  end).

Section Seeds.
Context `{KN : Kernel} `{!KernelOk KN}.

Lemma seedNeigh_seeds p n : keeps (seeds p) (seedNeigh p n).
Proof.
  unfold seedNeigh. destruct (negb _); [solve_seeds|]. destruct (neighAddr _) as [a|]; [|solve_seeds].
  destruct (_ || _); [solve_seeds|]. intros s. apply wlp_bind, wlp_deref, wlp_bind.
  change (wlp get ?Q s) with (Q s s). cbv beta. destruct (is_mirrored s _); [exact (seeds_emits p (λ _, True) _ _ (reflexivity s))|].
  apply wlp_bind. change (wlp (set_mirrored ?k) ?Q s) with (Q tt (set_mirroredNeighs (<[k := true]> (mirroredNeighs s)) s)).
  cbv beta. apply wp_to_wlp. wp_use ndpMirrorAddr_stable. intros [] s' (evs & -> & _). split_and!; [done|done| |].
  - by eexists _, evs.
  - intros k Hk. cbn. rewrite lookup_insert_ne; [done|]. intros <-. by apply Hk.
Qed.
Lemma seeds_closeFD p fd : keeps (seeds p) (closeFD fd).
Proof. unfold closeFD, sys_close. solve_seeds. Qed.
Lemma seeds_stopRsTimer p q : keeps (seeds p) (stopRsTimer q).
Proof. unfold stopRsTimer, stopTimer. solve_seeds. Qed.
Lemma seeds_armSolicit p q d g : keeps (seeds p) (armSolicit q d g).
Proof. unfold armSolicit. solve_seeds. Qed.
Lemma seeds_drainSocket p fd : keeps (seeds p) (drainSocket fd).
Proof. apply stable_keeps. eapply stable_mono; [apply drainSocket_stable | apply seeds_emits]. Qed.
#[local] Hint Resolve seedNeigh_seeds seeds_closeFD seeds_stopRsTimer seeds_armSolicit seeds_drainSocket : keeps.
Lemma seedMirroredNeighbors_seeds p : keeps (seeds p) (seedMirroredNeighbors p).
Proof. unfold seedMirroredNeighbors, sys_linkByIndex, sys_neighList. solve_seeds. Qed.
#[local] Hint Resolve seedMirroredNeighbors_seeds : keeps.
#[local] Hint Unfold bindToDevice setsockoptInt joinMulticast6 attachFilter spawn : keeps.

Lemma setup_seeds v p e : keeps (seeds p) (setup v p e).
Proof.
  destruct v; cbn [setup]; unfold routerSetup, routerConfigure, dhcpv6Setup, dhcpv6Configure, ndpSetup, ndpConfigurePing,
    ndpConfigureCapture, setProxyNDP, sys_readFile, sys_socket, bindToDevice, setsockoptInt, joinMulticast6, attachFilter, spawn;
    solve_seeds.
Qed.
Lemma reloadServices_seeds p : keeps (seeds p) (reloadServices p).
Proof.
  pose proof (setup_seeds VRouter) as H1. pose proof (setup_seeds VDhcp) as H2. pose proof (setup_seeds VNdp) as H3.
  cbn [setup] in *. unfold reloadServices, disableServices. solve_seeds; auto.
Qed.
End Seeds.

(** ** Giving up a link *)

Lemma cfg_fields i j : cfg i = cfg j →
  Ifindex i = Ifindex j ∧ Running i = Running j ∧ Master i = Master j ∧ LearnRoutes i = LearnRoutes j ∧ NDP i = NDP j.
Proof. unfold cfg. intros H. injection H. by intros. Qed.
Lemma mirror_ops_cfg s s' a p add xs : same_cfg s s' → mirror_ops s' a p add xs → mirror_ops s a p add xs.
Proof.
  intros [Ei Ec] (cs & Hcs & ->). exists cs. split; [by rewrite <- Ei|].
  assert (∀ c, mirror_target s' p c = mirror_target s p c) as Ht.
  { intros c. unfold mirror_target. destruct (cfg_fields _ _ (Ec c)) as (-> & _ & -> & _ & ->).
    by destruct (cfg_fields _ _ (Ec p)) as (-> & _). }
  unfold mirror_proxies, mirror_route. destruct (cfg_fields _ _ (Ec p)) as (-> & _ & _ & -> & _). f_equal.
  clear Hcs. induction cs as [|c cs IH]; [done|]. cbn. rewrite Ht, IH.
  by destruct (cfg_fields _ _ (Ec c)) as (-> & _).
Qed.
Lemma mirrorings_cfg s s' add l ops : same_cfg s s' → mirrorings s' add l ops → mirrorings s add l ops.
Proof.
  intros C (xss & H & ->). exists xss. split; [|done]. eapply Forall2_impl; [exact H|]. intros ap xs. by apply mirror_ops_cfg.
Qed.

(** The table operations that take down what [p] mirrors: its own addresses,
    then the neighbours recorded for its index. *)
Definition taken_down (s : St) (p : loc) (ops : list call) : Prop :=
  let i := heap s !!! p in
  ∃ addrs ops1 ops2,
    NoDup addrs ∧ (∀ a, a ∈ addrs ↔ is_Some (mirroredNeighs s !! mkKey a (Ifindex i))) ∧
    mirrorings s false (if bool_decide (NDP i = ModeRelay) then at_iface p (own_mirrored i) else []) ops1 ∧
    mirrorings s false (at_iface p addrs) ops2 ∧ ops = ops1 ++ ops2.
Definition forget_index (ix : Z) (M : gmap mirroredNeighKey bool) : gmap mirroredNeighKey bool :=
  filter (λ kb, k_ifindex kb.1 ≠ ix) M.
Lemma lookup_forget_index ix M k :
  forget_index ix M !! k = if decide (k_ifindex k = ix) then None else M !! k.
Proof.
  unfold forget_index. destruct (decide (k_ifindex k = ix)) as [E|E].
  - apply map_lookup_filter_None_2. right. intros b _ H. by apply H.
  - destruct (M !! k) as [b|] eqn:Ek; [by apply map_lookup_filter_Some_2|].
    apply map_lookup_filter_None_2. by left.
Qed.

(** [p] has no sockets and has taken down what it mirrored. *)
Definition unbound (p : loc) (s s' : St) : Prop :=
  off_result None p s s' ∧
  (∃ ops, taken_down s p ops ∧ wrote ops s s') ∧ mirroredNeighs s' = forget_index (Ifindex (heap s !!! p)) (mirroredNeighs s).

Section Unbind.
Context `{KN : Kernel} `{!KernelOk KN}.

Lemma keeps_cfg_clear p : keeps same_cfg (clearMirroredState p).
Proof. apply stable_keeps. eapply stable_mono; [apply clearMirroredState_frame | apply frame_same_cfg]. Qed.

Lemma wp_unbind {A} p (k : M A) Q s :
  good None s → known None s p → (∀ s', unbound p s s' → wp k Q s') →
  wp (disableServices p ;; clearMirroredState p ;; k) Q s.
Proof.
  intros G K HQ. apply wp_bind.
  eapply wp_mono; [exact (wp_wlp _ _ _ _ (disableServices_off None p s G K) (disableServices_still p s))|].
  cbv beta. intros [] s1 [(G1 & R1 & C1 & O1) (W1 & M1 & A1)]. apply wp_bind.
  eapply wp_mono; [apply wp_and; [exact (clearMirroredState_exact p s1) | exact (clearMirroredState_frame p s1)]|].
  cbv beta zeta. intros [] s2 [(addrs & ops1 & ops2 & Hnd & Ha & H1 & H2 & H) F].
  pose proof (frame_same_cfg _ _ F) as C2. destruct (cfg_fields _ _ (proj2 C1 p)) as (Ex & _ & _ & EL & EN).
  assert (own_mirrored (heap s1 !!! p) = own_mirrored (heap s !!! p)) as Eo
    by (unfold own_mirrored, mirrored_addr; by rewrite A1, EL).
  rewrite Ex, EN, Eo, M1 in *. destruct (mirrors_wrote _ _ _ _ H) as [W2 M2].
  apply HQ. split; [split_and! | split].
  - by apply (good_calm _ _ _ (frame_calm _ _ F)).
  - etransitivity; [exact R1 | apply calm_same_reg, frame_calm, F].
  - by etransitivity.
  - intros q v. rewrite (ca_own _ _ (frame_calm _ _ F)). apply O1.
  - exists (ops1 ++ ops2). split; [|by eapply wrote_nil_trans]. exists addrs, ops1, ops2.
    split_and!; [done | done | by eapply mirrorings_cfg | by eapply mirrorings_cfg | done].
  - exact M2.
Qed.
End Unbind.

(** ** Reading the addresses of an interface *)

(** The addresses read from the kernel among these events: all that convert,
    at one time, or none when a query failed. *)
Definition fetched (ix : Z) (evs : list event) (l : list IPAddr) : Prop :=
  (∃ link addrs now, EvLinkByIndex ix (Some link) ∈ evs ∧ EvAddrList (l_Index link) (Some addrs) ∈ evs ∧
     l = omap (convertAddr now) addrs) ∨
  ((EvLinkByIndex ix None ∈ evs ∨ ∃ i, EvAddrList i None ∈ evs) ∧ l = []).
Definition refreshed (p : loc) (s s' : St) : Prop :=
  frame s s' ∧ mirroredNeighs s' = mirroredNeighs s ∧ (∀ q, q ≠ p → heap s' !!! q = heap s !!! q) ∧
  cachedLLValid (heap s' !!! p) = false ∧
  HaveLinkLocal (heap s' !!! p) = existsb (λ a, IsLinkLocalUnicast (ip_Addr a)) (Addr6 (heap s' !!! p)) ∧
  ∃ evs, trace s' = trace s ++ evs ∧ fetched (Ifindex (heap s !!! p)) evs (Addr6 (heap s' !!! p)).

Section Refresh.
Context `{KN : Kernel} `{!KernelOk KN}.

Lemma fetchAddr6_fetched ix s :
  wp (fetchAddr6 ix) (λ l s', ∃ evs, s' = set_trace (trace s ++ evs) s ∧ Forall query_ev evs ∧ fetched ix evs l) s.
Proof.
  unfold fetchAddr6. apply wp_bind, wp_sys. intros [link|] _.
  2: { apply wp_ret. eexists. split_and!; [done | by repeat constructor|]. right. split; [left; set_solver | done]. }
  apply wp_bind, wp_sys. intros [addrs|] _.
  2: { apply wp_ret. exists [EvLinkByIndex ix (Some link); EvAddrList (l_Index link) None].
       split_and!; [cbn; by rewrite <- app_assoc | by repeat constructor|]. right. split; [right; exists (l_Index link); set_solver | done]. }
  apply wp_bind. wp_use nowMono_stable. intros t s' (evs & -> & Hevs). apply wp_ret.
  exists ([EvLinkByIndex ix (Some link); EvAddrList (l_Index link) (Some addrs)] ++ evs).
  split_and!; [cbn; by rewrite <- !app_assoc | by repeat constructor|].
  left. exists link, addrs, (u32 t). split_and!; [set_solver..|done].
Qed.

Lemma refreshInterfaceAddresses_refreshed p s :
  wp (refreshInterfaceAddresses p) (λ _ s', refreshed p s s' ∧ wrote [] s s') s.
Proof.
  eapply wp_mono; [apply wp_and; [exact (refreshInterfaceAddresses_frame p s)|]|].
  { unfold refreshInterfaceAddresses. apply wp_bind, wp_deref, wp_bind. wp_use fetchAddr6_fetched.
    intros l s1 (evs & -> & Hevs & Hl). apply wp_bind, wp_assign, wp_assign.
    instantiate (1 := λ _ s', ∃ evs l, Forall query_ev evs ∧ fetched (Ifindex (heap s !!! p)) evs l ∧
      trace s' = trace s ++ evs ∧ mirroredNeighs s' = mirroredNeighs s ∧ (∀ q, q ≠ p → heap s' !!! q = heap s !!! q) ∧
      ∃ i, heap s' !!! p = set_HaveLinkLocal (existsb (λ a, IsLinkLocalUnicast (ip_Addr a)) l) (set_cachedLLValid false (set_Addr6 l i))).
    exists evs, l. split_and!; [done..| |].
    - intros q Hq. cbn [heap set_heap]. by rewrite !lookup_total_insert_ne by done.
    - exists (heap s !!! p). cbn [heap set_heap set_trace]. by rewrite !lookup_total_insert_eq. }
  cbv beta. intros [] s' [F (evs & l & Hevs & Hl & Ht & Hm & Ho & i & Hp)]. split; [split_and!|].
  - exact F.
  - exact Hm.
  - exact Ho.
  - by rewrite Hp.
  - by rewrite Hp.
  - exists evs. rewrite Hp. by split.
  - exists evs. split; [exact Ht|]. clear -Hevs. induction Hevs as [|e k He _ IH]; [done|]. cbn. by rewrite query_ev_table_ops.
Qed.

Lemma fetched_mono ix evs evs' l : (∀ e, e ∈ evs → e ∈ evs') → fetched ix evs l → fetched ix evs' l.
Proof. intros H. unfold fetched. naive_solver. Qed.
End Refresh.

(** ** Opening the services of an interface

    [tells bad m]: when [m] gives a bad result, a call it made to set something
    up was refused. *)
Definition refused (e : event) : Prop :=
  match e with
  | EvSocket _ _ _ (inl _) => True
  | EvCall (NeighSet _ | NeighDel _ | RouteReplace _ | RouteDel _ | Sendmsg _ _ _ _) _ => False
  | EvCall _ (Some _) => True
  | _ => False
  end.
Definition grows (s s' : St) : Prop := ∃ evs, trace s' = trace s ++ evs.
Definition tells {A} (bad : A → Prop) (m : M A) : Prop := ∀ s,
  wlp m (λ r s', ∃ evs, trace s' = trace s ++ evs ∧ (bad r → Exists refused evs)) s.
Definition reports : M (option goerr) → Prop := tells is_Some.

Lemma seeds_grows {A} p (m : M A) : keeps (seeds p) m → keeps grows m.
Proof. intros Hm. eapply keeps_mono; [exact Hm|]. intros s s' (_ & (ops & evs & Ht & _) & _). by exists evs. Qed.
Lemma tells_then {A} bad (m : M A) f :
  (∀ a, Decision (bad a)) → tells bad m → (∀ a, bad a → keeps grows (f a)) → (∀ a, ¬ bad a → reports (f a)) →
  reports (m ≫= f).
Proof.
  intros D Hm Hb Hg s. apply wlp_bind. eapply wlp_mono; [apply Hm|]. intros r s1 (e1 & H1 & Hr).
  assert (∀ s2 e2, trace s2 = trace s1 ++ e2 → trace s2 = trace s ++ e1 ++ e2) as Ht
    by (intros s2 e2 ->; by rewrite H1, (assoc_L (++))).
  destruct (decide (bad r)) as [Hbad|Hgood].
  - eapply wlp_mono; [by apply Hb|]. intros r' s2 [e2 H2]. exists (e1 ++ e2). split; [by apply Ht|].
    intros _. apply Exists_app. left. by apply Hr.
  - eapply wlp_mono; [by apply Hg|]. intros r' s2 (e2 & H2 & Hr2). exists (e1 ++ e2). split; [by apply Ht|].
    intros H. apply Exists_app. right. by apply Hr2.
Qed.
Lemma reports_bind {A} (m : M A) f : keeps grows m → (∀ a, reports (f a)) → reports (m ≫= f).
Proof.
  intros Hm Hf. apply (tells_then (λ _, False)); [intros; apply _ | | done | intros; apply Hf].
  intros s. eapply wlp_mono; [apply Hm|]. intros r s' [evs Ht]. by exists evs.
Qed.
Lemma reports_None : reports (mret None).
Proof. intros s. apply wlp_ret. exists []. rewrite app_nil_r. split; [done|]. by intros []. Qed.

Section Reports.
Context `{KN : Kernel} `{!KernelOk KN}.

Lemma grows_failed fmt (e : goerr) : keeps grows (Errorf fmt ;; mret (Some e)).
Proof.
  apply (seeds_grows xH), keeps_bind; [typeclasses eauto | | intros; apply keeps_ret; typeclasses eauto].
  apply stable_keeps. eapply stable_mono; [apply logf_stable | apply seeds_emits].
Qed.
Lemma reports_sys_err c : (∀ e, refused (EvCall c (Some e))) → reports (sys_err c).
Proof.
  intros Hc s. apply wp_to_wlp, wp_sys. intros r _. exists [EvCall c r]. split; [done|].
  intros [e ->]. constructor. apply Hc.
Qed.
Lemma reports_check fmt m k : reports m → reports k → reports (check fmt m k).
Proof.
  intros Hm Hk. apply (tells_then is_Some); [intros a; apply _ | assumption | |].
  - intros ? [e ->]. apply grows_failed.
  - intros [e|] Ha; [by destruct Ha | done].
Qed.
Lemma reports_pass m k :
  reports m → reports k → reports (err ← m; match err with Some e => mret (Some e) | None => k end).
Proof.
  intros Hm Hk. apply (tells_then is_Some); [intros a; apply _ | assumption | |].
  - intros ? [e ->]. apply (seeds_grows xH), keeps_ret. typeclasses eauto.
  - intros [e|] Ha; [by destruct Ha | done].
Qed.
Lemma reports_closing fd b : reports b → reports (closing_on_error fd b).
Proof.
  intros Hb. apply (tells_then is_Some); [intros a; apply _ | assumption | |].
  - intros ? [e ->]. apply (seeds_grows xH).
    apply keeps_bind; [typeclasses eauto | apply seeds_closeFD | intros; apply keeps_ret; typeclasses eauto].
  - intros [e|] Ha; [by destruct Ha | apply reports_None].
Qed.
Lemma reports_socket d t p fmt f :
  (∀ fd, reports (f fd)) →
  reports (r ← sys_socket d t p; match r with inl err => Errorf fmt ;; mret (Some err) | inr fd => f fd end).
Proof.
  intros Hf. apply (tells_then (λ r, match r with inl _ => True | _ => False end)).
  - intros []; apply _.
  - intros s. apply wp_to_wlp, wp_sys. intros r _. exists [EvSocket d t p r]. split; [done|].
    intros H. constructor. by destruct r.
  - intros [e|] H; [apply grows_failed | done].
  - intros [e|fd] H; [by destruct H | apply Hf].
Qed.
Lemma setProxyNDP_reports n b : reports (setProxyNDP n b).
Proof.
  unfold setProxyNDP. apply reports_bind; [apply (seeds_grows xH), seeds_sys|]. intros cur.
  destruct (match cur with Some _ => _ | None => _ end); [apply reports_None | by apply reports_sys_err].
Qed.

#[local] Hint Resolve seedNeigh_seeds seeds_closeFD seeds_stopRsTimer seeds_armSolicit seeds_drainSocket
  seedMirroredNeighbors_seeds : keeps.
Ltac solve_reports p := repeat first
  [ apply reports_None
  | apply setProxyNDP_reports
  | lazymatch goal with
    | |- reports (check _ _ _) => apply reports_check
    | |- reports (closing_on_error _ _) => apply reports_closing
    | |- reports (sys_err _) => by apply reports_sys_err
    | |- reports (if ?b then _ else _) => destruct b
    | |- reports (sys_socket _ _ _ ≫= _) => apply reports_socket; intros
    | |- reports (setProxyNDP _ _ ≫= _) => apply reports_pass; [apply setProxyNDP_reports|]
    | |- reports (_ ≫= _) => apply reports_bind; [apply (seeds_grows p); solve_seeds | intros]
    end ].

Lemma setup_reports v p e : reports (setup v p e).
Proof.
  destruct v; cbn [setup]; unfold routerSetup, routerConfigure, dhcpv6Setup, dhcpv6Configure, ndpSetup, ndpConfigurePing,
    ndpConfigureCapture, bindToDevice, setsockoptInt, joinMulticast6, attachFilter, spawn; solve_reports p.
Qed.
End Reports.

(** One service after [setup]: its segment of the history tells why it has no
    socket although it should. *)
Definition wanted (s : St) (p : loc) (v : service) : Prop :=
  Running (heap s !!! p) = true ∧ svc_mode (heap s !!! p) v ≠ ModeDisabled.
(** The sockets of [p] follow its state: exactly the services that are not
    disabled on a running interface have one, but for those whose set-up the
    kernel refused, each in its own part of the history. *)
Definition follows (p : loc) (s s' : St) : Prop :=
  ∃ pre (seg : service → list event),
    trace s' = trace s ++ pre ++ seg VRouter ++ seg VDhcp ++ seg VNdp ∧
    ∀ v, (is_Some (own s' p v) → wanted s' p v) ∧ (wanted s' p v → is_Some (own s' p v) ∨ Exists refused (seg v)).
Lemma follows_after p s s1 s2 : grows s s1 → follows p s1 s2 → follows p s s2.
Proof.
  intros [evs H1] (pre & seg & H2 & Hv). exists (evs ++ pre), seg. split; [|done].
  by rewrite H2, H1, <- !(assoc_L (++)).
Qed.

Section Follows.
Context `{KN : Kernel} `{!KernelOk KN}.

Definition opens (v : service) (p : loc) (s s' : St) (evs : list event) : Prop :=
  trace s' = trace s ++ evs ∧ same_cfg s s' ∧ (∀ v', v' ≠ v → own s' p v' = own s p v') ∧
  let enabled := svc_mode (heap s !!! p) v ≠ ModeDisabled in
  (is_Some (own s' p v) → enabled) ∧ (enabled → is_Some (own s' p v) ∨ Exists refused evs).
Lemma setup_opens v p s :
  good None s → known None s p →
  wp (setup v p (bool_decide (svc_mode (heap s !!! p) v ≠ ModeDisabled)))
     (λ _ s', (good None s' ∧ known None s' p) ∧ ∃ evs, opens v p s s' evs) s.
Proof.
  intros G K. eapply wp_mono; [exact (wp_wlp _ _ _ _ (setup_spec None v p _ s G K) (setup_reports v p _ s))|].
  cbv beta. intros r s' [(G' & R & C & o & U & Ho) (evs & Ht & Hr)]. rewrite andb_diag, bool_decide_eq_true in Ho.
  split; [split; [done | by eapply known_reg]|]. exists evs. split; [done|]. split; [done|]. split.
  - intros v' Hv. rewrite (up_own _ _ _ _ _ U), decide_False; [done | by intros [_ ?]].
  - cbv zeta. rewrite (upd_self _ _ _ _ _ U). split; [by intros [_ ?]%Ho|]. intros Hw.
    destruct r as [x|]; [right; by apply Hr | left; by apply Ho].
Qed.
Lemma three_open p s s0 s1 s2 s3 pre er ed en :
  Running (heap s0 !!! p) = true → trace s0 = trace s ++ pre →
  opens VRouter p s0 s1 er → opens VDhcp p s1 s2 ed → opens VNdp p s2 s3 en → follows p s s3.
Proof.
  intros Hrun H0 (T1 & C1 & O1 & R1) (T2 & C2 & O2 & R2) (T3 & C3 & O3 & R3).
  exists pre, (λ v, match v with VRouter => er | VDhcp => ed | VNdp => en end).
  split; [by rewrite T3, T2, T1, H0, <- !(assoc_L (++))|]. unfold wanted.
  assert (same_cfg s0 s3) as C by (by do 2 (etransitivity; [eassumption|])).
  assert (same_cfg s1 s3) as C13 by (by etransitivity).
  intros v. rewrite (same_cfg_running _ _ _ C), Hrun. destruct v.
  - rewrite O3, O2, (same_cfg_mode _ _ _ _ C) by done. naive_solver.
  - rewrite O3, (same_cfg_mode _ _ _ _ C13) by done. naive_solver.
  - rewrite (same_cfg_mode _ _ _ _ C3). naive_solver.
Qed.

Lemma reloadServices_follows p s :
  good None s → known None s p → wp (reloadServices p) (λ _ s', follows p s s') s.
Proof.
  intros G K. unfold reloadServices. apply wp_bind, wp_deref.
  assert (∀ s0, emits log_ev s s0 → good None s0 ∧ known None s0 p ∧ heap s0 = heap s ∧ grows s s0) as Hlog.
  { intros s0 H0. assert (calm s s0) as C0 by (apply emits_calm; eapply emits_mono; [|exact H0]; ev_tac).
    split_and!; [by eapply good_calm | eapply known_reg; [by apply calm_same_reg | done]|..];
      destruct H0 as (l & -> & _); [done | by exists l]. }
  destruct (Running (heap s !!! p)) eqn:ER; apply wp_bind, wp_log; intros s0 (G0 & K0 & Eh & Hg)%Hlog.
  - destruct Hg as [pre H0].
    apply wp_bind, wp_deref, wp_bind. wp_use (setup_opens VRouter); [done..|]. intros r1 s1 ([G1 K1] & er & H1).
    apply wp_bind, wp_deref, wp_bind. wp_use (setup_opens VDhcp); [done..|]. intros r2 s2 ([G2 K2] & ed & H2).
    apply wp_bind, wp_deref, wp_bind. wp_use (setup_opens VNdp); [done..|]. intros r3 s3 ([G3 K3] & en & H3).
    apply wp_skip. by eapply (three_open p s s0 s1 s2 s3); [rewrite Eh|..].
  - eapply wp_mono; [exact (wp_wlp _ _ _ _ (disableServices_off None p s0 G0 K0) (disableServices_still p s0))|].
    cbv beta. intros [] s1 [(G1 & R1 & C1 & O1) ((evs & Ht & _) & _)]. eapply follows_after; [exact Hg|].
    exists evs, (λ _, []). rewrite !app_nil_r. split; [done|]. intros v. rewrite O1, decide_True by done.
    split; [by intros []|]. intros [Hr _]. rewrite (same_cfg_running _ _ _ C1), Eh in Hr. congruence.
Qed.
End Follows.

(** ** Link updates *)

(** Nothing but queries; no interface changes. *)
Definition untouched (s s' : St) : Prop :=
  (∀ q, heap s' !!! q = heap s !!! q) ∧
  ∃ evs, s' = set_heap (heap s') (set_trace (trace s ++ evs) s) ∧ Forall query_ev evs.
Lemma queries_untouched s s' : emits query_ev s s' → untouched s s'.
Proof. intros (evs & -> & H). split; [done|]. exists evs. by destruct s. Qed.

Definition link_known (i : Interface) := (Ifindex i, Running i, Addr6 i, HaveLinkLocal i, cachedLLValid i).
Definition is_up (u : LinkUpdate) : bool := has_bits (lu_Flags u) unix.IFF_RUNNING.
Definition is_deletion (u : LinkUpdate) : bool := lu_Type u =? unix.RTM_DELLINK.

(** The addresses [p] knows afterwards are those read from the kernel on the way
    for the link [ix]; the cached link-local address is dropped. *)
Definition reread (p : loc) (ix : Z) (s s' : St) : Prop :=
  let i' := heap s' !!! p in
  cachedLLValid i' = false ∧ HaveLinkLocal i' = existsb (λ a, IsLinkLocalUnicast (ip_Addr a)) (Addr6 i') ∧
  ∃ evs, trace s' = trace s ++ evs ∧ fetched ix evs (Addr6 i').
Lemma reread_after p ix s s1 s2 : grows s s1 → reread p ix s1 s2 → reread p ix s s2.
Proof.
  intros [e1 H1] (A & B & e2 & H2 & F). split_and!; [done..|]. exists (e1 ++ e2).
  split; [by rewrite H2, H1, (assoc_L (++))|]. eapply fetched_mono; [|exact F]. set_solver.
Qed.
Lemma reread_then p ix s s1 s2 :
  reread p ix s s1 → grows s1 s2 → ll_part (heap s2 !!! p) = ll_part (heap s1 !!! p) → reread p ix s s2.
Proof.
  intros (A & B & e1 & H1 & F) [e2 H2] [= E1 E2 E3]. unfold reread. rewrite E1, E2, E3. split_and!; [done..|].
  exists (e1 ++ e2). split; [by rewrite H2, H1, (assoc_L (++))|]. eapply fetched_mono; [|exact F]. set_solver.
Qed.

(** The reaction to [u] of the interface [p] it names: its own link went
    away; a link the interface is not bound to went away, or its link
    confirmed what is known; its link went down, or came up; the name now
    belongs to another link. *)
Definition link_reaction (u : LinkUpdate) (p : loc) (s s' : St) : Prop :=
  let i := heap s !!! p in
  let i' := heap s' !!! p in
  let bound := Ifindex i =? lu_Index u in
  if is_deletion u && bound then
    link_known i' = (0, false, [], false, false) ∧ (∀ v, own s' p v = None) ∧
    (∃ ops, taken_down s p ops ∧ wrote ops s s') ∧ mirroredNeighs s' = forget_index (Ifindex i) (mirroredNeighs s)
  else if is_deletion u || (bound && eqb (Running i) (is_up u)) then untouched s s'
  else
    Ifindex i' = lu_Index u ∧ Running i' = is_up u ∧ follows p s s' ∧
    if bound then
      (∀ k, k_ifindex k ≠ Ifindex i → mirroredNeighs s' !! k = mirroredNeighs s !! k) ∧
      if is_up u then reread p (lu_Index u) s s'
      else ll_part i' = ll_part i ∧ wrote [] s s' ∧ mirroredNeighs s' = mirroredNeighs s
    else
      reread p (lu_Index u) s s' ∧
      (∃ ops ops', taken_down s p ops ∧ wrote (ops ++ ops') s s') ∧
      (∀ k, k_ifindex k ≠ lu_Index u → mirroredNeighs s' !! k = forget_index (Ifindex i) (mirroredNeighs s) !! k).
Definition others_sockets (p : loc) (s s' : St) : Prop := ∀ q v, q ≠ p → own s' q v = own s q v.

Section LinkEvent.
Context `{KN : Kernel} `{!KernelOk KN}.

Lemma reloadServices_reaction p s :
  good None s → known None s p →
  wp (reloadServices p) (λ _ s', ((reload_result None p s s' ∧ follows p s s') ∧ seeds p s s') ∧
    (Running (heap s !!! p) = false → still_mirrored s s')) s.
Proof.
  intros G K. eapply wp_wlp; [eapply wp_wlp; [apply wp_and; [exact (reloadServices_spec None p s G K) |
    exact (reloadServices_follows p s G K)] | exact (reloadServices_seeds p s)]|].
  unfold reloadServices. apply wlp_bind, wlp_deref. destruct (Running _).
  - by apply wlp_any.
  - apply (wlp_keeps still_mirrored); [|by intros].
    apply keeps_bind; [typeclasses eauto | | intros; apply disableServices_still]. apply stable_keeps. eapply stable_mono; [apply logf_stable | intros ? ?; apply quiet_still, log_ev_table_ops].
Qed.

(** The services follow, without and with the addresses read again before. *)
Definition seeded (p : loc) (s s' : St) : Prop :=
  (∃ ops, wrote ops s s') ∧ ∀ k, k_ifindex k ≠ Ifindex (heap s !!! p) → mirroredNeighs s' !! k = mirroredNeighs s !! k.
Definition followed (p : loc) (s s' : St) : Prop :=
  same_cfg s s' ∧ follows p s s' ∧ others_sockets p s s' ∧ seeded p s s'.
Lemma wp_follow_down p Q s :
  good None s → known None s p → Running (heap s !!! p) = false →
  (∀ s', followed p s s' → ll_part (heap s' !!! p) = ll_part (heap s !!! p) → still_mirrored s s' → Q tt s') →
  wp (reloadServices p) Q s.
Proof.
  intros G K HR HQ. wp_use reloadServices_reaction; [done..|].
  intros [] s' [[[(_ & _ & C & _ & O) F] ([_ L] & W & M)] T]. apply HQ; [|exact L | by apply T].
  split_and!; [exact C | exact F | by intros q v ?; apply O | by split].
Qed.
Lemma wp_follow_up p Q s :
  good None s → known None s p →
  (∀ s', followed p s s' → reread p (Ifindex (heap s !!! p)) s s' → Q tt s') →
  wp (refreshInterfaceAddresses p ;; reloadServices p) Q s.
Proof.
  intros G K HQ. apply wp_bind. wp_use refreshInterfaceAddresses_refreshed.
  intros [] s1 [(F & M & _ & CL & HL & evs & Ht & Hf) W]. pose proof (frame_calm _ _ F) as C.
  pose proof (frame_same_cfg _ _ F) as C1. assert (Ifindex (heap s1 !!! p) = Ifindex (heap s !!! p)) as Ei
    by (by destruct (cfg_fields _ _ (proj2 C1 p)) as (-> & _)).
  eapply wp_mono; [apply reloadServices_reaction; [by eapply good_calm | eapply known_reg; [by apply calm_same_reg | exact K]]|].
  cbv beta. intros [] s2 [[[(_ & _ & C2 & _ & O) F2] ([_ L] & [ops W2] & M2)] _]. apply HQ.
  - split_and!; [by etransitivity | | |split].
    + eapply follows_after; [by exists evs | done].
    + intros q v Hq. rewrite O by done. apply (ca_own _ _ C).
    + exists ops. by eapply wrote_nil_trans.
    + intros k Hk. rewrite M2, M by congruence. done.
  - eapply reread_then; [|destruct W2 as (es & W2 & _); by exists es | exact L]. by split_and!; [| |exists evs].
Qed.

(** A change of the link an interface knows leaves its sockets. *)
Lemma rebind_good p f s :
  (∀ i v, svc_sock (f i) v = svc_sock i v) → (∀ i, Name (f i) = Name i) → good None s → known None s p →
  let s1 := set_heap (<[p := f (heap s !!! p)]> (heap s)) s in
  good None s1 ∧ known None s1 p ∧ heap s1 !!! p = f (heap s !!! p) ∧ others_sockets p s s1.
Proof.
  intros Hf Hn G K s1. assert (calm s s1) as C by exact (calm_assign p f Hf Hn s). split_and!.
  - by eapply good_calm.
  - eapply known_reg; [by apply calm_same_reg | exact K].
  - cbn. by rewrite lookup_total_assign, decide_True.
  - intros q v _. apply (ca_own _ _ C).
Qed.

Lemma heap_assign p f s q :
  heap (set_heap (<[p := f (heap s !!! p)]> (heap s)) s) !!! q = if decide (p = q) then f (heap s !!! p) else heap s !!! q.
Proof. apply lookup_total_assign. Qed.

Lemma linkDeleted_reaction p u s :
  good None s → known None s p → is_deletion u = true →
  wp (linkDeleted p u) (λ _ s', link_reaction u p s s' ∧ others_sockets p s s') s.
Proof.
  intros G K Hd. unfold linkDeleted, link_reaction. rewrite Hd. apply wp_bind, wp_deref.
  destruct (Ifindex (heap s !!! p) =? lu_Index u); cbn [negb andb orb].
  2: { apply wp_skip. split; [by apply (queries_untouched s s), reflexivity | done]. }
  apply wp_unbind; [done..|]. intros s1 [(G1 & R1 & C1 & O1) [W1 M1]]. apply wp_assign.
  match goal with |- context [set_heap (<[p := ?x]> _) s1] => set (j := x) end.
  assert (∀ v, own s1 p v = None) as Hoff by (intros v; by rewrite O1, decide_True).
  split; [split_and!|].
  - cbn [heap set_heap]. by rewrite lookup_total_insert_eq.
  - intros v. rewrite <- (Hoff v). unfold own. cbn [heap set_heap]. rewrite lookup_total_assign, decide_True by done. by destruct v.
  - exact W1.
  - exact M1.
  - intros q v Hq. transitivity (own s1 q v); [|by rewrite O1, decide_False].
    unfold own. cbn [heap set_heap]. by rewrite lookup_total_assign, decide_False.
Qed.

(** The queries that found the interface make no difference. *)
Lemma link_reaction_from u p s s1 s' :
  emits query_ev s s1 → link_reaction u p s1 s' ∧ others_sockets p s1 s' → link_reaction u p s s' ∧ others_sockets p s s'.
Proof.
  intros (evs & -> & Hevs) [H1 H2]. split; [|exact H2]. revert H1. unfold link_reaction. cbn [heap set_trace].
  assert (∀ ops, wrote ops (set_trace (trace s ++ evs) s) s' → wrote ops s s') as Hw.
  { intros ops (es & Ht & <-). exists (evs ++ es). split; [by rewrite (assoc_L (++))|]. rewrite bind_app.
    replace (evs ≫= table_ops) with (@nil call); [done|]. symmetry. clear -Hevs.
    induction Hevs as [|e l He _ IH]; [done|]. cbn. by rewrite query_ev_table_ops. }
  assert (grows s (set_trace (trace s ++ evs) s)) as Hg by (by exists evs).
  repeat case_match.
  - intros (A & B & (ops & C & D) & E). split_and!; [done..| |done]. exists ops. split; [exact C | by apply Hw].
  - intros [A (es & B & C)]. split; [exact A|]. exists (evs ++ es). split; [|by apply Forall_app].
    rewrite B at 1. by rewrite (assoc_L (++)).
  - intros (A & B & C & D & E). split_and!; [done..|by eapply follows_after | done | by eapply reread_after].
  - intros (A & B & C & D & E & F & I). split_and!; [done..|by eapply follows_after | done | done | by apply Hw | done].
  - intros (A & B & C & R & (ops & ops' & D & D') & E).
    split_and!; [done..|by eapply follows_after | by eapply reread_after | |done]. exists ops, ops'. split; [exact D | by apply Hw].
Qed.

(** What [handleLinkEvent] does when the update is not a deletion. *)
Definition link_rest (u : LinkUpdate) (p : loc) : M unit :=
  i ← deref p;
  if Ifindex i =? lu_Index u then
    let wasRunning := Running i in
    assign p (set_Running (is_up u)) ;;
    if bool_decide (wasRunning ≠ is_up u) then
      when (is_up u) (refreshInterfaceAddresses p) ;;
      reloadServices p
    else skip
  else
    disableServices p ;;
    clearMirroredState p ;;
    assign p (λ i, set_Running (is_up u) (set_Ifindex (lu_Index u) i)) ;;
    refreshInterfaceAddresses p ;;
    reloadServices p.

Lemma link_rest_bound p u s :
  good None s → known None s p → is_deletion u = false → Ifindex (heap s !!! p) = lu_Index u →
  wp (link_rest u p) (λ _ s', link_reaction u p s s' ∧ others_sockets p s s') s.
Proof.
  intros G K Hd Hb. unfold link_rest, link_reaction. rewrite Hd, Hb, Z.eqb_refl. cbn [andb orb].
  apply wp_bind, wp_deref. rewrite Hb, Z.eqb_refl. apply wp_bind, wp_assign.
  set (s1 := set_heap _ s). destruct (bool_decide_reflect (Running (heap s !!! p) ≠ is_up u)) as [Hne|Heq].
  2: { assert (Running (heap s !!! p) = is_up u) as E by (revert Heq; destruct (Running _), (is_up u); intros Heq; done || by destruct Heq).
       apply wp_skip. rewrite E, eqb_reflx. assert (∀ q, heap s1 !!! q = heap s !!! q) as Hh.
       { intros q. unfold s1. rewrite heap_assign. case_decide as Hq; [|done]. subst q. rewrite <- E. by destruct (heap s !!! p). }
       split; [split; [exact Hh|]|].
       - exists []. split; [|constructor]. rewrite app_nil_r. by destruct s.
       - intros q v _. unfold own. by rewrite Hh. }
  replace (eqb (Running (heap s !!! p)) (is_up u)) with false by (revert Hne; destruct (Running _), (is_up u); intros Hne; done || by destruct Hne).
  destruct (rebind_good p (set_Running (is_up u)) s) as (G1 & K1 & Hp & O1); [done..|]. fold s1 in G1, K1, Hp, O1.
  assert (∀ s2, followed p s1 s2 → (Ifindex (heap s2 !!! p) = lu_Index u ∧ Running (heap s2 !!! p) = is_up u ∧ follows p s s2) ∧
    (∀ k, k_ifindex k ≠ Ifindex (heap s !!! p) → mirroredNeighs s2 !! k = mirroredNeighs s !! k) ∧ others_sockets p s s2) as Hf.
  { intros s2 (C2 & F2 & O2 & _ & S2). destruct (cfg_fields _ _ (proj2 C2 p)) as (Ei & Er & _).
    rewrite Hp in Ei, Er, S2. cbn in Ei, Er, S2. split_and!; [congruence | done | | done |].
    - eapply follows_after; [|exact F2]. exists []. by rewrite app_nil_r.
    - intros q v Hq. rewrite O2 by done. by apply O1. }
  destruct (is_up u) eqn:Eu; cbn [when].
  - apply wp_follow_up; [done..|]. intros s2 ((A & B & C) & M & O)%Hf R. split; [|done]. rewrite Hp in R. cbn in R.
    rewrite Hb in M, R. split_and!; [done..|exact R].
  - apply wp_bind, wp_skip. apply wp_follow_down; [done | done | by rewrite Hp |].
    intros s2 ((A & B & C) & M & O)%Hf L (W & M2 & _). split; [|done].
    rewrite Hp in L. rewrite Hb in M. split_and!; [done | done | done | done | exact L | exact W | exact M2].
Qed.

Lemma link_rest_moved p u s :
  good None s → known None s p → is_deletion u = false → Ifindex (heap s !!! p) ≠ lu_Index u →
  wp (link_rest u p) (λ _ s', link_reaction u p s s' ∧ others_sockets p s s') s.
Proof.
  intros G K Hd Hb. apply Z.eqb_neq in Hb. unfold link_rest, link_reaction. rewrite Hd, Hb. cbn [andb orb].
  apply wp_bind, wp_deref. rewrite Hb. apply wp_unbind; [done..|].
  intros s1 [(G1 & R1 & C1 & O1) [(ops & D & W1) M1]]. apply wp_bind, wp_assign.
  destruct (rebind_good p (λ i, set_Running (is_up u) (set_Ifindex (lu_Index u) i)) s1) as (G2 & K2 & Hp & O2);
    [done | done | done | by eapply known_reg|].
  set (s2 := set_heap _ s1) in *. apply wp_follow_up; [done..|]. intros s3 (C3 & F3 & O3 & [ops' W3] & S3) R3.
  destruct (cfg_fields _ _ (proj2 C3 p)) as (Ei & Er & _).
  rewrite Hp in Ei, Er, S3, R3. cbn in Ei, Er, S3, R3.
  assert (grows s s2) as Hg by (destruct W1 as (evs & Ht & _); by exists evs).
  split; [split_and!|].
  - congruence.
  - done.
  - by eapply follows_after.
  - by eapply reread_after.
  - exists ops, ops'. split; [done|]. eapply wrote_trans; [exact W1 | exact W3].
  - intros k Hk. rewrite <- M1. by apply S3.
  - intros q v Hq. rewrite O3, O2 by done. by rewrite O1, decide_False.
Qed.

(** C18: what a link update does to the interface it names.  Its own link going
    away closes its sockets, forgets its addresses and its index, takes down
    exactly what it mirrored and forgets exactly the neighbours recorded for
    it; the deletion of another link of that name, and an update that says
    nothing new, change nothing.  A link that goes down closes the sockets but
    keeps the addresses and the mirrors.  One that comes up, and a name that
    moved to another link, have the addresses read again and open a socket for
    every service that is not disabled, unless the kernel refused a call of its
    set-up; the name that moved has first taken down everything mirrored under
    the old index.  The sockets of other interfaces, and the neighbours recorded
    for other links, stay. *)
Theorem handleLinkEvent_reaction u s :
  good None s →
  wp (handleLinkEvent u) (λ _ s',
    ((∀ n p, interfaces s !! n = Some p → Ifname (heap s !!! p) ≠ lu_Name u) ∧ emits query_ev s s') ∨
    ∃ n p, interfaces s !! n = Some p ∧ Ifname (heap s !!! p) = lu_Name u ∧
      link_reaction u p s s' ∧ others_sockets p s s') s.
Proof.
  intros G. unfold handleLinkEvent. apply wp_bind, wp_find_interface.
  2: { intros s1 Hq Hno. apply wp_skip. left. split; [|done]. intros n p Hn. exact (bool_decide_eq_false_1 _ (Hno n p Hn)). }
  intros n p s1 Hq Hn Hi%bool_decide_eq_true.
  apply (wp_mono _ (λ _ s', link_reaction u p s s' ∧ others_sockets p s s'));
    [|intros [] s' [H1 H2]; right; exists n, p; split; [exact Hn | split; [exact Hi | split; [exact H1 | exact H2]]]].
  apply (wp_mono _ (λ _ s', link_reaction u p s1 s' ∧ others_sockets p s1 s')); [|intros [] s'; by apply link_reaction_from].
  assert (good None s1 ∧ known None s1 p) as [G1 K1].
  { assert (calm s s1) as C by (apply emits_calm; eapply emits_mono; [|exact Hq]; ev_tac).
    split; [by eapply good_calm|]. eapply known_reg; [by apply calm_same_reg|]. eapply registered_known; [apply G | exact Hn]. }
  clear Hq Hn Hi. destruct (lu_Type u =? unix.RTM_DELLINK) eqn:Hd; [by apply linkDeleted_reaction|].
  destruct (decide (Ifindex (heap s1 !!! p) = lu_Index u)) as [Hb|Hb];
    [by apply link_rest_bound | by apply link_rest_moved].
Qed.
End LinkEvent.

(** ** Address updates *)

(** What the update asks to mirror, and how. *)
Definition addr_mirrored (i : Interface) (u : AddrUpdate) : option Addr :=
  a ← neighAddr (net_IP (au_IPNet u));
  if bool_decide (NDP i = ModeRelay) && mirrored_addr i a then Some a else None.

Section AddrEvent.
Context `{KN : Kernel} `{!KernelOk KN}.

Lemma refreshed_after P p s s1 s2 :
  (∀ e, P e → nofd_ev e) → emits P s s1 → refreshed p s1 s2 → refreshed p s s2.
Proof.
  intros HP He (F & M & O & C & L & es & Ht & Hf).
  assert (frame s s1) as F1 by (apply emits_frame; by eapply emits_mono).
  destruct He as (evs & -> & _). split_and!; [by etransitivity | done..|].
  exists (evs ++ es). split; [by rewrite (assoc_L (++))|]. eapply fetched_mono; [|exact Hf]. set_solver.
Qed.
Lemma refreshed_then P p s s1 s2 :
  (∀ e, P e → nofd_ev e) → refreshed p s s1 → emits P s1 s2 → refreshed p s s2.
Proof.
  intros HP (F & M & O & C & L & es & Ht & Hf) He.
  assert (frame s1 s2) as F2 by (apply emits_frame; by eapply emits_mono).
  destruct He as (evs & -> & _). split_and!; [by etransitivity | done..|].
  exists (es ++ evs). split; [cbn; by rewrite Ht, (assoc_L (++))|]. eapply fetched_mono; [|exact Hf]. set_solver.
Qed.
Lemma refreshed_uncached p s s1 :
  refreshed p s s1 → refreshed p s (set_heap (<[p := set_cachedLLValid false (heap s1 !!! p)]> (heap s1)) s1).
Proof.
  intros (F & M & O & C & L & E). unfold refreshed. cbn [heap set_heap].
  rewrite lookup_total_insert_eq. split_and!; try done.
  - etransitivity; [exact F|]. by apply (stable_frame_assign p (set_cachedLLValid false)).
  - intros q Hq. rewrite lookup_total_insert_ne by done. by apply O.
Qed.

(** C19: an address update about an IPv4 address or an unregistered link does
    nothing.  Otherwise the addresses of the interface are replaced by those
    the kernel lists now and the cached link-local address is dropped, and the
    address itself is mirrored, or its mirror removed, exactly when the
    interface relays NDP and mirrors such addresses; nothing else changes. *)
Theorem handleAddrEvent_reaction u s :
  wp (handleAddrEvent u) (λ _ s',
    ((is_Some (To4 (net_IP (au_IPNet u))) ∨ ∀ n p, interfaces s !! n = Some p → Ifindex (heap s !!! p) ≠ au_LinkIndex u) ∧
     emits query_ev s s') ∨
    To4 (net_IP (au_IPNet u)) = None ∧ ∃ n p, interfaces s !! n = Some p ∧ Ifindex (heap s !!! p) = au_LinkIndex u ∧
      refreshed p s s' ∧ ∃ ops, wrote ops s s' ∧
      match addr_mirrored (heap s !!! p) u with
      | Some a => mirror_ops s a p (au_NewAddr u) ops
      | None => ops = []
      end) s.
Proof.
  unfold handleAddrEvent. destruct (To4 _) as [x|] eqn:E4.
  { apply wp_skip. left. split; [left; by eexists | reflexivity]. }
  apply wp_bind, wp_find_interface.
  2: { intros s1 Hq Hno. apply wp_skip. left. split; [right|exact Hq]. intros n p Hn. apply Z.eqb_neq, (Hno n p Hn). }
  intros n p s1 Hq Hn Hi%Z.eqb_eq.
  apply (wp_mono _ (λ _ s', refreshed p s s' ∧ ∃ ops, wrote ops s s' ∧
      match addr_mirrored (heap s !!! p) u with
      | Some a => mirror_ops s a p (au_NewAddr u) ops
      | None => ops = []
      end)); [|intros [] s' H; right; split; [done|]; by exists n, p].
  apply wp_bind. wp_use refreshInterfaceAddresses_refreshed. intros [] s2 [R W].
  pose proof Hq as Hq0. apply (refreshed_after query_ev p s s1 s2 ltac:(ev_tac)) in R; [|exact Hq].
  assert (wrote [] s s2) as W2.
  { apply (emits_emitted table_ops _ _ _ query_ev_table_ops) in Hq0 as (evs & -> & Hevs).
    eapply wrote_nil_trans; [|exact W]. by exists evs. }
  clear Hq0 W. unfold addr_mirrored. destruct (neighAddr _) as [a|]; cbn [mbind option_bind].
  2: { apply wp_skip. split; [exact R|]. by exists []. }
  pose proof (frame_same_cfg _ _ (proj1 R)) as C. destruct (cfg_fields _ _ (proj2 C p)) as (_ & _ & _ & EL & EN).
  apply wp_bind, wp_deref. unfold mirrored_addr. rewrite EL, EN. fold (mirrored_addr (heap s !!! p) a).
  apply wp_bind. apply (wp_mono _ (λ _ s3, refreshed p s s3 ∧ ∃ ops, wrote ops s s3 ∧
    match (if bool_decide (NDP (heap s !!! p) = ModeRelay) && mirrored_addr (heap s !!! p) a then Some a else None) with
    | Some a => mirror_ops s a p (au_NewAddr u) ops | None => ops = [] end)).
  - destruct (_ && _); cbn [when]; [|apply wp_skip; split; [exact R|]; by exists []].
    eapply wp_mono; [apply wp_and; [apply ndpMirrorAddr_ops | apply (ndpMirrorAddr_stable a p (au_NewAddr u))]|].
    cbv beta. intros [] s3 [(xs & Hx & (evs & -> & Hevs)) He].
    split; [eapply (refreshed_then mirror_ev); [ev_tac | exact R | exact He]|].
    exists xs. split; [|by eapply mirror_ops_cfg]. eapply wrote_nil_trans; [exact W2|]. by exists evs.
  - cbv beta. intros [] s3 [R3 W3]. destruct (IsLinkLocalUnicast a); cbn [when]; [|by apply wp_skip].
    apply wp_assign. split; [by apply refreshed_uncached | exact W3].
Qed.
End AddrEvent.

(** ** An interface that is forgotten *)

Section Forgotten.
Context `{KN : Kernel} `{!KernelOk KN}.

Lemma closeInterface_still p : keeps still_mirrored (closeInterface p).
Proof.
  pose proof still_stopRsTimer. pose proof routerSetup_off_still. pose proof dhcpv6Setup_off_still.
  pose proof ndpSetup_off_still. unfold closeInterface. solve_still; auto.
Qed.

(** C34: [closeInterface] forgets a registered interface and closes its sockets,
    and leaves other interfaces alone, but takes down nothing the interface
    mirrored: it writes to no table, so host routes and proxy entries stay in
    the kernel, and every neighbour stays recorded, also under an index that
    no registered interface has any more. *)
Theorem closeInterface_leaves_mirrors n p s :
  good None s → interfaces s !! n = Some p →
  wp (closeInterface p) (λ _ s', let ix := Ifindex (heap s !!! p) in
    interfaces s' = delete n (interfaces s) ∧ (∀ v, own s' p v = None) ∧ others_sockets p s s' ∧
    wrote [] s s' ∧ mirroredNeighs s' = mirroredNeighs s ∧
    ((∀ m q, interfaces s !! m = Some q → q ≠ p → Ifindex (heap s !!! q) ≠ ix) →
      ∀ m q, interfaces s' !! m = Some q → Ifindex (heap s' !!! q) ≠ ix)) s.
Proof.
  intros G Hn. assert (known None s p) as K by (eapply registered_known; [apply G | exact Hn]).
  assert (Name (heap s !!! p) = n) as En by (by destruct (rg_names _ _ (proj2 G) n p Hn)).
  eapply wp_mono; [exact (wp_wlp _ _ _ _ (closeInterface_spec p s G K) (closeInterface_still p s))|].
  cbv beta zeta. intros [] s' [(G' & Hi & Hc & _ & O) (W & M & _)]. rewrite En in Hi. split_and!; [done | | | done | done |].
  - intros v. by rewrite O, decide_True.
  - intros q v Hq. by rewrite O, decide_False.
  - intros Hix m q. rewrite Hi. intros [Hne Hq]%lookup_delete_Some.
    destruct (cfg_fields _ _ (Hc q)) as (-> & _). apply (Hix m q Hq). intros ->.
    destruct (rg_names _ _ (proj2 G) m p Hq) as [Em _]. exact (Hne (eq_trans (eq_sym En) Em)).
Qed.
End Forgotten.

(** ** On the sample network

    The downstream link is deleted after the configuration was loaded; a
    global address appears on the downstream interface. *)
Definition lan_deleted : LinkUpdate := mkLinkUpdate "eth1" unix.RTM_DELLINK 3 0.
Definition lan_address : AddrUpdate := mkAddrUpdate (mkIPNet (AsSlice (global_addr 9)) (CIDRMask 64 128)) 3 true.

(** Its name then belongs to a new link, which is up. *)
Definition lan_moved : LinkUpdate := mkLinkUpdate "eth1" 16 9 unix.IFF_RUNNING.

Lemma handleLinkEvent_reaction_witness :
  let s := st sample_loaded in
  Ifindex (heap s !!! named s "lan") = 3 ∧ is_deletion lan_deleted = true ∧
  wp (@handleLinkEvent sample_kernel lan_deleted) (λ _ s', ∃ p, link_reaction lan_deleted p s s' ∧ others_sockets p s s') s ∧
  wp (@handleLinkEvent sample_kernel lan_moved) (λ _ s', ∃ p, Ifname (heap s !!! p) = "eth1"%string ∧
    Ifindex (heap s' !!! p) = 9 ∧ Running (heap s' !!! p) = true ∧ follows p s s' ∧ reread p 9 s s') s.
Proof.
  cbv zeta. split; [by vm_compute|]. split; [by vm_compute|].
  assert (good None (st sample_loaded)) as G by apply (reachable_inv (KN := sample_kernel)), sample_loaded_reachable.
  split; (eapply wp_mono; [by apply (handleLinkEvent_reaction (KN := sample_kernel))|]; cbv beta; intros [] s').
  - intros [[H _]|(n & p & _ & _ & H)]; [|exists p; exact H].
    exfalso. apply (H "lan"%string (named (st sample_loaded) "lan")); by vm_compute.
  - intros [[H _]|(n & p & Hn & Hi & H & _)].
    { exfalso. apply (H "lan"%string (named (st sample_loaded) "lan")); by vm_compute. }
    exists p. split; [exact Hi|].
    assert (forallb (λ np, negb (Ifindex (heap (st sample_loaded) !!! np.2) =? 9)) (map_to_list (interfaces (st sample_loaded))) = true)
      as Hall by by vm_compute.
    rewrite forallb_forall in Hall. apply elem_of_map_to_list, list_elem_of_In, Hall, negb_true_iff in Hn. cbn [snd] in Hn.
    unfold link_reaction in H. change (lu_Index lan_moved) with 9 in H. rewrite Hn in H.
    assert (is_deletion lan_moved = false) as E1 by reflexivity.
    assert (is_up lan_moved = true) as E2 by reflexivity.
    rewrite E1, E2 in H. destruct H as (H1 & H2 & H3 & H4 & _).
    exact (conj H1 (conj H2 (conj H3 H4))).
Defined.

Lemma handleAddrEvent_reaction_witness :
  addr_mirrored sample_lan lan_address = Some (global_addr 9) ∧
  wp (@handleAddrEvent sample_kernel lan_address) (λ _ s', ∃ ops, wrote ops sample_state s' ∧
    mirror_ops sample_state (global_addr 9) 2%positive true ops) sample_state.
Proof.
  split; [by vm_compute|].
  eapply wp_mono; [apply (handleAddrEvent_reaction (KN := sample_kernel) lan_address sample_state)|].
  cbv beta. intros [] s' [[[[x Hx]|H] _]|(_ & n & p & Hn & Hi & _ & ops & W & Hm)].
  - exfalso. vm_compute in Hx. discriminate Hx.
  - exfalso. apply (H "lan"%string 2%positive); by vm_compute.
  - exists ops. split; [exact W|]. destruct (sample_interfaces n p Hn) as [[_ ->]|[_ ->]]; [exfalso; clear -Hi; vm_compute in Hi; discriminate Hi|].
    revert Hm. lazymatch goal with |- match ?x with _ => _ end → _ =>
      assert (x = Some (global_addr 9)) as -> by by vm_compute end.
    intros Hm. exact Hm.
Defined.

(** The downstream interface closes: the neighbour it mirrored stays recorded,
    though no interface has its index. *)
Lemma closeInterface_leaves_mirrors_witness :
  let s := st sample_loaded in
  mirroredNeighs s !! mkKey (global_addr 7) 3 = Some true ∧
  wp (@closeInterface sample_kernel (named s "lan")) (λ _ s',
    mirroredNeighs s' !! mkKey (global_addr 7) 3 = Some true ∧ wrote [] s s' ∧ interfaces s' !! "lan"%string = None ∧
    ∀ m q, interfaces s' !! m = Some q → Ifindex (heap s' !!! q) ≠ 3) s.
Proof.
  cbv zeta. assert (mirroredNeighs (st sample_loaded) !! mkKey (global_addr 7) 3 = Some true) as HM by by vm_compute.
  split; [exact HM|].
  assert (Ifindex (heap (st sample_loaded) !!! named (st sample_loaded) "lan") = 3) as E by by vm_compute.
  eapply wp_mono; [apply (closeInterface_leaves_mirrors (KN := sample_kernel) "lan" (named (st sample_loaded) "lan"))|].
  - apply (reachable_inv (KN := sample_kernel)), sample_loaded_reachable.
  - by vm_compute.
  - cbv beta zeta. intros [] s' (Hi & _ & _ & W & M & H). rewrite E in H. split_and!.
    + rewrite M. exact HM.
    + exact W.
    + rewrite Hi. apply lookup_delete_eq.
    + apply H. intros m q Hm%elem_of_map_to_list%list_elem_of_In Hq.
      assert (forallb (λ np, bool_decide (np.2 = named (st sample_loaded) "lan") || negb (Ifindex (heap (st sample_loaded) !!! np.2) =? 3))
        (map_to_list (interfaces (st sample_loaded))) = true) as Hall by by vm_compute.
      rewrite forallb_forall in Hall. apply Hall in Hm. cbn [snd] in Hm.
      apply orb_true_iff in Hm as [Hm%bool_decide_eq_true|Hm%negb_true_iff%Z.eqb_neq]; [by destruct Hq | exact Hm].
Defined.
