(* ===== verification/Solicit.v ===== *)
(** * The reaction to a Neighbour Solicitation

    What the filter of [bpfNSFilter] lets through, what [handleSolicit] and
    [relayPing] of [internal/relay/ndp.go] send and install for it, and the
    byte order of the protocol numbers. *)
From S2P Require Import Prelude Netip World Hoare Log Iface RawSock Sim Mirror Router Ndp.

(** ** Pings *)

(** The route operations and datagrams among the events. *)
Definition ping_sel (e : event) : list call :=
  match e with
  | EvCall (Sendmsg fd p o sa) _ => [Sendmsg fd p o sa]
  | EvCall (RouteReplace r) _ => [RouteReplace r]
  | EvCall (RouteDel r) _ => [RouteDel r]
  | _ => []
  end.
Lemma log_ev_ping_sel e : log_ev e → ping_sel e = [].
Proof. by destruct e. Qed.

(** The link-local source [getLinkLocalAddr] settles on, when it is asked. *)
Definition ll_source (i : Interface) : option Addr :=
  if cachedLLValid i then Some (cachedLL i) else ip_Addr <$> find is_ll_source (Addr6 i).
Definition ping_source (i : Interface) : Addr :=
  if NdpFromLinkLocal i then default AddrNone (ll_source i) else AddrNone.

(** One ping: a route pinned to the interface for as long as it takes to send
    one echo request. *)
Definition echo_request : list Z := icmp6EchoRequest :: replicate 7 0.
Definition ping_ops (target : Addr) (i : Interface) : list call :=
  match ndp i with
  | None => []
  | Some ns =>
      if ns_pingFd ns <? 0 then []
      else [RouteReplace (host_route target (Ifindex i) pingRouteMetric unix.RTPROT_STATIC);
            icmp6_datagram (ns_pingFd ns) (Ifindex i) target (ping_source i) echo_request;
            RouteDel (host_route target (Ifindex i) pingRouteMetric 0)]
  end.

(** What the pings depend on, and leave alone: only the link-local cache of an
    interface may be filled on the way. *)
Definition ping_part (i : Interface) := (Ifindex i, NDP i, ndp i, Master i, NdpFromLinkLocal i, ll_source i).
Definition pinged (xs : list call) : relation St := λ s s',
  (∃ evs, trace s' = trace s ++ evs ∧ evs ≫= ping_sel = xs) ∧
  interfaces s' = interfaces s ∧ mirroredNeighs s' = mirroredNeighs s ∧
  ∀ p, ping_part (heap s' !!! p) = ping_part (heap s !!! p).

Lemma pinged_trans xs ys s1 s2 s3 : pinged xs s1 s2 → pinged ys s2 s3 → pinged (xs ++ ys) s1 s3.
Proof.
  intros ((e1 & T1 & <-) & I1 & M1 & P1) ((e2 & T2 & <-) & I2 & M2 & P2). split_and!; try congruence.
  exists (e1 ++ e2). split; [by rewrite T2, T1, (assoc_L (++)) | by rewrite bind_app].
Qed.
Lemma emitted_pinged xs s s' : emitted ping_sel xs s s' → pinged xs s s'.
Proof. intros (evs & -> & H). split_and!; try done. by exists evs. Qed.
Lemma ping_ops_part t i j : ping_part i = ping_part j → ping_ops t i = ping_ops t j.
Proof. unfold ping_part, ping_ops, ping_source. by intros [= -> _ -> _ -> ->]. Qed.

Section Pings.
Context `{KN : Kernel} `{!KernelOk KN}.

Lemma setupRoute_pinged a i metric add s :
  wp (setupRoute a 128 i None metric add)
     (λ _ s', pinged [if add then RouteReplace (host_route a i metric unix.RTPROT_STATIC)
                      else RouteDel (host_route a i metric 0)] s s') s.
Proof.
  unfold setupRoute. destruct add.
  - apply wp_sys. intros err _. apply emitted_pinged, (emitted_one ping_sel).
  - apply wp_bind, wp_sys. intros err _.
    assert (∀ c, pinged [RouteDel c] s (set_trace (trace s ++ [EvCall (RouteDel c) err]) s)) as He
      by (intros c; apply emitted_pinged; apply (emitted_one ping_sel (EvCall (RouteDel c) err))).
    destruct err as [e|]; [destruct (errors_Is e unix.ESRCH)|]; apply wp_ret, He.
Qed.

Lemma getLinkLocalAddr_source p s :
  wp (getLinkLocalAddr p) (λ r s', r = ll_source (heap s !!! p) ∧ pinged [] s s') s.
Proof.
  assert (pinged [] s s) as Hs by apply emitted_pinged, emitted_refl.
  unfold getLinkLocalAddr. apply wp_bind, wp_deref. unfold ll_source at 1.
  destruct (cachedLLValid (heap s !!! p)) eqn:EV; [by apply wp_ret|].
  destruct (find is_ll_source (Addr6 (heap s !!! p))) as [a|] eqn:EF; [|by apply wp_ret].
  apply wp_bind, wp_assign, wp_ret. split; [done|]. destruct Hs as (H1 & _ & _ & _). split_and!; try done.
  intros q. cbn [heap set_heap]. destruct (decide (q = p)) as [->|Hq].
  - rewrite lookup_total_insert_eq. unfold ping_part, ll_source. cbn. by rewrite EV, EF.
  - by rewrite lookup_total_insert_ne.
Qed.

Lemma sendICMP6FD_pinged fd p dest i src payload s :
  wp (sendICMP6FD fd p dest i src payload)
     (λ _ s', pinged [icmp6_datagram fd i dest src payload] s s') s.
Proof.
  unfold sendICMP6FD. apply wp_bind. eapply wp_lift; [apply cmsgPktinfo_layout|].
  apply wp_bind, wp_sys. intros err _. destruct err as [e|];
    (apply wp_bind, wp_log; intros s' Hs; apply wp_ret, emitted_pinged;
     exact (emitted_one_then ping_sel _ _ _ _ log_ev_ping_sel Hs)).
Qed.

Lemma relayPing_pinged target p s :
  wp (relayPing target p) (λ _ s', pinged (ping_ops target (heap s !!! p)) s s') s.
Proof.
  assert (pinged [] s s) as H0 by apply emitted_pinged, emitted_refl.
  unfold relayPing, ping_ops. apply wp_bind, wp_deref. set (i := heap s !!! p).
  destruct (ndp i) as [ns|] eqn:EN; [|by apply wp_skip].
  destruct (ns_pingFd ns <? 0); [by apply wp_skip|].
  apply wp_bind. wp_use setupRoute_pinged. intros _ s1 H1.
  assert (∀ s' xs, pinged xs s s' → Ifindex (heap s' !!! p) = Ifindex i ∧ NdpFromLinkLocal (heap s' !!! p) = NdpFromLinkLocal i
     ∧ ll_source (heap s' !!! p) = ll_source i) as Hpart.
  { intros s' xs (_ & _ & _ & P). specialize (P p). unfold ping_part in P. fold i in P. by injection P. }
  apply wp_bind. unfold sendICMP6WithLLSrc.
  apply (wp_mono _ (λ _ s', pinged [RouteReplace (host_route target (Ifindex i) pingRouteMetric unix.RTPROT_STATIC);
    icmp6_datagram (ns_pingFd ns) (Ifindex i) target (ping_source i) echo_request] s s')).
  - apply wp_bind, wp_deref. destruct (Hpart _ _ H1) as (_ & -> & E1). unfold ping_source.
    apply wp_bind, (wp_mono _ (λ r s', r = ping_source i ∧ pinged [RouteReplace (host_route target (Ifindex i)
      pingRouteMetric unix.RTPROT_STATIC)] s s')).
    + unfold ping_source. destruct (NdpFromLinkLocal i); [|by apply wp_ret].
      apply wp_bind. wp_use getLinkLocalAddr_source. rewrite E1. intros ll s2 (-> & H2). apply wp_ret.
      split; [done|]. exact (pinged_trans _ _ _ _ _ H1 H2).
    + cbv beta. intros src s2 (-> & H2). apply wp_bind. wp_use sendICMP6FD_pinged. intros _ s3 H3.
      apply wp_skip. exact (pinged_trans _ _ _ _ _ H2 H3).
  - cbv beta. intros [] s2 H2. apply wp_bind, wp_deref. destruct (Hpart _ _ H2) as (-> & _ & _).
    apply wp_bind. wp_use setupRoute_pinged. intros _ s3 H3. apply wp_skip.
    exact (pinged_trans _ _ _ _ _ H2 H3).
Qed.
End Pings.

(** ** The handler *)

(** The address a captured packet asks for, when the handler acts on it: a
    Neighbour Solicitation from on-link (hop limit 255, code zero) for an
    address that is neither loopback, multicast nor link-local. *)
Definition solicited_target (data : list Z) : option Addr :=
  if (64 <=? length data)%nat && bool_decide (data !! 7%nat = Some 255) && bool_decide (data !! 41%nat = Some 0)
  then let target := Unmap (AddrFrom16 (take 16 (drop 48 data))) in
       if mirrorable target then Some target else None
  else None.
(** Our own solicitation, seen on an interface that is not a master. *)
Definition own_probe `{Kernel} (s : St) (i : Interface) (srcMAC : list Z) : bool :=
  match k_interfaceByName (trace s) (Ifname i) with
  | Some hw => (6 <=? length hw)%nat && bool_decide (hwAddrBytes6 hw = srcMAC)
  | None => false
  end && negb (Master i).

Section Handler.
Context `{KN : Kernel} `{!KernelOk KN}.

(** The packet to its target, for a packet long enough. *)
Lemma solicited_bytes (A : Type) data (dflt : A) (k : Addr → A) :
  (64 ≤ length data)%nat →
  ∃ h c, idx data 7 = Ok h ∧ idx data 41 = Ok c ∧
    slice data 8 24 = Ok (take 16 (drop 8 data)) ∧ slice data 48 64 = Ok (take 16 (drop 48 data)) ∧
    (if negb (h =? 255) || negb (c =? 0) then dflt
     else if negb (mirrorable (Unmap (AddrFrom16 (take 16 (drop 48 data))))) then dflt
     else k (Unmap (AddrFrom16 (take 16 (drop 48 data)))))
    = match solicited_target data with Some t => k t | None => dflt end.
Proof.
  intros Hl. destruct (idx_ok data 7) as (h & Lh & Eh); [lia|]. destruct (idx_ok data 41) as (c & Lc & Ec); [lia|].
  exists h, c. split_and!; [done | done | by rewrite slice_ok by lia | by rewrite slice_ok by lia|].
  unfold solicited_target. rewrite Lh, Lc. destruct (Nat.leb_spec 64 (length data)); [|lia].
  destruct (Z.eqb_spec h 255) as [->|Hh]; cbn [negb orb].
  2: { by rewrite bool_decide_eq_false_2 by congruence. }
  destruct (Z.eqb_spec c 0) as [->|Hc]; cbn [negb].
  2: { rewrite (bool_decide_eq_false_2 (Some c = _)) by congruence. by rewrite andb_false_r. }
  rewrite !bool_decide_eq_true_2 by done. cbn [andb]. by destruct (mirrorable _).
Qed.

Lemma getMAC_answer p s :
  wp (getMAC p) (λ r s', pinged [] s s' ∧
    r = match k_interfaceByName (trace s) (Ifname (heap s !!! p)) with
        | Some hw => if (6 <=? length hw)%nat then Some hw else None
        | None => None
        end) s.
Proof.
  unfold getMAC. apply wp_bind, wp_deref, wp_bind, wp_sys. intros r <-.
  assert (pinged [] s (set_trace (trace s ++ [EvInterfaceByName (Ifname (heap s !!! p)) r]) s)) as H0
    by (apply emitted_pinged; apply (emitted_one ping_sel (EvInterfaceByName _ r))).
  destruct r as [hw|]; [|by apply wp_ret].
  destruct (Nat.ltb_spec (length hw) 6), (Nat.leb_spec 6 (length hw)); try lia; by apply wp_ret.
Qed.

Lemma ping_loop target p cs s0 s :
  pinged [] s0 s →
  wp (forM cs (λ c,
        ci ← deref c;
        if bool_decide (c ≠ p) && bool_decide (NDP ci = ModeRelay) then relayPing target c else skip))
     (λ _ s', pinged (cs ≫= λ c, if bool_decide (c ≠ p) && bool_decide (NDP (heap s0 !!! c) = ModeRelay)
                then ping_ops target (heap s0 !!! c) else []) s0 s') s.
Proof.
  intros H0. set (g := λ c, if bool_decide (c ≠ p) && _ then _ else _).
  apply (wp_forM (λ done s', pinged (done ≫= g) s0 s')); [done| |done].
  intros done' c rest s1 _ H1. apply wp_bind, wp_deref.
  replace ((done' ++ [c]) ≫= g) with ((done' ≫= g) ++ g c)
    by (rewrite bind_app; cbn [mbind list_bind]; by rewrite app_nil_r).
  pose proof H1 as (_ & _ & _ & P). specialize (P c).
  assert (NDP (heap s1 !!! c) = NDP (heap s0 !!! c)) as -> by (unfold ping_part in P; congruence).
  assert (g c = if bool_decide (c ≠ p) && bool_decide (NDP (heap s0 !!! c) = ModeRelay)
    then ping_ops target (heap s0 !!! c) else []) as -> by done.
  destruct (_ && _).
  - wp_use relayPing_pinged. intros [] s2 H2. rewrite (ping_ops_part _ _ _ P) in H2. by eapply pinged_trans.
  - apply wp_skip. by rewrite app_nil_r.
Qed.

(** C23: a captured packet makes the daemon ping its target, once, out of every
    other relaying interface with a ping socket, when the packet is a current
    socket's, a valid solicitation for an address that may be mirrored, and not
    our own probe seen on a slave; otherwise nothing is sent and no route
    touched.  Every pinning route installed is removed again. *)
Theorem handleSolicit_pings ns srcMAC data s :
  wp (handleSolicit ns srcMAC data) (λ _ s',
    let p := ns_iface ns in
    let i := heap s !!! p in
    if current_ndp i ns && bool_decide (NDP i = ModeRelay) && negb (own_probe s i srcMAC) then
      match solicited_target data with
      | Some target => ∃ cs, cs ≡ₚ (map_to_list (interfaces s)).*2 ∧
          pinged (cs ≫= λ c, if bool_decide (c ≠ p) && bool_decide (NDP (heap s !!! c) = ModeRelay)
                             then ping_ops target (heap s !!! c) else []) s s'
      | None => pinged [] s s'
      end
    else pinged [] s s') s.
Proof.
  assert (pinged [] s s) as Hs by apply emitted_pinged, emitted_refl.
  cbv zeta. unfold handleSolicit. apply wp_bind, wp_deref. set (p := ns_iface ns). set (i := heap s !!! p).
  destruct (current_ndp i ns); cbn [negb andb orb]; [|by apply wp_skip].
  destruct (NDP i) eqn:EN; [by apply wp_skip|].
  rewrite bool_decide_eq_false_2, bool_decide_eq_true_2 by (done || by intros ?). cbn [andb].
  destruct (Nat.ltb_spec (length data) (40 + 24)) as [Hl|Hl].
  { apply wp_skip. unfold solicited_target. destruct (Nat.leb_spec 64 (length data)); [lia|]. by case_match. }
  set (b := negb (own_probe s i srcMAC)).
  match goal with |- wp _ ?Q s => set (G := Q) end.
  destruct (solicited_bytes (M unit) data skip (λ target,
    mac ← getMAC p;
    i ← deref p;
    if match mac with Some hw => bool_decide (hwAddrBytes6 hw = srcMAC) | None => false end && negb (Master i)
    then skip
    else cs ← range_interfaces;
         forM cs (λ c, ci ← deref c;
           if bool_decide (c ≠ p) && bool_decide (NDP ci = ModeRelay) then relayPing target c else skip)))
    as (h & c & Eh & Ec & E8 & E48 & Ek); [lia|].
  apply wp_bind. eapply wp_lift; [exact Eh|]. apply wp_bind. eapply wp_lift; [exact E8|].
  rewrite AddrFromSlice_16 by (rewrite length_take, length_drop; lia).
  apply wp_bind. eapply wp_lift; [exact Ec|]. apply wp_bind. eapply wp_lift; [exact E48|].
  rewrite AddrFromSlice_16 by (rewrite length_take, length_drop; lia). cbv zeta.
  replace (IsLinkLocalUnicast _ || IsLoopback _ || IsMulticast _)
    with (negb (mirrorable (Unmap (AddrFrom16 (take 16 (drop 48 data)))))).
  2: { unfold mirrorable. by destruct (IsLoopback _), (IsMulticast _), (IsLinkLocalUnicast _). }
  unfold mbind in Ek |- *. rewrite Ek. clear Ek. subst G.
  destruct (solicited_target data) as [target|]; [|apply wp_skip; by case_match].
  apply wp_bind. wp_use getMAC_answer. fold i. intros mac s1 (H1 & ->). apply wp_bind, wp_deref.
  pose proof H1 as (_ & EI & _ & P). specialize (P p).
  assert (Master (heap s1 !!! p) = Master i) as -> by (unfold ping_part in P; fold i in P; congruence).
  replace (match _ with Some hw => bool_decide (hwAddrBytes6 hw = srcMAC) | None => false end && negb (Master i))
    with (own_probe s i srcMAC).
  2: { unfold own_probe. destruct (k_interfaceByName _ _) as [hw|]; [|done].
       by destruct (6 <=? length hw)%nat. }
  subst b. destruct (own_probe s i srcMAC); cbn [negb]; [by apply wp_skip|].
  apply wp_bind, wp_range_interfaces. rewrite EI. intros cs s2 Hcs Hq.
  assert (pinged [] s s2) as H2.
  { apply (pinged_trans [] [] _ s1); [done|]. apply emitted_pinged. eapply emits_emitted, Hq. by intros []. }
  wp_use ping_loop; [exact H2|]. intros [] s3 H3. by exists cs.
Qed.
End Handler.

(** ** The capture filter

    The kernel's classic BPF machine is outside the program; what the filters
    rely on is the documented meaning of three instructions: return a
    constant, load a byte of the packet (outside of it: drop), and a
    conditional jump relative to the next instruction.  [run prog pkt pc a] is
    the verdict from instruction [pc] with accumulator [a]. *)
Class BpfMachine (run : list SockFilter → list Z → nat → Z → Z) : Prop := {
  bpf_ret prog pkt pc a jt jf k :
    prog !! pc = Some (mkFilter 0x06 jt jf k) → run prog pkt pc a = k;
  bpf_ldb_abs prog pkt pc a jt jf k :
    prog !! pc = Some (mkFilter 0x30 jt jf k) →
    run prog pkt pc a = match pkt !! Z.to_nat k with Some b => run prog pkt (S pc) b | None => 0 end;
  bpf_jeq prog pkt pc a jt jf k :
    prog !! pc = Some (mkFilter 0x15 jt jf k) →
    run prog pkt pc a = run prog pkt (S pc + Z.to_nat (if (a =? k)%Z then jt else jf))%nat a
}.

(** One such machine: jumps only go forward, so the length of what is left of
    the program bounds the steps. *)
Fixpoint bpf_steps (fuel : nat) (prog : list SockFilter) (pkt : list Z) (pc : nat) (a : Z) : Z :=
  match fuel, prog !! pc with
  | S fuel, Some f =>
      if Code f =? 0x06 then K f
      else if Code f =? 0x30 then
        match pkt !! Z.to_nat (K f) with Some b => bpf_steps fuel prog pkt (S pc) b | None => 0 end
      else if Code f =? 0x15 then
        bpf_steps fuel prog pkt (S pc + Z.to_nat (if (a =? K f)%Z then Jt f else Jf f))%nat a
      else 0
  | _, _ => 0
  end.
Definition bpf_run (prog : list SockFilter) (pkt : list Z) (pc : nat) (a : Z) : Z :=
  bpf_steps (length prog - pc) prog pkt pc a.

Lemma bpf_steps_enough prog pkt fuel : ∀ pc a,
  (length prog - pc ≤ fuel)%nat → bpf_steps fuel prog pkt pc a = bpf_run prog pkt pc a.
Proof.
  induction fuel as [fuel IH] using lt_wf_ind. intros pc a Hf. unfold bpf_run.
  destruct (prog !! pc) as [f|] eqn:E.
  - pose proof (lookup_lt_Some _ _ _ E). destruct fuel as [|fuel]; [lia|].
    destruct (length prog - pc)%nat as [|m] eqn:Em; [lia|]. cbn [bpf_steps]. rewrite E.
    case_match; [done|]. case_match; [|case_match; [|done]].
    + case_match; [|done]. rewrite (IH fuel) by lia. symmetry. destruct (decide (m < S fuel)%nat).
      * apply (IH m); lia.
      * lia.
    + rewrite (IH fuel) by lia. symmetry. apply (IH m); lia.
  - destruct fuel, (length prog - pc)%nat; cbn [bpf_steps]; rewrite ?E; done.
Qed.
#[export] Instance bpf_run_machine : BpfMachine bpf_run.
Proof.
  assert (∀ prog pkt pc a f, prog !! pc = Some f →
    ∃ m, (length prog - S pc ≤ m)%nat ∧ bpf_run prog pkt pc a = bpf_steps (S m) prog pkt pc a) as Hstep.
  { intros prog pkt pc a f E%lookup_lt_Some. exists (length prog - S pc)%nat. split; [done|].
    symmetry. apply bpf_steps_enough. lia. }
  split; intros prog pkt pc a jt jf k E; destruct (Hstep prog pkt pc a _ E) as (m & Hm & ->);
    cbn [bpf_steps]; rewrite E; cbn [Code K Jt Jf]; [done| |].
  - change (0x30 =? 0x06) with false. change (0x30 =? 0x30) with true. cbv iota.
    destruct (pkt !! Z.to_nat k); [|done]. apply bpf_steps_enough. lia.
  - change (0x15 =? 0x06) with false. change (0x15 =? 0x30) with false. change (0x15 =? 0x15) with true.
    cbv iota. apply bpf_steps_enough. lia.
Qed.

(** What the capture filter looks at, and what it is there for: the next
    header and the ICMPv6 type of an IPv6 packet without extension headers. *)
Definition captured (pkt : list Z) : bool :=
  bool_decide (pkt !! 6%nat = Some unix.IPPROTO_ICMPV6) && bool_decide (pkt !! 40%nat = Some ndNeighborSolicit).
Definition ip_version (pkt : list Z) : option Z := (λ b, b / 16) <$> head pkt.
Definition neighbour_solicitation (pkt : list Z) : Prop :=
  ip_version pkt = Some 6 ∧ pkt !! 6%nat = Some unix.IPPROTO_ICMPV6 ∧ pkt !! 40%nat = Some ndNeighborSolicit.

(** The handler reads nothing of the first byte. *)
Lemma handleSolicit_version `{Kernel} ns mac pkt b :
  handleSolicit ns mac (<[0%nat := b]> pkt) = handleSolicit ns mac pkt.
Proof. destruct pkt as [|a pkt]; [done|]. reflexivity. Qed.

Section Filters.
Context (run : list SockFilter → list Z → nat → Z → Z) `{!BpfMachine run}.

Lemma capture_verdict pkt :
  run bpfNSFilter pkt 0 0
    = if bool_decide (pkt !! 6%nat = Some unix.IPPROTO_ICMPV6) && bool_decide (pkt !! 40%nat = Some ndNeighborSolicit)
      then 0xffffffff else 0.
Proof.
  rewrite (bpf_ldb_abs _ _ _ _ 0 0 6) by done. change (Z.to_nat 6) with 6%nat.
  destruct (pkt !! 6%nat) as [b|]; [|by rewrite bool_decide_eq_false_2].
  rewrite (bpf_jeq _ _ _ _ 0 3 unix.IPPROTO_ICMPV6) by done.
  destruct (Z.eqb_spec b unix.IPPROTO_ICMPV6) as [->|Hb].
  2: { rewrite bool_decide_eq_false_2 by congruence. by eapply bpf_ret. }
  rewrite bool_decide_eq_true_2 by done. cbn [andb].
  rewrite (bpf_ldb_abs _ _ _ _ 0 0 40) by done. change (Z.to_nat 40) with 40%nat.
  destruct (pkt !! 40%nat) as [c|]; [|by rewrite bool_decide_eq_false_2].
  rewrite (bpf_jeq _ _ _ _ 0 1 ndNeighborSolicit) by done.
  destruct (Z.eqb_spec c ndNeighborSolicit) as [->|Hc].
  - rewrite bool_decide_eq_true_2 by done. by eapply bpf_ret.
  - rewrite bool_decide_eq_false_2 by congruence. by eapply bpf_ret.
Qed.

(** C24: the first capture filter drops every packet.  The second decides by two
    bytes: it passes a packet exactly when byte 6 is the protocol number of
    ICMPv6 and byte 40 the type of a Neighbour Solicitation.  So every IPv6
    Neighbour Solicitation without extension headers passes, and of IPv6
    packets whose next header is ICMPv6 nothing else; but no other byte counts,
    the version of the packet included, although the socket receives every
    protocol: a packet that is not IPv6 passes with these two bytes, and the
    handler does not look at the version either.  The ICMPv6 filter of the
    router socket is built without a panic and passes Router Solicitations
    and Advertisements alone. *)
Theorem socket_filters_exact `{Kernel} pkt :
  run bpfDropAll pkt 0 0 = 0 ∧
  (run bpfNSFilter pkt 0 0 = if captured pkt then 0xffffffff else 0) ∧
  (neighbour_solicitation pkt → captured pkt = true) ∧
  (ip_version pkt = Some 6 → captured pkt = true → neighbour_solicitation pkt) ∧
  (∀ i b, i ≠ 6%nat → i ≠ 40%nat → captured (<[i := b]> pkt) = captured pkt) ∧
  (∀ ns mac b s, handleSolicit ns mac (<[0%nat := b]> pkt) s = handleSolicit ns mac pkt s) ∧
  ∃ f, (icmp6FilterSetPass icmp6FilterBlockAll ndRouterAdvert
          ≫= λ f, icmp6FilterSetPass f ndRouterSolicit) = Ok f ∧
    ∀ t, 0 ≤ t < 256 → filter_passes f t = (t =? ndRouterSolicit) || (t =? ndRouterAdvert).
Proof.
  unfold captured, neighbour_solicitation. split_and!.
  - by eapply bpf_ret.
  - apply capture_verdict.
  - intros (_ & -> & ->). by rewrite !bool_decide_eq_true_2.
  - by intros Hv [H6%bool_decide_eq_true H40%bool_decide_eq_true]%andb_true_iff.
  - intros i b Hi Hj. by rewrite !list_lookup_insert_ne.
  - intros ns mac b s. by rewrite handleSolicit_version.
  - apply router_filter_exact.
Qed.
End Filters.

(** ** Network byte order *)

(** Disjoint bits add up. *)
Lemma lor_bytes h l : 0 ≤ h < 256 → Z.lor h (l * 256) = h + l * 256.
Proof.
  intros Hh. assert (Z.land h (l * 256) = 0) as E.
  { rewrite <- (Z.mod_small h 256) by done. change 256 with (2 ^ 8). rewrite <- Z.land_ones by lia.
    rewrite <- Z.land_assoc, (Z.land_comm (Z.ones 8)), Z.land_ones by lia.
    rewrite Z.mod_mul by lia. apply Z.land_0_r. }
  pose proof (Zbitwise.Z.add_lor_land h (l * 256)). lia.
Qed.
Lemma swap16_bytes h l : 0 ≤ h < 256 → 0 ≤ l < 256 → swap16 (h * 256 + l) = l * 256 + h.
Proof.
  intros Hh Hl. unfold swap16, u16. rewrite Z.shiftr_div_pow2, Z.shiftl_mul_pow2 by lia.
  change (2 ^ 8) with 256. change (2 ^ 16) with (256 * 256).
  rewrite Z.mul_mod_distr_r, Z.div_add_l, (Z.div_small l), Z.add_0_r by lia.
  rewrite (Z.add_comm (h * 256)), Z.mod_add, Z.mod_small, lor_bytes by lia. lia.
Qed.

(** [swap16] is [htons] on a little-endian machine: the swapped number is
    stored in memory as the big-endian bytes of the original, and swapping
    twice gives it back. *)
Lemma swap16_htons v :
  0 ≤ v < 65536 → le_bytes 2 (swap16 v) = be_bytes 2 v ∧ swap16 (swap16 v) = v ∧ 0 ≤ swap16 v < 65536.
Proof.
  intros Hv. pose proof (Z.mod_pos_bound v 256). pose proof (Z.div_lt_upper_bound v 256 256).
  pose proof (Z.div_pos v 256). pose proof (Z.div_mod v 256) as Hd.
  generalize dependent (v mod 256). generalize dependent (v / 256). intros h Hh1 Hh2 l Hl Hd.
  assert (v = h * 256 + l) as -> by lia. clear Hd.
  rewrite !swap16_bytes by lia. split_and!; [|lia..]. cbn [le_bytes be_bytes].
  change (256 ^ Z.of_nat 1) with 256. change (256 ^ Z.of_nat 0) with 1.
  rewrite Z.div_1_r, !Z.div_add_l, !(Z.add_comm (_ * 256)), !Z.mod_add, !Z.div_small, !Z.add_0_r by lia.
  done.
Qed.
(** A Neighbour Solicitation, and a packet of version 4 that is passed as well. *)
Lemma socket_filters_exact_witness :
  let pkt v := [v * 16] ++ replicate 5 0 ++ [58] ++ replicate 33 0 ++ [135] in
  bpf_run bpfNSFilter (pkt 6) 0 0 = 0xffffffff ∧
  bpf_run bpfNSFilter (pkt 4) 0 0 = 0xffffffff ∧ ip_version (pkt 4) = Some 4.
Proof.
  split_and!; [..|done];
    (etransitivity; [exact (proj1 (proj2 (socket_filters_exact (H := sample_kernel) bpf_run _))) | by vm_compute]).
Defined.

(** ** A sample solicitation

    On the downstream interface, for an upstream address. *)
Definition sample_ns : list Z :=
  [96; 0; 0; 0; 0; 24; 58; 255] ++ As16 (ll_addr 9) ++ As16 (global_addr 50)
    ++ [135; 0; 0; 0; 0; 0; 0; 0] ++ As16 (global_addr 60).
Definition sample_lan_ndp : ndpSock := mkNdpSock 13%positive 10 9 2%positive 14%positive.
Lemma handleSolicit_pings_witness :
  solicited_target sample_ns = Some (global_addr 60) ∧
  ∃ s', @handleSolicit sample_kernel sample_lan_ndp (sample_mac 9) sample_ns sample_state = Ok (tt, s') ∧
    trace s' ≫= ping_sel =
      [RouteReplace (host_route (global_addr 60) 2 pingRouteMetric unix.RTPROT_STATIC);
       icmp6_datagram 5 2 (global_addr 60) (ll_addr 1) echo_request;
       RouteDel (host_route (global_addr 60) 2 pingRouteMetric 0)].
Proof.
  split; [by vm_compute|].
  destruct (wp_elim _ _ _ (handleSolicit_pings (KN := sample_kernel) sample_lan_ndp (sample_mac 9) sample_ns sample_state))
    as ([] & s' & Hrun & H).
  exists s'. split; [exact Hrun|]. revert H. cbv zeta.
  change (ns_iface sample_lan_ndp) with 2%positive.
  lazymatch goal with |- (if ?b then _ else _) → _ => replace b with true by by vm_compute end.
  assert (solicited_target sample_ns = Some (global_addr 60)) as -> by by vm_compute.
  intros (cs & Hcs & (evs & Ht & Hevs) & _). rewrite Ht. cbn [trace sample_state app]. rewrite Hevs. clear -Hcs.
  assert ((map_to_list (interfaces sample_state)).*2 ≡ₚ [1%positive; 2%positive]) as Hp by by vm_compute.
  rewrite Hp in Hcs. symmetry in Hcs. apply Permutation_length_2_inv in Hcs as [-> | ->]; by vm_compute.
Defined.
