(* ===== verification/Addresses.v ===== *)
(** * Addresses and their lifetimes

    What [fetchAddr6] and [lifetimeAbs] of [internal/relay/config.go] make of
    the lifetimes the kernel reports, and which address [relayLinkAddress] of
    [iface.go] then picks for the link-address of a relayed message. *)
From S2P Require Import Prelude Netip World Hoare Log Iface RawSock Sim Mirror Config.

(** C37: [lifetimeAbs] never wraps around: infinite lifetimes become zero, the
    others the sum with the current time, cut off at the largest 32-bit
    number; and a lifetime that has not run out never looks expired. *)
Theorem lifetimeAbs_saturates lft now :
  - 2147483648 ≤ lft < 4294967296 → 0 ≤ now < 4294967295 →
  lifetimeAbs lft now = (if (lft <? 0) || (lft =? 4294967295) then 0 else (lft + now) `min` 4294967295) ∧
  0 ≤ lifetimeAbs lft now < 4294967296 ∧
  (lft ≠ 0 → lifetimeAbs lft now = 0 ∨ now < lifetimeAbs lft now).
Proof.
  intros Hl Hn. unfold lifetimeAbs. destruct (Z.ltb_spec lft 0) as [Hneg|Hpos]; cbn [orb]; [lia|].
  rewrite !(u32_small lft) by lia. destruct (Z.eqb_spec lft 4294967295); [lia|].
  rewrite (u32_small (4294967295 - now)) by lia.
  destruct (lft >? 4294967295 - now) eqn:E; rewrite Z.gtb_ltb in E; to_prop; [lia|].
  rewrite u32_small by lia. lia.
Qed.

(** An address of the kernel's list that is not tentative counts as usable at
    the time it was read exactly when its valid lifetime has not run out. *)
Lemma convertAddr_usable now a x :
  0 < now < 4294967295 → 0 ≤ a_ValidLft a < 4294967296 →
  convertAddr now a = Some x → Tentative x = false →
  usable now x = negb (a_ValidLft a =? 0).
Proof.
  intros Hn Hl Hx Ht. unfold convertAddr in Hx. destruct (AddrFromSlice _); [|done].
  cbn in Hx. injection Hx as <-. unfold usable. rewrite Ht. cbn [negb andb ValidLT]. unfold lifetimeAbs.
  destruct (Z.ltb_spec (a_ValidLft a) 0); [lia|]. cbn [orb]. rewrite !(u32_small (a_ValidLft a)) by lia.
  destruct (Z.eqb_spec (a_ValidLft a) 4294967295) as [->|]; [done|].
  rewrite (u32_small (4294967295 - now)) by lia.
  destruct (a_ValidLft a >? 4294967295 - now) eqn:E; rewrite Z.gtb_ltb in E; to_prop.
  - destruct (Z.eqb_spec (a_ValidLft a) 0); [lia|]. apply orb_true_iff. right. apply Z.ltb_lt. lia.
  - rewrite u32_small by lia. destruct (Z.eqb_spec (a_ValidLft a) 0) as [->|]; cbn [negb].
    + apply orb_false_iff. split; [apply Z.eqb_neq | apply Z.ltb_ge]; lia.
    + apply orb_true_iff. right. apply Z.ltb_lt. lia.
Qed.

(** The time [nowMono] answers. *)
Definition now_answer `{Kernel} (h : list event) : Z :=
  match k_clock h unix.CLOCK_MONOTONIC_COARSE with
  | Some t => t
  | None => default 0 (k_clock (h ++ [EvClock unix.CLOCK_MONOTONIC_COARSE None]) unix.CLOCK_MONOTONIC)
  end.

(** C36: the link address chosen is the first usable preferred one; without one,
    a usable one that no other usable one outlives; and none only if no address
    is usable. *)
Theorem relayLinkAddress_best `{Kernel} p s :
  wp (relayLinkAddress p) (λ r _, ∃ choice, r = ip_Addr <$> choice ∧
    best_link_address (u32 (now_answer (trace s))) (Addr6 (heap s !!! p)) choice) s.
Proof.
  assert (∀ now l, best_link_address now l (pickLinkAddress now None l)) as Hbest.
  { intros now l. apply (pickLinkAddress_spec now [] None l); [done|].
    unfold best_link_address. cbn. by intros b ?%elem_of_nil. }
  unfold relayLinkAddress, nowMono, now_answer. apply wp_bind, wp_bind, wp_sys. intros r ->.
  destruct (k_clock (trace s) unix.CLOCK_MONOTONIC_COARSE) as [t|].
  - apply wp_ret, wp_bind, wp_deref, wp_ret. eexists. split; [done | apply Hbest].
  - apply wp_bind, wp_sys. intros r ->. apply wp_ret, wp_bind, wp_deref, wp_ret.
    eexists. split; [done | apply Hbest].
Qed.

Lemma lifetimeAbs_saturates_witness :
  lifetimeAbs 4294967000 1000 = 4294967295 ∧ 0 ≤ lifetimeAbs 4294967000 1000 < 4294967296.
Proof.
  split; [by vm_compute|]. apply (lifetimeAbs_saturates 4294967000 1000); lia.
Defined.
