(* ===== verification/Services.v ===== *)
(** * Opening services and loading a configuration

    The set-up of a socket is all or nothing; the start-up solicitations of a
    master; what the readers pass on; which interfaces are registered after a
    [Reload], and what is left when the configuration cannot be read. *)
From S2P Require Import Prelude Netip World Hoare Log Iface RawSock Sim Mirror Dhcpv6 Router Ndp Config Netlink Frame Resources Lifecycle Kept Reload Timers Engine Solicit.

(** ** Set-up *)

Section Setup.
Context `{KN : Kernel} `{!KernelOk KN}.

(** C25: setting up a service of a registered interface either succeeds, or
    reports an error and leaves the service without a socket; either way the
    open descriptors are again exactly those of the services that have one,
    and no other service is touched. *)
Theorem setup_transactional v p e s n :
  good None s → interfaces s !! n = Some p →
  wp (setup v p e) (λ r s',
    (is_Some (own s' p v) ↔ r = None ∧ e = true ∧ svc_mode (heap s !!! p) v ≠ ModeDisabled) ∧
    (∀ p' v', p' ≠ p ∨ v' ≠ v → own s' p' v' = own s p' v') ∧
    (∀ fd, fd ∈ open_fds (trace s') ↔ ∃ p' v' k, own s' p' v' = Some k ∧ fd ∈ sk_fds k)) s.
Proof.
  intros G Hn. assert (known None s p) as K by (by eapply registered_known; [apply G|]).
  wp_use (setup_spec None); [done..|]. intros r s' ([R' _] & _ & _ & o & U & Ho). split_and!.
  - rewrite (upd_self _ _ _ _ _ U), Ho, andb_true_iff, bool_decide_eq_true. naive_solver.
  - intros p' v' Hne. rewrite (up_own _ _ _ _ _ U), decide_False by naive_solver. done.
  - intros fd. split.
    + intros [Hx|Hk]%(ri_noleak _ _ R'); [by apply not_elem_of_empty in Hx | done].
    + intros (p' & v' & k & Hk & Hin). by apply (ri_sock _ _ R' _ _ _ Hk).
Qed.
End Setup.

(** ** Solicitations *)

Section Solicitations.
Context `{KN : Kernel} `{!KernelOk KN}.

Lemma getLinkLocalAddr_quiet p s :
  wp (getLinkLocalAddr p) (λ r s', (r = ll_source (heap s !!! p) ∧ trace s' = trace s) ∧ frame s s') s.
Proof.
  apply wp_and; [|apply getLinkLocalAddr_frame]. unfold getLinkLocalAddr, ll_source. apply wp_bind, wp_deref.
  destruct (cachedLLValid (heap s !!! p)); [by apply wp_ret|].
  by destruct (find is_ll_source (Addr6 (heap s !!! p))).
Qed.

(** C26: a firing solicitation timer of the current socket of a relaying master
    sends at most one Router Solicitation; it counts exactly the accepted ones,
    and re-arms itself until three are; any other firing changes nothing. *)
Theorem solicitTimerFire_step p gen s :
  wp (solicitTimerFire p gen) (λ _ s',
    let i := heap s !!! p in
    if solicit_active i gen then
      ∃ b evs, trace s' = trace s ++ evs ∧
        (if b : bool then is_Some (ll_source i) ∧ ∃ rs mac, router i = Some rs ∧
           evs ≫= accepted = [icmp6_datagram (rs_fd rs) (Ifindex i) allIPv6Routers AddrNone (rs_packet mac)]
         else evs ≫= accepted = []) ∧
        raSent (heap s' !!! p) = raSent i + Z.b2z b ∧
        timers s' = timers s ++ (if b && negb (raSent i + 1 <? maxRtrSolicitations) then []
                                 else [mkTimer (next s) rtrSolicitationInterval (FnSolicit p gen)])
    else s' = s) s.
Proof.
  cbv zeta. unfold solicitTimerFire. apply wp_bind, wp_deref. set (i := heap s !!! p).
  unfold solicit_active. destruct (rsTimerN i =? gen); cbn [negb andb orb]; [|by apply wp_skip].
  destruct (decide (router i = None)) as [Er|Er].
  { rewrite (bool_decide_eq_true_2 (router i = None)) by done.
    rewrite (bool_decide_eq_false_2 (router i ≠ None)) by (intros H; by apply H). by apply wp_skip. }
  rewrite (bool_decide_eq_false_2 (router i = None)), (bool_decide_eq_true_2 (router i ≠ None)) by done. cbn [andb orb].
  destruct (Master i); cbn [negb andb orb]; [|by apply wp_skip].
  destruct (RA i) eqn:ERA; [by apply wp_skip|].
  rewrite (bool_decide_eq_false_2 (ModeRelay ≠ ModeRelay)), (bool_decide_eq_true_2 (ModeRelay = ModeRelay)) by naive_solver.
  assert (∀ s1, frame s s1 → router (heap s1 !!! p) = router i ∧ Ifindex (heap s1 !!! p) = Ifindex i ∧
    raSent (heap s1 !!! p) = raSent i ∧ timers s1 = timers s ∧ next s1 = next s) as Hf.
  { intros s1 F. pose proof (fr_core _ _ F p) as C. fold i in C. unfold core, cfg in C.
    split_and!; [congruence..|apply F|apply F]. }
  assert (∀ (Q : unit → St → Prop) s1 (r : Z), timers s1 = timers s → next s1 = next s → raSent (heap s1 !!! p) = r →
    (∀ s2, trace s2 = trace s1 → raSent (heap s2 !!! p) = r →
       timers s2 = timers s ++ [mkTimer (next s) rtrSolicitationInterval (FnSolicit p gen)] → Q tt s2) →
    wp (armSolicit p rtrSolicitationInterval gen) Q s1) as Harm.
  { intros Q s1 r Ht Hn Hr HQ. refine (wp_intro _ _ _ tt _ eq_refl _). apply HQ; [done | | by cbn; rewrite Ht, Hn].
    cbn. by rewrite lookup_total_insert_eq. }
  apply wp_bind. wp_use getLinkLocalAddr_quiet. fold i. intros ll s1 [[-> T1] F1].
  destruct (Hf _ F1) as (R1 & I1 & N1 & M1 & X1).
  destruct (ll_source i) as [a|].
  2: { eapply Harm; [done..|]. intros s2 T2 N2 M2. exists false, []. rewrite app_nil_r.
       split_and!; [congruence | done | cbn; lia | done]. }
  apply wp_bind. eapply wp_mono.
  { apply wp_and; [apply sendRouterSolicitation_accepted|].
    assert (stable frame (sendRouterSolicitation p)) as Hs by solve_frame. apply Hs. }
  cbv beta. intros b s2 [H2 F2]. assert (frame s s2) as F02 by (by transitivity s1).
  destruct (Hf _ F02) as (R2 & I2 & N2 & M2 & X2). rewrite R1, I1 in H2.
  assert (∃ evs, trace s2 = trace s ++ evs ∧ (if b : bool then ∃ rs mac, router i = Some rs ∧
    evs ≫= accepted = [icmp6_datagram (rs_fd rs) (Ifindex i) allIPv6Routers AddrNone (rs_packet mac)]
    else evs ≫= accepted = [])) as (evs & T2 & Hevs).
  { destruct b; [destruct H2 as (rs & mac & Hrs & (evs & -> & Hevs)) | destruct H2 as (evs & -> & Hevs)];
      exists evs; cbn; rewrite T1; (split; [done|]); [by exists rs, mac | done]. }
  destruct b; cbn [negb].
  - apply wp_bind, wp_assign, wp_bind, wp_deref. cbn [heap set_heap]. rewrite lookup_total_insert_eq. cbn [raSent set_raSent].
    rewrite N2. destruct (raSent i + 1 <? maxRtrSolicitations); cbn [when].
    + eapply (Harm _ _ (raSent i + 1)); [done | done | |].
      { cbn. by rewrite lookup_total_insert_eq. }
      intros s3 T3 N3 M3. exists true, evs. split_and!; [by rewrite T3 | done | done | done | done].
    + apply wp_skip. exists true, evs. cbn. rewrite app_nil_r, lookup_total_insert_eq. by split_and!.
  - eapply Harm; [done..|]. intros s3 T3 N3 M3. exists false, evs.
    split_and!; [by rewrite T3 | done | cbn; lia | done].
Qed.
End Solicitations.

(** ** After a [Reload] *)

(** Interfaces leave the registry, none enters, and being in use is kept. *)
Definition only_leaves : relation St := λ s s',
  (∀ p, Inuse (heap s' !!! p) = Inuse (heap s !!! p)) ∧
  ∀ n p, interfaces s' !! n = Some p → interfaces s !! n = Some p.
#[export] Instance only_leaves_preorder : PreOrder only_leaves.
Proof.
  split; [by intros s|]. intros s1 s2 s3 [A B] [A' B']. split; [intros; by rewrite A' | eauto].
Qed.
#[export] Hint Resolve only_leaves_preorder : keeps.
Lemma same_cfg_only_leaves s s' : same_cfg s s' → only_leaves s s'.
Proof. intros [A B]. split; [intros p; apply same_cfg_inuse, B | by rewrite A]. Qed.
Lemma keeps_leaves {A} (m : M A) : keeps same_cfg m → keeps only_leaves m.
Proof. intros Hm. eapply keeps_mono; [exact Hm | apply same_cfg_only_leaves]. Qed.
Lemma emits_leaves {A} P (m : M A) : stable (emits P) m → keeps only_leaves m.
Proof.
  intros Hm. apply stable_keeps. eapply stable_mono; [exact Hm|]. intros s s' H.
  by eapply same_cfg_only_leaves, emits_same_cfg.
Qed.

Section AfterReload.
Context `{KN : Kernel} `{!KernelOk KN}.

Lemma demoteMaster_inuse a b c i : Inuse (demoteMaster a b c i) = Inuse i.
Proof. unfold demoteMaster. by repeat case_match. Qed.
Lemma closeInterface_leaves p : keeps only_leaves (closeInterface p).
Proof.
  unfold closeInterface. apply keeps_bind; [typeclasses eauto | apply keeps_deref; typeclasses eauto|]. intros i.
  apply keeps_bind; [typeclasses eauto | |].
  { apply keeps_modify. intros s. split; [done|]. cbn [interfaces set_interfaces]. by intros n q [_ H]%lookup_delete_Some. }
  intros _. apply keeps_bind; [typeclasses eauto | apply keeps_leaves, routerSetup_cfg|]. intros _.
  apply keeps_bind; [typeclasses eauto | apply keeps_leaves, dhcpv6Setup_cfg|]. intros _.
  apply keeps_bind; [typeclasses eauto | apply keeps_leaves, ndpSetup_cfg|]. intros _.
  apply keeps_leaves, stopRsTimer_cfg.
Qed.

(** The file cannot be read or is not a configuration. *)
Definition unreadable : Prop := ∀ h path data, k_readFile h path = Some data → k_unmarshal data = None.
Lemma loadConfigJSON_unreadable path : unreadable → keeps only_leaves (loadConfigJSON path).
Proof.
  intros Hu s. unfold loadConfigJSON. apply wlp_bind, wp_to_wlp, wp_sys. intros data Ed.
  set (s1 := set_trace _ s). apply wp_to_wlp.
  assert (∀ level fmt, wp (logf level fmt) (λ _ s', only_leaves s s') s1) as Hlog.
  { intros level fmt. apply wp_log. intros s2 H2. by eapply same_cfg_only_leaves, (emits_same_cfg _ s1). }
  destruct data as [data|]; [|apply Hlog]. symmetry in Ed. rewrite (Hu _ _ _ Ed). apply Hlog.
Qed.

Lemma Reload_clears s :
  unreadable → wlp Reload (λ _ s', ∀ n p, interfaces s' !! n = Some p → Inuse (heap s' !!! p) = false) s.
Proof.
  intros Hu. unfold Reload. apply wlp_bind, wp_to_wlp, wp_range_interfaces. intros cs s1 Hcs Hs1.
  apply wlp_bind. assert (interfaces s1 = interfaces s) as EI by (by destruct Hs1 as (? & -> & _)).
  apply (wlp_mono _ (λ _ s', interfaces s' = interfaces s ∧ ∀ c, c ∈ cs → Inuse (heap s' !!! c) = false)).
  { apply wp_to_wlp, (wp_forM (λ done s', interfaces s' = interfaces s ∧ ∀ c, c ∈ done → Inuse (heap s' !!! c) = false));
      [split; [done | by intros c ?%elem_of_nil] | | done].
    intros done' c rest s2 _ [H1 H2]. unfold setInterfaceDefaults. apply wp_bind, wp_assign, wp_assign.
    split; [done|]. intros q Hq. cbn [heap set_heap]. rewrite !lookup_total_assign.
    repeat case_decide; subst; try done. apply H2. set_solver. }
  intros [] s2 [EI2 H2].
  assert (keeps only_leaves (s ← get;
    loadConfigJSON (ConfigFile s) ;;
    cs ← range_interfaces;
    s ← get;
    let any mode := existsb (λ c, let i := heap s !!! c in
                      negb (Master i) && bool_decide (mode i = ModeRelay)) cs in
    cs ← range_interfaces;
    forM cs (λ c, assign c (demoteMaster (any DHCPv6) (any RA) (any NDP))) ;;
    cs ← copyIfaceList;
    forM cs (λ c, i ← deref c; if Inuse i then reloadServices c else closeInterface c))) as Hk.
  { unfold copyIfaceList. solve_keeps_with ltac:(idtac; first
      [ by apply loadConfigJSON_unreadable
      | solve [eapply emits_leaves, range_interfaces_stable]
      | apply keeps_leaves, reloadServices_cfg
      | apply closeInterface_leaves
      | lazymatch goal with |- keeps _ (assign _ _) => apply keeps_modify; intros s3; split; [|done]; intros q;
          cbn [heap set_heap]; rewrite lookup_total_assign; case_decide; [subst; apply demoteMaster_inuse | done] end ]). }
  eapply wlp_mono; [exact (Hk s2)|]. intros [] s3 [A B] n p Hn. rewrite A. apply H2. rewrite Hcs.
  apply elem_of_interfaces. exists n. rewrite <- EI2. by apply B.
Qed.

(** After a [Reload] only interfaces in use, those the configuration just
    read mentions and that could be bound, are still registered; only they have
    sockets, and only while running and for services they relay. *)
Lemma Reload_keeps_configured s :
  good None s →
  wp Reload (λ _ s', (∀ n p, interfaces s' !! n = Some p → Inuse (heap s' !!! p) = true) ∧
    ∀ p v, is_Some (own s' p v) → (∃ n, interfaces s' !! n = Some p) ∧
      Running (heap s' !!! p) = true ∧ svc_mode (heap s' !!! p) v ≠ ModeDisabled) s.
Proof.
  intros G. wp_use Reload_registered; [done|]. intros [] s' [[G' S] H]. split; [done|].
  intros p v Hv. split; [exists (Name (heap s' !!! p)); by eapply good_registered | by apply S].
Qed.

(** C31: a [Reload] that cannot read its configuration (a missing file, malformed
    JSON) removes every interface and closes every socket. *)
Theorem Reload_unreadable s :
  good None s → unreadable →
  wp Reload (λ _ s', interfaces s' = ∅ ∧ open_fds (trace s') = ∅) s.
Proof.
  intros G Hu. eapply wp_mono; [exact (wp_wlp _ _ _ _ (Reload_registered s G) (Reload_clears s Hu))|].
  cbv beta. intros [] s' [[[[R' [N O]] _] H1] H2].
  assert (interfaces s' = ∅) as E.
  { apply map_empty. intros n. destruct (interfaces s' !! n) as [p|] eqn:En; [|done].
    specialize (H1 _ _ En). rewrite (H2 _ _ En) in H1. done. }
  split; [done|]. apply elem_of_equiv_empty_L. intros fd [Hx|(p & v & k & Hk & _)]%(ri_noleak _ _ R').
  - by apply not_elem_of_empty in Hx.
  - destruct (O p v ltac:(by eexists)) as [|Hn]; [done|]. rewrite E in Hn. by rewrite lookup_empty in Hn.
Qed.
End AfterReload.

(** ** What the readers pass on *)

(** The ancillary data of a packet with one hop limit, whatever else. *)
Definition hop_cmsg (h : Z) : cmsg := mkCmsg unix.IPPROTO_IPV6 unix.IPV6_HOPLIMIT (le_bytes 4 (u32 h)).
Definition is_hop_cmsg (m : cmsg) : bool :=
  (cm_Level m =? unix.IPPROTO_IPV6) && (cm_Type m =? unix.IPV6_HOPLIMIT) && (4 <=? Z.of_nat (length (cm_Data m))).

Lemma parseCmsg_other i h b m : is_hop_cmsg m = false → ∃ i', parseCmsg (i, h, b) m = (i', h, b).
Proof.
  intros Hm. unfold parseCmsg. destruct (_ && _); [by eexists|].
  unfold is_hop_cmsg in Hm. rewrite Hm. by eexists.
Qed.
Lemma parseCmsg_hop i h b x : - 2147483648 ≤ x < 2147483648 → parseCmsg (i, h, b) (hop_cmsg x) = (i, x, true).
Proof.
  intros Hx. unfold parseCmsg, hop_cmsg. cbn [cm_Level cm_Type cm_Data].
  change (unix.IPV6_HOPLIMIT =? unix.IPV6_PKTINFO) with false. rewrite andb_false_r. cbn [andb].
  rewrite length_le_bytes. change (_ && _) with true. cbv iota.
  rewrite take_ge by by rewrite length_le_bytes. rewrite le_val_le_bytes. do 2 f_equal.
  unfold u32, i32. change (256 ^ Z.of_nat 4) with (2 ^ 32). rewrite Z.mod_mod, Zplus_mod_idemp_l by lia.
  rewrite Z.mod_small; lia.
Qed.
Lemma parseCmsgs_others l : ∀ i h b, forallb (negb ∘ is_hop_cmsg) l = true → ∃ i', foldl parseCmsg (i, h, b) l = (i', h, b).
Proof.
  induction l as [|m l IH]; intros i h b Hl; [by eexists|]. apply andb_true_iff in Hl as [Hm%negb_true_iff Hl].
  cbn [foldl]. destruct (parseCmsg_other i h b m Hm) as [i' ->]. by apply IH.
Qed.

Section Readers.
Context `{KN : Kernel}.

(** C39: a packet the router socket delivers with its hop limit is passed on
    exactly when it is not empty and its hop limit is 255 (not forwarded). *)
Theorem routerReadTurn_onlink data oob from l1 l2 h d :
  k_ParseCmsgs oob = Some (l1 ++ hop_cmsg h :: l2) → forallb (negb ∘ is_hop_cmsg) l2 = true → 0 ≤ h < 256 →
  routerReadTurn false (Received data oob from) d
    = if bool_decide (data ≠ [] ∧ h = 255) then LoopPost data else LoopContinue.
Proof.
  intros Hp Hl Hh. unfold routerReadTurn, parseCmsgs. rewrite Hp, foldl_app. cbn [foldl].
  destruct (foldl parseCmsg (0, 0, false) l1) as [[i0 h0] b0]. rewrite parseCmsg_hop by lia.
  destruct (parseCmsgs_others l2 i0 h true Hl) as [i' ->].
  destruct data as [|x data]; cbn [length Nat.eqb]; [by rewrite bool_decide_eq_false_2 by naive_solver|].
  destruct (Z.eqb_spec h 255); cbn [andb negb];
    [by rewrite bool_decide_eq_true_2 | by rewrite bool_decide_eq_false_2 by naive_solver].
Qed.
End Readers.

(** ** Logging *)

(** Whatever level is asked for, the level in force is its low three bits,
    and a message leaves one line exactly when its level does not exceed it. *)
Lemma log_threshold level lvl fmt s :
  wp (SetLogLevel level ;; logf lvl fmt) (λ _ s',
    logLevel s' = level mod 8 ∧
    trace s' ≫= log_lines = (trace s ≫= log_lines) ++ (if lvl <=? level mod 8 then [fmt] else [])) s.
Proof.
  assert (Z.land level 7 = level mod 8) as E by (change 7 with (Z.ones 3); by rewrite Z.land_ones).
  apply wp_bind, wp_modify. wp_use logf_lines. intros [] s' (evs & -> & Hevs). cbn [logLevel trace set_trace set_logLevel] in *.
  split; [exact E|]. rewrite bind_app. f_equal. rewrite Hevs, E, Z.gtb_ltb.
  destruct (Z.ltb_spec (level mod 8) lvl), (Z.leb_spec lvl (level mod 8)); try done; lia.
Qed.

(** ** The properties at work *)

Lemma setup_transactional_witness :
  let s := st sample_loaded in let p := named s "lan" in
  wp (@setup sample_kernel VRouter p false) (λ r s',
    (is_Some (own s' p VRouter) ↔ r = None ∧ false = true ∧ svc_mode (heap s !!! p) VRouter ≠ ModeDisabled) ∧
    (∀ p' v', p' ≠ p ∨ v' ≠ VRouter → own s' p' v' = own s p' v') ∧
    (∀ fd, fd ∈ open_fds (trace s') ↔ ∃ p' v' k, own s' p' v' = Some k ∧ fd ∈ sk_fds k)) s.
Proof.
  apply (setup_transactional (KN := sample_kernel) VRouter _ false _ "lan").
  - apply (reachable_inv (KN := sample_kernel)), sample_loaded_reachable.
  - by vm_compute.
Defined.

Lemma solicitTimerFire_step_witness :
  ∃ s', @solicitTimerFire sample_kernel 1%positive 0 sample_state = Ok (tt, s') ∧
    raSent (heap s' !!! 1%positive) = 1.
Proof.
  destruct (wp_elim _ _ _ (solicitTimerFire_step (KN := sample_kernel) 1%positive 0 sample_state)) as ([] & s' & Hs & _).
  exists s'. split; [exact Hs|]. revert Hs. vm_compute. by intros [= <-].
Defined.

(** The sample network after its configuration file is gone. *)
Definition no_config_kernel : Kernel :=
  sim_kernel (mkSim (λ _ _, None) (λ _ _, None) [] (sim_macs sample_sim) (sim_links sample_sim) (sim_addrs sample_sim)
    (sim_neighs sample_sim) [] 1000 (λ _, None) (λ _, Some [])).
Lemma Reload_unreadable_witness :
  interfaces (st sample_loaded) ≠ ∅ ∧
  wp (@Reload no_config_kernel) (λ _ s', interfaces s' = ∅ ∧ open_fds (trace s') = ∅) (st sample_loaded).
Proof.
  split; [by vm_compute|]. apply (Reload_unreadable (KN := no_config_kernel)); [|done].
  apply (reachable_inv (KN := sample_kernel)), sample_loaded_reachable.
Defined.

Definition hop_kernel : Kernel := sim_kernel (mkSim (λ _ _, None) (λ _ _, None) [] [] [] [] [] [] 0 (λ _, None)
  (λ oob, Some [mkCmsg unix.IPPROTO_IPV6 unix.IPV6_PKTINFO (replicate 20 0); hop_cmsg (hd 0 oob)])).
Lemma routerReadTurn_onlink_witness :
  @routerReadTurn hop_kernel false (Received sample_ra [64] None) false = LoopContinue ∧
  @routerReadTurn hop_kernel false (Received sample_ra [255] None) false = LoopPost sample_ra.
Proof.
  split.
  - by rewrite (routerReadTurn_onlink (KN := hop_kernel) sample_ra [64] None
      [mkCmsg unix.IPPROTO_IPV6 unix.IPV6_PKTINFO (replicate 20 0)] [] 64).
  - by rewrite (routerReadTurn_onlink (KN := hop_kernel) sample_ra [255] None
      [mkCmsg unix.IPPROTO_IPV6 unix.IPV6_PKTINFO (replicate 20 0)] [] 255).
Defined.
