(* ===== verification/Main.v ===== *)
(** * Start-up ([cmd/ipv6-relay/main.go])

    [main] after the flags are parsed: what is set up, the exit codes, and that
    the state it hands to the event loop is the initial one of [Engine]. *)
From S2P Require Import Prelude Netip World Hoare Log Iface RawSock Sim Mirror Netlink Frame Engine.

(** The command line as [package flag] delivers it: no argument at all, a flag
    it rejects (it then calls [flag.Usage]), or the values of the four flags;
    [f_logLevel] is [None] when [-l] was not given ([flag.Visit]). *)
Record flags : Type := mkFlags {
  f_configFile : string; f_logLevel : option Z; f_foreground : bool; f_help : bool }.
Inductive command_line : Type := NoArguments | BadFlag | Flags (f : flags).

(** What the rest of the environment answers: dialling the system log, the
    current user's id, the four netlink subscriptions. *)
Record boot_env : Type := mkBootEnv {
  be_syslog : option goerr; be_uid : option string; be_subscribe : list (option goerr) }.

Inductive outcome : Type := Exit (code : Z) | RunLoop.

Section Main.
Context `{Kernel}.

Definition stderr (msg : string) : M unit := sys (λ _, tt) (λ _, EvStderr msg).

Definition ipv6Enabled : M bool :=
  r ← sys_socket unix.AF_INET6 unix.SOCK_DGRAM 0;
  match r with
  | inl _ => mret false
  | inr fd => sys_close fd ;; mret true
  end.

Definition printUsage (code : Z) : M outcome := stderr "== %s Usage ==" ;; mret (Exit code).

(** [StartNetlinkMonitor]: the first subscription that fails ends it. *)
Definition StartNetlinkMonitor (subs : list (option goerr)) : M (option goerr) :=
  match find (λ r, bool_decide (is_Some r)) subs with
  | Some err => mret err
  | None => startMirrorSweep ;; mret None
  end.

Definition main (args : command_line) (env : boot_env) : M outcome :=
  match args with
  | NoArguments => printUsage 1
  | BadFlag => printUsage 0
  | Flags f =>
      if f_help f then printUsage 0
      else
        match f_logLevel f with
        | Some level =>
            SetLogLevel level ;;
            modify (set_LogLevelCmdline true) ;;
            stderr "Log level set to %d"
        | None => skip
        end ;;
        let toSyslog := negb (f_foreground f) in
        when (negb toSyslog) (stderr "Logging to stderr") ;;
        err ← SetLogSyslog toSyslog (be_syslog env);
        match err with Some _ => stderr "openlog: %v" | None => skip end ;;
        when (negb (bool_decide (be_uid env = Some "0"%string)))
          (Errorf "Not running as root - relying on CAP_NET_RAW/CAP_NET_ADMIN/CAP_NET_BIND_SERVICE") ;;
        if bool_decide (f_configFile f = ""%string) then
          Errorf "No configuration file specified. Use -c <file>" ;; mret (Exit 2)
        else
          modify (set_ConfigFile (f_configFile f)) ;;
          enabled ← ipv6Enabled;
          if negb enabled then Errorf "IPv6 is not enabled on this system" ;; mret (Exit 4)
          else
            err ← StartNetlinkMonitor (be_subscribe env);
            match err with
            | Some _ => Errorf "Unable to start netlink monitor: %v" ;; mret (Exit 4)
            | None => mret RunLoop
            end
  end.

(** The engine [main] starts: the signal goroutine and the monitor wait, the
    main goroutine is about to post [Reload]. *)
Definition boot (s : St) : engine := mkEngine s [] [(TReload, RMain)] [] true true false.
End Main.

(** ** Start-up keeps the state initial *)

(** Nothing of the state changes but the sink of the log, the configuration
    file's name and the history, and no socket is opened or closed. *)
Definition settings_only : relation St := λ s s',
  heap s' = heap s ∧ interfaces s' = interfaces s ∧ mirroredNeighs s' = mirroredNeighs s ∧
  reconcileScheduled s' = reconcileScheduled s ∧ timers s' = timers s ∧ readers s' = readers s ∧
  closed s' = closed s ∧ logLevel s' = logLevel s ∧ LogLevelCmdline s' = LogLevelCmdline s ∧
  ∃ evs, trace s' = trace s ++ evs ∧ Forall nofd_ev evs.
#[export] Instance settings_only_preorder : PreOrder settings_only.
Proof.
  split; [intros s; split_and!; try done; exists []; by rewrite app_nil_r|]. unfold settings_only.
  intros s1 s2 s3 (?&?&?&?&?&?&?&?&?&e1&T1&F1) (?&?&?&?&?&?&?&?&?&e2&T2&F2).
  split_and!; try congruence. exists (e1 ++ e2). split; [by rewrite T2, T1, (assoc_L (++)) | by apply Forall_app].
Qed.
#[export] Hint Resolve settings_only_preorder : stable.
Lemma log_settings s s' : emits log_ev s s' → settings_only s s'.
Proof. intros (evs & -> & H). split_and!; try done. exists evs. split; [done|]. eapply Forall_impl; [exact H|]. ev_tac. Qed.

Lemma nofd_open_fds t evs : Forall nofd_ev evs → open_fds (t ++ evs) = open_fds t.
Proof.
  intros H. apply (fr_fds (set_trace t initial_state) (set_trace (t ++ evs) initial_state)), emits_frame.
  by exists evs.
Qed.
Lemma booting_settings s s' : settings_only s s' → booting s → booting s'.
Proof.
  intros (?&?&?&?&?&?&?&?&?&evs&HT&F) []. split; try congruence. by rewrite HT, nofd_open_fds.
Qed.

(** Between two states exactly one socket was asked for, the one of
    [ipv6Enabled], with this answer of the kernel, and it was closed again; no
    other socket was opened or closed. *)
Definition probed (answer : goerr + Z) `{Kernel} : relation St := λ s s', ∃ e1 e2,
  trace s' = trace s ++ e1 ++ EvSocket unix.AF_INET6 unix.SOCK_DGRAM 0 answer ::
    match answer with inl _ => e2 | inr fd => EvClose fd :: e2 end ∧
  answer = k_socket (trace s ++ e1) unix.AF_INET6 unix.SOCK_DGRAM 0 ∧
  Forall nofd_ev e1 ∧ Forall nofd_ev e2.

Section Boot.
Context `{KN : Kernel} `{!KernelOk KN}.

Lemma stderr_settings msg : stable settings_only (stderr msg).
Proof. intros s. apply wp_sys. intros [] _. apply log_settings. exists [EvStderr msg]. split; [done | by repeat constructor]. Qed.
Lemma logf_settings level fmt : stable settings_only (logf level fmt).
Proof. eapply stable_mono; [apply logf_stable | apply log_settings]. Qed.
Lemma set_settings f :
  (∀ s, heap (f s) = heap s ∧ interfaces (f s) = interfaces s ∧ mirroredNeighs (f s) = mirroredNeighs s ∧
     reconcileScheduled (f s) = reconcileScheduled s ∧ timers (f s) = timers s ∧ readers (f s) = readers s ∧
     closed (f s) = closed s ∧ trace (f s) = trace s ∧ logLevel (f s) = logLevel s ∧
     LogLevelCmdline (f s) = LogLevelCmdline s) → stable settings_only (modify f).
Proof.
  intros Hf s. apply wp_modify. unfold settings_only. destruct (Hf s) as (?&?&?&?&?&?&?&->&?&?).
  split_and!; try done. exists []. by rewrite app_nil_r.
Qed.
Lemma SetLogSyslog_settings b d : stable settings_only (SetLogSyslog b d).
Proof.
  unfold SetLogSyslog. solve_stable; by apply set_settings.
Qed.

(** The probe tells what the kernel answered, and leaves everything else. *)
Lemma ipv6Enabled_probes s0 s :
  booting s → settings_only s0 s →
  wp ipv6Enabled (λ b s', ∃ answer, probed answer s0 s' ∧ same_mem s s' ∧ booting s' ∧
    b = match answer with inl _ => false | inr _ => true end) s.
Proof.
  intros B (_&_&_&_&_&_&_&_&_&e1&HT&F). unfold ipv6Enabled. apply wp_bind, wp_sys. intros r Er.
  destruct r as [e|fd].
  - apply wp_ret. exists (inl e). split; [|split; [by eexists | split; [|done]]].
    + exists e1, []. cbn. rewrite HT in Er |- *. by rewrite <- (assoc_L (++)), <- Er.
    + destruct B. split; try done. cbn. by rewrite open_fds_app.
  - apply wp_bind, wp_sys. intros [] _. apply wp_ret. exists (inr fd).
    split; [|split; [by eexists | split; [|done]]].
    + exists e1, []. cbn. rewrite HT in Er |- *. by rewrite <- !(assoc_L (++)), <- Er.
    + destruct B. split; try done. cbn. rewrite <- (assoc_L (++)), open_fds_app, bo_fds. cbn. set_solver.
Qed.
Lemma probed_settings answer s s1 s2 : probed answer s s1 → settings_only s1 s2 → probed answer s s2.
Proof.
  intros (e1 & e2 & HT & HK & F1 & F2) (_&_&_&_&_&_&_&_&_&e3&HT'&F3). exists e1, (e2 ++ e3).
  rewrite HT', HT. split_and!; [|done..|by apply Forall_app]. rewrite <- !(assoc_L (++)).
  by destruct answer; rewrite <- !app_comm_cons.
Qed.

(** Steps that keep the state initial, then the rest. *)
Lemma settings_then {A B} (m : M A) (f : A → M B) Q s0 s :
  stable settings_only m → settings_only s0 s →
  (∀ a s', settings_only s0 s' → wp (f a) Q s') → wp (m ≫= f) Q s.
Proof. intros Hm H0 HQ. apply wp_bind. wp_use Hm. intros a s' H1. apply HQ. by transitivity s. Qed.

Definition monitor_starts (subs : list (option goerr)) : bool := forallb (λ r, bool_decide (r = None)) subs.
Lemma StartNetlinkMonitor_boots subs s :
  booting s → wp (StartNetlinkMonitor subs) (λ r s',
    (r = None ↔ monitor_starts subs = true) ∧ (r = None → started (boot s')) ∧
    logLevel s' = logLevel s ∧ LogLevelCmdline s' = LogLevelCmdline s ∧ ConfigFile s' = ConfigFile s ∧
    trace s' = trace s) s.
Proof.
  intros B. unfold StartNetlinkMonitor. destruct (find _ subs) as [r|] eqn:E.
  - apply wp_ret. assert (is_Some r ∧ monitor_starts subs = false) as [[e ->] ->]; [|done].
    induction subs as [|[e|] subs IH]; cbn in E; [done | by injection E as <-; eauto | by apply IH].
  - refine (wp_intro _ _ _ None _ eq_refl _). split; [|split; [intros _; by exists s; eexists | done]].
    split; [intros _|done]. clear B. induction subs as [|[e|] subs IH]; cbn in E; [done..|by apply IH].
Qed.

(** The log level of the command line, if it gives one. *)
Definition level_set (o : option Z) (s s' : St) : Prop :=
  match o with
  | Some l => LogLevelCmdline s' = true ∧ logLevel s' = l mod 8
  | None => LogLevelCmdline s' = LogLevelCmdline s ∧ logLevel s' = logLevel s
  end.
Lemma levels_set f s :
  booting s →
  wp (match f_logLevel f with
      | Some level =>
          SetLogLevel level ;; modify (set_LogLevelCmdline true) ;; stderr "Log level set to %d"
      | None => skip
      end)
     (λ _ s', booting s' ∧ (∀ answer s'', probed answer s' s'' → probed answer s s'') ∧
        level_set (f_logLevel f) s s') s.
Proof.
  intros B. destruct (f_logLevel f) as [l|]; [|by apply wp_skip].
  apply wp_bind, wp_modify, wp_bind, wp_modify. wp_use stderr_settings. intros [] s1 H1.
  split; [eapply booting_settings; [exact H1 | by destruct B]|]. split.
  - destruct H1 as (_&_&_&_&_&_&_&_&_&e0&HT&F0). intros answer s2 (e1 & e2 & HT2 & HK & F1 & F2).
    exists (e0 ++ e1), e2. rewrite HT2, HK, HT. cbn [trace set_LogLevelCmdline set_logLevel].
    rewrite <- !(assoc_L (++)). split_and!; [done..|by apply Forall_app | done].
  - unfold level_set. destruct H1 as (_&_&_&_&_&_&_&->&->&_). split; [done|]. cbn.
    change 7 with (Z.ones 3). by rewrite Z.land_ones.
Qed.
Lemma probed_trace answer s s1 s2 : trace s2 = trace s1 → probed answer s s1 → probed answer s s2.
Proof. unfold probed. by intros ->. Qed.

(** The way to the event loop. *)
Definition may_run (args : command_line) (env : boot_env) : bool :=
  match args with
  | Flags f => negb (f_help f) && negb (bool_decide (f_configFile f = ""%string)) && monitor_starts (be_subscribe env)
  | _ => false
  end.

(** C30: from the initial state [main] enters the event loop exactly when it has
    a configuration file, the one IPv6 socket it tries is opened (and closed
    again) and the netlink monitor starts; then the file's name is stored, the
    level is the one of the command line if it gives one, and the engine's invariants start from
    the state reached.  Otherwise it exits: with 0 for the help or a rejected
    flag, 1 without arguments, 2 without a configuration file, and 4 when the
    kernel refuses the socket or when it does not but the monitor fails. *)
Theorem main_outcome args env s :
  booting s →
  wp (main args env) (λ r s', match r with
    | RunLoop => may_run args env = true ∧ started (boot s') ∧ (∃ fd, probed (inr fd) s s') ∧
        ∃ f, args = Flags f ∧ ConfigFile s' = f_configFile f ∧ level_set (f_logLevel f) s s'
    | Exit 0 => args = BadFlag ∨ ∃ f, args = Flags f ∧ f_help f = true
    | Exit 1 => args = NoArguments
    | Exit 2 => ∃ f, args = Flags f ∧ f_help f = false ∧ f_configFile f = ""%string
    | Exit 4 => (∃ f, args = Flags f ∧ f_help f = false ∧ f_configFile f ≠ ""%string) ∧
        ((∃ e, probed (inl e) s s') ∨ monitor_starts (be_subscribe env) = false ∧ ∃ fd, probed (inr fd) s s')
    | Exit _ => False
    end) s.
Proof.
  intros B. destruct args as [| |f]; cbn [main]; unfold printUsage.
  { apply wp_bind. wp_use stderr_settings. intros [] s1 _. by apply wp_ret. }
  { apply wp_bind. wp_use stderr_settings. intros [] s1 _. apply wp_ret. by left. }
  destruct (f_help f) eqn:EH.
  { apply wp_bind. wp_use stderr_settings. intros [] s1 _. apply wp_ret. right. by exists f. }
  apply wp_bind, (wp_mono _ (λ _ s', booting s' ∧ (∀ answer s'', probed answer s' s'' → probed answer s s'') ∧
    level_set (f_logLevel f) s s')); [by apply levels_set|].
  cbv beta zeta. intros [] s1 (B1 & P1 & L1).
  apply (settings_then _ _ _ s1); [solve_stable; apply stderr_settings | done|]. intros [] s2 H2.
  apply (settings_then _ _ _ s1); [apply SetLogSyslog_settings | done|]. intros err s3 H3.
  apply (settings_then _ _ _ s1); [solve_stable; apply stderr_settings | done|]. intros [] s4 H4.
  apply (settings_then _ _ _ s1); [solve_stable; apply logf_settings | done|]. intros [] s5 H5.
  destruct (decide (f_configFile f = ""%string)) as [EF|EF];
    [rewrite bool_decide_eq_true_2 by done | rewrite bool_decide_eq_false_2 by done].
  { apply wp_bind. wp_use logf_settings. intros [] s' _. apply wp_ret. by exists f. }
  apply wp_bind, wp_modify. set (s6 := set_ConfigFile _ s5).
  assert (settings_only s1 s6) as H6 by exact H5.
  apply wp_bind. wp_use ipv6Enabled_probes; [exact (booting_settings _ _ H6 B1) | exact H6|].
  intros enabled s7 (answer & H7 & [t7 ->] & B7 & ->). apply P1 in H7.
  destruct answer as [e|fd]; cbn [negb].
  { apply wp_bind. wp_use logf_settings. intros [] s8 H8. apply wp_ret. split; [by exists f|]. left. exists e.
    by eapply probed_settings. }
  apply wp_bind. wp_use StartNetlinkMonitor_boots; [exact B7|].
  intros r s8 (Hr & Hs & E1 & E2 & E3 & E4). destruct r as [e|].
  - apply wp_bind. wp_use logf_settings. intros [] s9 H9. apply wp_ret. split; [by exists f|]. right.
    split; [by destruct (monitor_starts _); [destruct Hr as [_ Hr]; specialize (Hr eq_refl)|]|].
    exists fd. eapply probed_settings; [|exact H9]. by eapply probed_trace.
  - apply wp_ret. split_and!.
    + unfold may_run. rewrite EH, bool_decide_eq_false_2 by done. cbn. by apply Hr.
    + by apply Hs.
    + exists fd. by eapply probed_trace.
    + exists f. unfold level_set. rewrite E1, E2, E3. split_and!; [done..|]. cbn.
      destruct H5 as (_&_&_&_&_&_&_&->&->&_). exact L1.
Qed.
End Boot.

(** ** The property at work *)

Definition sample_args : command_line := Flags (mkFlags "/etc/ipv6-relay/config.json" (Some 6) true false).
Definition sample_env : boot_env := mkBootEnv None (Some "0"%string) [None; None; None; None].

Lemma main_outcome_witness :
  ∃ s', @main sample_kernel sample_args sample_env initial_state = Ok (RunLoop, s') ∧
    started (boot s') ∧ logLevel s' = 6 ∧ ConfigFile s' = "/etc/ipv6-relay/config.json"%string.
Proof.
  destruct (wp_elim _ _ _ (main_outcome (KN := sample_kernel) sample_args sample_env initial_state
    ltac:(by split))) as (r & s' & Hrun & H).
  assert (r = RunLoop) as -> by (revert Hrun; vm_compute; by intros [= <- _]).
  exists s'. split; [exact Hrun|]. destruct H as (_ & Hs & _ & f & [= <-] & HC & HL). split; [exact Hs|].
  destruct HL as [_ ->]. split; [reflexivity | exact HC].
Defined.
